(** * Widget tree consistency engine (src/widget.ts)

    A shallow embedding of the widget system of [src/widget.ts]: the widget
    registry and counter, the [Widget] class with its tree mutation
    operations, notification passes and constraint propagation, the guarded
    DOM primitives and [WidgetFocusRestorer].

    Objects are addressed by identity: a DOM node is a [nat] key into
    [nodes], a widget a [nat] key into [heap].  The two [WeakMap]s of the
    source are finite maps keyed by node identity.  Methods that recurse
    through the widget tree or run overridable hooks take fuel; running out
    of fuel is the model's rendering of a computation that does not return. *)

From stdpp Require Import base gmap list fin_maps option.
From Stdlib Require Import ZArith Lia.


(** ** Geometry *)

(** Modelled from the spec: [Size] and [Constraints] of [./Geometry.js] are
    not under src/; the spec describes them as opaque value objects with
    width/height maximum, sum and equality.  Dimensions are integers here. *)
Record Size := mkSize { width : Z; height : Z }.

Record Constraints := mkConstraints { minimum : Size; preferred : Size }.

Definition zeroSize : Size := mkSize 0 0.

(** [new Constraints()] *)
Definition zeroConstraints : Constraints := mkConstraints zeroSize zeroSize.

(** [new Constraints(new Size(w, h))]: the preferred size defaults to the
    minimum. *)
Definition minimumConstraints (w h : Z) : Constraints :=
  mkConstraints (mkSize w h) (mkSize w h).

Definition sizeEqb (a b : Size) : bool :=
  (width a =? width b)%Z && (height a =? height b)%Z.

Definition isEqual (a b : Constraints) : bool :=
  sizeEqb (minimum a) (minimum b) && sizeEqb (preferred a) (preferred b).

Definition sizeWidthToMax (a b : Size) : Size := mkSize (Z.max (width a) (width b)) (height a).
Definition sizeAddWidth (a b : Size) : Size := mkSize (width a + width b) (height a).
Definition sizeHeightToMax (a b : Size) : Size := mkSize (width a) (Z.max (height a) (height b)).
Definition sizeAddHeight (a b : Size) : Size := mkSize (width a) (height a + height b).

Definition widthToMax (a b : Constraints) : Constraints :=
  mkConstraints (sizeWidthToMax (minimum a) (minimum b)) (sizeWidthToMax (preferred a) (preferred b)).
Definition addWidth (a b : Constraints) : Constraints :=
  mkConstraints (sizeAddWidth (minimum a) (minimum b)) (sizeAddWidth (preferred a) (preferred b)).
Definition heightToMax (a b : Constraints) : Constraints :=
  mkConstraints (sizeHeightToMax (minimum a) (minimum b)) (sizeHeightToMax (preferred a) (preferred b)).
Definition addHeight (a b : Constraints) : Constraints :=
  mkConstraints (sizeAddHeight (minimum a) (minimum b)) (sizeAddHeight (preferred a) (preferred b)).

(** ** Calls, hooks and events *)

(** The override points of [Widget] that the engine invokes. *)
Inductive Hook := WasShown | WillHide | OnResize | OnLayout | OnDetach | ChildWasDetached.

(** The notification passes: [processWillShow], [processWasShown],
    [processWillHide], [processWasHidden] and [processOnResize]. *)
Inductive Pass := WillShowPass | WasShownPass | WillHidePass | WasHiddenPass | OnResizePass.

(** A method call.  The body of an overridden hook is a list of such calls:
    user code that calls back into the widget and DOM API, or raises. *)
Inductive Call :=
  | Show (this parentElement : nat) (insertBefore : option nat)
  | ShowWidget (this : nat)
  | HideWidget (this : nat)
  | Detach (this : nat) (overrideHideOnDetach : bool)
  | DetachChildWidgets (this : nat)
  | MarkAsRoot (this : nat)
  | SetHideOnDetach (this : nat)
  | MarkAsExternallyManaged (this : nat)
  | SetDefaultFocusedChild (this child : nat)
  | SetMinimumSize (this : nat) (w h : Z)
  | SetMinimumAndPreferredSizes (this : nat) (w h pw ph : Z)
  | SuspendInvalidations (this : nat)
  | ResumeInvalidations (this : nat)
  | InvalidateConstraints (this : nat)
  | DoLayout (this : nat)
  | DoResize (this : nat)
  | AppendChild (this node : nat)
  | InsertBefore (this node : nat) (child : option nat)
  | RemoveChild (this child : nat)
  | RemoveChildren (this : nat)
  | Raise
  | Process (p : Pass) (this : nat).

(** What an execution leaves behind, in order: hook invocations, writes of
    [isShowingInternal], the clearing of [cachedConstraints] at the start
    of an invalidation pass, and [focus()] calls on DOM elements. *)
Inductive Event :=
  | EvHook (h : Hook) (w : nat)
  | EvShowing (w : nat) (b : bool)
  | EvInvalidate (w : nat)
  | EvFocus (e : nat).

#[global] Instance Hook_eq_dec : EqDecision Hook.
Proof. solve_decision. Defined.
#[global] Instance Event_eq_dec : EqDecision Event.
Proof. solve_decision. Defined.

(** ** The document *)

(** Modelled from the spec: the browser's document tree is not under src/.
    A node is an element or a shadow root with its host; sibling order is
    not modelled. *)
Inductive NodeKind := ElementNode | ShadowRootNode (host : nat).

Record Node := mkNode {
  nkind : NodeKind;
  parentNode : option nat;
  hiddenClass : bool;          (* classList contains 'hidden' *)
  scrollLeft : Z;
  scrollTop : Z }.

Definition freshElement : Node := mkNode ElementNode None false 0 0.

(** ** Widgets *)

(** [Widget], [VBox] and [HBox] differ in [calculateConstraints] only;
    [VBoxWithResizeCallback] is a [VBoxClass] widget with an [OnResize] hook. *)
Inductive WidgetClass := WidgetClassBase | VBoxClass | HBoxClass.

Record Widget := mkWidget {
  element : nat;
  contentElement : nat;
  shadowRoot : option nat;
  isWebComponent : bool;
  visibleInternal : bool;
  isRoot : bool;
  isShowingInternal : bool;
  childrenInternal : list nat;
  hideOnDetach : bool;
  notificationDepth : Z;
  invalidationsSuspended : Z;
  defaultFocusedChild : option nat;
  parentWidgetInternal : option nat;
  cachedConstraints : option Constraints;
  constraintsInternal : option Constraints;
  invalidationsRequested : bool;   (* undefined reads as false *)
  externallyManaged : bool;        (* undefined reads as false *)
  widgetClass : WidgetClass;
  hooks : Hook → list Call }.

Definition noHooks : Hook → list Call := λ _, [].

(** The fields the constructor assigns, for a widget on element [e]. *)
Definition constructed (e ce : nat) (sr : option nat) (wc : bool)
    (cls : WidgetClass) (hk : Hook → list Call) : Widget :=
  mkWidget e ce sr wc false false false [] false 0 0 None None None None false false cls hk.

Definition set_visibleInternal (b : bool) (x : Widget) : Widget :=
  mkWidget (element x) (contentElement x) (shadowRoot x) (isWebComponent x) b (isRoot x)
    (isShowingInternal x) (childrenInternal x) (hideOnDetach x) (notificationDepth x)
    (invalidationsSuspended x) (defaultFocusedChild x) (parentWidgetInternal x)
    (cachedConstraints x) (constraintsInternal x) (invalidationsRequested x)
    (externallyManaged x) (widgetClass x) (hooks x).

Definition set_isRoot (b : bool) (x : Widget) : Widget :=
  mkWidget (element x) (contentElement x) (shadowRoot x) (isWebComponent x) (visibleInternal x) b
    (isShowingInternal x) (childrenInternal x) (hideOnDetach x) (notificationDepth x)
    (invalidationsSuspended x) (defaultFocusedChild x) (parentWidgetInternal x)
    (cachedConstraints x) (constraintsInternal x) (invalidationsRequested x)
    (externallyManaged x) (widgetClass x) (hooks x).

Definition set_isShowingInternal (b : bool) (x : Widget) : Widget :=
  mkWidget (element x) (contentElement x) (shadowRoot x) (isWebComponent x) (visibleInternal x)
    (isRoot x) b (childrenInternal x) (hideOnDetach x) (notificationDepth x)
    (invalidationsSuspended x) (defaultFocusedChild x) (parentWidgetInternal x)
    (cachedConstraints x) (constraintsInternal x) (invalidationsRequested x)
    (externallyManaged x) (widgetClass x) (hooks x).

Definition set_childrenInternal (l : list nat) (x : Widget) : Widget :=
  mkWidget (element x) (contentElement x) (shadowRoot x) (isWebComponent x) (visibleInternal x)
    (isRoot x) (isShowingInternal x) l (hideOnDetach x) (notificationDepth x)
    (invalidationsSuspended x) (defaultFocusedChild x) (parentWidgetInternal x)
    (cachedConstraints x) (constraintsInternal x) (invalidationsRequested x)
    (externallyManaged x) (widgetClass x) (hooks x).

Definition set_hideOnDetach (b : bool) (x : Widget) : Widget :=
  mkWidget (element x) (contentElement x) (shadowRoot x) (isWebComponent x) (visibleInternal x)
    (isRoot x) (isShowingInternal x) (childrenInternal x) b (notificationDepth x)
    (invalidationsSuspended x) (defaultFocusedChild x) (parentWidgetInternal x)
    (cachedConstraints x) (constraintsInternal x) (invalidationsRequested x)
    (externallyManaged x) (widgetClass x) (hooks x).

Definition set_notificationDepth (d : Z) (x : Widget) : Widget :=
  mkWidget (element x) (contentElement x) (shadowRoot x) (isWebComponent x) (visibleInternal x)
    (isRoot x) (isShowingInternal x) (childrenInternal x) (hideOnDetach x) d
    (invalidationsSuspended x) (defaultFocusedChild x) (parentWidgetInternal x)
    (cachedConstraints x) (constraintsInternal x) (invalidationsRequested x)
    (externallyManaged x) (widgetClass x) (hooks x).

Definition set_invalidationsSuspended (d : Z) (x : Widget) : Widget :=
  mkWidget (element x) (contentElement x) (shadowRoot x) (isWebComponent x) (visibleInternal x)
    (isRoot x) (isShowingInternal x) (childrenInternal x) (hideOnDetach x) (notificationDepth x)
    d (defaultFocusedChild x) (parentWidgetInternal x)
    (cachedConstraints x) (constraintsInternal x) (invalidationsRequested x)
    (externallyManaged x) (widgetClass x) (hooks x).

Definition set_defaultFocusedChild (c : option nat) (x : Widget) : Widget :=
  mkWidget (element x) (contentElement x) (shadowRoot x) (isWebComponent x) (visibleInternal x)
    (isRoot x) (isShowingInternal x) (childrenInternal x) (hideOnDetach x) (notificationDepth x)
    (invalidationsSuspended x) c (parentWidgetInternal x)
    (cachedConstraints x) (constraintsInternal x) (invalidationsRequested x)
    (externallyManaged x) (widgetClass x) (hooks x).

Definition set_parentWidgetInternal (p : option nat) (x : Widget) : Widget :=
  mkWidget (element x) (contentElement x) (shadowRoot x) (isWebComponent x) (visibleInternal x)
    (isRoot x) (isShowingInternal x) (childrenInternal x) (hideOnDetach x) (notificationDepth x)
    (invalidationsSuspended x) (defaultFocusedChild x) p
    (cachedConstraints x) (constraintsInternal x) (invalidationsRequested x)
    (externallyManaged x) (widgetClass x) (hooks x).

Definition set_cachedConstraints (c : option Constraints) (x : Widget) : Widget :=
  mkWidget (element x) (contentElement x) (shadowRoot x) (isWebComponent x) (visibleInternal x)
    (isRoot x) (isShowingInternal x) (childrenInternal x) (hideOnDetach x) (notificationDepth x)
    (invalidationsSuspended x) (defaultFocusedChild x) (parentWidgetInternal x)
    c (constraintsInternal x) (invalidationsRequested x)
    (externallyManaged x) (widgetClass x) (hooks x).

Definition set_constraintsInternal (c : option Constraints) (x : Widget) : Widget :=
  mkWidget (element x) (contentElement x) (shadowRoot x) (isWebComponent x) (visibleInternal x)
    (isRoot x) (isShowingInternal x) (childrenInternal x) (hideOnDetach x) (notificationDepth x)
    (invalidationsSuspended x) (defaultFocusedChild x) (parentWidgetInternal x)
    (cachedConstraints x) c (invalidationsRequested x)
    (externallyManaged x) (widgetClass x) (hooks x).

Definition set_invalidationsRequested (b : bool) (x : Widget) : Widget :=
  mkWidget (element x) (contentElement x) (shadowRoot x) (isWebComponent x) (visibleInternal x)
    (isRoot x) (isShowingInternal x) (childrenInternal x) (hideOnDetach x) (notificationDepth x)
    (invalidationsSuspended x) (defaultFocusedChild x) (parentWidgetInternal x)
    (cachedConstraints x) (constraintsInternal x) b
    (externallyManaged x) (widgetClass x) (hooks x).

Definition set_externallyManaged (b : bool) (x : Widget) : Widget :=
  mkWidget (element x) (contentElement x) (shadowRoot x) (isWebComponent x) (visibleInternal x)
    (isRoot x) (isShowingInternal x) (childrenInternal x) (hideOnDetach x) (notificationDepth x)
    (invalidationsSuspended x) (defaultFocusedChild x) (parentWidgetInternal x)
    (cachedConstraints x) (constraintsInternal x) (invalidationsRequested x)
    b (widgetClass x) (hooks x).

(** ** Program state *)

Record State := mkState {
  heap : gmap nat Widget;                       (* the widget objects *)
  nodes : gmap nat Node;                        (* the DOM nodes *)
  widgetMap : gmap nat nat;                     (* WeakMap<Node, Widget> *)
  widgetCounterMap : gmap nat Z;                (* WeakMap<Node, number> *)
  storedScrollPositions : gmap nat (Z * Z);     (* WeakMap<Element, {scrollLeft, scrollTop}> *)
  activeElement : option nat;                   (* the document's focused element *)
  trace : list Event }.

Definition emptyState : State := mkState ∅ ∅ ∅ ∅ ∅ None [].

Definition set_heap (h : gmap nat Widget) (s : State) : State :=
  mkState h (nodes s) (widgetMap s) (widgetCounterMap s) (storedScrollPositions s) (activeElement s) (trace s).
Definition set_nodes (n : gmap nat Node) (s : State) : State :=
  mkState (heap s) n (widgetMap s) (widgetCounterMap s) (storedScrollPositions s) (activeElement s) (trace s).
Definition set_widgetMap (m : gmap nat nat) (s : State) : State :=
  mkState (heap s) (nodes s) m (widgetCounterMap s) (storedScrollPositions s) (activeElement s) (trace s).
Definition set_widgetCounterMap (m : gmap nat Z) (s : State) : State :=
  mkState (heap s) (nodes s) (widgetMap s) m (storedScrollPositions s) (activeElement s) (trace s).
Definition set_storedScrollPositions (m : gmap nat (Z * Z)) (s : State) : State :=
  mkState (heap s) (nodes s) (widgetMap s) (widgetCounterMap s) m (activeElement s) (trace s).
Definition set_activeElement (a : option nat) (s : State) : State :=
  mkState (heap s) (nodes s) (widgetMap s) (widgetCounterMap s) (storedScrollPositions s) a (trace s).
Definition set_trace (t : list Event) (s : State) : State :=
  mkState (heap s) (nodes s) (widgetMap s) (widgetCounterMap s) (storedScrollPositions s) (activeElement s) t.

Definition log (e : Event) (s : State) : State := set_trace (trace s ++ [e]) s.

(** A reference always denotes an object; an identity that was never
    allocated reads as a blank one. *)
Definition blankWidget : Widget := constructed 0 0 None false WidgetClassBase noHooks.

Definition wget (s : State) (w : nat) : Widget := default blankWidget (heap s !! w).
Definition wupd (w : nat) (f : Widget → Widget) (s : State) : State :=
  set_heap (<[w := f (wget s w)]> (heap s)) s.

Definition nget (s : State) (n : nat) : Node := default freshElement (nodes s !! n).
Definition nupd (n : nat) (f : Node → Node) (s : State) : State :=
  set_nodes (<[n := f (nget s n)]> (nodes s)) s.

Definition set_parentNode (p : option nat) (x : Node) : Node :=
  mkNode (nkind x) p (hiddenClass x) (scrollLeft x) (scrollTop x).
Definition set_hiddenClass (b : bool) (x : Node) : Node :=
  mkNode (nkind x) (parentNode x) b (scrollLeft x) (scrollTop x).
Definition set_scroll (l t : Z) (x : Node) : Node :=
  mkNode (nkind x) (parentNode x) (hiddenClass x) l t.

(** ** Outcomes *)

(** A call returns, raises a JavaScript exception (the state is the one at
    the [throw]), or runs out of fuel. *)
Inductive Res (A : Type) := Ok (a : A) | Throw (s : State) | OutOfFuel.
Arguments Ok {A} a.
Arguments Throw {A} s.
Arguments OutOfFuel {A}.

#[global] Instance Res_bind : MBind Res := λ A B k r,
  match r with Ok a => k a | Throw s => Throw s | OutOfFuel => OutOfFuel end.
#[global] Instance Res_ret : MRet Res := λ A a, Ok a.

Definition fromFuel {A} (o : option A) : Res A :=
  match o with Some a => Ok a | None => OutOfFuel end.

(** [assert(condition, message)] *)
Definition assert (condition : bool) (s : State) : Res State :=
  if condition then Ok s else Throw s.

(** [try { r } finally { f }] *)
Definition finally (r : Res State) (f : State → State) : Res State :=
  match r with Ok s => Ok (f s) | Throw s => Throw (f s) | OutOfFuel => OutOfFuel end.

(** A [for] loop over a snapshot of a list, leaving at the first exception. *)
Fixpoint forEach {A} (body : A → State → Res State) (l : list A) (s : State) : Res State :=
  match l with
  | [] => Ok s
  | x :: l' => s' ← body x s; forEach body l' s'
  end.

(** ** Document queries and the original DOM primitives *)

Definition isElement (s : State) (n : nat) : bool :=
  match nkind (nget s n) with ElementNode => true | ShadowRootNode _ => false end.

(** [node.parentElement]: the parent node when it is an element. *)
Definition parentElement (s : State) (n : nat) : option nat :=
  match parentNode (nget s n) with
  | Some p => if isElement s p then Some p else None
  | None => None
  end.

(** [node.parentElementOrShadowHost()]: a shadow root is stepped over to
    its host. *)
Definition parentElementOrShadowHost (s : State) (n : nat) : option nat :=
  match nkind (nget s n) with
  | ShadowRootNode h => Some h
  | ElementNode =>
      match parentNode (nget s n) with
      | None => None
      | Some p =>
          match nkind (nget s p) with
          | ElementNode => Some p
          | ShadowRootNode h => Some h
          end
      end
  end.

Definition parentNodeOrHost (s : State) (n : nat) : option nat :=
  match nkind (nget s n) with
  | ShadowRootNode h => Some h
  | ElementNode => parentNode (nget s n)
  end.

(** The nodes met by following [next] from [n], [n] first.  The document
    is a finite forest, so a chain has no more links than there are nodes;
    the walk is cut at length [k]. *)
Fixpoint chainFrom (next : nat → option nat) (k : nat) (n : nat) : list nat :=
  match k with
  | O => []
  | S k' => n :: match next n with Some p => chainFrom next k' p | None => [] end
  end.

(** [for (el = n; el; el = el.parentElementOrShadowHost())] *)
Definition elementChain (s : State) (n : nat) : list nat :=
  chainFrom (parentElementOrShadowHost s) (2 + size (nodes s)) n.

Definition nodeChain (s : State) (n : nat) : list nat :=
  chainFrom (parentNodeOrHost s) (2 + size (nodes s)) n.

(** [a] is [n] or a (host-including) ancestor of [n]. *)
Definition isInclusiveAncestor (s : State) (a n : nat) : bool :=
  bool_decide (a ∈ nodeChain s n).

(** Modelled from the spec: the platform's [appendChild]; a node cannot be
    put under itself or one of its descendants. *)
Definition originalAppendChild (this node : nat) (s : State) : Res State :=
  if isInclusiveAncestor s node this then Throw s
  else Ok (nupd node (set_parentNode (Some this)) s).

(** Modelled from the spec: the platform's [insertBefore]; the reference
    child, when given, must be a child of [this]. *)
Definition originalInsertBefore (this node : nat) (child : option nat) (s : State) : Res State :=
  match child with
  | Some c =>
      if bool_decide (parentNode (nget s c) = Some this) then originalAppendChild this node s
      else Throw s
  | None => originalAppendChild this node s
  end.

(** Modelled from the spec: the platform's [removeChild]. *)
Definition originalRemoveChild (this child : nat) (s : State) : Res State :=
  if bool_decide (parentNode (nget s child) = Some this)
  then Ok (nupd child (set_parentNode None) s)
  else Throw s.

(** Modelled from the spec: [removeChildren] of the DOM extension. *)
Definition originalRemoveChildren (this : nat) (s : State) : Res State :=
  Ok (set_nodes ((λ x, if bool_decide (parentNode x = Some this) then set_parentNode None x else x)
                   <$> nodes s) s).

(** Modelled from the spec: [element.hasFocus()], the focused element is
    [e] or lies below it. *)
Definition elementHasFocus (s : State) (e : nat) : bool :=
  match activeElement s with
  | Some a => isInclusiveAncestor s e a
  | None => false
  end.

(** Modelled from the spec: [element.focus()]. *)
Definition focusElement (e : nat) (s : State) : State :=
  log (EvFocus e) (set_activeElement (Some e) s).

(** ** Widget registry and counter *)

(** [widgetCounterMap.get(n) || 0] *)
Definition counterOf (s : State) (n : nat) : Z := default 0%Z (widgetCounterMap s !! n).

Definition setCounter (n : nat) (v : Z) (s : State) : State :=
  set_widgetCounterMap (<[n := v]> (widgetCounterMap s)) s.

Definition isWidgetElement (s : State) (n : nat) : bool :=
  match widgetMap s !! n with Some _ => true | None => false end.

(** [(widgetCounterMap.get(childElement) || 0) + (widgetMap.get(childElement) ? 1 : 0)] *)
Definition countFor (s : State) (childElement : nat) : Z :=
  (counterOf s childElement + (if isWidgetElement s childElement then 1 else 0))%Z.

Definition incrementWidgetCounter (parentElement childElement : nat) (s : State) : State :=
  let count := countFor s childElement in
  foldl (λ s el, setCounter el (counterOf s el + count)%Z s) s (elementChain s parentElement).

Definition decrementWidgetCounter (parentElement childElement : nat) (s : State) : State :=
  let count := countFor s childElement in
  foldl (λ s el,
           match widgetCounterMap s !! el with
           | Some elCounter =>
               if (elCounter =? 0)%Z then s else setCounter el (elCounter - count)%Z s
           | None => s
           end) s (elementChain s parentElement).

(** The walk of [showWidgetInternal]: the first element at or above
    [parentElement] that belongs to a widget. *)
Definition nearestWidgetElement (s : State) (parentElement : nat) : option nat :=
  find (isWidgetElement s) (elementChain s parentElement).

(** The walk of [show]: the widget of that element. *)
Definition nearestWidget (s : State) (parentElement : nat) : option nat :=
  match nearestWidgetElement s parentElement with
  | Some e => widgetMap s !! e
  | None => None
  end.

(** ** Widget queries *)

Definition isShowing (s : State) (this : nat) : bool := isShowingInternal (wget s this).

Definition parentIsShowing (s : State) (this : nat) : bool :=
  if isRoot (wget s this) then true
  else match parentWidgetInternal (wget s this) with
       | Some p => isShowing s p
       | None => false
       end.

Fixpoint inNotification (fuel : nat) (s : State) (this : nat) : option bool :=
  match fuel with
  | O => None
  | S f =>
      if negb (notificationDepth (wget s this) =? 0)%Z then Some true
      else match parentWidgetInternal (wget s this) with
           | Some p => inNotification f s p
           | None => Some false
           end
  end.

Fixpoint shouldHideOnDetach (fuel : nat) (s : State) (this : nat) : option bool :=
  match fuel with
  | O => None
  | S f =>
      match parentElement s (element (wget s this)) with
      | None => Some false
      | Some _ =>
          if hideOnDetach (wget s this) then Some true
          else (fix loop (cs : list nat) : option bool :=
                  match cs with
                  | [] => Some false
                  | child :: cs' =>
                      match shouldHideOnDetach f s child with
                      | None => None
                      | Some true => Some true
                      | Some false => loop cs'
                      end
                  end) (childrenInternal (wget s this))
      end
  end.

(** [callOnVisibleChildren] for a method that returns through an
    accumulator, as the [updateForChild] closures of the box classes do. *)
Fixpoint foldVisibleChildren {A} (method : nat → A → State → option (A * State))
    (this : nat) (copy : list nat) (acc : A) (s : State) : option (A * State) :=
  match copy with
  | [] => Some (acc, s)
  | c :: copy' =>
      if bool_decide (parentWidgetInternal (wget s c) = Some this) && visibleInternal (wget s c)
      then '(acc', s') ← method c acc s; foldVisibleChildren method this copy' acc' s'
      else foldVisibleChildren method this copy' acc s
  end.

(** The [updateForChild] closure of the box classes: [combine] folds the
    constraints of one visible child into the running value. *)
Definition updateForChild (constraints : nat → State → option (Constraints * State))
    (combine : Constraints → Constraints → Constraints)
    (child : nat) (acc : Constraints) (s : State) : option (Constraints * State) :=
  '(c, s') ← constraints child s; Some (combine acc c, s').

(** [calculateConstraints()] of [Widget], [VBox] and [HBox]. *)
Definition calculateConstraints (constraints : nat → State → option (Constraints * State))
    (this : nat) (s : State) : option (Constraints * State) :=
  match widgetClass (wget s this) with
  | WidgetClassBase => Some (zeroConstraints, s)
  | VBoxClass =>
      foldVisibleChildren (updateForChild constraints (λ a c, addHeight (widthToMax a c) c))
        this (childrenInternal (wget s this)) zeroConstraints s
  | HBoxClass =>
      foldVisibleChildren (updateForChild constraints (λ a c, heightToMax (addWidth a c) c))
        this (childrenInternal (wget s this)) zeroConstraints s
  end.

(** [constraints()] *)
Fixpoint constraintsOf (fuel : nat) (this : nat) (s : State) : option (Constraints * State) :=
  match fuel with
  | O => None
  | S f =>
      match constraintsInternal (wget s this) with
      | Some c => Some (c, s)
      | None =>
          match cachedConstraints (wget s this) with
          | Some c => Some (c, s)
          | None =>
              '(c, s') ← calculateConstraints (constraintsOf f) this s;
              Some (c, wupd this (set_cachedConstraints (Some c)) s')
          end
      end
  end.

Definition nonZero (c : Constraints) : bool :=
  negb ((width (minimum c) =? 0)%Z && (height (minimum c) =? 0)%Z
        && (width (preferred c) =? 0)%Z && (height (preferred c) =? 0)%Z).

Definition hasNonZeroConstraints (fuel : nat) (this : nat) (s : State) : option (bool * State) :=
  '(c, s') ← constraintsOf fuel this s; Some (nonZero c, s').

(** [elementsToRestoreScrollPositionsFor()] of the base class. *)
Definition elementsToRestoreScrollPositionsFor (s : State) (this : nat) : list nat :=
  [element (wget s this)].

Definition storeScrollPositions (this : nat) (s : State) : State :=
  foldl (λ s container,
           set_storedScrollPositions
             (<[container := (scrollLeft (nget s container), scrollTop (nget s container))]>
                (storedScrollPositions s)) s)
        s (elementsToRestoreScrollPositionsFor s this).

Definition restoreScrollPositions (this : nat) (s : State) : State :=
  foldl (λ s container,
           match storedScrollPositions s !! container with
           | Some (l, t) => nupd container (set_scroll l t) s
           | None => s
           end)
        s (elementsToRestoreScrollPositionsFor s this).

(** [Array.prototype.indexOf] *)
Fixpoint indexOf (x : nat) (l : list nat) : option nat :=
  match l with
  | [] => None
  | y :: l' => if bool_decide (y = x) then Some 0 else S <$> indexOf x l'
  end.

(** ** The methods of [Widget] and the guarded DOM primitives *)

(** The methods are written over [rec], which stands for the calls that
    re-enter the engine: a pass on a child widget, [invalidateConstraints]
    on the parent, and the calls made by the body of a hook. *)
Section Methods.
Variable fuel : nat.
Variable rec : Call → State → Res State.

(** Invocation of the override of [h] on [this]. *)
Definition callHook (h : Hook) (this : nat) (s : State) : Res State :=
  forEach rec (hooks (wget s this) h) (log (EvHook h this) s).

Definition callOnVisibleChildren (this : nat) (method : nat → Call) (s : State) : Res State :=
  forEach (λ c s,
             if bool_decide (parentWidgetInternal (wget s c) = Some this)
                && visibleInternal (wget s c)
             then rec (method c) s else Ok s)
          (childrenInternal (wget s this)) s.

Definition notify (h : Hook) (this : nat) (s : State) : Res State :=
  finally
    (callHook h this (wupd this (λ x, set_notificationDepth (notificationDepth x + 1) x) s))
    (wupd this (λ x, set_notificationDepth (notificationDepth x - 1) x)).

Definition processWillShow (this : nat) (s : State) : Res State :=
  s ← callOnVisibleChildren this (Process WillShowPass) s;
  Ok (log (EvShowing this true) (wupd this (set_isShowingInternal true) s)).

Definition processWasShown (this : nat) (s : State) : Res State :=
  b ← fromFuel (inNotification fuel s this);
  if b : bool then Ok s
  else
    s ← notify WasShown this (restoreScrollPositions this s);
    callOnVisibleChildren this (Process WasShownPass) s.

Definition processWillHide (this : nat) (s : State) : Res State :=
  b ← fromFuel (inNotification fuel s this);
  if b : bool then Ok s
  else
    s ← callOnVisibleChildren this (Process WillHidePass) (storeScrollPositions this s);
    s ← notify WillHide this s;
    Ok (log (EvShowing this false) (wupd this (set_isShowingInternal false) s)).

Definition processWasHidden (this : nat) (s : State) : Res State :=
  callOnVisibleChildren this (Process WasHiddenPass) s.

Definition processOnResize (this : nat) (s : State) : Res State :=
  b ← fromFuel (inNotification fuel s this);
  if b : bool then Ok s
  else if negb (isShowing s this) then Ok s
  else
    s ← notify OnResize this s;
    callOnVisibleChildren this (Process OnResizePass) s.

Definition process (p : Pass) (this : nat) (s : State) : Res State :=
  match p with
  | WillShowPass => processWillShow this s
  | WasShownPass => processWasShown this s
  | WillHidePass => processWillHide this s
  | WasHiddenPass => processWasHidden this s
  | OnResizePass => processOnResize this s
  end.

Definition doResize (this : nat) (s : State) : Res State :=
  if negb (isShowing s this) then Ok s
  else
    b ← fromFuel (inNotification fuel s this);
    if b : bool then Ok s else callOnVisibleChildren this (Process OnResizePass) s.

Definition doLayout (this : nat) (s : State) : Res State :=
  if negb (isShowing s this) then Ok s
  else s ← notify OnLayout this s; doResize this s.

Definition invalidateConstraints (this : nat) (s : State) : Res State :=
  if negb (invalidationsSuspended (wget s this) =? 0)%Z
  then Ok (wupd this (set_invalidationsRequested true) s)
  else
    let cached := cachedConstraints (wget s this) in
    let s := wupd this (set_invalidationsRequested false) s in
    let s := log (EvInvalidate this) (wupd this (set_cachedConstraints None) s) in
    '(actual, s) ← fromFuel (constraintsOf fuel this s);
    let unchanged := match cached with Some c => isEqual actual c | None => false end in
    match parentWidgetInternal (wget s this) with
    | Some p => if negb unchanged then rec (InvalidateConstraints p) s else doLayout this s
    | None => doLayout this s
    end.

(** The forced removal shared by [hideWidgetInternal] and [detach]. *)
Definition forceRemove (parentElement : option nat) (this : nat) (s : State) : Res State :=
  match parentElement with
  | Some pe =>
      originalRemoveChild pe (element (wget s this))
        (decrementWidgetCounter pe (element (wget s this)) s)
  | None => Ok s
  end.

Definition hideWidgetInternal (this : nat) (removeFromDOM : bool) (s : State) : Res State :=
  let s := wupd this (set_visibleInternal false) s in
  let pe := parentElement s (element (wget s this)) in
  s ← (if parentIsShowing s this then processWillHide this s else Ok s);
  s ← (if removeFromDOM
       then s ← forceRemove pe this s; callHook OnDetach this s
       else Ok (nupd (element (wget s this)) (set_hiddenClass true) s));
  s ← (if parentIsShowing s this then processWasHidden this s else Ok s);
  match parentWidgetInternal (wget s this) with
  | Some p =>
      '(nz, s) ← fromFuel (hasNonZeroConstraints fuel this s);
      if nz : bool then invalidateConstraints p s else Ok s
  | None => Ok s
  end.

Definition hideWidget (this : nat) (s : State) : Res State :=
  if negb (visibleInternal (wget s this)) then Ok s
  else hideWidgetInternal this false s.

(** The block of [detach] under "Update widget hierarchy". *)
Definition updateHierarchy (this : nat) (s : State) : Res State :=
  match parentWidgetInternal (wget s this) with
  | Some p =>
      match indexOf this (childrenInternal (wget s p)) with
      | None => Throw s
      | Some childIndex =>
          let s := wupd p (λ x, set_childrenInternal (delete childIndex (childrenInternal x)) x) s in
          let s := if bool_decide (defaultFocusedChild (wget s p) = Some this)
                   then wupd p (set_defaultFocusedChild None) s else s in
          s ← callHook ChildWasDetached p s;
          Ok (wupd this (set_parentWidgetInternal None) s)
      end
  | None => assert (isRoot (wget s this)) s
  end.

Definition detach (this : nat) (overrideHideOnDetach : bool) (s : State) : Res State :=
  if bool_decide (parentWidgetInternal (wget s this) = None) && negb (isRoot (wget s this))
  then Ok s
  else
    removeFromDOM ←
      (if overrideHideOnDetach then Ok true
       else b ← fromFuel (shouldHideOnDetach fuel s this); Ok (negb b));
    s ← (if visibleInternal (wget s this) then hideWidgetInternal this removeFromDOM s
         else if removeFromDOM : bool
              then forceRemove (parentElement s (element (wget s this))) this s
              else Ok s);
    updateHierarchy this s.

Definition detachChildWidgets (this : nat) (s : State) : Res State :=
  forEach (λ c s, detach c false s) (childrenInternal (wget s this)) s.

Definition attach (this parentWidget : nat) (s : State) : Res State :=
  if bool_decide (parentWidgetInternal (wget s this) = Some parentWidget) then Ok s
  else
    s ← (match parentWidgetInternal (wget s this) with
         | Some _ => detach this false s
         | None => Ok s
         end);
    let s := wupd this (set_parentWidgetInternal (Some parentWidget)) s in
    let s := wupd parentWidget (λ x, set_childrenInternal (childrenInternal x ++ [this]) x) s in
    Ok (wupd this (set_isRoot false) s).

Definition showWidgetInternal (this parentElt : nat) (insertBefore : option nat)
    (s : State) : Res State :=
  let currentParent := nearestWidgetElement s parentElt in
  s ← (if isRoot (wget s this)
       then assert (bool_decide (currentParent = None)) s
       else assert (match currentParent with
                    | Some cp => bool_decide (widgetMap s !! cp = parentWidgetInternal (wget s this))
                    | None => false
                    end) s);
  let wasVisible := visibleInternal (wget s this) in
  if wasVisible && bool_decide (parentElement s (element (wget s this)) = Some parentElt)
  then Ok s
  else
    let s := wupd this (set_visibleInternal true) s in
    s ← (if negb wasVisible && parentIsShowing s this then processWillShow this s else Ok s);
    let s := nupd (element (wget s this)) (set_hiddenClass false) s in
    s ← (if bool_decide (parentElement s (element (wget s this)) = Some parentElt) then Ok s
         else
           let s := if externallyManaged (wget s this) then s
                    else incrementWidgetCounter parentElt (element (wget s this)) s in
           match insertBefore with
           | Some ib => originalInsertBefore parentElt (element (wget s this)) (Some ib) s
           | None => originalAppendChild parentElt (element (wget s this)) s
           end);
    s ← (if negb wasVisible && parentIsShowing s this then processWasShown this s else Ok s);
    match parentWidgetInternal (wget s this) with
    | Some p =>
        '(nz, s) ← fromFuel (hasNonZeroConstraints fuel this s);
        if nz : bool then invalidateConstraints p s else processOnResize this s
    | None => processOnResize this s
    end.

Definition show (this parentElt : nat) (insertBefore : option nat) (s : State) : Res State :=
  s ← (if isRoot (wget s this) then Ok s
       else match nearestWidget s parentElt with
            | None => Throw s
            | Some currentWidget => attach this currentWidget s
            end);
  showWidgetInternal this parentElt insertBefore s.

(** The second argument of the source, [this.element.nextSibling], only
    serves a reparenting that cannot happen here: the element already is
    under the parent element that is passed. *)
Definition showWidget (this : nat) (s : State) : Res State :=
  if visibleInternal (wget s this) then Ok s
  else match parentElement s (element (wget s this)) with
       | None => Throw s
       | Some pe => showWidgetInternal this pe None s
       end.

Definition markAsRoot (this : nat) (s : State) : Res State :=
  s ← assert (bool_decide (parentElement s (element (wget s this)) = None)) s;
  Ok (wupd this (set_isRoot true) s).

Definition setHideOnDetach (this : nat) (s : State) : Res State :=
  Ok (wupd this (set_hideOnDetach true) s).

Definition markAsExternallyManaged (this : nat) (s : State) : Res State :=
  s ← assert (bool_decide (parentWidgetInternal (wget s this) = None)) s;
  Ok (wupd this (set_externallyManaged true) s).

Definition setDefaultFocusedChild (this child : nat) (s : State) : Res State :=
  s ← assert (bool_decide (parentWidgetInternal (wget s child) = Some this)) s;
  Ok (wupd this (set_defaultFocusedChild (Some child)) s).

Definition setMinimumAndPreferredSizes (this : nat) (w h pw ph : Z) (s : State) : Res State :=
  invalidateConstraints this
    (wupd this (set_constraintsInternal (Some (mkConstraints (mkSize w h) (mkSize pw ph)))) s).

Definition setMinimumSize (this : nat) (w h : Z) (s : State) : Res State :=
  invalidateConstraints this
    (wupd this (set_constraintsInternal (Some (minimumConstraints w h))) s).

Definition suspendInvalidations (this : nat) (s : State) : Res State :=
  Ok (wupd this (λ x, set_invalidationsSuspended (invalidationsSuspended x + 1) x) s).

Definition resumeInvalidations (this : nat) (s : State) : Res State :=
  let s := wupd this (λ x, set_invalidationsSuspended (invalidationsSuspended x - 1) x) s in
  if (invalidationsSuspended (wget s this) =? 0)%Z && invalidationsRequested (wget s this)
  then invalidateConstraints this s
  else Ok s.

(** The overrides installed on [Element.prototype]. *)
Definition appendChild (this node : nat) (s : State) : Res State :=
  if isWidgetElement s node && negb (bool_decide (parentElement s node = Some this))
  then Throw s
  else originalAppendChild this node s.

Definition insertBefore (this node : nat) (child : option nat) (s : State) : Res State :=
  if isWidgetElement s node && negb (bool_decide (parentElement s node = Some this))
  then Throw s
  else originalInsertBefore this node child s.

Definition removeChild (this child : nat) (s : State) : Res State :=
  if negb (counterOf s child =? 0)%Z || isWidgetElement s child
  then Throw s
  else originalRemoveChild this child s.

Definition removeChildren (this : nat) (s : State) : Res State :=
  if negb (counterOf s this =? 0)%Z
  then Throw s
  else originalRemoveChildren this s.

Definition body (c : Call) (s : State) : Res State :=
  match c with
  | Show this pe ib => show this pe ib s
  | ShowWidget this => showWidget this s
  | HideWidget this => hideWidget this s
  | Detach this o => detach this o s
  | DetachChildWidgets this => detachChildWidgets this s
  | MarkAsRoot this => markAsRoot this s
  | SetHideOnDetach this => setHideOnDetach this s
  | MarkAsExternallyManaged this => markAsExternallyManaged this s
  | SetDefaultFocusedChild this c => setDefaultFocusedChild this c s
  | SetMinimumSize this w h => setMinimumSize this w h s
  | SetMinimumAndPreferredSizes this w h pw ph => setMinimumAndPreferredSizes this w h pw ph s
  | SuspendInvalidations this => suspendInvalidations this s
  | ResumeInvalidations this => resumeInvalidations this s
  | InvalidateConstraints this => invalidateConstraints this s
  | DoLayout this => doLayout this s
  | DoResize this => doResize this s
  | AppendChild this node => appendChild this node s
  | InsertBefore this node child => insertBefore this node child s
  | RemoveChild this child => removeChild this child s
  | RemoveChildren this => removeChildren this s
  | Raise => Throw s
  | Process p this => process p this s
  end.
End Methods.

(** The engine: every re-entrant call spends one unit of fuel. *)
Fixpoint exec (fuel : nat) (c : Call) (s : State) : Res State :=
  match fuel with
  | O => OutOfFuel
  | S f => body f (exec f) c s
  end.

(** A sequence of top-level calls, stopping at the first that raises. *)
Definition run (fuel : nat) (cs : list Call) (s : State) : Res State :=
  forEach (exec fuel) cs s.

(** ** Construction *)

(** [document.createElement] for a detached element [e]. *)
Definition createElement (e : nat) (s : State) : State :=
  set_nodes (<[e := freshElement]> (nodes s)) s.

(** [new Widget()] (or [new VBox()], [new HBox()]) without a shadow root:
    the widget [w] owns the new element [e], which is its content element. *)
Definition newWidget (w e : nat) (cls : WidgetClass) (hk : Hook → list Call) (s : State) : State :=
  set_widgetMap (<[e := w]> (widgetMap s))
    (set_heap (<[w := constructed e e None false cls hk]> (heap s)) (createElement e s)).

(** [new Widget(true)]: the element [e] hosts the shadow root [sr], under
    which the content element [ce] is appended. *)
Definition newWebComponent (w e sr ce : nat) (cls : WidgetClass) (hk : Hook → list Call)
    (s : State) : State :=
  let s := createElement e (createElement ce s) in
  let s := set_nodes (<[sr := mkNode (ShadowRootNode e) None false 0 0]> (nodes s)) s in
  let s := nupd ce (set_parentNode (Some sr)) s in
  set_widgetMap (<[e := w]> (widgetMap s))
    (set_heap (<[w := constructed e ce (Some sr) true cls hk]> (heap s)) s).

(** ** WidgetFocusRestorer *)

Record WidgetFocusRestorer := mkRestorer {
  restorerWidget : option nat;
  restorerPrevious : option nat }.

(** [widget.hasFocus()] *)
Definition hasFocus (s : State) (this : nat) : bool :=
  elementHasFocus s (element (wget s this)).

Definition restore (r : WidgetFocusRestorer) (s : State) : WidgetFocusRestorer * State :=
  match restorerWidget r with
  | None => (r, s)
  | Some w =>
      let s := match restorerPrevious r with
               | Some previous => if hasFocus s w then focusElement previous s else s
               | None => s
               end in
      (mkRestorer None None, s)
  end.

(** * Specification vocabulary *)

(** The counter walks write [widgetCounterMap] and nothing else. *)
Definition sameButCounters (s s' : State) : Prop :=
  heap s' = heap s ∧ nodes s' = nodes s ∧ widgetMap s' = widgetMap s
  ∧ storedScrollPositions s' = storedScrollPositions s
  ∧ activeElement s' = activeElement s ∧ trace s' = trace s.

(** [a] is [w] or one of its ancestors in the widget tree. *)
Inductive ancestorOrSelf (s : State) : nat → nat → Prop :=
  | aos_self w : ancestorOrSelf s w w
  | aos_parent w p a :
      parentWidgetInternal (wget s w) = Some p → ancestorOrSelf s p a → ancestorOrSelf s w a.

(** The widget elements below [a] (not [a] itself) that the counter is
    meant to track: those of widgets that are not externally managed. *)
Definition trackedWidgetsBelow (s : State) (a : nat) : Z :=
  Z.of_nat (length (List.filter
    (λ '(n, w), negb (externallyManaged (wget s w)) && negb (n =? a)%nat
                && bool_decide (a ∈ elementChain s n))
    (map_to_list (widgetMap s)))).

(** What holds of the state a call ends in, whether it returns or raises. *)
Definition post (R : State → State → Prop) (s : State) (r : Res State) : Prop :=
  match r with Ok s' | Throw s' => R s s' | OutOfFuel => True end.

(** What no call changes: the hooks, element and class of a widget are
    fixed at construction, the registry is only written by constructors, a node keeps its kind,
    the notification depth is back where it was, and the trace only grows. *)
Record stable (s s' : State) : Prop := mkStable {
  stable_hooks : ∀ w, hooks (wget s' w) = hooks (wget s w);
  stable_element : ∀ w, element (wget s' w) = element (wget s w);
  stable_class : ∀ w, widgetClass (wget s' w) = widgetClass (wget s w);
  stable_depth : ∀ w, notificationDepth (wget s' w) = notificationDepth (wget s w);
  stable_widgetMap : widgetMap s' = widgetMap s;
  stable_kind : ∀ n, nkind (nget s' n) = nkind (nget s n);
  stable_trace : trace s `prefix_of` trace s' }.

(** The part of a widget that makes up the tree: everything but the
    showing flag, the constraint fields, the batching fields, the focus
    hint and the two policy flags. *)
Definition shape (x : Widget) : Widget :=
  mkWidget (element x) (contentElement x) (shadowRoot x) (isWebComponent x)
    (visibleInternal x) (isRoot x) false (childrenInternal x) false (notificationDepth x)
    0 None (parentWidgetInternal x) None None false false (widgetClass x) (hooks x).

(** A node without its scroll offsets. *)
Definition ncore (x : Node) : Node := set_scroll 0 0 x.

(** All hooks have the empty body of the base class. *)
Definition quiet (s : State) : Prop := ∀ w h, hooks (wget s w) h = [].

(** The tree part of every widget, the structure of the document and the
    registry are the same; the trace has grown. *)
Record sameShape (s s' : State) : Prop := mkSameShape {
  shape_widgets : ∀ w, shape (wget s' w) = shape (wget s w);
  shape_nodes : ∀ n, ncore (nget s' n) = ncore (nget s n);
  shape_widgetMap : widgetMap s' = widgetMap s;
  shape_counters : widgetCounterMap s' = widgetCounterMap s;
  shape_active : activeElement s' = activeElement s;
  shape_trace : trace s `prefix_of` trace s' }.

(** ... and no widget changed its showing flag. *)
Definition passive (s s' : State) : Prop :=
  sameShape s s' ∧ ∀ w, isShowing s' w = isShowing s w.

(** The calls that, with quiet hooks, only notify and recompute. *)
Definition passivePass (p : Pass) : bool :=
  match p with WillShowPass | WillHidePass => false | _ => true end.

Definition passiveCall (c : Call) : bool :=
  match c with
  | Process p _ => passivePass p
  | InvalidateConstraints _ | DoLayout _ | DoResize _ => true
  | _ => false
  end.

(** No notification is in progress anywhere. *)
Definition idle (s : State) : Prop := ∀ w, notificationDepth (wget s w) = 0%Z.

(** The effect of the will-show pass ([b] true) or the will-hide pass
    ([b] false) started on [w]: flags only change to [b]; [w] ends with
    [b]; a widget whose flag changed is [w] or a visible child of a
    widget that ends with [b]; and the visible children of a widget
    whose flag changed end with [b] too. *)
Record flagged (b : bool) (w : nat) (s s' : State) : Prop := mkFlagged {
  fl_shape : sameShape s s';
  fl_self : isShowing s' w = b;
  fl_keep : ∀ x, isShowing s x = b → isShowing s' x = b;
  fl_new : ∀ x, isShowing s x = negb b → isShowing s' x = b →
           x = w ∨ (visibleInternal (wget s x) = true
                    ∧ ∃ p, parentWidgetInternal (wget s x) = Some p ∧ isShowing s' p = b);
  fl_children : ∀ x p,
      parentWidgetInternal (wget s x) = Some p → x ∈ childrenInternal (wget s p) →
      visibleInternal (wget s x) = true →
      isShowing s p = negb b → isShowing s' p = b → isShowing s' x = b }.

(** The same for the loop of [callOnVisibleChildren] over the children [l]
    of [w], before the flag of [w] itself is written. *)
Definition flaggedLoop (b : bool) (w : nat) (l : list nat) (s s' : State) : Prop :=
  sameShape s s'
  ∧ (∀ x, isShowing s x = b → isShowing s' x = b)
  ∧ (∀ c, c ∈ l → parentWidgetInternal (wget s c) = Some w →
          visibleInternal (wget s c) = true → isShowing s' c = b)
  ∧ (∀ x, isShowing s x = negb b → isShowing s' x = b →
          visibleInternal (wget s x) = true
          ∧ ∃ p, parentWidgetInternal (wget s x) = Some p ∧ (isShowing s' p = b ∨ p = w))
  ∧ (∀ x p, parentWidgetInternal (wget s x) = Some p → x ∈ childrenInternal (wget s p) →
            visibleInternal (wget s x) = true →
            isShowing s p = negb b → isShowing s' p = b → isShowing s' x = b).

(** ** Consistent widget trees *)

(** The registry maps the element of [w] back to [w], as the constructor
    leaves it. *)
Definition registered (s : State) (w : nat) : Prop :=
  widgetMap s !! element (wget s w) = Some w.

(** [w] takes part in a tree: visible, attached or a root. *)
Definition live (s : State) (w : nat) : Prop :=
  visibleInternal (wget s w) = true
  ∨ parentWidgetInternal (wget s w) ≠ None
  ∨ isRoot (wget s w) = true.

(** The logical tree is in order and no hook calls back. *)
Record wellFormed (s : State) : Prop := mkWellFormed {
  wf_quiet : quiet s;
  wf_idle : idle s;
  wf_children : ∀ c p, parentWidgetInternal (wget s c) = Some p → c ∈ childrenInternal (wget s p);
  wf_root : ∀ w, isRoot (wget s w) = true → parentWidgetInternal (wget s w) = None;
  wf_orphan : ∀ w, parentWidgetInternal (wget s w) = None → isRoot (wget s w) = false →
              visibleInternal (wget s w) = false;
  wf_registered : ∀ w, live s w → registered s w }.

(** The element of a visible or attached widget is in the document. *)
Definition attachedAt (s : State) (w : nat) : Prop :=
  visibleInternal (wget s w) = true ∨ parentWidgetInternal (wget s w) ≠ None →
  parentElement s (element (wget s w)) ≠ None.

(** The showing flag of [w] is what its visibility and its parent say. *)
Definition showingAt (s : State) (w : nat) : Prop :=
  isShowing s w = visibleInternal (wget s w) && parentIsShowing s w.

Record consistent (s : State) : Prop := mkConsistent {
  cs_wf : wellFormed s;
  cs_attached : ∀ w, attachedAt s w;
  cs_showing : ∀ w, showingAt s w }.

(** The calls of the widget API and of the guarded DOM primitives that the
    showing invariant is proved for: calls on constructed widgets and on
    elements, without [removeChildren] and without the private passes. *)
Definition apiCall (s : State) (c : Call) : Prop :=
  match c with
  | Show w pe _ => registered s w ∧ isElement s pe = true
  | MarkAsRoot w => registered s w
  | RemoveChildren _ | Process _ _ => False
  | _ => True
  end.

(** What holds of the state a call returns in. *)
Definition returns (r : Res State) (Q : State → Prop) : Prop := ∀ s', r = Ok s' → Q s'.

(** *** Changes to the document only *)
Definition sameWidgets (s s' : State) : Prop :=
  (∀ w, wget s' w = wget s w) ∧ widgetMap s' = widgetMap s.

(** *** Hiding *)
(** The state [hideWidgetInternal(b)] on [w] returns in. *)
Definition hiddenOk (b : bool) (w : nat) (root : bool) (s' : State) : Prop :=
  wellFormed s' ∧ (∀ x, showingAt s' x) ∧ (∀ x, x ≠ w → attachedAt s' x)
  ∧ (b = false → attachedAt s' w)
  ∧ visibleInternal (wget s' w) = false ∧ isRoot (wget s' w) = root.

(** The state [detach] on [w] returns in. *)
Definition detachedOk (w : nat) (root : bool) (s' : State) : Prop :=
  consistent s' ∧ parentWidgetInternal (wget s' w) = None ∧ isRoot (wget s' w) = root.

(** *** Attaching *)
(** The state [attach] of [w] returns in. *)
Definition attachedOk (w : nat) (s' : State) : Prop :=
  wellFormed s' ∧ (∀ x, showingAt s' x) ∧ (∀ x, x ≠ w → attachedAt s' x)
  ∧ (visibleInternal (wget s' w) = true → attachedAt s' w).

(** [c] is a child that [callOnVisibleChildren] on [w] calls the method on. *)
Definition visibleChild (s : State) (w c : nat) : Prop :=
  c ∈ childrenInternal (wget s w) ∧ parentWidgetInternal (wget s c) = Some w
  ∧ visibleInternal (wget s c) = true.

(** *** Invalidation passes *)

(** The events of an invalidation pass that started at a widget of rank
    [r]: hook invocations, and cache clearings on widgets of rank [r] or
    more. *)
Definition aboveEvent (rank : nat → nat) (r : nat) (e : Event) : Prop :=
  match e with
  | EvHook _ _ => True
  | EvInvalidate x => r ≤ rank x
  | _ => False
  end.

(** A passive step whose new events all satisfy [P]. *)
Definition logging (P : Event → Prop) (s s' : State) : Prop :=
  passive s s' ∧ ∃ t, trace s' = trace s ++ t ∧ Forall P t.

(** The parent links go up in rank, below the bound [N]. *)
Definition ranked (N : nat) (rank : nat → nat) (s : State) : Prop :=
  (∀ x p, parentWidgetInternal (wget s x) = Some p → rank x < rank p)
  ∧ (∀ x, rank x < N).

(** Number of invalidation passes of [w] in a trace. *)
Definition invalidations (w : nat) (t : list Event) : nat :=
  length (List.filter (λ e, bool_decide (e = EvInvalidate w)) t).

(** The operations that change the constraints of [w] and invalidate. *)
Definition constraintOp (w : nat) (c : Call) : bool :=
  match c with
  | SetMinimumSize x _ _ | SetMinimumAndPreferredSizes x _ _ _ _ | InvalidateConstraints x =>
      bool_decide (x = w)
  | _ => false
  end.

(** [w.suspendInvalidations(); ops; w.resumeInvalidations()] *)
Definition batch (w : nat) (ops : list Call) : list Call :=
  SuspendInvalidations w :: ops ++ [ResumeInvalidations w].

(** The resize and layout passes. *)
Definition resizeCall (c : Call) : bool :=
  match c with
  | Process OnResizePass _ | DoLayout _ | DoResize _ => true
  | _ => false
  end.

(** The computation returns, in a state that satisfies [I]. *)
Definition finishes (I : State → Prop) (r : Res State) : Prop := ∃ s', r = Ok s' ∧ I s'.

(** Only fields of [w] outside the tree changed, its suspension depth is
    the same, and nothing was logged. *)
Definition deferred (w : nat) (s s' : State) : Prop :=
  passive s s' ∧ trace s' = trace s
  ∧ invalidationsSuspended (wget s' w) = invalidationsSuspended (wget s w)
  ∧ ∀ x, x ≠ w → wget s' x = wget s x.

(** ** Example documents *)

Definition resultState (r : Res State) : State :=
  match r with Ok s => s | Throw s => s | OutOfFuel => emptyState end.

(** A detached element 10 and three plain widgets 1, 2, 3 on the elements
    11, 12, 13. *)
Definition page : State :=
  newWidget 3 13 WidgetClassBase noHooks
    (newWidget 2 12 WidgetClassBase noHooks
       (newWidget 1 11 WidgetClassBase noHooks (createElement 10 emptyState))).

(** Widget 1 is shown as a root under element 10 and widget 2 under it. *)
Definition rootAndChild : list Call :=
  [MarkAsRoot 1; Show 1 10 None; Show 2 11 None].

(** ... then widget 2 is flagged hide-on-detach and hidden with
    [hideWidget()]. *)
Definition hiddenChild : list Call :=
  rootAndChild ++ [SetHideOnDetach 2; HideWidget 2].

Definition hiddenChildState : State := resultState (run 3 hiddenChild page).

(** Widget 3 is externally managed, shown next to widget 2, and detached. *)
Definition externalSibling : list Call :=
  rootAndChild ++ [MarkAsExternallyManaged 3; Show 3 11 None; Detach 3 false].

(** Widget 2 is a hidden child of the showing root 1, and a notification
    is in progress on widget 1, as inside one of its hooks. *)
Definition insideNotification : State :=
  wupd 1 (λ x, set_notificationDepth (notificationDepth x + 1) x)
    (resultState (run 3 (rootAndChild ++ [HideWidget 2]) page)).

Definition shownState : State := resultState (run 3 rootAndChild page).

(** The document after [rootAndChild] with the focus on element 12, the
    element of widget 2, and a restorer for widget 2 that recorded
    element 10. *)
Definition focusedState : State := set_activeElement (Some 12) shownState.

Definition restorerFor2 : WidgetFocusRestorer := mkRestorer (Some 2) (Some 10).

(** Widget 1 overrides [wasShown] with a body that raises. *)
Definition raisingPage : State :=
  newWidget 1 11 WidgetClassBase (λ h, match h with WasShown => [Raise] | _ => [] end)
    (createElement 10 emptyState).

(** Widget 1 overrides [wasShown] with a body that hides its child 2. *)
Definition reentrantPage : State :=
  newWidget 2 12 WidgetClassBase noHooks
    (newWidget 1 11 WidgetClassBase
       (λ h, match h with WasShown => [HideWidget 2] | _ => [] end)
       (createElement 10 emptyState)).

(** Root 1 and child 2 are shown, then the root is hidden. *)
Definition hiddenRoot : list Call := rootAndChild ++ [HideWidget 1].

Definition hiddenRootState : State := resultState (run 5 hiddenRoot page).

(** Two size changes of widget 2 in one batch. *)
Definition twoSizes : list Call := [SetMinimumSize 2 10 10; SetMinimumSize 2 20 20].

(** The page with one more plain element, 20. *)
Definition movedPage : State := createElement 20 page.

(** Widget 2 is shown under the plain element 20, which sits under the
    root's element 11; widget 3 is shown under 11 as well, and element 20
    is then moved under the element 13 of widget 3. *)
Definition movedCalls : list Call :=
  [MarkAsRoot 1; Show 1 10 None; AppendChild 11 20; Show 2 20 None; Show 3 11 None;
   AppendChild 13 20].

Definition movedState : State := resultState (run 4 movedCalls movedPage).

(** Height of a widget in [shownState]: the root 1 above its child 2. *)
Definition shownRank (x : nat) : nat := if bool_decide (x = 1) then 1 else 0.

(** * Further vocabulary *)

(** ** The widget counter *)

(** The counters along the walk from an element are not negative. *)
Definition counted (s : State) (l : list nat) : Prop :=
  ∀ n, n ∈ l → (0 ≤ counterOf s n)%Z.

(** ** Frames *)

(** From [s] to [s'] the widgets changed at most in the fields that [F]
    blanks, nothing else changed, and the events added to the trace all
    satisfy [P]. *)
Record framed (F : Widget → Widget) (P : Event → Prop) (s s' : State) : Prop := mkFramed {
  fr_widgets : ∀ x, F (wget s' x) = F (wget s x);
  fr_nodes : nodes s' = nodes s;
  fr_widgetMap : widgetMap s' = widgetMap s;
  fr_counters : widgetCounterMap s' = widgetCounterMap s;
  fr_stored : storedScrollPositions s' = storedScrollPositions s;
  fr_active : activeElement s' = activeElement s;
  fr_trace : ∃ t, trace s' = trace s ++ t ∧ Forall P t }.

Definition noEvent (e : Event) : Prop := False.

(** Only [cachedConstraints] fields changed, and nothing was logged. *)
Definition cacheOnly : State → State → Prop := framed (set_cachedConstraints None) noEvent.

(** ** Box constraints *)

(** The children that [callOnVisibleChildren] on [w] calls its method on,
    in order, when the method leaves the tree alone. *)
Definition visibleChildren (s : State) (w : nat) : list nat :=
  List.filter (λ c, bool_decide (parentWidgetInternal (wget s c) = Some w)
                    && visibleInternal (wget s c))
              (childrenInternal (wget s w)).

Definition maxOf (l : list Z) : Z := foldr Z.max 0%Z l.
Definition sumOf (l : list Z) : Z := foldr Z.add 0%Z l.

(** The explicit constraints of the visible children of [w]. *)
Definition childConstraints (s : State) (w : nat) : list Constraints :=
  map (λ c, default zeroConstraints (constraintsInternal (wget s c))) (visibleChildren s w).

(** What [VBox.calculateConstraints] makes of the constraints [cs] of the
    visible children: the widest child and the sum of the heights. *)
Definition stacked (cs : list Constraints) (r : Constraints) : Prop :=
  width (minimum r) = maxOf (map (λ c, width (minimum c)) cs)
  ∧ height (minimum r) = sumOf (map (λ c, height (minimum c)) cs)
  ∧ width (preferred r) = maxOf (map (λ c, width (preferred c)) cs)
  ∧ height (preferred r) = sumOf (map (λ c, height (preferred c)) cs).

(** ... and [HBox.calculateConstraints]: the sum of the widths and the
    tallest child. *)
Definition sideBySide (cs : list Constraints) (r : Constraints) : Prop :=
  width (minimum r) = sumOf (map (λ c, width (minimum c)) cs)
  ∧ height (minimum r) = maxOf (map (λ c, height (minimum c)) cs)
  ∧ width (preferred r) = sumOf (map (λ c, width (preferred c)) cs)
  ∧ height (preferred r) = maxOf (map (λ c, height (preferred c)) cs).

(** A [VBox] 1 on element 11 is shown as a root under element 10 with the
    plain widgets 2 and 3 in it; the two children are then given sizes
    while their invalidations are suspended, so that the box has not
    computed its constraints yet. *)
Definition boxPage : State :=
  newWidget 3 13 WidgetClassBase noHooks
    (newWidget 2 12 WidgetClassBase noHooks
       (newWidget 1 11 VBoxClass noHooks (createElement 10 emptyState))).

Definition boxCalls : list Call :=
  [MarkAsRoot 1; Show 1 10 None; Show 2 11 None; Show 3 11 None;
   SuspendInvalidations 2; SetMinimumSize 2 10 20;
   SuspendInvalidations 3; SetMinimumSize 3 30 5].

Definition boxState : State := resultState (run 4 boxCalls boxPage).

(** ** Layout passes *)

(** What a layout pass may change in a widget: the constraints cache and
    the pending-invalidation flag. *)
Definition layoutFrame (x : Widget) : Widget :=
  set_cachedConstraints None (set_invalidationsRequested false x).

(** What a layout pass may log: the start of an invalidation, and [onLayout]
    and [onResize] on a widget that is showing. *)
Definition shownEvent (s : State) (e : Event) : Prop :=
  match e with
  | EvHook h x => (h = OnLayout ∨ h = OnResize) ∧ isShowing s x = true
  | EvInvalidate _ => True
  | _ => False
  end.

Definition laidOut (s s' : State) : Prop := framed layoutFrame (shownEvent s) s s'.

(** The public layout calls and the resize pass. *)
Definition layoutCall (c : Call) : bool :=
  match c with
  | Process OnResizePass _ | DoLayout _ | DoResize _ | InvalidateConstraints _ => true
  | _ => false
  end.

(** ** The tree after a call *)

(** The tree part of two states is the same: the shape of every widget,
    the structure of the document, the registry.  The showing flags, the
    constraints, the counters, the scroll offsets and the trace may
    differ. *)
Record sameTree (s s' : State) : Prop := mkSameTree {
  tree_widgets : ∀ w, shape (wget s' w) = shape (wget s w);
  tree_nodes : ∀ n, ncore (nget s' n) = ncore (nget s n);
  tree_widgetMap : widgetMap s' = widgetMap s }.

(** The element is taken out of its parent element, if it has one. *)
Definition removed (e : nat) (s : State) : State :=
  match parentElement s e with
  | Some _ => nupd e (set_parentNode None) s
  | None => s
  end.

(** What [hideWidgetInternal(removeFromDOM)] on [w] does to the tree. *)
Definition hidden (removeFromDOM : bool) (w : nat) (s : State) : State :=
  let s0 := wupd w (set_visibleInternal false) s in
  if removeFromDOM then removed (element (wget s w)) s0
  else nupd (element (wget s w)) (set_hiddenClass true) s0.

(** What [showWidgetInternal(parentElement)] on [w] does to the tree,
    unless it returns early. *)
Definition shown (w pe : nat) (s : State) : State :=
  nupd (element (wget s w)) (λ x, set_parentNode (Some pe) (set_hiddenClass false x))
    (wupd w (set_visibleInternal true) s).

(** What the hierarchy update of [detach] on [w] does to the tree. *)
Definition unlinked (w : nat) (s : State) : State :=
  match parentWidgetInternal (wget s w) with
  | Some p =>
      match indexOf w (childrenInternal (wget s p)) with
      | Some i =>
          wupd w (set_parentWidgetInternal None)
            (wupd p (λ x, set_childrenInternal (delete i (childrenInternal x)) x) s)
      | None => s
      end
  | None => s
  end.

(** What [detach] on [w] does to the tree, [removeFromDOM] being
    [overrideHideOnDetach || !this.shouldHideOnDetach()]. *)
Definition detached (removeFromDOM : bool) (w : nat) (s : State) : State :=
  if bool_decide (parentWidgetInternal (wget s w) = None) && negb (isRoot (wget s w)) then s
  else unlinked w
         (if visibleInternal (wget s w) then hidden removeFromDOM w s
          else if removeFromDOM then removed (element (wget s w)) s else s).

(** What [attach(parentWidget)] on [w] does to the tree. *)
Definition attached (removeFromDOM : bool) (w cw : nat) (s : State) : State :=
  if bool_decide (parentWidgetInternal (wget s w) = Some cw) then s
  else
    let s := match parentWidgetInternal (wget s w) with
             | Some _ => detached removeFromDOM w s
             | None => s
             end in
    wupd w (set_isRoot false)
      (wupd cw (λ x, set_childrenInternal (childrenInternal x ++ [w]) x)
         (wupd w (set_parentWidgetInternal (Some cw)) s)).

(** [overrideHideOnDetach || !this.shouldHideOnDetach()] *)
Definition willRemove (fuel : nat) (overrideHideOnDetach : bool) (s : State) (w : nat) : bool :=
  overrideHideOnDetach || negb (default false (shouldHideOnDetach fuel s w)).

(** ** The links of the widget tree *)

(** [children()] and [parentWidget()] agree, and no widget is listed
    twice. *)
Record linked (s : State) : Prop := mkLinked {
  ln_child : ∀ c p, c ∈ childrenInternal (wget s p) → parentWidgetInternal (wget s c) = Some p;
  ln_parent : ∀ c p, parentWidgetInternal (wget s c) = Some p → c ∈ childrenInternal (wget s p);
  ln_nodup : ∀ p, NoDup (childrenInternal (wget s p)) }.

(** ** Nested suspension *)

(** [n] nested [suspendInvalidations()] on [w], the operations, and the
    [n] matching [resumeInvalidations()]. *)
Definition nestedBatch (n : nat) (w : nat) (ops : list Call) : list Call :=
  replicate n (SuspendInvalidations w) ++ ops ++ replicate n (ResumeInvalidations w).

(** Like [deferred], with the suspension depth of [w] moved by [k]. *)
Definition shifted (k : Z) (w : nat) (s s' : State) : Prop :=
  passive s s' ∧ trace s' = trace s
  ∧ invalidationsSuspended (wget s' w) = (invalidationsSuspended (wget s w) + k)%Z
  ∧ invalidationsRequested (wget s' w) = invalidationsRequested (wget s w)
  ∧ ∀ x, x ≠ w → wget s' x = wget s x.

(** ** [shouldHideOnDetach] *)

(** The element of [w] is in the document, and [w] or a widget below it
    that [shouldHideOnDetach()] reaches has the hide-on-detach flag. *)
Inductive hidesOnDetach (s : State) : nat → Prop :=
  | hod_self w :
      parentElement s (element (wget s w)) ≠ None → hideOnDetach (wget s w) = true →
      hidesOnDetach s w
  | hod_child w c :
      parentElement s (element (wget s w)) ≠ None →
      c ∈ childrenInternal (wget s w) → hidesOnDetach s c → hidesOnDetach s w.

(** ** What the passes leave alone *)

(** What a pass may change in a widget: the showing flag, the constraints
    cache and the pending-invalidation flag. *)
Definition passFrame (x : Widget) : Widget := set_isShowingInternal false (layoutFrame x).

(** From [s] to [s'] the widgets changed at most in the fields that
    [passFrame] blanks and the nodes at most in their scroll offsets; the
    registry, the counters and the focus are the same.  The stored scroll
    positions and the trace may differ. *)
Record passed (s s' : State) : Prop := mkPassed {
  ps_widgets : ∀ x, passFrame (wget s' x) = passFrame (wget s x);
  ps_nodes : ∀ n, ncore (nget s' n) = ncore (nget s n);
  ps_widgetMap : widgetMap s' = widgetMap s;
  ps_counters : widgetCounterMap s' = widgetCounterMap s;
  ps_active : activeElement s' = activeElement s }.

(** The passes and the layout calls. *)
Definition passCall (c : Call) : bool :=
  match c with
  | Process _ _ | DoLayout _ | DoResize _ | InvalidateConstraints _ => true
  | _ => false
  end.

(** ** The default focused child *)

(** [defaultFocusedChild], when set, is a child of the widget. *)
Definition focusOk (s : State) : Prop :=
  ∀ p c, defaultFocusedChild (wget s p) = Some c → parentWidgetInternal (wget s c) = Some p.

(** The fields the focus hint depends on, with the hooks. *)
Definition focusFields (x : Widget) : option nat * option nat * (Hook → list Call) :=
  (defaultFocusedChild x, parentWidgetInternal x, hooks x).

(** No widget changed its parent, its default focused child or its hooks. *)
Definition kept (s s' : State) : Prop :=
  ∀ x, focusFields (wget s' x) = focusFields (wget s x).

(** Widget 2, shown under the root 1, is made its default focused child
    and then hidden. *)
Definition focusChild : list Call :=
  rootAndChild ++ [SetDefaultFocusedChild 1 2; HideWidget 2].

Definition focusChildState : State := resultState (run 3 focusChild page).

(** ** Hiding and showing in place *)

(** The element of [w] sits under [pe], where [show] would put it: the
    nearest widget at or above [pe] is the parent of [w], and for a root
    there is none. *)
Definition inPlace (s : State) (w pe : nat) : Prop :=
  parentElement s (element (wget s w)) = Some pe
  ∧ if isRoot (wget s w) then nearestWidgetElement s pe = None
    else ∃ p, nearestWidget s pe = Some p ∧ parentWidgetInternal (wget s w) = Some p.

(** A pass that wrote no node of the document. *)
Definition still (s s' : State) : Prop := passed s s' ∧ nodes s' = nodes s.

(** The two passes of hiding. *)
Definition hidePass (c : Call) : bool :=
  match c with
  | Process WillHidePass _ | Process WasHiddenPass _ => true
  | _ => false
  end.

(** No hook calls back, no notification is in progress, and the widget
    tree has height below [N]. *)
Definition calm (N : nat) (rank : nat → nat) (s : State) : Prop :=
  quiet s ∧ idle s ∧ ranked N rank s.
(** * Properties *)

(** ** Reading the state after an update *)

Lemma wget_wupd_eq s w f : wget (wupd w f s) w = f (wget s w).
Proof. unfold wget at 1, wupd. simpl. by rewrite lookup_insert_eq. Qed.

Lemma wget_wupd_ne s w w' f : w ≠ w' → wget (wupd w f s) w' = wget s w'.
Proof. intros Hne. unfold wget, wupd. simpl. by rewrite lookup_insert_ne. Qed.

Lemma wget_wupd s w w' f :
  wget (wupd w f s) w' = if decide (w = w') then f (wget s w) else wget s w'.
Proof. case_decide; subst; [apply wget_wupd_eq | by apply wget_wupd_ne]. Qed.

Lemma nget_nupd_eq s n f : nget (nupd n f s) n = f (nget s n).
Proof. unfold nget at 1, nupd. simpl. by rewrite lookup_insert_eq. Qed.

Lemma nget_nupd_ne s n n' f : n ≠ n' → nget (nupd n f s) n' = nget s n'.
Proof. intros Hne. unfold nget, nupd. simpl. by rewrite lookup_insert_ne. Qed.

Lemma nget_nupd s n n' f :
  nget (nupd n f s) n' = if decide (n = n') then f (nget s n) else nget s n'.
Proof. case_decide; subst; [apply nget_nupd_eq | by apply nget_nupd_ne]. Qed.

Lemma sameButCounters_foldl (step : State → nat → State) l s :
  (∀ s el, sameButCounters s (step s el)) → sameButCounters s (foldl step s l).
Proof.
  intros Hstep. revert s. induction l as [|el l IH]; intros s; simpl.
  - by repeat split.
  - specialize (IH (step s el)). specialize (Hstep s el).
    unfold sameButCounters in *. intuition congruence.
Qed.

Lemma incrementWidgetCounter_same pe ce s :
  sameButCounters s (incrementWidgetCounter pe ce s).
Proof.
  unfold incrementWidgetCounter. apply sameButCounters_foldl.
  intros s0 el. by repeat split.
Qed.

Lemma decrementWidgetCounter_same pe ce s :
  sameButCounters s (decrementWidgetCounter pe ce s).
Proof.
  unfold decrementWidgetCounter. apply sameButCounters_foldl.
  intros s0 el. destruct (widgetCounterMap s0 !! el) as [c|]; [|by repeat split].
  destruct (c =? 0)%Z; by repeat split.
Qed.

Lemma wget_sameButCounters s s' w : sameButCounters s s' → wget s' w = wget s w.
Proof. intros (Hh & _). unfold wget. by rewrite Hh. Qed.

Lemma nget_sameButCounters s s' n : sameButCounters s s' → nget s' n = nget s n.
Proof. intros (_ & Hn & _). unfold nget. by rewrite Hn. Qed.

Lemma parentElement_sameButCounters s s' n :
  sameButCounters s s' → parentElement s' n = parentElement s n.
Proof.
  intros H. unfold parentElement, isElement.
  rewrite (nget_sameButCounters _ _ n H).
  destruct (parentNode (nget s n)) as [p|]; [|done].
  by rewrite (nget_sameButCounters _ _ p H).
Qed.

(** ** The DOM mutation guard *)

(** C6: the overridden DOM primitives always throw on a mutation that would
    corrupt the widget tree: [appendChild] and [insertBefore] when the node
    is a registered widget element whose DOM parent is not the target,
    [removeChild] when the child is a registered widget element or has a
    nonzero widget counter, [removeChildren] when the container's counter is
    nonzero.  The state is left as it was. *)
Theorem guard_always_throws (fuel : nat) (s : State) (this node : nat) (child : option nat) :
  (isWidgetElement s node = true → parentElement s node ≠ Some this →
     exec (S fuel) (AppendChild this node) s = Throw s
     ∧ exec (S fuel) (InsertBefore this node child) s = Throw s)
  ∧ (isWidgetElement s node = true ∨ counterOf s node ≠ 0%Z →
     exec (S fuel) (RemoveChild this node) s = Throw s)
  ∧ (counterOf s this ≠ 0%Z →
     exec (S fuel) (RemoveChildren this) s = Throw s).
Proof.
  split; [|split].
  - intros Hw Hp. simpl. unfold appendChild, insertBefore. rewrite Hw.
    rewrite bool_decide_eq_false_2 by done. done.
  - intros H. simpl. unfold removeChild.
    destruct H as [-> | Hc].
    + by rewrite orb_true_r.
    + apply Z.eqb_neq in Hc. by rewrite Hc.
  - intros Hc. simpl. unfold removeChildren.
    apply Z.eqb_neq in Hc. by rewrite Hc.
Qed.

Lemma guard_always_throws_witness :
  (exec 1 (AppendChild 10 12) shownState = Throw shownState
   ∧ exec 1 (InsertBefore 10 12 None) shownState = Throw shownState)
  ∧ exec 1 (RemoveChild 10 12) shownState = Throw shownState
  ∧ exec 1 (RemoveChildren 10) shownState = Throw shownState.
Proof.
  destruct (guard_always_throws 0 shownState 10 12 None) as (H1 & H2 & H3).
  split; [|split].
  - apply H1; vm_compute; [reflexivity | discriminate].
  - apply H2. left. vm_compute. reflexivity.
  - apply H3. vm_compute. discriminate.
Defined.

(** ** The focus restorer *)

(** C9: [restore()] calls [focus()] on the recorded element exactly when the
    widget still has focus and an element was recorded; otherwise the
    state is untouched.  Either way the restorer is cleared, and a cleared
    restorer does nothing. *)
Theorem restore_single_shot (r : WidgetFocusRestorer) (s : State) (w : nat) :
  restorerWidget r = Some w →
  (∀ p, hasFocus s w = true → restorerPrevious r = Some p →
        (restore r s).2 = focusElement p s
        ∧ activeElement (restore r s).2 = Some p
        ∧ trace (restore r s).2 = trace s ++ [EvFocus p])
  ∧ (hasFocus s w = false ∨ restorerPrevious r = None → (restore r s).2 = s)
  ∧ (restore r s).1 = mkRestorer None None
  ∧ (∀ s2, restore (restore r s).1 s2 = ((restore r s).1, s2)).
Proof.
  intros Hw. unfold restore. rewrite Hw. simpl.
  split; [|split; [|split]].
  - intros p Hf Hp. rewrite Hp, Hf. done.
  - intros [Hf | Hp].
    + destruct (restorerPrevious r); [by rewrite Hf | done].
    + by rewrite Hp.
  - done.
  - done.
Qed.

Lemma parentElement_nodes s s' n : nodes s' = nodes s → parentElement s' n = parentElement s n.
Proof. intros H. unfold parentElement, isElement, nget. by rewrite H. Qed.

Lemma nearestWidget_element s pe p :
  nearestWidget s pe = Some p →
  ∃ e, nearestWidgetElement s pe = Some e ∧ widgetMap s !! e = Some p.
Proof.
  unfold nearestWidget. destruct (nearestWidgetElement s pe) as [e|]; [|done].
  intros H. by exists e.
Qed.

Lemma restore_single_shot_witness :
  (∀ p, hasFocus focusedState 2 = true → restorerPrevious restorerFor2 = Some p →
        (restore restorerFor2 focusedState).2 = focusElement p focusedState
        ∧ activeElement (restore restorerFor2 focusedState).2 = Some p
        ∧ trace (restore restorerFor2 focusedState).2 = trace focusedState ++ [EvFocus p])
  ∧ (hasFocus focusedState 2 = false ∨ restorerPrevious restorerFor2 = None →
     (restore restorerFor2 focusedState).2 = focusedState)
  ∧ (restore restorerFor2 focusedState).1 = mkRestorer None None
  ∧ (∀ s2, restore (restore restorerFor2 focusedState).1 s2
           = ((restore restorerFor2 focusedState).1, s2)).
Proof. apply (restore_single_shot restorerFor2 focusedState 2). reflexivity. Defined.

(** The restorer of the example does move the focus. *)
Lemma restore_example :
  hasFocus focusedState 2 = true
  ∧ activeElement (restore restorerFor2 focusedState).2 = Some 10.
Proof. vm_compute. done. Qed.

(** ** Showing twice *)

(** C8 (as amended): [show(parentElement)] on a widget that is already
    visible under that parent element returns at once, with the state and
    the trace of hook calls unchanged, when the nearest widget at or above
    the parent element still is the parent of the widget (for a root: when
    there is none).  Without that, see [show_again_reattaches]. *)
Theorem show_again_is_noop (fuel : nat) (s : State) (this pe : nat) (ib : option nat) :
  visibleInternal (wget s this) = true →
  parentElement s (element (wget s this)) = Some pe →
  (if isRoot (wget s this) then nearestWidgetElement s pe = None
   else ∃ p, nearestWidget s pe = Some p ∧ parentWidgetInternal (wget s this) = Some p) →
  exec (S fuel) (Show this pe ib) s = Ok s.
Proof.
  intros Hvis Hpe Hown. simpl. unfold show.
  destruct (isRoot (wget s this)) eqn:Hroot.
  - simpl. unfold showWidgetInternal. rewrite Hroot, Hown. simpl.
    rewrite Hvis, Hpe. rewrite bool_decide_eq_true_2 by done. done.
  - destruct Hown as (p & Hnear & Hparent). rewrite Hnear.
    unfold attach. rewrite bool_decide_eq_true_2 by done. simpl.
    unfold showWidgetInternal. rewrite Hroot.
    destruct (nearestWidget_element _ _ _ Hnear) as (e & -> & He).
    rewrite bool_decide_eq_true_2 by congruence. simpl.
    rewrite Hvis, Hpe. rewrite bool_decide_eq_true_2 by done. done.
Qed.

Lemma show_again_is_noop_witness :
  exec 1 (Show 2 11 None) shownState = Ok shownState.
Proof.
  apply (show_again_is_noop 0 shownState 2 11 None).
  - vm_compute. reflexivity.
  - vm_compute. reflexivity.
  - vm_compute. exists 1. split; reflexivity.
Defined.

(** C8, the claim as stated fails once the document has been rearranged:
    widget 2 was shown under element 20 and is visible there, but element
    20 has since been moved under the element of widget 3.  A second
    [show] with the same parent element returns, and it has detached the
    widget from its parent 1 and attached it to widget 3, calling
    [willHide], [onDetach], [childWasDetached], [wasShown] and [onResize]. *)
Lemma show_again_reattaches :
  run 4 movedCalls movedPage = Ok movedState
  ∧ visibleInternal (wget movedState 2) = true
  ∧ parentElement movedState (element (wget movedState 2)) = Some 20
  ∧ match exec 4 (Show 2 20 None) movedState with
    | Ok s' => parentWidgetInternal (wget movedState 2) = Some 1
               ∧ parentWidgetInternal (wget s' 2) = Some 3
               ∧ trace s' = trace movedState
                            ++ [EvHook WillHide 2; EvShowing 2 false; EvHook OnDetach 2;
                                EvHook ChildWasDetached 1; EvShowing 2 true;
                                EvHook WasShown 2; EvHook OnResize 2]
    | _ => False
    end.
Proof. vm_compute. done. Qed.

(** ** The re-entrancy guard *)

Lemma inNotification_ancestor s w a :
  ancestorOrSelf s w a → notificationDepth (wget s a) ≠ 0%Z →
  ∃ f0, ∀ fuel, f0 ≤ fuel → inNotification fuel s w = Some true.
Proof.
  induction 1 as [w | w p a Hp _ IH]; intros Hd.
  - exists 1. intros [|f] Hf; [lia|]. simpl.
    apply Z.eqb_neq in Hd. by rewrite Hd.
  - destruct (IH Hd) as (f0 & Hf0). exists (S f0).
    intros [|f] Hf; [lia|]. simpl.
    destruct (notificationDepth (wget s w) =? 0)%Z; [|done]. simpl.
    rewrite Hp. apply Hf0. lia.
Qed.

Lemma forEach_unchanged {A} (body : A → State → Res State) l s :
  (∀ x, body x s = Ok s ∨ body x s = OutOfFuel) →
  forEach body l s = Ok s ∨ forEach body l s = OutOfFuel.
Proof.
  intros Hb. induction l as [|x l IH]; simpl; [by left|].
  destruct (Hb x) as [-> | ->]; simpl; [done | by right].
Qed.

Lemma processWasHidden_unchanged fuel w s :
  exec fuel (Process WasHiddenPass w) s = Ok s ∨ exec fuel (Process WasHiddenPass w) s = OutOfFuel.
Proof.
  revert w s. induction fuel as [|f IH]; intros w s; [by right|].
  simpl. unfold processWasHidden, callOnVisibleChildren.
  apply forEach_unchanged. intros c.
  destruct (_ && _); [apply IH | by left].
Qed.

(** C4 (as amended): when the notification depth is nonzero on [w] or one
    of its ancestors, the was-shown and will-hide passes (and the resize
    pass) return at once, leaving the state and the trace as they were; the
    was-hidden pass has no guard but never changes the state.  The will-show
    pass is not guarded, see [will_show_not_guarded]. *)
Theorem guarded_passes_return_at_once (s : State) (w a : nat) :
  ancestorOrSelf s w a → notificationDepth (wget s a) ≠ 0%Z →
  (∃ f0, ∀ fuel, f0 ≤ fuel →
     exec fuel (Process WasShownPass w) s = Ok s
     ∧ exec fuel (Process WillHidePass w) s = Ok s
     ∧ exec fuel (Process OnResizePass w) s = Ok s)
  ∧ (∀ fuel, exec fuel (Process WasHiddenPass w) s = Ok s
             ∨ exec fuel (Process WasHiddenPass w) s = OutOfFuel).
Proof.
  intros Hanc Hd. split; [|intros fuel; apply processWasHidden_unchanged].
  destruct (inNotification_ancestor _ _ _ Hanc Hd) as (f0 & Hf0).
  exists (S f0). intros [|f] Hf; [lia|]. simpl.
  unfold processWasShown, processWillHide, processOnResize.
  rewrite Hf0 by lia. done.
Qed.

(** ** Detaching a hidden hide-on-detach widget *)

Lemma wget_log e s w : wget (log e s) w = wget s w.
Proof. done. Qed.
Lemma wget_nupd n f s w : wget (nupd n f s) w = wget s w.
Proof. done. Qed.
Lemma nget_wupd w f s n : nget (wupd w f s) n = nget s n.
Proof. done. Qed.
Lemma nget_log e s n : nget (log e s) n = nget s n.
Proof. done. Qed.

Lemma wget_wupd_field {A} (proj : Widget → A) w f s x :
  (∀ y, proj (f y) = proj y) → proj (wget (wupd w f s) x) = proj (wget s x).
Proof. intros H. rewrite wget_wupd. case_decide; subst; [apply H | done]. Qed.

Lemma indexOf_elem x l : x ∈ l → ∃ i, indexOf x l = Some i.
Proof.
  induction l as [|y l IH]; intros H; [by apply elem_of_nil in H|].
  simpl. case_bool_decide; [by eexists|].
  apply elem_of_cons in H as [->|H]; [done|].
  destruct (IH H) as (i & ->). by eexists.
Qed.

Lemma parentElement_parentNode s n p : parentElement s n = Some p → parentNode (nget s n) = Some p.
Proof.
  unfold parentElement. destruct (parentNode (nget s n)) as [q|]; [|done].
  destruct (isElement s q); [|done]. congruence.
Qed.

Lemma parentElement_removed s n f :
  parentNode (f (nget s n)) = None → parentElement (nupd n f s) n = None.
Proof. intros H. unfold parentElement. by rewrite nget_nupd_eq, H. Qed.

(** The unlinking at the end of [detach], for a parent whose
    [childWasDetached] is not overridden. *)
Lemma updateHierarchy_plain rec s w p :
  parentWidgetInternal (wget s w) = Some p →
  w ∈ childrenInternal (wget s p) →
  hooks (wget s p) ChildWasDetached = [] →
  ∃ s', updateHierarchy rec w s = Ok s'
        ∧ nodes s' = nodes s
        ∧ element (wget s' w) = element (wget s w)
        ∧ trace s' = trace s ++ [EvHook ChildWasDetached p].
Proof.
  intros Hpar Hin Hhook. destruct (indexOf_elem _ _ Hin) as (i & Hi).
  unfold updateHierarchy. rewrite Hpar, Hi.
  cbv zeta. unfold callHook.
  set (s1 := wupd p _ s).
  assert (Hh1 : hooks (wget s1 p) ChildWasDetached = []).
  { unfold s1. by rewrite (wget_wupd_field (λ x, hooks x ChildWasDetached)). }
  assert (He1 : element (wget s1 w) = element (wget s w)).
  { unfold s1. by rewrite (wget_wupd_field element). }
  assert (Hn1 : nodes s1 = nodes s) by done.
  assert (Ht1 : trace s1 = trace s) by done.
  clearbody s1.
  case_bool_decide.
  - rewrite (wget_wupd_field (λ x, hooks x ChildWasDetached)) by done. rewrite Hh1. simpl.
    eexists. split; [done|]. split; [done|]. split; [|by rewrite <- Ht1].
    rewrite wget_wupd_eq. simpl. rewrite wget_log.
    by rewrite (wget_wupd_field element).
  - rewrite Hh1. simpl.
    eexists. split; [done|]. split; [done|]. split; [|by rewrite <- Ht1].
    rewrite wget_wupd_eq. simpl. by rewrite wget_log.
Qed.

Lemma forceRemove_attached s w pe :
  parentElement s (element (wget s w)) = Some pe →
  ∃ s', forceRemove (Some pe) w s = Ok s'
        ∧ heap s' = heap s ∧ trace s' = trace s
        ∧ parentElement s' (element (wget s w)) = None.
Proof.
  intros Hpe. unfold forceRemove, originalRemoveChild.
  pose proof (decrementWidgetCounter_same pe (element (wget s w)) s) as Hsame.
  set (s1 := decrementWidgetCounter pe (element (wget s w)) s) in *.
  rewrite (nget_sameButCounters _ _ _ Hsame).
  rewrite (parentElement_parentNode _ _ _ Hpe).
  rewrite bool_decide_eq_true_2 by done.
  eexists. split; [done|].
  destruct Hsame as (Hh & _ & _ & _ & _ & Ht).
  split; [done|]. split; [done|].
  by apply parentElement_removed.
Qed.

(** C3 (as amended): for a widget with [hideOnDetach] set that was hidden
    with [hideWidget()] (not visible, element still in the DOM and marked
    hidden), under a parent that does not override [childWasDetached]:
    [detach()] leaves the element in the DOM, still marked hidden, and
    [detach(true)] removes the element from the DOM; in both cases the only
    hook invoked is the parent's [childWasDetached], so [onDetach] is not
    invoked by either. *)
Theorem detach_hidden_hideOnDetach (fuel : nat) (s : State) (w pe p : nat) :
  hideOnDetach (wget s w) = true →
  visibleInternal (wget s w) = false →
  parentElement s (element (wget s w)) = Some pe →
  hiddenClass (nget s (element (wget s w))) = true →
  parentWidgetInternal (wget s w) = Some p →
  w ∈ childrenInternal (wget s p) →
  hooks (wget s p) ChildWasDetached = [] →
  (∃ s', exec (2 + fuel) (Detach w false) s = Ok s'
         ∧ parentElement s' (element (wget s' w)) = Some pe
         ∧ hiddenClass (nget s' (element (wget s' w))) = true
         ∧ trace s' = trace s ++ [EvHook ChildWasDetached p])
  ∧ (∃ s', exec (2 + fuel) (Detach w true) s = Ok s'
         ∧ parentElement s' (element (wget s' w)) = None
         ∧ trace s' = trace s ++ [EvHook ChildWasDetached p]).
Proof.
  intros Hhod Hvis Hpe Hhid Hpar Hin Hhook.
  split.
  - destruct (updateHierarchy_plain (exec (S fuel)) s w p Hpar Hin Hhook)
      as (s' & Hs' & Hn & He & Ht).
    exists s'. split.
    + change (exec (2 + fuel) (Detach w false) s) with (detach (S fuel) (exec (S fuel)) w false s).
      unfold detach. rewrite Hpar. rewrite bool_decide_eq_false_2 by done.
      cbn [andb shouldHideOnDetach]. rewrite Hpe, Hhod. simpl. by rewrite Hvis.
    + rewrite He. split; [by rewrite (parentElement_nodes _ _ _ Hn)|].
      split; [|done]. unfold nget. rewrite Hn. exact Hhid.
  - destruct (forceRemove_attached s w pe Hpe) as (s1 & Hs1 & Hh1 & Ht1 & Hpe1).
    assert (Hw : ∀ x, wget s1 x = wget s x) by (intros x; unfold wget; by rewrite Hh1).
    destruct (updateHierarchy_plain (exec (S fuel)) s1 w p) as (s' & Hs' & Hn & He & Ht).
    { by rewrite Hw. } { by rewrite Hw. } { by rewrite Hw. }
    exists s'. split.
    + change (exec (2 + fuel) (Detach w true) s) with (detach (S fuel) (exec (S fuel)) w true s).
      unfold detach. rewrite Hpar. rewrite bool_decide_eq_false_2 by done.
      cbn [andb]. simpl. rewrite Hvis, Hpe, Hs1. simpl. exact Hs'.
    + rewrite He, Hw. split; [by rewrite (parentElement_nodes _ _ _ Hn)|].
      by rewrite Ht, Ht1.
Qed.

Lemma detach_hidden_hideOnDetach_witness :
  (∃ s', exec 2 (Detach 2 false) hiddenChildState = Ok s'
         ∧ parentElement s' (element (wget s' 2)) = Some 11
         ∧ hiddenClass (nget s' (element (wget s' 2))) = true
         ∧ trace s' = trace hiddenChildState ++ [EvHook ChildWasDetached 1])
  ∧ (∃ s', exec 2 (Detach 2 true) hiddenChildState = Ok s'
         ∧ parentElement s' (element (wget s' 2)) = None
         ∧ trace s' = trace hiddenChildState ++ [EvHook ChildWasDetached 1]).
Proof.
  apply (detach_hidden_hideOnDetach 0 hiddenChildState 2 11 1);
    try (vm_compute; reflexivity).
  vm_compute. apply list_elem_of_here.
Defined.

(** C3, the claim as stated fails: after [hideWidget()] on the
    hide-on-detach widget 2, [detach(true)] removes its element 12 from the
    DOM, yet [onDetach] of widget 2 is never invoked. *)
Lemma detach_true_hidden_skips_onDetach :
  match run 3 (hiddenChild ++ [Detach 2 true]) page with
  | Ok s' => hideOnDetach (wget s' 2) = true
             ∧ parentElement s' 12 = None
             ∧ bool_decide (EvHook OnDetach 2 ∈ trace s') = false
  | _ => False
  end.
Proof. vm_compute. done. Qed.

(** ** The widget counter *)

(** C2, evaluated at the failing input: after the externally managed
    widget 3 is shown next to widget 2 and detached, the counter of element
    11 is 0 although the tracked widget element 12 is still below it, and
    the counter of element 10 is 1 with two tracked widget elements below. *)
Lemma counter_wrong_after_external_detach :
  match run 3 externalSibling page with
  | Ok s => counterOf s 11 = 0%Z ∧ trackedWidgetsBelow s 11 = 1%Z
            ∧ counterOf s 10 = 1%Z ∧ trackedWidgetsBelow s 10 = 2%Z
            ∧ parentElement s 12 = Some 11 ∧ externallyManaged (wget s 2) = false
  | _ => False
  end.
Proof. vm_compute. done. Qed.

(** Before the detach the counters are right. *)
Lemma counter_right_before_external_detach :
  match run 3 (take 5 externalSibling) page with
  | Ok s => counterOf s 11 = 1%Z ∧ trackedWidgetsBelow s 11 = 1%Z
            ∧ counterOf s 10 = 2%Z ∧ trackedWidgetsBelow s 10 = 2%Z
  | _ => False
  end.
Proof. vm_compute. done. Qed.

(** C4, the claim as stated fails for the will-show pass: with a
    notification in progress on its parent, the pass on widget 2 does not
    return at once but marks the widget as showing. *)
Lemma will_show_not_guarded :
  ancestorOrSelf insideNotification 2 1
  ∧ notificationDepth (wget insideNotification 1) ≠ 0%Z
  ∧ inNotification 2 insideNotification 2 = Some true
  ∧ match exec 1 (Process WillShowPass 2) insideNotification with
    | Ok s' => isShowing insideNotification 2 = false ∧ isShowing s' 2 = true
               ∧ trace s' = trace insideNotification ++ [EvShowing 2 true]
    | _ => False
    end.
Proof.
  split; [|split; [|split]].
  - eapply aos_parent; [vm_compute; reflexivity | apply aos_self].
  - vm_compute. done.
  - vm_compute. done.
  - vm_compute. done.
Qed.

Lemma guarded_passes_return_at_once_witness :
  (∃ f0, ∀ fuel, f0 ≤ fuel →
     exec fuel (Process WasShownPass 2) insideNotification = Ok insideNotification
     ∧ exec fuel (Process WillHidePass 2) insideNotification = Ok insideNotification
     ∧ exec fuel (Process OnResizePass 2) insideNotification = Ok insideNotification)
  ∧ (∀ fuel, exec fuel (Process WasHiddenPass 2) insideNotification = Ok insideNotification
             ∨ exec fuel (Process WasHiddenPass 2) insideNotification = OutOfFuel).
Proof.
  apply (guarded_passes_return_at_once insideNotification 2 1).
  - eapply aos_parent; [vm_compute; reflexivity | apply aos_self].
  - vm_compute. discriminate.
Defined.

(** ** What every call preserves *)

Section Post.
Context (R : State → State → Prop) `{!PreOrder R}.

Lemma post_ok s s' : R s s' → post R s (Ok s').
Proof. done. Qed.

Lemma post_pre s s0 r : R s s0 → post R s0 r → post R s r.
Proof. intros H. destruct r; simpl; try done; intros; by etrans. Qed.

Lemma post_bind s (r : Res State) (k : State → Res State) :
  post R s r → (∀ s1, R s s1 → post R s1 (k s1)) → post R s (r ≫= k).
Proof.
  destruct r as [s1| |]; simpl; try done.
  intros H Hk. eapply post_pre; [done | by apply Hk].
Qed.

Lemma post_fromFuel {A} s (o : option A) (k : A → Res State) :
  (∀ a, o = Some a → post R s (k a)) → post R s (fromFuel o ≫= k).
Proof. destruct o; simpl; [|done]. intros H. by apply H. Qed.

Lemma post_forEach {A} (body : A → State → Res State) l s :
  (∀ x s1, x ∈ l → R s s1 → post R s1 (body x s1)) → post R s (forEach body l s).
Proof.
  revert s. induction l as [|x l IH]; intros s Hb; simpl; [done|].
  apply post_bind.
  - apply Hb; [apply list_elem_of_here | done].
  - intros s1 H1. apply IH. intros y s2 Hy H2. apply Hb; [by apply list_elem_of_further|by etrans].
Qed.

Lemma post_assert b s : post R s (assert b s).
Proof. destruct b; simpl; reflexivity. Qed.
End Post.

#[global] Instance stable_preorder : PreOrder stable.
Proof.
  split.
  - intros s. by split.
  - intros s1 s2 s3 [] []. split; intros; try congruence; by etrans.
Qed.

Lemma stable_wupd w f s :
  (∀ x, hooks (f x) = hooks x) → (∀ x, element (f x) = element x) →
  (∀ x, widgetClass (f x) = widgetClass x) →
  (∀ x, notificationDepth (f x) = notificationDepth x) →
  stable s (wupd w f s).
Proof.
  intros H1 H2 H3 H4. split; try done; intros x;
    rewrite wget_wupd; case_decide; subst; done.
Qed.

Lemma stable_same_heap s s' :
  heap s' = heap s → widgetMap s' = widgetMap s →
  (∀ n, nkind (nget s' n) = nkind (nget s n)) →
  trace s `prefix_of` trace s' → stable s s'.
Proof. intros Hh Hm Hk Ht. split; try done; intros w; unfold wget; by rewrite Hh. Qed.

Lemma nkind_nupd n f s x :
  (∀ y, nkind (f y) = nkind y) → nkind (nget (nupd n f s) x) = nkind (nget s x).
Proof. intros H. rewrite nget_nupd. case_decide; subst; [apply H | done]. Qed.

Lemma stable_log e s : stable s (log e s).
Proof. apply stable_same_heap; try done. by apply prefix_app_r. Qed.

Lemma stable_nupd n f s : (∀ y, nkind (f y) = nkind y) → stable s (nupd n f s).
Proof. intros H. apply stable_same_heap; try done. intros x. by apply nkind_nupd. Qed.

Lemma stable_counters s s' : sameButCounters s s' → stable s s'.
Proof.
  intros (?&Hn&?&?&?&Ht). apply stable_same_heap; try done.
  - intros n. unfold nget. by rewrite Hn.
  - by rewrite Ht.
Qed.

Lemma foldVisibleChildren_stable {A} (method : nat → A → State → option (A * State)) this l acc s acc' s' :
  (∀ c a s1 a' s1', method c a s1 = Some (a', s1') → stable s1 s1') →
  foldVisibleChildren method this l acc s = Some (acc', s') → stable s s'.
Proof.
  intros Hm. revert acc s. induction l as [|c l IH]; intros acc s; simpl.
  - intros [= <- <-]. done.
  - destruct (_ && _); [|apply IH].
    destruct (method c acc s) as [[a1 s1]|] eqn:E; simpl; [|done].
    intros H. etrans; [by eapply Hm | by eapply IH].
Qed.

Lemma constraintsOf_stable fuel this s c s' :
  constraintsOf fuel this s = Some (c, s') → stable s s'.
Proof.
  revert this s c s'. induction fuel as [|f IH]; intros this s c s'; simpl; [done|].
  destruct (constraintsInternal (wget s this)); [by intros [= <- <-]|].
  destruct (cachedConstraints (wget s this)); [by intros [= <- <-]|].
  destruct (calculateConstraints _ _ _) as [[c1 s1]|] eqn:E; simpl; [|done].
  intros [= <- <-]. etrans; [|by apply stable_wupd].
  unfold calculateConstraints in E.
  destruct (widgetClass (wget s this)).
  - by injection E as <- <-.
  - eapply foldVisibleChildren_stable; [|exact E].
    intros ch a s2 a' s2'. unfold updateForChild.
    destruct (constraintsOf f ch s2) as [[c2 s3]|] eqn:E2; simpl; [|done].
    intros [= <- <-]. by eapply IH.
  - eapply foldVisibleChildren_stable; [|exact E].
    intros ch a s2 a' s2'. unfold updateForChild.
    destruct (constraintsOf f ch s2) as [[c2 s3]|] eqn:E2; simpl; [|done].
    intros [= <- <-]. by eapply IH.
Qed.

Lemma post_throw R s s' : R s s' → post R s (Throw s').
Proof. done. Qed.

Lemma stable_wupd' w f s s0 :
  stable s s0 →
  (∀ x, hooks (f x) = hooks x) → (∀ x, element (f x) = element x) →
  (∀ x, widgetClass (f x) = widgetClass x) →
  (∀ x, notificationDepth (f x) = notificationDepth x) →
  stable s (wupd w f s0).
Proof. intros. etrans; [done | by apply stable_wupd]. Qed.

Lemma stable_log' e s s0 : stable s s0 → stable s (log e s0).
Proof. intros. etrans; [done | apply stable_log]. Qed.

Lemma stable_nupd' n f s s0 :
  stable s s0 → (∀ y, nkind (f y) = nkind y) → stable s (nupd n f s0).
Proof. intros. etrans; [done | by apply stable_nupd]. Qed.

Lemma stable_increment' pe ce s s0 : stable s s0 → stable s (incrementWidgetCounter pe ce s0).
Proof. intros. etrans; [done | apply stable_counters, incrementWidgetCounter_same]. Qed.

Lemma stable_decrement' pe ce s s0 : stable s s0 → stable s (decrementWidgetCounter pe ce s0).
Proof. intros. etrans; [done | apply stable_counters, decrementWidgetCounter_same]. Qed.

Lemma stable_removeChildren' this s s0 :
  stable s s0 →
  stable s (set_nodes ((λ x, if bool_decide (parentNode x = Some this)
                             then set_parentNode None x else x) <$> nodes s0) s0).
Proof.
  intros. etrans; [done | apply stable_same_heap; try done].
  intros n. unfold nget. simpl. rewrite lookup_fmap.
  destruct (nodes s0 !! n) as [x|]; simpl; [|done]. by case_bool_decide.
Qed.

Lemma stable_set_stored' m s s0 : stable s s0 → stable s (set_storedScrollPositions m s0).
Proof. intros. etrans; [done | by apply stable_same_heap]. Qed.

Ltac stable_tac :=
  repeat first
    [ reflexivity
    | assumption
    | apply stable_log'
    | apply stable_nupd'; [ | done ]
    | apply stable_increment'
    | apply stable_decrement'
    | apply stable_removeChildren'
    | apply stable_set_stored'
    | apply stable_wupd'; [ | done | done | done | done ] ].

Ltac post_step :=
  lazymatch goal with
  | |- post _ _ (Ok _) => apply post_ok
  | |- post _ _ (Throw _) => apply post_throw
  | |- post ?R _ (assert _ _) => apply (post_assert R)
  | |- post ?R _ (fromFuel _ ≫= _) => apply (post_fromFuel R); intros ? ?
  | |- post ?R _ (_ ≫= _) => apply (post_bind R); [ | intros ? ?]
  | |- post _ _ (if ?b then _ else _) => destruct b eqn:?
  | |- post _ _ (match ?o with _ => _ end) => destruct o eqn:?
  end.

(** Goal [post R s (m (f s))]: step to [f s] first, then use lemma [L] on [m]. *)
Ltac post_call L :=
  lazymatch goal with
  | |- post ?R _ _ => eapply (post_pre R); [ | apply L ]; [ stable_tac .. ]
  end.

Section Stable.
Variable fuel : nat.
Variable rec : Call → State → Res State.
Hypothesis Hrec : ∀ c s, post stable s (rec c s).

Lemma callHook_stable h this s : post stable s (callHook rec h this s).
Proof.
  unfold callHook. eapply (post_pre stable); [apply stable_log|].
  apply (post_forEach stable). intros c s1 _ _. apply Hrec.
Qed.

Lemma callOnVisibleChildren_stable this method s :
  post stable s (callOnVisibleChildren rec this method s).
Proof.
  unfold callOnVisibleChildren. apply (post_forEach stable). intros c s1 _ _.
  destruct (_ && _); [apply Hrec | by apply post_ok].
Qed.

Lemma notify_stable h this s : post stable s (notify rec h this s).
Proof.
  unfold notify.
  pose proof (callHook_stable h this
    (wupd this (λ x, set_notificationDepth (notificationDepth x + 1) x) s)) as H.
  destruct (callHook _ _ _ _) as [s2|s2|]; simpl in *; [| |done].
  all: destruct H as [H1 H2 H3 H4 H5 H6]; split; try done.
  all: intros w; rewrite wget_wupd; case_decide; subst; simpl.
  all: rewrite ?H1, ?H2, ?H3, ?H4; rewrite wget_wupd; case_decide; subst; simpl;
    try done; lia.
Qed.

Lemma processWillShow_stable this s : post stable s (processWillShow rec this s).
Proof.
  unfold processWillShow. post_step; [apply callOnVisibleChildren_stable|].
  post_step. stable_tac.
Qed.

Lemma processWasShown_stable this s : post stable s (processWasShown fuel rec this s).
Proof.
  unfold processWasShown. post_step. post_step; [by post_step|].
  post_step; [|apply callOnVisibleChildren_stable].
  eapply (post_pre stable); [|apply notify_stable].
  unfold restoreScrollPositions. simpl. destruct (_ !! _) as [[l t]|]; stable_tac.
Qed.

Lemma processWillHide_stable this s : post stable s (processWillHide fuel rec this s).
Proof.
  unfold processWillHide. post_step. post_step; [by post_step|].
  post_step.
  { eapply (post_pre stable); [|apply callOnVisibleChildren_stable].
    unfold storeScrollPositions. simpl. stable_tac. }
  post_step; [apply notify_stable|]. post_step. stable_tac.
Qed.

Lemma processWasHidden_stable this s : post stable s (processWasHidden rec this s).
Proof. apply callOnVisibleChildren_stable. Qed.

Lemma processOnResize_stable this s : post stable s (processOnResize fuel rec this s).
Proof.
  unfold processOnResize. post_step. post_step; [by post_step|].
  post_step; [by post_step|].
  post_step; [apply notify_stable | apply callOnVisibleChildren_stable].
Qed.

Lemma process_stable p this s : post stable s (process fuel rec p this s).
Proof.
  destruct p; simpl.
  - apply processWillShow_stable.
  - apply processWasShown_stable.
  - apply processWillHide_stable.
  - apply processWasHidden_stable.
  - apply processOnResize_stable.
Qed.

Lemma doResize_stable this s : post stable s (doResize fuel rec this s).
Proof.
  unfold doResize. post_step; [by post_step|]. post_step.
  post_step; [by post_step | apply callOnVisibleChildren_stable].
Qed.

Lemma doLayout_stable this s : post stable s (doLayout fuel rec this s).
Proof.
  unfold doLayout. post_step; [by post_step|].
  post_step; [apply notify_stable | apply doResize_stable].
Qed.

Lemma invalidateConstraints_stable this s :
  post stable s (invalidateConstraints fuel rec this s).
Proof.
  unfold invalidateConstraints. post_step; [post_step; stable_tac|].
  cbv zeta.
  apply (post_fromFuel stable); intros [actual s1] Hc; apply constraintsOf_stable in Hc.
  apply (post_pre stable _ s1); [etrans; [|exact Hc]; stable_tac|].
  post_step; [|apply doLayout_stable].
  post_step; [apply Hrec | apply doLayout_stable].
Qed.

Lemma forceRemove_stable pe this s : post stable s (forceRemove pe this s).
Proof.
  unfold forceRemove, originalRemoveChild. post_step; [|by post_step].
  post_step; post_step; stable_tac.
Qed.

Lemma hasNonZeroConstraints_stable this s nz s' :
  hasNonZeroConstraints fuel this s = Some (nz, s') → stable s s'.
Proof.
  unfold hasNonZeroConstraints.
  destruct (constraintsOf fuel this s) as [[c s1]|] eqn:E; simpl; [|done].
  intros [= <- <-]. by eapply constraintsOf_stable.
Qed.

Lemma hideWidgetInternal_stable this b s :
  post stable s (hideWidgetInternal fuel rec this b s).
Proof.
  unfold hideWidgetInternal. cbv zeta.
  post_step.
  { post_step; [post_call processWillHide_stable | post_step; stable_tac]. }
  post_step.
  { post_step; [|post_step; stable_tac].
    post_step; [apply forceRemove_stable | apply callHook_stable]. }
  post_step.
  { post_step; [apply processWasHidden_stable | by post_step]. }
  post_step; [|by post_step].
  apply (post_fromFuel stable). intros [nz s4] Hc. apply hasNonZeroConstraints_stable in Hc.
  apply (post_pre stable _ s4); [done|].
  post_step; [apply invalidateConstraints_stable | by post_step].
Qed.

Lemma hideWidget_stable this s : post stable s (hideWidget fuel rec this s).
Proof.
  unfold hideWidget. post_step; [by post_step | apply hideWidgetInternal_stable].
Qed.

Lemma updateHierarchy_stable this s : post stable s (updateHierarchy rec this s).
Proof.
  unfold updateHierarchy. post_step; [|apply (post_assert stable)].
  post_step; [|by post_step]. cbv zeta.
  post_step; [|post_step; stable_tac].
  case_bool_decide; post_call callHook_stable.
Qed.

Lemma detach_stable this o s : post stable s (detach fuel rec this o s).
Proof.
  unfold detach. post_step; [by post_step|].
  assert (Hrest : ∀ removeFromDOM : bool,
    post stable s
      ((if visibleInternal (wget s this) then hideWidgetInternal fuel rec this removeFromDOM s
        else if removeFromDOM
             then forceRemove (parentElement s (element (wget s this))) this s
             else Ok s) ≫= λ s0, updateHierarchy rec this s0)).
  { intros b. post_step; [|apply updateHierarchy_stable].
    post_step; [apply hideWidgetInternal_stable|].
    post_step; [apply forceRemove_stable | by post_step]. }
  destruct o; simpl; [apply Hrest|].
  destruct (shouldHideOnDetach fuel s this); simpl; [apply Hrest | done].
Qed.

Lemma detachChildWidgets_stable this s : post stable s (detachChildWidgets fuel rec this s).
Proof.
  unfold detachChildWidgets. apply (post_forEach stable). intros c s1 _ _.
  apply detach_stable.
Qed.

Lemma attach_stable this p s : post stable s (attach fuel rec this p s).
Proof.
  unfold attach. post_step; [by post_step|].
  post_step; [|post_step; stable_tac].
  post_step; [apply detach_stable | by post_step].
Qed.

Lemma originalAppendChild_stable this node s : post stable s (originalAppendChild this node s).
Proof. unfold originalAppendChild. post_step; post_step; stable_tac. Qed.

Lemma originalInsertBefore_stable this node child s :
  post stable s (originalInsertBefore this node child s).
Proof.
  unfold originalInsertBefore. post_step; [|apply originalAppendChild_stable].
  post_step; [apply originalAppendChild_stable | by post_step].
Qed.

Lemma showWidgetInternal_stable this pe ib s :
  post stable s (showWidgetInternal fuel rec this pe ib s).
Proof.
  unfold showWidgetInternal. cbv zeta.
  post_step; [post_step; apply (post_assert stable)|].
  post_step; [by post_step|].
  post_step.
  { post_step; [post_call processWillShow_stable | post_step; stable_tac]. }
  post_step.
  { post_step; [post_step; stable_tac|].
    destruct (externallyManaged _); post_step.
    - post_call originalInsertBefore_stable.
    - post_call originalAppendChild_stable.
    - post_call originalInsertBefore_stable.
    - post_call originalAppendChild_stable. }
  post_step.
  { post_step; [apply processWasShown_stable | by post_step]. }
  post_step; [|apply processOnResize_stable].
  apply (post_fromFuel stable). intros [nz s4] Hc. apply hasNonZeroConstraints_stable in Hc.
  apply (post_pre stable _ s4); [done|].
  post_step; [apply invalidateConstraints_stable | apply processOnResize_stable].
Qed.

Lemma show_stable this pe ib s : post stable s (show fuel rec this pe ib s).
Proof.
  unfold show. post_step; [|apply showWidgetInternal_stable].
  post_step; [by post_step|].
  post_step; [apply attach_stable | by post_step].
Qed.

Lemma showWidget_stable this s : post stable s (showWidget fuel rec this s).
Proof.
  unfold showWidget. post_step; [by post_step|].
  post_step; [apply showWidgetInternal_stable | by post_step].
Qed.

Lemma body_stable c s : post stable s (body fuel rec c s).
Proof.
  destruct c; unfold body.
  - apply show_stable.
  - apply showWidget_stable.
  - apply hideWidget_stable.
  - apply detach_stable.
  - apply detachChildWidgets_stable.
  - unfold markAsRoot. post_step; [apply (post_assert stable)|]. post_step. stable_tac.
  - unfold setHideOnDetach. post_step. stable_tac.
  - unfold markAsExternallyManaged. post_step; [apply (post_assert stable)|].
    post_step. stable_tac.
  - unfold setDefaultFocusedChild. post_step; [apply (post_assert stable)|].
    post_step. stable_tac.
  - unfold setMinimumSize. post_call invalidateConstraints_stable.
  - unfold setMinimumAndPreferredSizes. post_call invalidateConstraints_stable.
  - unfold suspendInvalidations. post_step. stable_tac.
  - unfold resumeInvalidations. cbv zeta.
    post_step; [post_call invalidateConstraints_stable | post_step; stable_tac].
  - apply invalidateConstraints_stable.
  - apply doLayout_stable.
  - apply doResize_stable.
  - unfold appendChild. post_step; [by post_step | apply originalAppendChild_stable].
  - unfold insertBefore. post_step; [by post_step | apply originalInsertBefore_stable].
  - unfold removeChild, originalRemoveChild. post_step; [by post_step|].
    post_step; post_step; stable_tac.
  - unfold removeChildren, originalRemoveChildren. post_step; [by post_step|].
    post_step. stable_tac.
  - by post_step.
  - apply process_stable.
Qed.
End Stable.

Lemma exec_stable fuel c s : post stable s (exec fuel c s).
Proof.
  revert c s. induction fuel as [|f IH]; intros c s; [done|].
  simpl. by apply body_stable.
Qed.

Lemma run_stable fuel cs s : post stable s (run fuel cs s).
Proof. apply (post_forEach stable). intros c s1 _ _. apply exec_stable. Qed.

(** ** The notification depth *)

Lemma inNotification_zero fuel s w :
  (∀ x, notificationDepth (wget s x) = 0%Z) → inNotification fuel s w ≠ Some true.
Proof.
  intros H0. revert w. induction fuel as [|f IH]; intros w; simpl; [done|].
  rewrite H0. simpl. destruct (parentWidgetInternal (wget s w)); [apply IH | done].
Qed.

(** C10: [notify] leaves the notification depth of every widget as it found
    it, also when the hook raises; hence so does every sequence of calls,
    whether it completes or raises, and when all depths were zero before,
    [inNotification()] is true of no widget afterwards. *)
Theorem notificationDepth_restored :
  (∀ fuel h w s s',
     notify (exec fuel) h w s = Ok s' ∨ notify (exec fuel) h w s = Throw s' →
     ∀ x, notificationDepth (wget s' x) = notificationDepth (wget s x))
  ∧ (∀ fuel cs s s',
       run fuel cs s = Ok s' ∨ run fuel cs s = Throw s' →
       (∀ x, notificationDepth (wget s' x) = notificationDepth (wget s x))
       ∧ ((∀ x, notificationDepth (wget s x) = 0%Z) →
          ∀ f x, inNotification f s' x ≠ Some true)).
Proof.
  split.
  - intros fuel h w s s' Hr.
    pose proof (notify_stable (exec fuel) (exec_stable fuel) h w s) as H.
    destruct Hr as [Hr | Hr]; rewrite Hr in H; apply H.
  - intros fuel cs s s' Hr.
    pose proof (run_stable fuel cs s) as H.
    assert (Hs : stable s s') by (destruct Hr as [Hr | Hr]; rewrite Hr in H; exact H).
    split; [apply Hs|].
    intros H0 f x. apply inNotification_zero. intros y.
    by rewrite (stable_depth _ _ Hs).
Qed.

(** The hook of widget 1 raises inside [show]: the call raises, and the
    depth of widget 1 is zero again. *)
Lemma notificationDepth_restored_witness :
  ∃ s', run 2 [MarkAsRoot 1; Show 1 10 None] raisingPage = Throw s'
        ∧ bool_decide (EvHook WasShown 1 ∈ trace s') = true
        ∧ (∀ x, notificationDepth (wget s' x) = notificationDepth (wget raisingPage x))
        ∧ (∀ f x, inNotification f s' x ≠ Some true).
Proof.
  destruct (run 2 [MarkAsRoot 1; Show 1 10 None] raisingPage) as [s'|s'|] eqn:E;
    [vm_compute in E; discriminate | | vm_compute in E; discriminate].
  exists s'. split; [reflexivity|].
  split; [by vm_compute in E; injection E as <-|].
  destruct (proj2 notificationDepth_restored 2 [MarkAsRoot 1; Show 1 10 None] raisingPage s')
    as [H1 H2]; [by right|].
  split; [exact H1|]. apply H2. intros x.
  unfold raisingPage, newWidget, wget. simpl.
  destruct (decide (x = 1)) as [->|Hne]; [by rewrite lookup_insert_eq|].
  by rewrite lookup_insert_ne, lookup_empty.
Defined.

(** ** Quiet hooks: what the notifying passes leave alone *)

#[global] Instance sameShape_preorder : PreOrder sameShape.
Proof.
  split.
  - intros s. by split.
  - intros s1 s2 s3 [] []. split; intros; try congruence; by etrans.
Qed.

#[global] Instance passive_preorder : PreOrder passive.
Proof.
  split.
  - intros s. split; [reflexivity | done].
  - intros s1 s2 s3 [H1 H1'] [H2 H2']. split; [by etrans | intros; congruence].
Qed.

Lemma quiet_sameShape s s' : sameShape s s' → quiet s → quiet s'.
Proof.
  intros H Hq w h. pose proof (shape_widgets _ _ H w) as Hw.
  apply (f_equal hooks) in Hw. simpl in Hw. rewrite Hw. apply Hq.
Qed.

Lemma quiet_passive s s' : passive s s' → quiet s → quiet s'.
Proof. intros [H _]. by apply quiet_sameShape. Qed.

Lemma passive_same_widgets s s' :
  (∀ w, wget s' w = wget s w) → (∀ n, ncore (nget s' n) = ncore (nget s n)) →
  widgetMap s' = widgetMap s → widgetCounterMap s' = widgetCounterMap s →
  activeElement s' = activeElement s → trace s `prefix_of` trace s' → passive s s'.
Proof.
  intros Hw Hn Hm Hc Ha Ht.
  split; [split; try done|]; intros w; unfold isShowing; by rewrite Hw.
Qed.

Lemma passive_wupd w f s :
  (∀ x, shape (f x) = shape x) → (∀ x, isShowingInternal (f x) = isShowingInternal x) →
  passive s (wupd w f s).
Proof.
  intros H1 H2. split; [split; try done|]; intros x; unfold isShowing;
    rewrite wget_wupd; case_decide; subst; done.
Qed.

Lemma passive_log e s : passive s (log e s).
Proof. apply passive_same_widgets; try done. by apply prefix_app_r. Qed.

Lemma passive_set_stored m s : passive s (set_storedScrollPositions m s).
Proof. by apply passive_same_widgets. Qed.

Lemma passive_nupd_scroll n l t s : passive s (nupd n (set_scroll l t) s).
Proof.
  apply passive_same_widgets; try done.
  intros x. rewrite nget_nupd. by case_decide; subst.
Qed.

Lemma passive_wupd' w f s s0 :
  passive s s0 →
  (∀ x, shape (f x) = shape x) → (∀ x, isShowingInternal (f x) = isShowingInternal x) →
  passive s (wupd w f s0).
Proof. intros. etrans; [done | by apply passive_wupd]. Qed.
Lemma passive_log' e s s0 : passive s s0 → passive s (log e s0).
Proof. intros. etrans; [done | apply passive_log]. Qed.
Lemma passive_set_stored' m s s0 : passive s s0 → passive s (set_storedScrollPositions m s0).
Proof. intros. etrans; [done | apply passive_set_stored]. Qed.
Lemma passive_nupd_scroll' n l t s s0 : passive s s0 → passive s (nupd n (set_scroll l t) s0).
Proof. intros. etrans; [done | apply passive_nupd_scroll]. Qed.

Ltac passive_tac :=
  repeat first
    [ reflexivity
    | assumption
    | apply passive_log'
    | apply passive_set_stored'
    | apply passive_nupd_scroll'
    | apply passive_wupd'; [ | done | done ] ].

Lemma foldVisibleChildren_passive {A} (method : nat → A → State → option (A * State)) this l acc s acc' s' :
  (∀ c a s1 a' s1', method c a s1 = Some (a', s1') → passive s1 s1') →
  foldVisibleChildren method this l acc s = Some (acc', s') → passive s s'.
Proof.
  intros Hm. revert acc s. induction l as [|c l IH]; intros acc s; simpl.
  - intros [= <- <-]. done.
  - destruct (_ && _); [|apply IH].
    destruct (method c acc s) as [[a1 s1]|] eqn:E; simpl; [|done].
    intros H. etrans; [by eapply Hm | by eapply IH].
Qed.

Lemma constraintsOf_passive fuel this s c s' :
  constraintsOf fuel this s = Some (c, s') → passive s s'.
Proof.
  revert this s c s'. induction fuel as [|f IH]; intros this s c s'; simpl; [done|].
  destruct (constraintsInternal (wget s this)); [by intros [= <- <-]|].
  destruct (cachedConstraints (wget s this)); [by intros [= <- <-]|].
  destruct (calculateConstraints _ _ _) as [[c1 s1]|] eqn:E; simpl; [|done].
  intros [= <- <-]. etrans; [|by apply passive_wupd].
  unfold calculateConstraints in E.
  destruct (widgetClass (wget s this)).
  - by injection E as <- <-.
  - eapply foldVisibleChildren_passive; [|exact E].
    intros ch a s2 a' s2'. unfold updateForChild.
    destruct (constraintsOf f ch s2) as [[c2 s3]|] eqn:E2; simpl; [|done].
    intros [= <- <-]. by eapply IH.
  - eapply foldVisibleChildren_passive; [|exact E].
    intros ch a s2 a' s2'. unfold updateForChild.
    destruct (constraintsOf f ch s2) as [[c2 s3]|] eqn:E2; simpl; [|done].
    intros [= <- <-]. by eapply IH.
Qed.

Lemma hasNonZeroConstraints_passive fuel this s nz s' :
  hasNonZeroConstraints fuel this s = Some (nz, s') → passive s s'.
Proof.
  unfold hasNonZeroConstraints.
  destruct (constraintsOf fuel this s) as [[c s1]|] eqn:E; simpl; [|done].
  intros [= <- <-]. by eapply constraintsOf_passive.
Qed.

Lemma callHook_quiet rec h this s :
  quiet s → callHook rec h this s = Ok (log (EvHook h this) s).
Proof. intros Hq. unfold callHook. by rewrite Hq. Qed.

Lemma set_depth_back (x : Widget) :
  set_notificationDepth (notificationDepth (set_notificationDepth (notificationDepth x + 1) x) - 1)
    (set_notificationDepth (notificationDepth x + 1) x) = x.
Proof. destruct x. unfold set_notificationDepth. simpl. f_equal. lia. Qed.

Lemma notify_quiet rec h this s :
  quiet s →
  ∃ s', notify rec h this s = Ok s' ∧ (∀ w, wget s' w = wget s w) ∧ nodes s' = nodes s
        ∧ widgetMap s' = widgetMap s ∧ widgetCounterMap s' = widgetCounterMap s
        ∧ storedScrollPositions s' = storedScrollPositions s
        ∧ activeElement s' = activeElement s
        ∧ trace s' = trace s ++ [EvHook h this].
Proof.
  intros Hq. unfold notify. rewrite callHook_quiet.
  2:{ intros w h'. rewrite (wget_wupd_field (λ x, hooks x h')) by done. apply Hq. }
  simpl. eexists. split; [done|]. repeat split.
  intros w. rewrite wget_wupd. case_decide; [subst|].
  - by rewrite wget_log, wget_wupd_eq, set_depth_back.
  - by rewrite wget_log, wget_wupd_ne.
Qed.

Lemma notify_passive rec h this s : quiet s → post passive s (notify rec h this s).
Proof.
  intros Hq. destruct (notify_quiet rec h this s Hq) as (s' & -> & Hw & Hn & Hm & Hc & _ & Ha & Ht).
  simpl. apply passive_same_widgets; try done.
  - intros n. unfold nget. by rewrite Hn.
  - rewrite Ht. by apply prefix_app_r.
Qed.

Lemma restoreScrollPositions_passive this s : passive s (restoreScrollPositions this s).
Proof.
  unfold restoreScrollPositions. simpl. destruct (_ !! _) as [[l t]|]; passive_tac.
Qed.

Lemma storeScrollPositions_passive this s : passive s (storeScrollPositions this s).
Proof. unfold storeScrollPositions. simpl. passive_tac. Qed.

Section Passive.
Variable fuel : nat.
Variable rec : Call → State → Res State.
Hypothesis Hrec : ∀ c s, passiveCall c = true → quiet s → post passive s (rec c s).

Lemma callOnVisibleChildren_passive this method s :
  (∀ c, passiveCall (method c) = true) → quiet s →
  post passive s (callOnVisibleChildren rec this method s).
Proof.
  intros Hm Hq. unfold callOnVisibleChildren. apply (post_forEach passive).
  intros c s1 _ H1. destruct (_ && _); [|by apply post_ok].
  apply Hrec; [apply Hm | by eapply quiet_passive].
Qed.

Lemma processWasShown_passive this s :
  quiet s → post passive s (processWasShown fuel rec this s).
Proof.
  intros Hq. unfold processWasShown. post_step. post_step; [by post_step|].
  pose proof (restoreScrollPositions_passive this s) as Hr.
  post_step.
  - eapply (post_pre passive); [exact Hr|]. apply notify_passive. by eapply quiet_passive.
  - apply callOnVisibleChildren_passive; [done|]. by eapply quiet_passive.
Qed.

Lemma processWasHidden_passive this s :
  quiet s → post passive s (processWasHidden rec this s).
Proof. intros Hq. by apply callOnVisibleChildren_passive. Qed.

Lemma processOnResize_passive this s :
  quiet s → post passive s (processOnResize fuel rec this s).
Proof.
  intros Hq. unfold processOnResize. post_step. post_step; [by post_step|].
  post_step; [by post_step|]. post_step.
  - by apply notify_passive.
  - apply callOnVisibleChildren_passive; [done|]. by eapply quiet_passive.
Qed.

Lemma doResize_passive this s : quiet s → post passive s (doResize fuel rec this s).
Proof.
  intros Hq. unfold doResize. post_step; [by post_step|]. post_step.
  post_step; [by post_step|]. by apply callOnVisibleChildren_passive.
Qed.

Lemma doLayout_passive this s : quiet s → post passive s (doLayout fuel rec this s).
Proof.
  intros Hq. unfold doLayout. post_step; [by post_step|]. post_step.
  - by apply notify_passive.
  - apply doResize_passive. by eapply quiet_passive.
Qed.

Lemma invalidateConstraints_passive this s :
  quiet s → post passive s (invalidateConstraints fuel rec this s).
Proof.
  intros Hq. unfold invalidateConstraints. post_step; [post_step; passive_tac|].
  cbv zeta.
  apply (post_fromFuel passive); intros [actual s1] Hc; apply constraintsOf_passive in Hc.
  assert (Hs1 : passive s s1) by (etrans; [|exact Hc]; passive_tac).
  apply (post_pre passive _ s1); [done|].
  assert (quiet s1) by by eapply quiet_passive.
  post_step; [|by apply doLayout_passive].
  post_step; [by apply Hrec | by apply doLayout_passive].
Qed.

Lemma body_passive c s :
  passiveCall c = true → quiet s → post passive s (body fuel rec c s).
Proof.
  intros Hc Hq. destruct c; try done; unfold body.
  - by apply invalidateConstraints_passive.
  - by apply doLayout_passive.
  - by apply doResize_passive.
  - destruct p; try done; unfold process.
    + by apply processWasShown_passive.
    + by apply processWasHidden_passive.
    + by apply processOnResize_passive.
Qed.
End Passive.

Lemma exec_passive fuel c s :
  passiveCall c = true → quiet s → post passive s (exec fuel c s).
Proof.
  revert c s. induction fuel as [|f IH]; intros c s Hc Hq; [done|].
  simpl. by apply body_passive.
Qed.

(** ** The will-show and will-hide passes *)

Lemma shape_field {A} (proj : Widget → A) s s' w :
  sameShape s s' → (∀ x, proj (shape x) = proj x) → proj (wget s' w) = proj (wget s w).
Proof.
  intros H Hp. rewrite <- (Hp (wget s' w)), <- (Hp (wget s w)).
  by rewrite (shape_widgets _ _ H w).
Qed.

Lemma shape_parent s s' w :
  sameShape s s' → parentWidgetInternal (wget s' w) = parentWidgetInternal (wget s w).
Proof. intros H. by apply (shape_field parentWidgetInternal). Qed.
Lemma shape_children s s' w :
  sameShape s s' → childrenInternal (wget s' w) = childrenInternal (wget s w).
Proof. intros H. by apply (shape_field childrenInternal). Qed.
Lemma shape_visible s s' w :
  sameShape s s' → visibleInternal (wget s' w) = visibleInternal (wget s w).
Proof. intros H. by apply (shape_field visibleInternal). Qed.
Lemma shape_isRoot s s' w : sameShape s s' → isRoot (wget s' w) = isRoot (wget s w).
Proof. intros H. by apply (shape_field isRoot). Qed.
Lemma shape_depth s s' w :
  sameShape s s' → notificationDepth (wget s' w) = notificationDepth (wget s w).
Proof. intros H. by apply (shape_field notificationDepth). Qed.
Lemma shape_element s s' w : sameShape s s' → element (wget s' w) = element (wget s w).
Proof. intros H. by apply (shape_field element). Qed.

Lemma sameShape_wupd w f s : (∀ x, shape (f x) = shape x) → sameShape s (wupd w f s).
Proof.
  intros H. split; try done. intros x. rewrite wget_wupd. case_decide; subst; done.
Qed.

Lemma sameShape_log e s : sameShape s (log e s).
Proof. split; try done. by apply prefix_app_r. Qed.

Lemma isShowing_set w b s x :
  isShowing (log (EvShowing w b) (wupd w (set_isShowingInternal b) s)) x
  = if decide (w = x) then b else isShowing s x.
Proof. unfold isShowing. rewrite wget_log, wget_wupd. by case_decide. Qed.

Lemma bool_other (b c : bool) : c ≠ b → c = negb b.
Proof. by destruct b, c. Qed.

Lemma flaggedLoop_nil b w s : flaggedLoop b w [] s s.
Proof.
  split; [reflexivity|]. split; [done|]. split.
  - intros c Hc. by apply elem_of_nil in Hc.
  - split.
    + intros x H1 H2. rewrite H1 in H2. by destruct b.
    + intros x p _ _ _ H1 H2. rewrite H1 in H2. by destruct b.
Qed.

Lemma flaggedLoop_app b w l1 l2 s0 sa s1 :
  flaggedLoop b w l1 s0 sa → flaggedLoop b w l2 sa s1 → flaggedLoop b w (l1 ++ l2) s0 s1.
Proof.
  intros (Hs1 & Hk1 & Hb1 & Hn1 & Hc1) (Hs2 & Hk2 & Hb2 & Hn2 & Hc2).
  split; [by etrans|]. split; [by auto|]. split; [|split].
  - intros c Hc Hp Hv. apply elem_of_app in Hc as [Hc|Hc].
    + apply Hk2. by apply Hb1.
    + apply Hb2; [done| |].
      * by rewrite (shape_parent _ _ _ Hs1).
      * by rewrite (shape_visible _ _ _ Hs1).
  - intros x H0 H1. destruct (decide (isShowing sa x = b)) as [Ha|Ha].
    + destruct (Hn1 x H0 Ha) as (Hv & p & Hp & Hq). split; [done|].
      exists p. split; [done|]. destruct Hq as [Hq|Hq]; [left; by apply Hk2 | by right].
    + apply bool_other in Ha. destruct (Hn2 x Ha H1) as (Hv & p & Hp & Hq).
      rewrite (shape_visible _ _ _ Hs1) in Hv. rewrite (shape_parent _ _ _ Hs1) in Hp.
      split; [done|]. by exists p.
  - intros x p Hp Hin Hv H0 H1. destruct (decide (isShowing sa p = b)) as [Ha|Ha].
    + apply Hk2. by eapply Hc1.
    + apply bool_other in Ha. eapply Hc2; try done.
      * by rewrite (shape_parent _ _ _ Hs1).
      * by rewrite (shape_children _ _ _ Hs1).
      * by rewrite (shape_visible _ _ _ Hs1).
Qed.

Lemma flaggedLoop_one b w c s s' :
  parentWidgetInternal (wget s c) = Some w → visibleInternal (wget s c) = true →
  flagged b c s s' → flaggedLoop b w [c] s s'.
Proof.
  intros Hpc Hvc [Hs Hself Hk Hn Hc]. split; [done|]. split; [done|]. split; [|split].
  - intros c' Hc' _ _. apply list_elem_of_singleton in Hc'. by subst.
  - intros x H0 H1. destruct (Hn x H0 H1) as [->|(Hv & p & Hp & Hq)].
    + split; [done|]. exists w. split; [done | by right].
    + split; [done|]. exists p. split; [done | by left].
  - done.
Qed.

(** The loop of [callOnVisibleChildren], for a pass that flags in the
    states that satisfy [I]. *)
Lemma flaggedLoop_forEach (rec : Call → State → Res State) (I : State → Prop) b pass w l s0 s1 :
  (∀ s s', sameShape s s' → I s → I s') →
  (∀ c s s', I s → rec (Process pass c) s = Ok s' → flagged b c s s') →
  I s0 →
  forEach (λ c s, if bool_decide (parentWidgetInternal (wget s c) = Some w)
                     && visibleInternal (wget s c)
                  then rec (Process pass c) s else Ok s) l s0 = Ok s1 →
  flaggedLoop b w l s0 s1.
Proof.
  intros HI Hrec. revert s0. induction l as [|c l IH]; intros s0 Hs0; simpl.
  - intros [= <-]. apply flaggedLoop_nil.
  - destruct (bool_decide _ && _) eqn:Hq.
    + apply andb_true_iff in Hq as [Hp Hv]. apply bool_decide_eq_true in Hp.
      destruct (rec (Process pass c) s0) as [sa| |] eqn:E; simpl; try done.
      intros Hl. pose proof (Hrec _ _ _ Hs0 E) as Hf.
      apply (flaggedLoop_app b w [c] l s0 sa s1).
      * by apply flaggedLoop_one.
      * apply IH; [|done]. eapply HI; [|done]. apply Hf.
    + simpl. intros Hl. apply (flaggedLoop_app b w [c] l s0 s0 s1); [|by apply IH].
      split; [reflexivity|]. split; [done|]. split; [|split].
      * intros c' Hc' Hp' Hv'. apply list_elem_of_singleton in Hc'. subst.
        rewrite Hp', Hv' in Hq. by rewrite bool_decide_eq_true_2 in Hq.
      * intros x H1 H2. rewrite H1 in H2. by destruct b.
      * intros x p _ _ _ H1 H2. rewrite H1 in H2. by destruct b.
Qed.

Lemma flaggedLoop_passive b w s s' : passive s s' → flaggedLoop b w [] s s'.
Proof.
  intros [Hs Hsh]. split; [done|]. split; [by intros x; rewrite Hsh|]. split; [|split].
  - intros c Hc. by apply elem_of_nil in Hc.
  - intros x H1 H2. rewrite Hsh, H1 in H2. by destruct b.
  - intros x p _ _ _ H1 H2. rewrite Hsh, H1 in H2. by destruct b.
Qed.

Lemma flaggedLoop_before b w l s s0 s1 :
  passive s s0 → flaggedLoop b w l s0 s1 → flaggedLoop b w l s s1.
Proof.
  intros Hp Hl. apply (flaggedLoop_app b w [] l s s0 s1); [|done].
  by apply flaggedLoop_passive.
Qed.

Lemma flaggedLoop_after b w l s s1 s2 :
  flaggedLoop b w l s s1 → passive s1 s2 → flaggedLoop b w l s s2.
Proof.
  intros Hl Hp. rewrite <- (app_nil_r l). apply (flaggedLoop_app b w l [] s s1 s2); [done|].
  by apply flaggedLoop_passive.
Qed.

(** Writing the flag of [w] after the loop over its children. *)
Lemma flagged_finish b w s s1 :
  flaggedLoop b w (childrenInternal (wget s w)) s s1 →
  flagged b w s (log (EvShowing w b) (wupd w (set_isShowingInternal b) s1)).
Proof.
  intros (Hs & Hk & Hb & Hn & Hc).
  split.
  - etrans; [exact Hs|]. transitivity (wupd w (set_isShowingInternal b) s1);
      [by apply sameShape_wupd | apply sameShape_log].
  - rewrite isShowing_set. by case_decide.
  - intros x Hx. rewrite isShowing_set. case_decide; [done | by apply Hk].
  - intros x H0 H1. rewrite isShowing_set in H1.
    destruct (decide (w = x)) as [->|Hne]; [by left | right].
    destruct (Hn x H0 H1) as (Hv & p & Hp & Hq). split; [done|].
    exists p. split; [done|]. rewrite isShowing_set.
    case_decide; [done|]. by destruct Hq.
  - intros x p Hp Hin Hv H0 H1. rewrite isShowing_set in H1. rewrite isShowing_set.
    destruct (decide (w = x)) as [|Hne]; [done|].
    destruct (decide (w = p)) as [<-|Hnp].
    + by apply Hb.
    + by eapply Hc.
Qed.

Lemma processWillShow_flagged (rec : Call → State → Res State) w s s' :
  (∀ c s s', rec (Process WillShowPass c) s = Ok s' → flagged true c s s') →
  processWillShow rec w s = Ok s' → flagged true w s s'.
Proof.
  intros Hrec. unfold processWillShow, callOnVisibleChildren.
  destruct (forEach _ _ _) as [s1| |] eqn:E; simpl; try done.
  intros [= <-]. apply flagged_finish.
  eapply (flaggedLoop_forEach rec (λ _, True)); [done | | done | exact E].
  intros c sa sb _. apply Hrec.
Qed.

Lemma exec_willShow_flagged fuel w s s' :
  exec fuel (Process WillShowPass w) s = Ok s' → flagged true w s s'.
Proof.
  revert w s s'. induction fuel as [|f IH]; intros w s s'; [done|].
  simpl. by apply processWillShow_flagged.
Qed.

Lemma idle_sameShape s s' : sameShape s s' → idle s → idle s'.
Proof. intros H Hi w. rewrite (shape_depth _ _ _ H). apply Hi. Qed.

Lemma inNotification_idle fuel s w b :
  idle s → inNotification fuel s w = Some b → b = false.
Proof.
  intros Hi H. destruct b; [|done]. by apply inNotification_zero in H.
Qed.

Lemma processWillHide_flagged fuel (rec : Call → State → Res State) w s s' :
  (∀ c s s', quiet s ∧ idle s → rec (Process WillHidePass c) s = Ok s' → flagged false c s s') →
  quiet s → idle s →
  processWillHide fuel rec w s = Ok s' → flagged false w s s'.
Proof.
  intros Hrec Hq Hi. unfold processWillHide.
  destruct (inNotification fuel s w) as [b|] eqn:Hin; simpl; [|done].
  apply (inNotification_idle _ _ _ _ Hi) in Hin. subst b.
  unfold callOnVisibleChildren.
  pose proof (storeScrollPositions_passive w s) as Hst.
  set (s0 := storeScrollPositions w s) in *.
  destruct (forEach _ _ _) as [s1| |] eqn:E; simpl; try done.
  assert (Hl : flaggedLoop false w (childrenInternal (wget s w)) s s1).
  { apply (flaggedLoop_before _ _ _ s s0 s1); [done|].
    rewrite <- (shape_children s s0 w) by apply Hst.
    eapply (flaggedLoop_forEach rec (λ s, quiet s ∧ idle s)); [| |split|exact E].
    - intros sa sb Hab [? ?]. split; [by eapply quiet_sameShape | by eapply idle_sameShape].
    - done.
    - by eapply quiet_passive.
    - eapply idle_sameShape; [apply Hst | done]. }
  assert (Hq1 : quiet s1) by (eapply quiet_sameShape; [apply Hl | done]).
  destruct (notify_quiet rec WillHide w s1 Hq1) as (s2 & -> & Hw & Hn & Hm & Hc & _ & Ha & Ht).
  simpl. intros [= <-]. apply flagged_finish.
  apply (flaggedLoop_after _ _ _ s s1 s2); [done|].
  apply passive_same_widgets; try done.
  - intros n. unfold nget. by rewrite Hn.
  - rewrite Ht. by apply prefix_app_r.
Qed.

Lemma exec_willHide_flagged fuel w s s' :
  quiet s → idle s →
  exec fuel (Process WillHidePass w) s = Ok s' → flagged false w s s'.
Proof.
  revert w s s'. induction fuel as [|f IH]; intros w s s' Hq Hi; [done|].
  simpl. apply processWillHide_flagged; try done.
  intros c sa sb [? ?]. by apply IH.
Qed.

(** ** The showing invariant *)

Lemma returns_ok s (Q : State → Prop) : Q s → returns (Ok s) Q.
Proof. intros H s' [= <-]. done. Qed.

Lemma returns_throw s (Q : State → Prop) : returns (Throw s) Q.
Proof. done. Qed.

Lemma returns_bind (r : Res State) (k : State → Res State) (Q1 Q : State → Prop) :
  returns r Q1 → (∀ s1, Q1 s1 → returns (k s1) Q) → returns (r ≫= k) Q.
Proof.
  intros Hr Hk s'. destruct r as [s1| |]; simpl; try done.
  apply Hk. by apply Hr.
Qed.

Lemma returns_fromFuel {A} (o : option A) (k : A → Res State) (Q : State → Prop) :
  (∀ a, o = Some a → returns (k a) Q) → returns (fromFuel o ≫= k) Q.
Proof. destruct o; simpl; [|done]. intros H. by apply H. Qed.

Lemma returns_assert b s (Q : State → Prop) : (b = true → Q s) → returns (assert b s) Q.
Proof. destruct b; simpl; [|done]. intros H s' [= <-]. by apply H. Qed.

Lemma returns_assert_bind b s (k : State → Res State) (Q : State → Prop) :
  (b = true → returns (k s) Q) → returns (assert b s ≫= k) Q.
Proof. destruct b; simpl; [auto | done]. Qed.

Lemma returns_post R s r (Q : State → Prop) :
  post R s r → (∀ s', R s s' → Q s') → returns r Q.
Proof. intros Hp HQ s' ->. by apply HQ. Qed.

Lemma returns_weaken r (Q1 Q : State → Prop) :
  returns r Q1 → (∀ s, Q1 s → Q s) → returns r Q.
Proof. intros H HQ s' Hr. by apply HQ, H. Qed.

Lemma returns_forEach {A} (body : A → State → Res State) (I : State → Prop) l s :
  I s → (∀ x s1, x ∈ l → I s1 → returns (body x s1) I) → returns (forEach body l s) I.
Proof.
  revert s. induction l as [|x l IH]; intros s Hs Hb; simpl; [by apply returns_ok|].
  eapply returns_bind.
  - apply Hb; [apply list_elem_of_here | done].
  - intros s1 H1. apply IH; [done|]. intros y s2 Hy. apply Hb. by apply list_elem_of_further.
Qed.

(** *** What the shape decides *)
Lemma parentElement_sameShape s s' n : sameShape s s' → parentElement s' n = parentElement s n.
Proof.
  intros H. unfold parentElement, isElement.
  pose proof (shape_nodes _ _ H n) as Hn. apply (f_equal parentNode) in Hn. simpl in Hn.
  rewrite Hn. destruct (parentNode (nget s n)) as [p|]; [|done].
  pose proof (shape_nodes _ _ H p) as Hp. apply (f_equal nkind) in Hp. simpl in Hp.
  by rewrite Hp.
Qed.

Lemma live_sameShape s s' w : sameShape s s' → live s' w ↔ live s w.
Proof.
  intros H. unfold live.
  by rewrite (shape_visible _ _ _ H), (shape_parent _ _ _ H), (shape_isRoot _ _ _ H).
Qed.

Lemma registered_sameShape s s' w : sameShape s s' → registered s' w ↔ registered s w.
Proof.
  intros H. unfold registered.
  by rewrite (shape_element _ _ _ H), (shape_widgetMap _ _ H).
Qed.

Lemma wellFormed_sameShape s s' : sameShape s s' → wellFormed s → wellFormed s'.
Proof.
  intros H [Hq Hi Hc Hr Ho Hg]. split.
  - by eapply quiet_sameShape.
  - by eapply idle_sameShape.
  - intros c p. rewrite (shape_parent _ _ _ H), (shape_children _ _ _ H). apply Hc.
  - intros w. rewrite (shape_parent _ _ _ H), (shape_isRoot _ _ _ H). apply Hr.
  - intros w. rewrite (shape_parent _ _ _ H), (shape_isRoot _ _ _ H), (shape_visible _ _ _ H).
    apply Ho.
  - intros w. rewrite (live_sameShape _ _ _ H), (registered_sameShape _ _ _ H). apply Hg.
Qed.

Lemma attachedAt_sameShape s s' w : sameShape s s' → attachedAt s w → attachedAt s' w.
Proof.
  intros H. unfold attachedAt.
  by rewrite (shape_visible _ _ _ H), (shape_parent _ _ _ H), (shape_element _ _ _ H),
    (parentElement_sameShape _ _ _ H).
Qed.

Lemma parentIsShowing_passive s s' w : passive s s' → parentIsShowing s' w = parentIsShowing s w.
Proof.
  intros [H Hs]. unfold parentIsShowing.
  rewrite (shape_isRoot _ _ _ H), (shape_parent _ _ _ H).
  destruct (isRoot (wget s w)); [done|]. destruct (parentWidgetInternal (wget s w)); [|done].
  apply Hs.
Qed.

Lemma showingAt_passive s s' w : passive s s' → showingAt s w → showingAt s' w.
Proof.
  intros H. unfold showingAt.
  rewrite (parentIsShowing_passive _ _ _ H). destruct H as [H Hs].
  by rewrite Hs, (shape_visible _ _ _ H).
Qed.

Lemma consistent_passive s s' : passive s s' → consistent s → consistent s'.
Proof.
  intros H [Hw Ha Hs]. split.
  - eapply wellFormed_sameShape; [apply H | done].
  - intros w. eapply attachedAt_sameShape; [apply H | done].
  - intros w. by eapply showingAt_passive.
Qed.

(** *** The flags after a will-show or will-hide pass *)
Lemma showingAt_flagged_true w s s' :
  flagged true w s s' →
  (∀ c p, parentWidgetInternal (wget s c) = Some p → c ∈ childrenInternal (wget s p)) →
  (∀ x, x ≠ w → showingAt s x) →
  visibleInternal (wget s w) = true → parentIsShowing s w = true →
  ∀ x, showingAt s' x.
Proof.
  intros [Hs Hself Hk Hn Hc] Hch Hinv Hv Hps x. unfold showingAt, parentIsShowing.
  rewrite (shape_visible _ _ _ Hs), (shape_isRoot _ _ _ Hs), (shape_parent _ _ _ Hs).
  destruct (decide (x = w)) as [->|Hne].
  - rewrite Hself, Hv. simpl. unfold parentIsShowing in Hps.
    destruct (isRoot (wget s w)); [done|].
    destruct (parentWidgetInternal (wget s w)) as [p|]; [|done].
    symmetry. by apply Hk.
  - specialize (Hinv x Hne). unfold showingAt, parentIsShowing in Hinv.
    destruct (isShowing s' x) eqn:Hx'.
    + destruct (isShowing s x) eqn:Hx.
      * symmetry in Hinv. apply andb_true_iff in Hinv as [-> Hp]. simpl.
        destruct (isRoot (wget s x)); [done|].
        destruct (parentWidgetInternal (wget s x)) as [p|]; [|done].
        symmetry. by apply Hk.
      * destruct (Hn x Hx Hx') as [->|(Hvx & p & Hp & Hq)]; [done|].
        rewrite Hvx, Hp, Hq. by destruct (isRoot (wget s x)).
    + destruct (visibleInternal (wget s x)) eqn:Hvx; [|done]. simpl.
      destruct (isShowing s x) eqn:Hx; [by rewrite (Hk x Hx) in Hx'|].
      simpl in Hinv. destruct (isRoot (wget s x)); [done|]. simpl.
      destruct (parentWidgetInternal (wget s x)) as [p|] eqn:Hp; [|done].
      destruct (isShowing s' p) eqn:Hp'; [|done].
      assert (isShowing s' x = true); [|congruence].
      eapply Hc; try done. by apply Hch.
Qed.

Lemma showingAt_flagged_false w s s' :
  flagged false w s s' →
  (∀ c p, parentWidgetInternal (wget s c) = Some p → c ∈ childrenInternal (wget s p)) →
  (∀ x, isRoot (wget s x) = true → parentWidgetInternal (wget s x) = None) →
  (∀ x, x ≠ w → showingAt s x) →
  visibleInternal (wget s w) = false →
  ∀ x, showingAt s' x.
Proof.
  intros [Hs Hself Hk Hn Hc] Hch Hroot Hinv Hv x. unfold showingAt, parentIsShowing.
  rewrite (shape_visible _ _ _ Hs), (shape_isRoot _ _ _ Hs), (shape_parent _ _ _ Hs).
  destruct (decide (x = w)) as [->|Hne].
  - by rewrite Hself, Hv.
  - specialize (Hinv x Hne). unfold showingAt, parentIsShowing in Hinv.
    destruct (isShowing s' x) eqn:Hx'.
    + assert (Hx : isShowing s x = true).
      { destruct (isShowing s x) eqn:Hx; [done|]. by rewrite (Hk x Hx) in Hx'. }
      rewrite Hx in Hinv. symmetry in Hinv. apply andb_true_iff in Hinv as [Hvx Hp].
      rewrite Hvx. simpl.
      destruct (isRoot (wget s x)); [done|]. simpl in *.
      destruct (parentWidgetInternal (wget s x)) as [p|] eqn:Hpx; [|done].
      destruct (isShowing s' p) eqn:Hp'; [done|].
      assert (isShowing s' x = false); [|congruence].
      eapply Hc; try done. by apply Hch.
    + destruct (isShowing s x) eqn:Hx.
      * destruct (Hn x Hx Hx') as [->|(_ & p & Hp & Hq)]; [done|].
        rewrite Hp, Hq. destruct (isRoot (wget s x)) eqn:Hr.
        { apply Hroot in Hr. congruence. }
        by rewrite andb_false_r.
      * destruct (visibleInternal (wget s x)); [|done]. simpl in *.
        destruct (isRoot (wget s x)); [done|]. simpl in *.
        destruct (parentWidgetInternal (wget s x)) as [p|]; [|done].
        destruct (isShowing s' p) eqn:Hp'; [|done].
        destruct (isShowing s p) eqn:Hp0; [done|]. by rewrite (Hk p Hp0) in Hp'.
Qed.

Lemma wellFormed_sameWidgets s s' : sameWidgets s s' → wellFormed s → wellFormed s'.
Proof.
  intros [Hw Hm] [Hq Hi Hc Hr Ho Hg]. split.
  - intros w h. rewrite Hw. apply Hq.
  - intros w. rewrite Hw. apply Hi.
  - intros c p. rewrite !Hw. apply Hc.
  - intros w. rewrite Hw. apply Hr.
  - intros w. rewrite Hw. apply Ho.
  - intros w. unfold live, registered. rewrite Hw, Hm. apply Hg.
Qed.

Lemma showingAt_sameWidgets s s' w : sameWidgets s s' → showingAt s w → showingAt s' w.
Proof.
  intros [Hw _]. unfold showingAt, parentIsShowing, isShowing. rewrite !Hw.
  destruct (parentWidgetInternal (wget s w)) as [p|]; [by rewrite Hw | done].
Qed.

Lemma parentElement_nupd_ne s e f n :
  n ≠ e → (∀ y, nkind (f y) = nkind y) → parentElement (nupd e f s) n = parentElement s n.
Proof.
  intros Hne Hk. unfold parentElement, isElement. rewrite nget_nupd_ne by done.
  destruct (parentNode (nget s n)) as [p|]; [|done]. by rewrite nkind_nupd.
Qed.

Lemma registered_inj s x w : registered s x → registered s w → element (wget s x) = element (wget s w) → x = w.
Proof. unfold registered. intros Hx Hw He. rewrite He in Hx. congruence. Qed.

Lemma sameWidgets_nupd n f s : sameWidgets s (nupd n f s).
Proof. by split. Qed.

Lemma sameWidgets_counters s s' : sameButCounters s s' → sameWidgets s s'.
Proof. intros H. split; [intros w; by apply wget_sameButCounters | apply H]. Qed.

Lemma sameWidgets_trans s1 s2 s3 : sameWidgets s1 s2 → sameWidgets s2 s3 → sameWidgets s1 s3.
Proof. intros [H1 H1'] [H2 H2']. split; [intros w; by rewrite H2, H1 | congruence]. Qed.

(** Taking the element of [w] out of the document leaves the other
    registered widgets attached. *)
Lemma attachedAt_nupd_other s w f x :
  registered s w → (live s x → registered s x) → x ≠ w →
  (∀ y, nkind (f y) = nkind y) →
  attachedAt s x → attachedAt (nupd (element (wget s w)) f s) x.
Proof.
  intros Hw Hx Hne Hk Ha Hprem. unfold attachedAt in Ha. rewrite wget_nupd in *.
  rewrite parentElement_nupd_ne; [by apply Ha | | done].
  intros He. apply Hne. apply (registered_inj s); [|done|done].
  apply Hx. unfold live. tauto.
Qed.

Lemma forceRemove_returns s w pe (Q : State → Prop) :
  registered s w →
  (∀ s', sameWidgets s s' →
         (∀ x, x ≠ w → (live s x → registered s x) → attachedAt s x → attachedAt s' x) → Q s') →
  returns (forceRemove pe w s) Q.
Proof.
  intros Hw HQ. unfold forceRemove, originalRemoveChild.
  destruct pe as [pe|]; [|apply returns_ok, HQ; [by split | done]].
  pose proof (decrementWidgetCounter_same pe (element (wget s w)) s) as Hsame.
  set (s1 := decrementWidgetCounter pe (element (wget s w)) s) in *.
  case_bool_decide; [|apply returns_throw].
  apply returns_ok, HQ.
  - eapply sameWidgets_trans; [by apply sameWidgets_counters | apply sameWidgets_nupd].
  - intros x Hne Hreg Ha.
    assert (Ha1 : attachedAt s1 x).
    { unfold attachedAt. rewrite (wget_sameButCounters _ _ _ Hsame).
      by rewrite (parentElement_sameButCounters _ _ _ Hsame). }
    rewrite <- (wget_sameButCounters s s1 w Hsame).
    apply attachedAt_nupd_other; try done.
    + unfold registered. rewrite (wget_sameButCounters _ _ _ Hsame).
      destruct Hsame as (_&_&->&_). done.
    + unfold live, registered. rewrite (wget_sameButCounters _ _ _ Hsame).
      destruct Hsame as (_&_&->&_). done.
Qed.

Lemma parentElement_nupd_keep s e f n :
  (∀ y, parentNode (f y) = parentNode y) → (∀ y, nkind (f y) = nkind y) →
  parentElement (nupd e f s) n = parentElement s n.
Proof.
  intros Hp Hk. unfold parentElement, isElement. rewrite nget_nupd.
  case_decide; subst; rewrite ?Hp; (destruct (parentNode (nget s n)) as [p|]; [|done]);
    by rewrite nkind_nupd.
Qed.

Lemma hiddenOk_passive b w root s s' : passive s s' → hiddenOk b w root s → hiddenOk b w root s'.
Proof.
  intros H (Hwf & Hsh & Hat & Hatw & Hv & Hr). pose proof (proj1 H) as Hs.
  split; [by eapply wellFormed_sameShape|].
  split; [intros x; by eapply showingAt_passive|].
  split; [intros x Hx; eapply attachedAt_sameShape; [done | by apply Hat]|].
  split; [intros Hb; eapply attachedAt_sameShape; [done | by apply Hatw]|].
  by rewrite (shape_visible _ _ _ Hs), (shape_isRoot _ _ _ Hs).
Qed.

Lemma wellFormed_hide s w :
  wellFormed s → wellFormed (wupd w (set_visibleInternal false) s).
Proof.
  intros [Hq Hi Hc Hr Ho Hg]. split.
  - intros x h. rewrite (wget_wupd_field (λ y, hooks y h)) by done. apply Hq.
  - intros x. rewrite (wget_wupd_field notificationDepth) by done. apply Hi.
  - intros c p. rewrite (wget_wupd_field parentWidgetInternal),
      (wget_wupd_field childrenInternal) by done. apply Hc.
  - intros x. rewrite (wget_wupd_field parentWidgetInternal), (wget_wupd_field isRoot) by done.
    apply Hr.
  - intros x. rewrite (wget_wupd_field parentWidgetInternal), (wget_wupd_field isRoot) by done.
    rewrite wget_wupd. case_decide; [done | apply Ho].
  - intros x Hl. unfold registered. rewrite (wget_wupd_field element) by done.
    apply Hg. unfold live in *.
    rewrite (wget_wupd_field parentWidgetInternal), (wget_wupd_field isRoot) in Hl by done.
    rewrite wget_wupd in Hl. case_decide; [subst|done].
    destruct Hl as [Hl|Hl]; [done | tauto].
Qed.

Lemma showingAt_other_visible s w b x :
  x ≠ w → showingAt s x → showingAt (wupd w (set_visibleInternal b) s) x.
Proof.
  intros Hne. unfold showingAt, parentIsShowing, isShowing.
  rewrite (wget_wupd_ne _ w x) by done.
  destruct (parentWidgetInternal (wget s x)) as [p|]; [|done].
  by rewrite (wget_wupd_field isShowingInternal).
Qed.

Lemma hideWidgetInternal_consistent f w b s :
  consistent s → visibleInternal (wget s w) = true →
  returns (hideWidgetInternal f (exec f) w b s) (hiddenOk b w (isRoot (wget s w))).
Proof.
  intros [Hwf Hat Hsh] Hv. unfold hideWidgetInternal. cbv zeta.
  set (s0 := wupd w (set_visibleInternal false) s).
  assert (Hwf0 : wellFormed s0) by by apply wellFormed_hide.
  assert (He0 : element (wget s0 w) = element (wget s w)).
  { unfold s0. by rewrite (wget_wupd_field element). }
  assert (Hpe0 : parentElement s0 (element (wget s0 w)) ≠ None).
  { rewrite He0. apply Hat. by left. }
  assert (Hreg0 : registered s0 w).
  { unfold registered. rewrite He0. apply (wf_registered _ Hwf). by left. }
  assert (Hat0 : ∀ x, attachedAt s0 x).
  { intros x Hp. unfold s0 in *. rewrite (wget_wupd_field element) by done.
    rewrite (wget_wupd_field parentWidgetInternal) in Hp by done.
    rewrite wget_wupd in Hp. apply Hat. case_decide; [subst; by left|done]. }
  assert (Hv0 : visibleInternal (wget s0 w) = false).
  { unfold s0. by rewrite wget_wupd_eq. }
  assert (Hr0 : isRoot (wget s0 w) = isRoot (wget s w)).
  { unfold s0. by rewrite (wget_wupd_field isRoot). }
  assert (Hps0 : parentIsShowing s0 w = parentIsShowing s w).
  { unfold parentIsShowing, isShowing, s0.
    rewrite (wget_wupd_field isRoot), (wget_wupd_field parentWidgetInternal) by done.
    destruct (parentWidgetInternal (wget s w)); [|done].
    by rewrite (wget_wupd_field isShowingInternal). }
  assert (Hsh0 : ∀ x, x ≠ w → showingAt s0 x).
  { intros x Hx. by apply showingAt_other_visible. }
  assert (Hshw : parentIsShowing s0 w = false → showingAt s0 w).
  { intros Hps. unfold showingAt. rewrite Hv0. simpl.
    unfold isShowing, s0. rewrite (wget_wupd_field isShowingInternal) by done.
    pose proof (Hsh w) as Hw. unfold showingAt, isShowing in Hw. rewrite Hw, Hv. simpl.
    by rewrite <- Hps0. }
  clearbody s0.
  set (H1 := λ s1, wellFormed s1 ∧ (∀ x, showingAt s1 x) ∧ (∀ x, attachedAt s1 x)
                   ∧ visibleInternal (wget s1 w) = false
                   ∧ isRoot (wget s1 w) = isRoot (wget s w) ∧ registered s1 w
                   ∧ parentElement s1 (element (wget s1 w)) = parentElement s0 (element (wget s0 w))).
  apply (returns_bind _ _ H1).
  { destruct (parentIsShowing s0 w) eqn:Hps.
    - intros s1 Hs1.
      apply processWillHide_flagged in Hs1;
        [|intros c sa sb [? ?]; by apply exec_willHide_flagged|apply Hwf0|apply Hwf0].
      pose proof (fl_shape _ _ _ _ Hs1) as Hs.
      split; [by eapply wellFormed_sameShape|]. split.
      { eapply showingAt_flagged_false; try done; apply Hwf0. }
      split; [intros x; by eapply attachedAt_sameShape|].
      rewrite (shape_visible _ _ _ Hs), (shape_isRoot _ _ _ Hs), (shape_element _ _ _ Hs),
        (parentElement_sameShape _ _ _ Hs).
      split; [done|]. split; [congruence|]. split; [|done].
      by apply (registered_sameShape _ _ _ Hs).
    - apply returns_ok. split; [done|]. split.
      { intros x. destruct (decide (x = w)) as [->|Hne]; [by apply Hshw | by apply Hsh0]. }
      split; [done|]. split; [done|]. split; [congruence|]. by split. }
  intros s1 (Hwf1 & Hsh1 & Hat1 & Hv1 & Hr1 & Hreg1 & Hpe1).
  assert (Hq : ∀ s2, hiddenOk b w (isRoot (wget s w)) s2 →
    returns
      ((if parentIsShowing s2 w then processWasHidden (exec f) w s2 else Ok s2) ≫= λ s3,
         match parentWidgetInternal (wget s3 w) with
         | Some p =>
             fromFuel (hasNonZeroConstraints f w s3) ≫= λ '(nz, s4),
               if nz : bool then invalidateConstraints f (exec f) p s4 else Ok s4
         | None => Ok s3
         end)
      (hiddenOk b w (isRoot (wget s w)))).
  { intros s2 H2. pose proof H2 as (Hwf2 & _).
    apply (returns_bind _ _ (hiddenOk b w (isRoot (wget s w)))).
    - destruct (parentIsShowing s2 w); [|by apply returns_ok].
      eapply returns_post.
      + apply (processWasHidden_passive (exec f) (exec_passive f)). apply Hwf2.
      + intros s3 Hp. by eapply hiddenOk_passive.
    - intros s3 H3. pose proof H3 as (Hwf3 & _).
      destruct (parentWidgetInternal (wget s3 w)) as [p|]; [|by apply returns_ok].
      apply returns_fromFuel. intros [nz s4] Hc. apply hasNonZeroConstraints_passive in Hc.
      assert (H4 : hiddenOk b w (isRoot (wget s w)) s4) by by eapply hiddenOk_passive.
      destruct nz; [|by apply returns_ok].
      eapply returns_post.
      + apply (invalidateConstraints_passive f (exec f) (exec_passive f)). apply H4.
      + intros s5 Hp. by eapply hiddenOk_passive. }
  apply (returns_bind _ _ (hiddenOk b w (isRoot (wget s w)))); [|exact Hq].
  destruct b.
  - apply (returns_bind _ _ (hiddenOk true w (isRoot (wget s w)))).
    + apply forceRemove_returns; [done|]. intros s2 Hsw Hoth.
      split; [by eapply wellFormed_sameWidgets|].
      split; [intros x; by eapply showingAt_sameWidgets|].
      split; [intros x Hx; apply Hoth; [done| apply (wf_registered _ Hwf1) | apply Hat1]|].
      split; [done|]. destruct Hsw as [Hsw _]. rewrite Hsw. by split.
    + intros s2 H2. rewrite callHook_quiet by apply H2.
      apply returns_ok. eapply hiddenOk_passive; [apply passive_log | done].
  - apply returns_ok.
    assert (Hsw : sameWidgets s1 (nupd (element (wget s1 w)) (set_hiddenClass true) s1))
      by apply sameWidgets_nupd.
    assert (Hall : ∀ x, attachedAt (nupd (element (wget s1 w)) (set_hiddenClass true) s1) x).
    { intros x. unfold attachedAt. rewrite wget_nupd.
      rewrite parentElement_nupd_keep by done. apply Hat1. }
    split; [by eapply wellFormed_sameWidgets|].
    split; [intros x; by eapply showingAt_sameWidgets|].
    split; [intros x _; apply Hall|]. split; [intros _; apply Hall|].
    by rewrite wget_nupd.
Qed.

(** *** Detaching *)
Lemma indexOf_Some (x : nat) (l : list nat) (i : nat) : indexOf x l = Some i → l !! i = Some x.
Proof.
  revert i. induction l as [|y l IH]; intros i; simpl; [done|].
  case_bool_decide; [by intros [= <-]; subst|].
  destruct (indexOf x l) as [j|]; simpl; [|done]. intros [= <-]. by apply IH.
Qed.

Lemma elem_of_delete_other (c w : nat) (l : list nat) (i : nat) :
  c ∈ l → c ≠ w → l !! i = Some w → c ∈ delete i l.
Proof.
  intros Hc Hne Hi. apply list_elem_of_lookup in Hc as [j Hj].
  destruct (decide (j < i)) as [Hlt|Hge].
  - apply list_elem_of_lookup. exists j. by rewrite list_lookup_delete_lt.
  - assert (j ≠ i) by (intros ->; congruence).
    apply list_elem_of_lookup. exists (j - 1). rewrite list_lookup_delete_ge by lia.
    replace (S (j - 1)) with j by lia. done.
Qed.

Lemma updateHierarchy_consistent rec w s :
  wellFormed s → (∀ x, showingAt s x) → (∀ x, x ≠ w → attachedAt s x) →
  visibleInternal (wget s w) = false →
  returns (updateHierarchy rec w s) (detachedOk w (isRoot (wget s w))).
Proof.
  intros Hwf Hsh Hat Hv. unfold updateHierarchy.
  destruct (parentWidgetInternal (wget s w)) as [p|] eqn:Hp.
  2:{ apply returns_assert. intros Hr. split; [|done]. split; [done| |done].
      intros x. destruct (decide (x = w)) as [->|Hne]; [|by apply Hat].
      intros [?|?]; congruence. }
  destruct (indexOf w (childrenInternal (wget s p))) as [i|] eqn:Hi; [|apply returns_throw].
  apply indexOf_Some in Hi. cbv zeta.
  set (s1 := wupd p (λ x, set_childrenInternal (delete i (childrenInternal x)) x) s).
  set (s2 := if bool_decide (defaultFocusedChild (wget s1 p) = Some w)
             then wupd p (set_defaultFocusedChild None) s1 else s1).
  assert (Hq2 : quiet s2).
  { intros x h. unfold s2, s1. case_bool_decide;
      rewrite ?(wget_wupd_field (λ y, hooks y h)) by done; apply Hwf. }
  rewrite callHook_quiet by done. simpl. apply returns_ok.
  set (s' := wupd w (set_parentWidgetInternal None) (log (EvHook ChildWasDetached p) s2)).
  assert (Hfield : ∀ {A} (proj : Widget → A),
    (∀ y l, proj (set_childrenInternal l y) = proj y) →
    (∀ y c, proj (set_defaultFocusedChild c y) = proj y) →
    (∀ y c, proj (set_parentWidgetInternal c y) = proj y) →
    ∀ x, proj (wget s' x) = proj (wget s x)).
  { intros A proj H1 H2 H3 x. unfold s'. rewrite (wget_wupd_field proj) by done.
    rewrite wget_log. unfold s2, s1. case_bool_decide;
      rewrite ?(wget_wupd_field proj) by done; done. }
  assert (Hpar : ∀ x, parentWidgetInternal (wget s' x)
                      = if decide (w = x) then None else parentWidgetInternal (wget s x)).
  { intros x. unfold s'. rewrite wget_wupd. case_decide; [done|].
    rewrite wget_log. unfold s2, s1. case_bool_decide;
      rewrite ?(wget_wupd_field parentWidgetInternal) by done; done. }
  assert (Hchi : ∀ x, childrenInternal (wget s' x)
                      = if decide (p = x) then delete i (childrenInternal (wget s p))
                        else childrenInternal (wget s x)).
  { intros x. unfold s'. rewrite (wget_wupd_field childrenInternal) by done.
    rewrite wget_log. unfold s2. case_bool_decide;
      rewrite ?(wget_wupd_field childrenInternal) by done; unfold s1; rewrite wget_wupd;
      by case_decide. }
  assert (Hnodes : ∀ n, parentElement s' n = parentElement s n).
  { intros n. apply parentElement_nodes. unfold s', s2, s1. by case_bool_decide. }
  assert (Hmap : widgetMap s' = widgetMap s).
  { unfold s', s2, s1. by case_bool_decide. }
  clearbody s'. clear s1 s2 Hq2.
  pose proof (Hfield _ visibleInternal) as Hvis.
  pose proof (Hfield _ isRoot) as Hroot.
  pose proof (Hfield _ isShowingInternal) as Hshow.
  pose proof (Hfield _ element) as Helt.
  pose proof (Hfield _ notificationDepth) as Hdep.
  pose proof (Hfield _ hooks) as Hhk.
  destruct Hwf as [Hq Hid Hc Hr Ho Hg].
  split; [|split; [rewrite Hpar; by case_decide | by apply Hroot]].
  split; [split|..].
  - intros x h. rewrite Hhk by done. apply Hq.
  - intros x. rewrite Hdep by done. apply Hid.
  - intros c q. rewrite Hpar, Hchi. case_decide; [done|]. intros Hcq.
    apply Hc in Hcq. case_decide; [subst q|done]. by eapply elem_of_delete_other.
  - intros x. rewrite Hroot by done. rewrite Hpar. case_decide; [done | apply Hr].
  - intros x. rewrite Hroot, Hvis by done. rewrite Hpar.
    case_decide; [subst; by intros _ _ | apply Ho].
  - intros x Hl. unfold registered. rewrite Helt, Hmap by done. apply Hg.
    unfold live in *. rewrite Hvis, Hroot in Hl by done. rewrite Hpar in Hl.
    case_decide; [subst|done]. destruct Hl as [?|[?|?]]; [by left | done | by right; right].
  - intros x. unfold attachedAt. rewrite Hvis, Helt by done. rewrite Hpar, Hnodes.
    case_decide; [subst; intros [?|?]; congruence|]. apply Hat. congruence.
  - intros x. unfold showingAt, parentIsShowing, isShowing.
    rewrite Hshow, Hvis, Hroot by done. rewrite Hpar.
    pose proof (Hsh x) as Hx. unfold showingAt, parentIsShowing, isShowing in Hx.
    case_decide; [subst x|].
    + rewrite Hv in *. done.
    + destruct (parentWidgetInternal (wget s x)); [|done]. by rewrite Hshow.
Qed.

Lemma detach_consistent f w o s :
  consistent s → returns (detach f (exec f) w o s) (detachedOk w (isRoot (wget s w))).
Proof.
  intros Hcs. pose proof Hcs as [Hwf Hat Hsh]. unfold detach.
  destruct (bool_decide _ && negb _) eqn:Hearly.
  { apply returns_ok. apply andb_true_iff in Hearly as [Hp _].
    apply bool_decide_eq_true in Hp. by split. }
  assert (Hlive : live s w).
  { unfold live. apply andb_false_iff in Hearly as [Hp|Hr].
    - apply bool_decide_eq_false in Hp. tauto.
    - apply negb_false_iff in Hr. tauto. }
  assert (Hrest : ∀ b : bool,
    returns
      ((if visibleInternal (wget s w) then hideWidgetInternal f (exec f) w b s
        else if b then forceRemove (parentElement s (element (wget s w))) w s else Ok s)
       ≫= λ s0, updateHierarchy (exec f) w s0)
      (detachedOk w (isRoot (wget s w)))).
  { intros b. destruct (visibleInternal (wget s w)) eqn:Hv.
    - apply (returns_bind _ _ (hiddenOk b w (isRoot (wget s w)))).
      + by apply hideWidgetInternal_consistent.
      + intros s1 (Hwf1 & Hsh1 & Hat1 & _ & Hv1 & Hr1). rewrite <- Hr1.
        by apply updateHierarchy_consistent.
    - set (Q1 := λ s1, wellFormed s1 ∧ (∀ x, showingAt s1 x) ∧ (∀ x, x ≠ w → attachedAt s1 x)
                       ∧ visibleInternal (wget s1 w) = false
                       ∧ isRoot (wget s1 w) = isRoot (wget s w)).
      apply (returns_bind _ _ Q1).
      + destruct b.
        2:{ apply returns_ok. split; [done|]. split; [done|].
            split; [intros x _; apply Hat|]. by split. }
        apply forceRemove_returns; [by apply (wf_registered _ Hwf)|]. intros s1 Hsw Hoth.
        split; [by eapply wellFormed_sameWidgets|].
        split; [intros x; by eapply showingAt_sameWidgets|].
        split; [intros x Hx; apply Hoth; [done | apply (wf_registered _ Hwf) | apply Hat]|].
        destruct Hsw as [Hsw _]. rewrite Hsw. by split.
      + intros s1 (Hwf1 & Hsh1 & Hat1 & Hv1 & Hr1). rewrite <- Hr1.
        by apply updateHierarchy_consistent. }
  destruct o; simpl; [apply Hrest|].
  destruct (shouldHideOnDetach f s w); simpl; [apply Hrest | done].
Qed.

Lemma detachChildWidgets_consistent f w s :
  consistent s → returns (detachChildWidgets f (exec f) w s) consistent.
Proof.
  intros Hcs. unfold detachChildWidgets. apply returns_forEach; [done|].
  intros c s1 _ H1. eapply returns_weaken; [by apply detach_consistent|].
  by intros s2 [? _].
Qed.

Lemma attach_consistent f w cw s :
  consistent s → isRoot (wget s w) = false → registered s w →
  returns (attach f (exec f) w cw s) (attachedOk w).
Proof.
  intros Hcs Hnr Hreg. unfold attach.
  case_bool_decide as Hsame.
  { apply returns_ok. destruct Hcs as [? Hat ?]. split; [done|]. split; [done|].
    split; [intros x _; apply Hat | intros _; apply Hat]. }
  apply (returns_bind _ _ (λ s1, consistent s1 ∧ parentWidgetInternal (wget s1 w) = None
                                 ∧ isRoot (wget s1 w) = false ∧ registered s1 w)).
  { destruct (parentWidgetInternal (wget s w)) as [p|] eqn:Hp.
    - intros s1 Hs1. pose proof (detach_stable f (exec f) (exec_stable f) w false s) as Hst.
      rewrite Hs1 in Hst. simpl in Hst.
      apply (detach_consistent f w false s Hcs) in Hs1 as (Hcs1 & Hp1 & Hr1).
      split; [done|]. split; [done|]. split; [congruence|].
      unfold registered. by rewrite (stable_element _ _ Hst), (stable_widgetMap _ _ Hst).
    - apply returns_ok. split; [done|]. split; [done|]. by split. }
  intros s1 ([Hwf Hat Hsh] & Hp1 & Hr1 & Hreg1). apply returns_ok.
  assert (Hv1 : visibleInternal (wget s1 w) = false) by by apply (wf_orphan _ Hwf).
  assert (Hs1 : isShowing s1 w = false).
  { pose proof (Hsh w) as Hw. unfold showingAt in Hw. by rewrite Hv1 in Hw. }
  set (s' := wupd w (set_isRoot false)
               (wupd cw (λ x, set_childrenInternal (childrenInternal x ++ [w]) x)
                  (wupd w (set_parentWidgetInternal (Some cw)) s1))).
  assert (Hfield : ∀ {A} (proj : Widget → A),
    (∀ y l, proj (set_childrenInternal l y) = proj y) →
    (∀ y c, proj (set_isRoot c y) = proj y) →
    (∀ y c, proj (set_parentWidgetInternal c y) = proj y) →
    ∀ x, proj (wget s' x) = proj (wget s1 x)).
  { intros A proj H1 H2 H3 x. unfold s'. by rewrite !(wget_wupd_field proj). }
  assert (Hpar : ∀ x, parentWidgetInternal (wget s' x)
                      = if decide (w = x) then Some cw else parentWidgetInternal (wget s1 x)).
  { intros x. unfold s'. rewrite !(wget_wupd_field parentWidgetInternal) by done.
    rewrite wget_wupd. by case_decide. }
  assert (Hchi : ∀ x, childrenInternal (wget s' x)
                      = if decide (cw = x) then childrenInternal (wget s1 x) ++ [w]
                        else childrenInternal (wget s1 x)).
  { intros x. unfold s'. rewrite (wget_wupd_field childrenInternal) by done.
    rewrite wget_wupd. case_decide; [subst|]; simpl;
      by rewrite (wget_wupd_field childrenInternal). }
  assert (Hroot : ∀ x, isRoot (wget s' x)
                       = if decide (w = x) then false else isRoot (wget s1 x)).
  { intros x. unfold s'. rewrite wget_wupd. case_decide; [done|].
    by rewrite !(wget_wupd_field isRoot). }
  assert (Hnodes : ∀ n, parentElement s' n = parentElement s1 n) by done.
  assert (Hmap : widgetMap s' = widgetMap s1) by done.
  clearbody s'.
  pose proof (Hfield _ visibleInternal) as Hvis.
  pose proof (Hfield _ isShowingInternal) as Hshow.
  pose proof (Hfield _ element) as Helt.
  pose proof (Hfield _ notificationDepth) as Hdep.
  pose proof (Hfield _ hooks) as Hhk.
  destruct Hwf as [Hq Hid Hc Hr Ho Hg].
  split; [split|split; [|split]].
  - intros x h. rewrite Hhk by done. apply Hq.
  - intros x. rewrite Hdep by done. apply Hid.
  - intros c q. rewrite Hpar, Hchi. case_decide; [subst c|].
    + intros [= <-]. rewrite decide_True by done. apply elem_of_app. right.
      apply list_elem_of_singleton. done.
    + intros Hcq. apply Hc in Hcq. case_decide; [apply elem_of_app; by left | done].
  - intros x. rewrite Hroot, Hpar. case_decide; [done | apply Hr].
  - intros x. rewrite Hroot, Hpar, Hvis by done. case_decide; [done | apply Ho].
  - intros x Hl. unfold registered. rewrite Helt, Hmap by done.
    destruct (decide (w = x)) as [<-|Hne]; [done|]. apply Hg.
    unfold live in *. rewrite Hvis in Hl by done. rewrite Hroot, Hpar in Hl.
    by rewrite !decide_False in Hl by done.
  - intros x. unfold showingAt, parentIsShowing, isShowing.
    rewrite Hshow, Hvis by done. rewrite Hroot, Hpar.
    pose proof (Hsh x) as Hx. unfold showingAt, parentIsShowing, isShowing in Hx.
    case_decide; [subst x|].
    + unfold isShowing in Hs1. by rewrite Hs1, Hv1.
    + destruct (parentWidgetInternal (wget s1 x)); [|done]. by rewrite Hshow.
  - intros x Hne. unfold attachedAt. rewrite Hvis, Helt by done. rewrite Hpar, Hnodes.
    rewrite decide_False by done. apply Hat.
  - rewrite Hvis by done. congruence.
Qed.

(** *** Showing *)
Lemma nearestWidgetElement_widget s pe c :
  nearestWidgetElement s pe = Some c → ∃ v, widgetMap s !! c = Some v.
Proof.
  unfold nearestWidgetElement. intros H. apply find_some in H as [_ H].
  unfold isWidgetElement in H. destruct (widgetMap s !! c) as [v|]; [by exists v | done].
Qed.

Lemma originalAppendChild_returns this node s (Q : State → Prop) :
  Q (nupd node (set_parentNode (Some this)) s) → returns (originalAppendChild this node s) Q.
Proof.
  intros H. unfold originalAppendChild. destruct (isInclusiveAncestor _ _ _);
    [apply returns_throw | by apply returns_ok].
Qed.

Lemma originalInsertBefore_returns this node child s (Q : State → Prop) :
  Q (nupd node (set_parentNode (Some this)) s) →
  returns (originalInsertBefore this node child s) Q.
Proof.
  intros H. unfold originalInsertBefore. destruct child as [c|].
  - case_bool_decide; [by apply originalAppendChild_returns | apply returns_throw].
  - by apply originalAppendChild_returns.
Qed.

Lemma parentElement_nupd_set s e p :
  isElement s p = true → parentElement (nupd e (set_parentNode (Some p)) s) e = Some p.
Proof.
  intros Hp. unfold parentElement, isElement in *. rewrite nget_nupd_eq. simpl.
  by rewrite nkind_nupd, Hp.
Qed.

Lemma wellFormed_show s w :
  wellFormed s →
  isRoot (wget s w) = true ∨ parentWidgetInternal (wget s w) ≠ None →
  wellFormed (wupd w (set_visibleInternal true) s).
Proof.
  intros [Hq Hi Hc Hr Ho Hg] Hl. split.
  - intros x h. rewrite (wget_wupd_field (λ y, hooks y h)) by done. apply Hq.
  - intros x. rewrite (wget_wupd_field notificationDepth) by done. apply Hi.
  - intros c p. rewrite (wget_wupd_field parentWidgetInternal),
      (wget_wupd_field childrenInternal) by done. apply Hc.
  - intros x. rewrite (wget_wupd_field parentWidgetInternal), (wget_wupd_field isRoot) by done.
    apply Hr.
  - intros x. rewrite (wget_wupd_field parentWidgetInternal), (wget_wupd_field isRoot) by done.
    rewrite wget_wupd. case_decide; [subst; intros; destruct Hl; congruence | apply Ho].
  - intros x Hx. unfold registered. rewrite (wget_wupd_field element) by done.
    apply Hg. unfold live in *.
    rewrite (wget_wupd_field parentWidgetInternal), (wget_wupd_field isRoot) in Hx by done.
    rewrite wget_wupd in Hx. case_decide; [subst; tauto | done].
Qed.

Lemma showWidgetInternal_consistent f w pe ib s :
  wellFormed s → (∀ x, showingAt s x) → (∀ x, x ≠ w → attachedAt s x) →
  (visibleInternal (wget s w) = true → attachedAt s w) →
  isElement s pe = true →
  returns (showWidgetInternal f (exec f) w pe ib s) consistent.
Proof.
  intros Hwf Hsh Hat Hatw Hpe. unfold showWidgetInternal. cbv zeta.
  apply (returns_bind _ _ (λ s1, s1 = s ∧ (isRoot (wget s w) = true
                                           ∨ parentWidgetInternal (wget s w) ≠ None))).
  { destruct (isRoot (wget s w)) eqn:Hr.
    - apply returns_assert. intros _. split; [done | by left].
    - apply returns_assert. intros Hc. split; [done | right].
      destruct (nearestWidgetElement s pe) as [c|] eqn:Hn; [|done].
      apply bool_decide_eq_true in Hc. apply nearestWidgetElement_widget in Hn as [v Hv].
      congruence. }
  intros s1 [-> Hlive].
  destruct (visibleInternal (wget s w) && bool_decide _) eqn:Hearly.
  { apply returns_ok. apply andb_true_iff in Hearly as [Hv _]. split; [done| |done].
    intros x. destruct (decide (x = w)) as [->|Hne]; [by apply Hatw | by apply Hat]. }
  set (wasVisible := visibleInternal (wget s w)) in *.
  set (s0 := wupd w (set_visibleInternal true) s).
  assert (Hwf0 : wellFormed s0) by by apply wellFormed_show.
  assert (He0 : element (wget s0 w) = element (wget s w)).
  { unfold s0. by rewrite (wget_wupd_field element). }
  assert (Hreg0 : registered s0 w).
  { apply (wf_registered _ Hwf0). left. unfold s0. by rewrite wget_wupd_eq. }
  assert (Hat0 : ∀ x, x ≠ w → attachedAt s0 x).
  { intros x Hx Hp. unfold s0 in *. rewrite (wget_wupd_ne _ w x) in * by done. by apply Hat. }
  assert (Hv0 : visibleInternal (wget s0 w) = true).
  { unfold s0. by rewrite wget_wupd_eq. }
  assert (Hps0 : parentIsShowing s0 w = parentIsShowing s w).
  { unfold parentIsShowing, isShowing, s0.
    rewrite (wget_wupd_field isRoot), (wget_wupd_field parentWidgetInternal) by done.
    destruct (parentWidgetInternal (wget s w)); [|done].
    by rewrite (wget_wupd_field isShowingInternal). }
  assert (Hsh0 : ∀ x, x ≠ w → showingAt s0 x).
  { intros x Hx. by apply showingAt_other_visible. }
  assert (Hshw : negb wasVisible && parentIsShowing s0 w = false → showingAt s0 w).
  { intros Hc. pose proof (Hsh w) as Hw. unfold showingAt, isShowing in *.
    rewrite Hv0, Hps0. unfold s0 at 1. rewrite (wget_wupd_field isShowingInternal) by done.
    rewrite Hw. fold wasVisible. destruct wasVisible; [done|]. simpl in *.
    by rewrite <- Hps0, Hc. }
  assert (Hpe0 : isElement s0 pe = true) by done.
  clearbody s0.
  set (Q1 := λ s1, wellFormed s1 ∧ (∀ x, showingAt s1 x) ∧ (∀ x, x ≠ w → attachedAt s1 x)
                   ∧ registered s1 w ∧ isElement s1 pe = true).
  apply (returns_bind _ _ Q1).
  { destruct (negb wasVisible && parentIsShowing s0 w) eqn:Hc.
    - intros s1 Hs1. apply andb_true_iff in Hc as [_ Hps].
      apply processWillShow_flagged in Hs1;
        [|intros c sa sb; by apply exec_willShow_flagged].
      pose proof (fl_shape _ _ _ _ Hs1) as Hs.
      split; [by eapply wellFormed_sameShape|]. split.
      { eapply showingAt_flagged_true; try done. apply Hwf0. }
      split; [intros x Hx; eapply attachedAt_sameShape; [done | by apply Hat0]|].
      split; [by apply (registered_sameShape _ _ _ Hs)|].
      unfold isElement in *. pose proof (shape_nodes _ _ Hs pe) as Hn.
      apply (f_equal nkind) in Hn. simpl in Hn. by rewrite Hn.
    - apply returns_ok. split; [done|]. split; [|by split].
      intros x. destruct (decide (x = w)) as [->|Hne]; [by apply Hshw | by apply Hsh0]. }
  intros s1 (Hwf1 & Hsh1 & Hat1 & Hreg1 & Hpe1).
  set (s2 := nupd (element (wget s1 w)) (set_hiddenClass false) s1).
  assert (Hsw2 : sameWidgets s1 s2) by apply sameWidgets_nupd.
  assert (Hpel2 : ∀ n, parentElement s2 n = parentElement s1 n).
  { intros n. unfold s2. by rewrite parentElement_nupd_keep. }
  assert (Hpe2 : isElement s2 pe = true).
  { unfold isElement, s2 in *. by rewrite nkind_nupd. }
  assert (Hwf2 : wellFormed s2) by by eapply wellFormed_sameWidgets.
  assert (Hsh2 : ∀ x, showingAt s2 x) by (intros x; by eapply showingAt_sameWidgets).
  assert (Hat2 : ∀ x, x ≠ w → attachedAt s2 x).
  { intros x Hx. unfold attachedAt. destruct Hsw2 as [Hsw2 _]. rewrite Hsw2, Hpel2. by apply Hat1. }
  assert (Hreg2 : registered s2 w) by done.
  clearbody s2. clear Hpel2.
  apply (returns_bind _ _ consistent).
  { destruct (bool_decide (parentElement s2 (element (wget s2 w)) = Some pe)) eqn:Hsamepe.
    { apply bool_decide_eq_true in Hsamepe.
      apply returns_ok. split; [done| |done]. intros x.
      destruct (decide (x = w)) as [->|Hne]; [|by apply Hat2].
      intros _. by rewrite Hsamepe. }
    set (s3 := if externallyManaged (wget s2 w) then s2
               else incrementWidgetCounter pe (element (wget s2 w)) s2).
    assert (Hsame : sameButCounters s2 s3).
    { unfold s3. destruct (externallyManaged (wget s2 w));
        [by repeat split | apply incrementWidgetCounter_same]. }
    clearbody s3.
    assert (Hgoal : consistent (nupd (element (wget s3 w)) (set_parentNode (Some pe)) s3)).
    { assert (Hsw3 : sameWidgets s2 s3) by by apply sameWidgets_counters.
      assert (Hsw4 : sameWidgets s2 (nupd (element (wget s3 w)) (set_parentNode (Some pe)) s3)).
      { eapply sameWidgets_trans; [done | apply sameWidgets_nupd]. }
      assert (Hwf3 : wellFormed s3) by by eapply wellFormed_sameWidgets.
      assert (Hreg3 : registered s3 w).
      { unfold registered. destruct Hsw3 as [-> ->]. done. }
      split; [by eapply wellFormed_sameWidgets| |intros x; by eapply showingAt_sameWidgets].
      intros x. destruct (decide (x = w)) as [->|Hne].
      - intros _. rewrite wget_nupd. rewrite parentElement_nupd_set; [done|].
        unfold isElement in *. by rewrite (nget_sameButCounters _ _ _ Hsame).
      - apply attachedAt_nupd_other; try done.
        + apply (wf_registered _ Hwf3).
        + unfold attachedAt. rewrite (wget_sameButCounters _ _ _ Hsame),
            (parentElement_sameButCounters _ _ _ Hsame). by apply Hat2. }
    destruct ib; [by apply originalInsertBefore_returns | by apply originalAppendChild_returns]. }
  intros s4 Hcs4.
  apply (returns_bind _ _ consistent).
  { destruct (negb wasVisible && parentIsShowing s4 w); [|by apply returns_ok].
    eapply returns_post.
    - apply (processWasShown_passive f (exec f) (exec_passive f)). apply Hcs4.
    - intros s5 Hp. by eapply consistent_passive. }
  intros s5 Hcs5.
  assert (Hres : returns (processOnResize f (exec f) w s5) consistent).
  { eapply returns_post.
    - apply (processOnResize_passive f (exec f) (exec_passive f)). apply Hcs5.
    - intros s6 Hp. by eapply consistent_passive. }
  destruct (parentWidgetInternal (wget s5 w)) as [p|]; [|done].
  apply returns_fromFuel. intros [nz s6] Hc. apply hasNonZeroConstraints_passive in Hc.
  assert (Hcs6 : consistent s6) by by eapply consistent_passive.
  destruct nz.
  - eapply returns_post.
    + apply (invalidateConstraints_passive f (exec f) (exec_passive f)). apply Hcs6.
    + intros s7 Hp. by eapply consistent_passive.
  - eapply returns_post.
    + apply (processOnResize_passive f (exec f) (exec_passive f)). apply Hcs6.
    + intros s7 Hp. by eapply consistent_passive.
Qed.

Lemma consistent_of_hiddenOk w root s : hiddenOk false w root s → consistent s.
Proof.
  intros (Hwf & Hsh & Hat & Hatw & _). split; [done| |done].
  intros x. destruct (decide (x = w)) as [->|Hne]; [by apply Hatw | by apply Hat].
Qed.

Lemma parentElement_isElement s n p : parentElement s n = Some p → isElement s p = true.
Proof.
  unfold parentElement. destruct (parentNode (nget s n)) as [q|]; [|done].
  destruct (isElement s q) eqn:E; [|done]. by intros [= <-].
Qed.

Lemma isElement_stable s s' n : stable s s' → isElement s' n = isElement s n.
Proof. intros H. unfold isElement. by rewrite (stable_kind _ _ H). Qed.

Lemma registered_stable s s' w : stable s s' → registered s w → registered s' w.
Proof.
  intros H. unfold registered. by rewrite (stable_element _ _ H), (stable_widgetMap _ _ H).
Qed.

Lemma apiCall_stable s s' c : stable s s' → apiCall s c → apiCall s' c.
Proof.
  intros H. destruct c; simpl; try done.
  - intros [? ?]. split; [by eapply registered_stable | by rewrite (isElement_stable _ _ _ H)].
  - by apply registered_stable.
Qed.

Lemma consistent_wupd_passive w f s :
  (∀ x, shape (f x) = shape x) → (∀ x, isShowingInternal (f x) = isShowingInternal x) →
  consistent s → consistent (wupd w f s).
Proof. intros H1 H2. apply consistent_passive. by apply passive_wupd. Qed.

(** The document primitives, when they let a mutation through, leave the
    widget elements where they are. *)
Lemma consistent_reparent s node this :
  consistent s →
  (isWidgetElement s node = true → parentElement s node = Some this) →
  consistent (nupd node (set_parentNode (Some this)) s).
Proof.
  intros [Hwf Hat Hsh] Hg.
  assert (Hsw : sameWidgets s (nupd node (set_parentNode (Some this)) s)) by apply sameWidgets_nupd.
  split; [by eapply wellFormed_sameWidgets| |intros x; by eapply showingAt_sameWidgets].
  intros x Hp. rewrite wget_nupd in *.
  destruct (decide (element (wget s x) = node)) as [He|Hne].
  - assert (Hx : registered s x) by (apply (wf_registered _ Hwf); unfold live; tauto).
    unfold registered in Hx. rewrite He in *.
    assert (Hw : parentElement s node = Some this).
    { apply Hg. unfold isWidgetElement. by rewrite Hx. }
    rewrite parentElement_nupd_set; [done|]. by eapply parentElement_isElement.
  - rewrite parentElement_nupd_ne by done. by apply Hat.
Qed.

Lemma consistent_unparent s child :
  consistent s → isWidgetElement s child = false →
  consistent (nupd child (set_parentNode None) s).
Proof.
  intros [Hwf Hat Hsh] Hg.
  assert (Hsw : sameWidgets s (nupd child (set_parentNode None) s)) by apply sameWidgets_nupd.
  split; [by eapply wellFormed_sameWidgets| |intros x; by eapply showingAt_sameWidgets].
  intros x Hp. rewrite wget_nupd in *.
  destruct (decide (element (wget s x) = child)) as [He|Hne].
  - assert (Hx : registered s x) by (apply (wf_registered _ Hwf); unfold live; tauto).
    unfold registered in Hx. rewrite He in *. unfold isWidgetElement in Hg. by rewrite Hx in Hg.
  - rewrite parentElement_nupd_ne by done. by apply Hat.
Qed.

Lemma body_consistent f c s :
  consistent s → apiCall s c → returns (body f (exec f) c s) consistent.
Proof.
  intros Hcs Hapi. pose proof Hcs as [Hwf Hat Hsh].
  assert (Hinv : ∀ w s1, consistent s1 →
            returns (invalidateConstraints f (exec f) w s1) consistent).
  { intros w s1 H1. eapply returns_post.
    - apply (invalidateConstraints_passive f (exec f) (exec_passive f)). apply H1.
    - intros s2 Hp. by eapply consistent_passive. }
  destruct c as [w pe ib|w|w|w o|w|w|w|w|w ch|w a b|w a b c d|w|w|w|w|w|p node|p node ch|p child|p| |ps w];
    unfold body; simpl in Hapi; try done.
  - (* show *)
    destruct Hapi as [Hreg Hpe]. unfold show.
    apply (returns_bind _ _ (λ s1, attachedOk w s1 ∧ isElement s1 pe = true)).
    + destruct (isRoot (wget s w)) eqn:Hr.
      * apply returns_ok. split; [|done]. split; [done|]. split; [done|].
        split; [intros x _; apply Hat | intros _; apply Hat].
      * destruct (nearestWidget s pe) as [cw|]; [|apply returns_throw].
        intros s1 Hs1.
        pose proof (attach_stable f (exec f) (exec_stable f) w cw s) as Hst.
        rewrite Hs1 in Hst. simpl in Hst.
        split; [by eapply attach_consistent | by rewrite (isElement_stable _ _ _ Hst)].
    + intros s1 [(Hwf1 & Hsh1 & Hat1 & Hatw1) Hpe1]. by apply showWidgetInternal_consistent.
  - (* showWidget *)
    unfold showWidget. destruct (visibleInternal (wget s w)) eqn:Hv; [by apply returns_ok|].
    destruct (parentElement s (element (wget s w))) as [pe|] eqn:Hpe; [|apply returns_throw].
    apply showWidgetInternal_consistent;
      [done | done | intros x _; apply Hat | intros _; apply Hat
      | by eapply parentElement_isElement].
  - (* hideWidget *)
    unfold hideWidget. destruct (visibleInternal (wget s w)) eqn:Hv; [|by apply returns_ok].
    simpl. eapply returns_weaken; [by apply hideWidgetInternal_consistent|].
    intros s1. apply consistent_of_hiddenOk.
  - (* detach *)
    eapply returns_weaken; [by apply detach_consistent|]. by intros s1 [? _].
  - by apply detachChildWidgets_consistent.
  - (* markAsRoot *)
    unfold markAsRoot. apply returns_assert_bind.
    intros Hb. apply bool_decide_eq_true in Hb. apply returns_ok.
    assert (Hv : visibleInternal (wget s w) = false).
    { destruct (visibleInternal (wget s w)) eqn:Hv; [|done].
      exfalso. apply (Hat w); [by left | done]. }
    assert (Hp : parentWidgetInternal (wget s w) = None).
    { destruct (parentWidgetInternal (wget s w)) eqn:Hp; [|done].
      exfalso. apply (Hat w); [right; congruence | done]. }
    destruct Hwf as [Hq Hid Hc Hr Ho Hg].
    split; [split|..].
    + intros x h. rewrite (wget_wupd_field (λ y, hooks y h)) by done. apply Hq.
    + intros x. rewrite (wget_wupd_field notificationDepth) by done. apply Hid.
    + intros c p. rewrite (wget_wupd_field parentWidgetInternal),
        (wget_wupd_field childrenInternal) by done. apply Hc.
    + intros x. rewrite (wget_wupd_field parentWidgetInternal) by done.
      rewrite wget_wupd. case_decide; [by subst | apply Hr].
    + intros x. rewrite (wget_wupd_field parentWidgetInternal),
        (wget_wupd_field visibleInternal) by done.
      rewrite wget_wupd. case_decide; [by subst | apply Ho].
    + intros x Hl. unfold registered. rewrite (wget_wupd_field element) by done.
      destruct (decide (w = x)) as [<-|Hne]; [done|]. apply Hg. unfold live in *.
      by rewrite (wget_wupd_ne _ w x) in Hl by done.
    + intros x. unfold attachedAt. rewrite (wget_wupd_field visibleInternal),
        (wget_wupd_field parentWidgetInternal), (wget_wupd_field element) by done. apply Hat.
    + intros x. pose proof (Hsh x) as Hx. unfold showingAt, parentIsShowing, isShowing in *.
      rewrite (wget_wupd_field visibleInternal), (wget_wupd_field parentWidgetInternal),
        (wget_wupd_field isShowingInternal) by done.
      rewrite wget_wupd. case_decide; [subst x|].
      * simpl. rewrite Hv in *. done.
      * destruct (parentWidgetInternal (wget s x)); [|done].
        by rewrite (wget_wupd_field isShowingInternal).
  - unfold setHideOnDetach. apply returns_ok. by apply consistent_wupd_passive.
  - unfold markAsExternallyManaged. apply returns_assert_bind.
    intros _. apply returns_ok. by apply consistent_wupd_passive.
  - unfold setDefaultFocusedChild. apply returns_assert_bind.
    intros _. apply returns_ok. by apply consistent_wupd_passive.
  - unfold setMinimumSize. apply Hinv. by apply consistent_wupd_passive.
  - unfold setMinimumAndPreferredSizes. apply Hinv. by apply consistent_wupd_passive.
  - unfold suspendInvalidations. apply returns_ok. by apply consistent_wupd_passive.
  - unfold resumeInvalidations. cbv zeta.
    destruct (_ && _); [apply Hinv | apply returns_ok]; by apply consistent_wupd_passive.
  - by apply Hinv.
  - eapply returns_post.
    + apply (doLayout_passive f (exec f) (exec_passive f)). apply Hcs.
    + intros s2 Hp. by eapply consistent_passive.
  - eapply returns_post.
    + apply (doResize_passive f (exec f) (exec_passive f)). apply Hcs.
    + intros s2 Hp. by eapply consistent_passive.
  - (* appendChild *)
    unfold appendChild. destruct (isWidgetElement s node && _) eqn:Hg; [apply returns_throw|].
    apply originalAppendChild_returns, consistent_reparent; [done|].
    intros Hw. rewrite Hw in Hg. simpl in Hg. apply negb_false_iff in Hg.
    by apply bool_decide_eq_true in Hg.
  - (* insertBefore *)
    unfold insertBefore. destruct (isWidgetElement s node && _) eqn:Hg; [apply returns_throw|].
    apply originalInsertBefore_returns, consistent_reparent; [done|].
    intros Hw. rewrite Hw in Hg. simpl in Hg. apply negb_false_iff in Hg.
    by apply bool_decide_eq_true in Hg.
  - (* removeChild *)
    unfold removeChild, originalRemoveChild.
    destruct (negb _ || isWidgetElement s child) eqn:Hg; [apply returns_throw|].
    apply orb_false_iff in Hg as [_ Hg].
    case_bool_decide; [|apply returns_throw]. apply returns_ok. by apply consistent_unparent.
Qed.

Lemma exec_consistent fuel c s :
  consistent s → apiCall s c → returns (exec fuel c s) consistent.
Proof. destruct fuel as [|f]; [done|]. simpl. apply body_consistent. Qed.

Lemma run_consistent fuel cs s :
  consistent s → Forall (apiCall s) cs → returns (run fuel cs s) consistent.
Proof.
  revert s. induction cs as [|c cs IH]; intros s Hcs Hapi; [by apply returns_ok|].
  inversion Hapi as [|c' cs' Hc Hapi']; subst. unfold run. simpl.
  apply (returns_bind _ _ (λ s1, consistent s1 ∧ stable s s1)).
  - intros s1 Hs1. split; [by eapply exec_consistent|].
    pose proof (exec_stable fuel c s) as Hst. by rewrite Hs1 in Hst.
  - intros s1 [H1 Hst]. apply IH; [done|].
    apply Forall_forall. intros c' Hc'. eapply apiCall_stable; [done|].
    by eapply Forall_forall in Hapi'.
Qed.

(** C1 (as amended): in every state reached from a consistent state by
    calls of the widget API and of the guarded [appendChild],
    [insertBefore] and [removeChild] that all return, with hooks that do not
    call back, the showing flag of every widget is true exactly when the
    widget is visible and is a root or has a showing parent. *)
Theorem showing_invariant (fuel : nat) (cs : list Call) (s s' : State) :
  consistent s → Forall (apiCall s) cs → run fuel cs s = Ok s' →
  ∀ w, isShowing s' w
       = visibleInternal (wget s' w)
         && (isRoot (wget s' w)
             || match parentWidgetInternal (wget s' w) with
                | Some p => isShowing s' p
                | None => false
                end).
Proof.
  intros Hcs Hapi Hrun w.
  pose proof (run_consistent fuel cs s Hcs Hapi s' Hrun) as [_ _ Hsh].
  rewrite (Hsh w). unfold parentIsShowing. by destruct (isRoot (wget s' w)).
Qed.

(** Fresh documents are consistent. *)
Lemma consistent_empty : consistent emptyState.
Proof.
  assert (Hw : ∀ w, wget emptyState w = blankWidget).
  { intros w. unfold wget, emptyState. simpl. by rewrite lookup_empty. }
  split; [split|..].
  - intros w h. by rewrite Hw.
  - intros w. by rewrite Hw.
  - intros c p. by rewrite Hw.
  - intros w. by rewrite Hw.
  - intros w. by rewrite Hw.
  - intros w. unfold live. rewrite Hw. simpl. intros [?|[?|?]]; done.
  - intros w. unfold attachedAt. rewrite Hw. simpl. intros [?|?]; done.
  - intros w. unfold showingAt, isShowing. by rewrite Hw.
Qed.

Lemma consistent_createElement e s :
  nodes s !! e = None → consistent s → consistent (createElement e s).
Proof.
  intros He Hcs. apply (consistent_passive s); [|done].
  apply passive_same_widgets; try done.
  intros n. unfold nget, createElement. simpl.
  destruct (decide (e = n)) as [<-|Hne]; [by rewrite lookup_insert_eq, He|].
  by rewrite lookup_insert_ne.
Qed.

Lemma consistent_newWidget w e cls s :
  heap s !! w = None → nodes s !! e = None → widgetMap s !! e = None →
  consistent s → consistent (newWidget w e cls noHooks s).
Proof.
  intros Hw He Hm Hcs.
  assert (Hw1 : wget s w = blankWidget) by (unfold wget; by rewrite Hw).
  set (s' := newWidget w e cls noHooks s).
  assert (Hget : ∀ x, wget s' x = if decide (w = x)
                                  then constructed e e None false cls noHooks else wget s x).
  { intros x. unfold wget, s', newWidget. simpl.
    case_decide; [subst; by rewrite lookup_insert_eq|]. by rewrite lookup_insert_ne. }
  assert (Hfield : ∀ {A} (proj : Widget → A),
            proj (constructed e e None false cls noHooks) = proj blankWidget →
            ∀ x, proj (wget s' x) = proj (wget s x)).
  { intros A proj Hp x. rewrite Hget. case_decide; [subst; by rewrite Hw1 | done]. }
  assert (Hnodes : ∀ n, parentElement s' n = parentElement s n).
  { assert (Hn : ∀ n, nget s' n = nget s n).
    { intros n. unfold nget, s', newWidget, createElement. simpl.
      destruct (decide (e = n)) as [<-|Hne]; [by rewrite lookup_insert_eq, He|].
      by rewrite lookup_insert_ne. }
    intros n. unfold parentElement, isElement. rewrite Hn.
    destruct (parentNode (nget s n)); [by rewrite Hn | done]. }
  assert (Hmap : ∀ n, n ≠ e → widgetMap s' !! n = widgetMap s !! n).
  { intros n Hn. unfold s', newWidget. simpl. by rewrite lookup_insert_ne. }
  clearbody s'.
  pose proof (Hfield _ visibleInternal eq_refl) as Hvis.
  pose proof (Hfield _ isRoot eq_refl) as Hroot.
  pose proof (Hfield _ isShowingInternal eq_refl) as Hshow.
  pose proof (Hfield _ notificationDepth eq_refl) as Hdep.
  pose proof (Hfield _ hooks eq_refl) as Hhk.
  pose proof (Hfield _ parentWidgetInternal eq_refl) as Hpar.
  pose proof (Hfield _ childrenInternal eq_refl) as Hchi.
  assert (Hlive : ∀ x, live s' x ↔ live s x).
  { intros x. unfold live. by rewrite Hvis, Hroot, Hpar. }
  destruct Hcs as [[Hq Hid Hc Hr Ho Hg] Hat Hsh].
  split; [split|..].
  - intros x h. rewrite Hhk. apply Hq.
  - intros x. rewrite Hdep. apply Hid.
  - intros c p. rewrite Hpar, Hchi. apply Hc.
  - intros x. rewrite Hroot, Hpar. apply Hr.
  - intros x. rewrite Hroot, Hpar, Hvis. apply Ho.
  - intros x Hl. apply Hlive in Hl. pose proof (Hg x Hl) as Hx. unfold registered in *.
    assert (x ≠ w).
    { intros ->. unfold live in Hl. rewrite Hw1 in Hl. simpl in Hl.
      destruct Hl as [?|[?|?]]; done. }
    rewrite Hget, decide_False by done.
    rewrite Hmap; [done|]. intros Heq. rewrite Heq in Hx. congruence.
  - intros x. unfold attachedAt. rewrite Hvis, Hpar, Hnodes. intros Hp.
    assert (x ≠ w).
    { intros ->. rewrite Hw1 in Hp. simpl in Hp. destruct Hp; done. }
    rewrite Hget, decide_False by done. by apply Hat.
  - intros x. pose proof (Hsh x) as Hx. unfold showingAt, parentIsShowing, isShowing in *.
    rewrite Hshow, Hvis, Hroot, Hpar.
    destruct (parentWidgetInternal (wget s x)); [|done]. by rewrite Hshow.
Qed.

Lemma consistent_page : consistent page.
Proof.
  unfold page. repeat (apply consistent_newWidget; [done | done | done |]).
  apply consistent_createElement; [done|]. apply consistent_empty.
Qed.

Lemma showing_invariant_witness :
  isShowing hiddenRootState 2
  = visibleInternal (wget hiddenRootState 2)
    && (isRoot (wget hiddenRootState 2)
        || match parentWidgetInternal (wget hiddenRootState 2) with
           | Some p => isShowing hiddenRootState p
           | None => false
           end).
Proof.
  apply (showing_invariant 5 hiddenRoot page hiddenRootState).
  - apply consistent_page.
  - repeat constructor; vm_compute; reflexivity.
  - vm_compute. reflexivity.
Defined.

(** In the example the child stays visible but is not showing under its
    hidden root. *)
Lemma showing_invariant_example :
  visibleInternal (wget hiddenRootState 2) = true ∧ isShowing hiddenRootState 2 = false
  ∧ visibleInternal (wget hiddenRootState 1) = false.
Proof. vm_compute. done. Qed.

(** C1, the claim as stated fails when a hook calls back: widget 1 hides
    its child 2 from its [wasShown] hook.  The will-hide pass on the child
    is cut short by the re-entrancy guard, and after [showWidget()] on
    widget 1 has returned the child is not visible but still showing. *)
Lemma showing_broken_by_reentrant_hook :
  match run 6 [MarkAsRoot 1; Show 1 10 None; Show 2 11 None; HideWidget 1; ShowWidget 1]
          reentrantPage with
  | Ok s' => isShowing s' 2 = true ∧ visibleInternal (wget s' 2) = false
             ∧ parentWidgetInternal (wget s' 2) = Some 1
             ∧ notificationDepth (wget s' 1) = 0%Z ∧ notificationDepth (wget s' 2) = 0%Z
  | _ => False
  end.
Proof. vm_compute. done. Qed.

(** ** The order of the passes *)

Lemma stable_trace_app s s' : stable s s' → ∃ t, trace s' = trace s ++ t.
Proof. intros H. destruct (stable_trace _ _ H) as [t Ht]. by exists t. Qed.

Lemma returns_trace fuel c s s' : exec fuel c s = Ok s' → ∃ t, trace s' = trace s ++ t.
Proof.
  intros H. pose proof (exec_stable fuel c s) as Hst. rewrite H in Hst.
  by apply stable_trace_app.
Qed.

Lemma callOnVisibleChildren_trace fuel w method s s' :
  callOnVisibleChildren (exec fuel) w method s = Ok s' → ∃ t, trace s' = trace s ++ t.
Proof.
  intros H. pose proof (callOnVisibleChildren_stable (exec fuel) (exec_stable fuel) w method s) as Hst.
  rewrite H in Hst. by apply stable_trace_app.
Qed.

Lemma notify_trace fuel h w s s' :
  notify (exec fuel) h w s = Ok s' → ∃ t, trace s' = trace s ++ EvHook h w :: t.
Proof.
  unfold notify, callHook.
  set (s0 := log (EvHook h w) _).
  pose proof (post_forEach stable (exec fuel) (hooks (wget (wupd w
    (λ x, set_notificationDepth (notificationDepth x + 1) x) s) w) h) s0) as Hst.
  destruct (forEach _ _ s0) as [s2| |] eqn:E; simpl; try done.
  intros [= <-]. destruct (stable_trace_app s0 s2) as [t Ht].
  { apply Hst. intros c s1 _ _. apply exec_stable. }
  exists t. simpl. rewrite Ht. unfold s0. simpl. by rewrite <- app_assoc.
Qed.

(** The loop of [callOnVisibleChildren]: when the pass on a child leaves
    the shape alone and logs [ev] of the child, the loop logs [ev] of every
    child it calls. *)
Lemma loop_logs (rec : Call → State → Res State) (I : State → Prop) (ev : nat → Event)
    pass w l s0 s1 :
  (∀ s s', sameShape s s' → I s → I s') →
  (∀ c s s', I s → rec (Process pass c) s = Ok s' →
             sameShape s s' ∧ ∃ t, trace s' = trace s ++ t ∧ ev c ∈ t) →
  I s0 →
  forEach (λ c s, if bool_decide (parentWidgetInternal (wget s c) = Some w)
                     && visibleInternal (wget s c)
                  then rec (Process pass c) s else Ok s) l s0 = Ok s1 →
  sameShape s0 s1
  ∧ ∃ t, trace s1 = trace s0 ++ t
         ∧ ∀ c, c ∈ l → parentWidgetInternal (wget s0 c) = Some w →
                visibleInternal (wget s0 c) = true → ev c ∈ t.
Proof.
  intros HI Hrec. revert s0. induction l as [|c l IH]; intros s0 Hs0; simpl.
  - intros [= <-]. split; [reflexivity|]. exists []. split; [by rewrite app_nil_r|].
    intros c Hc. by apply elem_of_nil in Hc.
  - destruct (bool_decide _ && _) eqn:Hq.
    + destruct (rec (Process pass c) s0) as [sa| |] eqn:E; simpl; try done.
      intros Hl. destruct (Hrec _ _ _ Hs0 E) as (Hsa & ta & Hta & Hev).
      destruct (IH sa (HI _ _ Hsa Hs0) Hl) as (Hs1 & tb & Htb & Hevb).
      split; [by etrans|]. exists (ta ++ tb). split; [by rewrite Htb, Hta, app_assoc|].
      intros c' Hc' Hp Hv. apply elem_of_app. apply elem_of_cons in Hc' as [->|Hc'].
      * by left.
      * right. apply Hevb; [done| |].
        -- by rewrite (shape_parent _ _ _ Hsa).
        -- by rewrite (shape_visible _ _ _ Hsa).
    + simpl. intros Hl. destruct (IH s0 Hs0 Hl) as (Hs1 & tb & Htb & Hevb).
      split; [done|]. exists tb. split; [done|].
      intros c' Hc' Hp Hv. apply elem_of_cons in Hc' as [->|Hc']; [|by apply Hevb].
      rewrite Hp, Hv in Hq. by rewrite bool_decide_eq_true_2 in Hq.
Qed.

Lemma willShow_logs fuel w s s' :
  exec fuel (Process WillShowPass w) s = Ok s' →
  sameShape s s'
  ∧ ∃ l, trace s' = trace s ++ l ++ [EvShowing w true]
         ∧ ∀ c, visibleChild s w c → EvShowing c true ∈ l.
Proof.
  revert w s s'. induction fuel as [|f IH]; intros w s s' H; [done|].
  split; [by apply (fl_shape true w), (exec_willShow_flagged (S f))|].
  simpl in H. unfold processWillShow, callOnVisibleChildren in H.
  destruct (forEach _ _ _) as [s1| |] eqn:E; simpl in H; try done.
  injection H as <-.
  apply (loop_logs (exec f) (λ _, True) (λ c, EvShowing c true)) in E as (Hs1 & t & Ht & Hev);
    [| done | | done].
  - exists t. split; [simpl; by rewrite Ht, <- app_assoc|].
    intros c (Hc & Hp & Hv). by apply Hev.
  - intros c sa sb _ Hc. destruct (IH _ _ _ Hc) as (Hsh & l & Hl & _).
    split; [done|]. exists (l ++ [EvShowing c true]). split; [done|].
    apply elem_of_app. right. apply list_elem_of_singleton. done.
Qed.

Lemma wasShown_first fuel w s s' :
  exec (S fuel) (Process WasShownPass w) s = Ok s' → inNotification fuel s w = Some false →
  ∃ l, trace s' = trace s ++ EvHook WasShown w :: l.
Proof.
  simpl. unfold processWasShown. intros H Hin. rewrite Hin in H. simpl in H.
  destruct (notify _ _ _ _) as [s1| |] eqn:E; simpl in H; try done.
  apply notify_trace in E as [t1 Ht1]. apply callOnVisibleChildren_trace in H as [t2 Ht2].
  exists (t1 ++ t2). rewrite Ht2, Ht1.
  assert (Hr : trace (restoreScrollPositions w s) = trace s).
  { unfold restoreScrollPositions. simpl. by destruct (_ !! _) as [[? ?]|]. }
  rewrite Hr. by rewrite <- app_assoc.
Qed.

Lemma willHide_order fuel w s s' :
  exec (S fuel) (Process WillHidePass w) s = Ok s' → inNotification fuel s w = Some false →
  ∃ s1 l1 l2,
    callOnVisibleChildren (exec fuel) w (Process WillHidePass) (storeScrollPositions w s) = Ok s1
    ∧ trace s1 = trace s ++ l1
    ∧ trace s' = trace s ++ l1 ++ EvHook WillHide w :: l2 ++ [EvShowing w false].
Proof.
  simpl. unfold processWillHide. intros H Hin. rewrite Hin in H. simpl in H.
  destruct (callOnVisibleChildren _ _ _ _) as [s1| |] eqn:E1; simpl in H; try done.
  destruct (notify _ _ _ _) as [s2| |] eqn:E2; simpl in H; try done.
  injection H as <-.
  pose proof E1 as Hc. apply callOnVisibleChildren_trace in Hc as [l1 Hl1].
  apply notify_trace in E2 as [l2 Hl2].
  exists s1, l1, l2. split; [done|].
  assert (Hr : trace (storeScrollPositions w s) = trace s) by done.
  rewrite Hr in Hl1. split; [done|].
  simpl. rewrite Hl2, Hl1. by rewrite <- !app_assoc.
Qed.

Lemma visibleChild_sameShape s s' w c : sameShape s s' → visibleChild s w c → visibleChild s' w c.
Proof.
  intros H (Hc & Hp & Hv). unfold visibleChild.
  by rewrite (shape_children _ _ _ H), (shape_parent _ _ _ H), (shape_visible _ _ _ H).
Qed.

Lemma inNotification_false_idle fuel s w b :
  idle s → inNotification fuel s w = Some b → inNotification fuel s w = Some false.
Proof. intros Hi H. by rewrite (inNotification_idle _ _ _ _ Hi H) in H. Qed.

Lemma wasShown_logs fuel w s s' :
  quiet s → idle s → exec fuel (Process WasShownPass w) s = Ok s' →
  sameShape s s'
  ∧ ∃ l, trace s' = trace s ++ EvHook WasShown w :: l
         ∧ ∀ c, visibleChild s w c → EvHook WasShown c ∈ l.
Proof.
  revert w s s'. induction fuel as [|f IH]; intros w s s' Hq Hi H; [done|].
  split.
  { pose proof (exec_passive (S f) (Process WasShownPass w) s eq_refl Hq) as Hp.
    rewrite H in Hp. apply Hp. }
  simpl in H. unfold processWasShown in H.
  destruct (inNotification f s w) as [b|] eqn:Hin; simpl in H; [|done].
  apply (inNotification_idle _ _ _ _ Hi) in Hin. subst b.
  pose proof (restoreScrollPositions_passive w s) as [Hr _].
  assert (Htr : trace (restoreScrollPositions w s) = trace s).
  { unfold restoreScrollPositions. simpl. by destruct (_ !! _) as [[? ?]|]. }
  set (s0 := restoreScrollPositions w s) in *. clearbody s0.
  assert (Hq0 : quiet s0) by by eapply quiet_sameShape.
  destruct (notify_quiet (exec f) WasShown w s0 Hq0) as (s1 & E & Hw & Hn & Hm & Hc & _ & Ha & Ht).
  rewrite E in H. simpl in H.
  assert (Hs1 : sameShape s s1).
  { etrans; [exact Hr|]. apply passive_same_widgets; try done.
    - intros n. unfold nget. by rewrite Hn.
    - rewrite Ht. by apply prefix_app_r. }
  unfold callOnVisibleChildren in H.
  apply (loop_logs (exec f) (λ s, quiet s ∧ idle s) (λ c, EvHook WasShown c)) in H
    as (_ & t & Htt & Hev).
  - exists t. split; [by rewrite Htt, Ht, Htr, <- app_assoc|].
    intros c Hc'. apply (visibleChild_sameShape _ _ _ _ Hs1) in Hc' as (Hc1 & Hp1 & Hv1).
    by apply Hev.
  - intros sa sb Hab [? ?]. split; [by eapply quiet_sameShape | by eapply idle_sameShape].
  - intros c sa sb [Hqa Hia] Hc'. destruct (IH _ _ _ Hqa Hia Hc') as (Hsh & l & Hl & _).
    split; [done|]. exists (EvHook WasShown c :: l). split; [done|]. apply list_elem_of_here.
  - split; [by eapply quiet_sameShape | by eapply idle_sameShape].
Qed.

Lemma willHide_logs fuel w s s' :
  quiet s → idle s → exec fuel (Process WillHidePass w) s = Ok s' →
  sameShape s s'
  ∧ ∃ l, trace s' = trace s ++ l ++ [EvHook WillHide w; EvShowing w false]
         ∧ ∀ c, visibleChild s w c → EvHook WillHide c ∈ l.
Proof.
  revert w s s'. induction fuel as [|f IH]; intros w s s' Hq Hi H; [done|].
  split; [by apply (fl_shape false w), (exec_willHide_flagged (S f))|].
  simpl in H. unfold processWillHide in H.
  destruct (inNotification f s w) as [b|] eqn:Hin; simpl in H; [|done].
  apply (inNotification_idle _ _ _ _ Hi) in Hin. subst b.
  pose proof (storeScrollPositions_passive w s) as [Hr _].
  assert (Htr : trace (storeScrollPositions w s) = trace s) by done.
  set (s0 := storeScrollPositions w s) in *. clearbody s0.
  unfold callOnVisibleChildren in H.
  destruct (forEach _ _ _) as [s1| |] eqn:E; simpl in H; try done.
  apply (loop_logs (exec f) (λ s, quiet s ∧ idle s) (λ c, EvHook WillHide c)) in E
    as (Hs01 & t & Htt & Hev).
  - assert (Hq1 : quiet s1) by (eapply quiet_sameShape; [by etrans | done]).
    destruct (notify_quiet (exec f) WillHide w s1 Hq1) as (s2 & E2 & _ & _ & _ & _ & _ & _ & Ht).
    rewrite E2 in H. simpl in H. injection H as <-.
    exists t. split; [simpl; by rewrite Ht, Htt, Htr, <- !app_assoc|].
    intros c Hc'. apply (visibleChild_sameShape _ _ _ _ Hr) in Hc' as (Hc1 & Hp1 & Hv1).
    by apply Hev.
  - intros sa sb Hab [? ?]. split; [by eapply quiet_sameShape | by eapply idle_sameShape].
  - intros c sa sb [Hqa Hia] Hc'. destruct (IH _ _ _ Hqa Hia Hc') as (Hsh & l & Hl & _).
    split; [done|]. exists (l ++ [EvHook WillHide c; EvShowing c false]). split; [done|].
    apply elem_of_app. right. apply list_elem_of_here.
  - split; [by eapply quiet_sameShape | by eapply idle_sameShape].
Qed.

Lemma willHide_children_log fuel w s s1 :
  quiet s → idle s →
  callOnVisibleChildren (exec fuel) w (Process WillHidePass) (storeScrollPositions w s) = Ok s1 →
  ∃ l, trace s1 = trace s ++ l ∧ ∀ c, visibleChild s w c → EvHook WillHide c ∈ l.
Proof.
  intros Hq Hi E.
  pose proof (storeScrollPositions_passive w s) as [Hr _].
  assert (Htr : trace (storeScrollPositions w s) = trace s) by done.
  set (s0 := storeScrollPositions w s) in *. clearbody s0.
  unfold callOnVisibleChildren in E.
  apply (loop_logs (exec fuel) (λ s, quiet s ∧ idle s) (λ c, EvHook WillHide c)) in E
    as (Hs01 & t & Htt & Hev).
  - exists t. split; [by rewrite Htt, Htr|].
    intros c Hc'. apply (visibleChild_sameShape _ _ _ _ Hr) in Hc' as (Hc1 & Hp1 & Hv1).
    by apply Hev.
  - intros sa sb Hab [? ?]. split; [by eapply quiet_sameShape | by eapply idle_sameShape].
  - intros c sa sb [Hqa Hia] Hc'.
    destruct (willHide_logs _ _ _ _ Hqa Hia Hc') as (Hsh & l & Hl & _).
    split; [done|]. exists (l ++ [EvHook WillHide c; EvShowing c false]). split; [done|].
    apply elem_of_app. right. apply list_elem_of_here.
  - split; [by eapply quiet_sameShape | by eapply idle_sameShape].
Qed.

(** C5 (as amended): the will-show pass writes the showing flag of a widget
    after it has run on the widget's visible children, whose flags are
    written before; the was-shown pass invokes [wasShown] on a widget before
    anything else, its recursion into the children included; the will-hide
    pass invokes [willHide] on a widget after its recursion into the
    children has returned.  With hooks that do not call back, [wasShown] of
    every visible child follows, and [willHide] of every visible child
    precedes, the hook of the widget. *)
Theorem pass_order (fuel : nat) (w : nat) (s s' : State) :
  (exec fuel (Process WillShowPass w) s = Ok s' →
   ∃ l, trace s' = trace s ++ l ++ [EvShowing w true]
        ∧ ∀ c, visibleChild s w c → EvShowing c true ∈ l)
  ∧ (exec (S fuel) (Process WasShownPass w) s = Ok s' →
     inNotification fuel s w = Some false →
     ∃ l, trace s' = trace s ++ EvHook WasShown w :: l
          ∧ (quiet s → idle s → ∀ c, visibleChild s w c → EvHook WasShown c ∈ l))
  ∧ (exec (S fuel) (Process WillHidePass w) s = Ok s' →
     inNotification fuel s w = Some false →
     ∃ s1 l1 l2,
       callOnVisibleChildren (exec fuel) w (Process WillHidePass) (storeScrollPositions w s)
         = Ok s1
       ∧ trace s1 = trace s ++ l1
       ∧ trace s' = trace s ++ l1 ++ EvHook WillHide w :: l2 ++ [EvShowing w false]
       ∧ (quiet s → idle s → ∀ c, visibleChild s w c → EvHook WillHide c ∈ l1)).
Proof.
  split; [|split].
  - intros H. by apply willShow_logs in H as [_ H].
  - intros H Hin. destruct (wasShown_first _ _ _ _ H Hin) as [l Hl].
    exists l. split; [done|]. intros Hq Hi c Hc.
    destruct (wasShown_logs _ _ _ _ Hq Hi H) as (_ & l' & Hl' & Hev).
    rewrite Hl in Hl'. apply app_inv_head in Hl'. injection Hl' as ->. by apply Hev.
  - intros H Hin. destruct (willHide_order _ _ _ _ H Hin) as (s1 & l1 & l2 & E & Hl1 & Hl).
    exists s1, l1, l2. split; [done|]. split; [done|]. split; [done|].
    intros Hq Hi c Hc.
    destruct (willHide_children_log _ _ _ _ Hq Hi E) as (l' & Hl' & Hev).
    rewrite Hl1 in Hl'. apply app_inv_head in Hl'. subst l'. by apply Hev.
Qed.

Lemma pass_order_witness :
  (∃ l, trace (resultState (exec 3 (Process WillShowPass 1) hiddenRootState))
        = trace hiddenRootState ++ l ++ [EvShowing 1 true]
        ∧ ∀ c, visibleChild hiddenRootState 1 c → EvShowing c true ∈ l)
  ∧ (∃ l, trace (resultState (exec 4 (Process WasShownPass 1) shownState))
          = trace shownState ++ EvHook WasShown 1 :: l
          ∧ (quiet shownState → idle shownState →
             ∀ c, visibleChild shownState 1 c → EvHook WasShown c ∈ l))
  ∧ (∃ s1 l1 l2,
       callOnVisibleChildren (exec 3) 1 (Process WillHidePass) (storeScrollPositions 1 shownState)
         = Ok s1
       ∧ trace s1 = trace shownState ++ l1
       ∧ trace (resultState (exec 4 (Process WillHidePass 1) shownState))
         = trace shownState ++ l1 ++ EvHook WillHide 1 :: l2 ++ [EvShowing 1 false]
       ∧ (quiet shownState → idle shownState →
          ∀ c, visibleChild shownState 1 c → EvHook WillHide c ∈ l1)).
Proof.
  split; [|split].
  - apply (proj1 (pass_order 3 1 hiddenRootState _)). vm_compute. reflexivity.
  - apply (proj1 (proj2 (pass_order 3 1 shownState _))); vm_compute; reflexivity.
  - apply (proj2 (proj2 (pass_order 3 1 shownState _))); vm_compute; reflexivity.
Defined.

(** C5, the claim as stated fails for the will-show pass: when the hidden
    root 1 with its visible child 2 is shown again, the flag of the child
    is written before the flag of the root; [wasShown] then goes root
    first, and on hiding [willHide] goes child first. *)
Lemma will_show_children_first :
  match run 5 (hiddenRoot ++ [ShowWidget 1]) page with
  | Ok s' => trace s' = trace hiddenRootState
                        ++ [EvShowing 2 true; EvShowing 1 true;
                            EvHook WasShown 1; EvHook WasShown 2;
                            EvHook OnResize 1; EvHook OnResize 2]
             ∧ parentWidgetInternal (wget s' 2) = Some 1
  | _ => False
  end
  ∧ match exec 5 (HideWidget 1) shownState with
    | Ok s' => trace s' = trace shownState
                          ++ [EvHook WillHide 2; EvShowing 2 false;
                              EvHook WillHide 1; EvShowing 1 false]
    | _ => False
    end.
Proof. vm_compute. done. Qed.

(** ** Invalidation passes and their batching *)

#[global] Instance logging_preorder P : PreOrder (logging P).
Proof.
  split.
  - intros s. split; [reflexivity|]. exists []. by rewrite app_nil_r.
  - intros s1 s2 s3 [H1 (t1 & Ht1 & HP1)] [H2 (t2 & Ht2 & HP2)].
    split; [by etrans|]. exists (t1 ++ t2). split; [by rewrite Ht2, Ht1, app_assoc|].
    by apply Forall_app.
Qed.

Lemma logging_passive_silent P s s' : passive s s' → trace s' = trace s → logging P s s'.
Proof. intros H Ht. split; [done|]. exists []. by rewrite app_nil_r. Qed.

Lemma logging_weaken (P Q : Event → Prop) s s' :
  (∀ e, P e → Q e) → logging P s s' → logging Q s s'.
Proof.
  intros HPQ [H (t & Ht & HP)]. split; [done|]. exists t. split; [done|].
  apply Forall_forall. intros e He. apply HPQ. by eapply Forall_forall in HP.
Qed.

Lemma quiet_logging P s s' : logging P s s' → quiet s → quiet s'.
Proof. intros [H _]. by apply quiet_passive. Qed.

Lemma foldVisibleChildren_trace {A} (method : nat → A → State → option (A * State))
    this l acc s acc' s' :
  (∀ c a s1 a' s1', method c a s1 = Some (a', s1') → trace s1' = trace s1) →
  foldVisibleChildren method this l acc s = Some (acc', s') → trace s' = trace s.
Proof.
  intros Hm. revert acc s. induction l as [|c l IH]; intros acc s; simpl.
  - by intros [= <- <-].
  - destruct (_ && _); [|apply IH].
    destruct (method c acc s) as [[a1 s1]|] eqn:E; simpl; [|done].
    intros H. rewrite (IH _ _ H). by eapply Hm.
Qed.

Lemma constraintsOf_trace fuel this s c s' :
  constraintsOf fuel this s = Some (c, s') → trace s' = trace s.
Proof.
  revert this s c s'. induction fuel as [|f IH]; intros this s c s'; simpl; [done|].
  destruct (constraintsInternal (wget s this)); [by intros [= <- <-]|].
  destruct (cachedConstraints (wget s this)); [by intros [= <- <-]|].
  destruct (calculateConstraints _ _ _) as [[c1 s1]|] eqn:E; simpl; [|done].
  intros [= <- <-]. simpl.
  unfold calculateConstraints in E.
  assert (Hupd : ∀ combine ch a s2 a' s2',
    updateForChild (constraintsOf f) combine ch a s2 = Some (a', s2') → trace s2' = trace s2).
  { intros combine ch a s2 a' s2'. unfold updateForChild.
    destruct (constraintsOf f ch s2) as [[c2 s3]|] eqn:E2; simpl; [|done].
    intros [= <- <-]. by eapply IH. }
  destruct (widgetClass (wget s this)).
  - by injection E as <- <-.
  - eapply foldVisibleChildren_trace; [|exact E]. apply Hupd.
  - eapply foldVisibleChildren_trace; [|exact E]. apply Hupd.
Qed.

Lemma constraintsOf_logging P fuel this s c s' :
  constraintsOf fuel this s = Some (c, s') → logging P s s'.
Proof.
  intros H. apply logging_passive_silent.
  - by eapply constraintsOf_passive.
  - by eapply constraintsOf_trace.
Qed.

Lemma notify_logging (P : Event → Prop) rec h this s :
  P (EvHook h this) → quiet s → post (logging P) s (notify rec h this s).
Proof.
  intros HP Hq. pose proof (notify_passive rec h this s Hq) as Hp.
  destruct (notify_quiet rec h this s Hq) as (s' & E & _ & _ & _ & _ & _ & _ & Ht).
  rewrite E in *. simpl in *. split; [done|]. exists [EvHook h this]. split; [done|].
  by apply Forall_singleton.
Qed.

Section Resize.
Variable P : Event → Prop.
Hypothesis HP : ∀ h x, P (EvHook h x).
Variable fuel : nat.
Variable rec : Call → State → Res State.
Hypothesis Hrec : ∀ c s, resizeCall c = true → quiet s → post (logging P) s (rec c s).

Lemma resizeChildren_logging this s :
  quiet s → post (logging P) s (callOnVisibleChildren rec this (Process OnResizePass) s).
Proof.
  intros Hq. unfold callOnVisibleChildren. apply (post_forEach (logging P)).
  intros c s1 _ H1. destruct (_ && _); [|by apply post_ok].
  apply Hrec; [done | by eapply quiet_logging].
Qed.

Lemma processOnResize_logging this s :
  quiet s → post (logging P) s (processOnResize fuel rec this s).
Proof.
  intros Hq. unfold processOnResize. post_step. post_step; [by post_step|].
  post_step; [by post_step|]. post_step.
  - by apply notify_logging.
  - apply resizeChildren_logging. by eapply quiet_logging.
Qed.

Lemma doResize_logging this s : quiet s → post (logging P) s (doResize fuel rec this s).
Proof.
  intros Hq. unfold doResize. post_step; [by post_step|]. post_step.
  post_step; [by post_step|]. by apply resizeChildren_logging.
Qed.

Lemma doLayout_logging this s : quiet s → post (logging P) s (doLayout fuel rec this s).
Proof.
  intros Hq. unfold doLayout. post_step; [by post_step|]. post_step.
  - by apply notify_logging.
  - apply doResize_logging. by eapply quiet_logging.
Qed.

Lemma body_resize_logging c s :
  resizeCall c = true → quiet s → post (logging P) s (body fuel rec c s).
Proof.
  intros Hc Hq. destruct c as [| | | | | | | | | | | | | | | | | | | | |p w]; try done; unfold body.
  - by apply doLayout_logging.
  - by apply doResize_logging.
  - destruct p; try done. by apply processOnResize_logging.
Qed.
End Resize.

Lemma exec_resize_logging P fuel c s :
  (∀ h x, P (EvHook h x)) → resizeCall c = true → quiet s → post (logging P) s (exec fuel c s).
Proof.
  intros HP. revert c s. induction fuel as [|f IH]; intros c s Hc Hq; [done|].
  simpl. by apply body_resize_logging.
Qed.

Lemma ranked_passive N rank s s' : passive s s' → ranked N rank s → ranked N rank s'.
Proof.
  intros [H _] [Hr Hn]. split; [|done]. intros x p. rewrite (shape_parent _ _ _ H). apply Hr.
Qed.

Lemma invalidateConstraints_logging N rank fuel w s :
  quiet s → ranked N rank s →
  post (logging (aboveEvent rank (rank w))) s (exec fuel (InvalidateConstraints w) s).
Proof.
  revert w s. induction fuel as [|f IH]; intros w s Hq Hr; [done|].
  simpl. unfold invalidateConstraints.
  assert (Hhook : ∀ r h x, aboveEvent rank r (EvHook h x)) by done.
  post_step.
  { post_step. apply logging_passive_silent; [by apply passive_wupd | done]. }
  cbv zeta.
  set (s0 := log (EvInvalidate w) _).
  assert (H0 : logging (aboveEvent rank (rank w)) s s0).
  { split.
    - unfold s0. etrans; [|apply passive_log]. etrans; by apply passive_wupd.
    - exists [EvInvalidate w]. split; [done|]. apply Forall_singleton. simpl. lia. }
  clearbody s0.
  apply (post_fromFuel (logging (aboveEvent rank (rank w)))). intros [actual s1] Hc.
  apply (constraintsOf_logging (aboveEvent rank (rank w))) in Hc.
  assert (H1 : logging (aboveEvent rank (rank w)) s s1) by by etrans.
  apply (post_pre (logging (aboveEvent rank (rank w))) _ s1); [done|].
  assert (Hq1 : quiet s1) by by eapply quiet_logging.
  assert (Hr1 : ranked N rank s1) by (eapply ranked_passive; [apply H1 | done]).
  assert (Hlay : post (logging (aboveEvent rank (rank w))) s1 (doLayout f (exec f) w s1)).
  { apply doLayout_logging; try done. intros c s2 Hc2 Hq2. by apply exec_resize_logging. }
  destruct (parentWidgetInternal (wget s1 w)) as [p|] eqn:Hp; [|exact Hlay].
  post_step; [|exact Hlay].
  pose proof (IH p s1 Hq1 Hr1) as Hpar.
  destruct (exec f (InvalidateConstraints p) s1) as [s2|s2|]; simpl in *; try done.
  all: eapply logging_weaken; [|exact Hpar]; intros [h x|x b|x|x]; simpl; try done;
    destruct Hr1 as [Hr1 _]; specialize (Hr1 _ _ Hp); lia.
Qed.

Lemma invalidations_app w t1 t2 :
  invalidations w (t1 ++ t2) = invalidations w t1 + invalidations w t2.
Proof. unfold invalidations. by rewrite List.filter_app, length_app. Qed.

Lemma invalidations_above rank r w t :
  Forall (aboveEvent rank r) t → rank w < r → invalidations w t = 0.
Proof.
  intros Ht Hr. induction Ht as [|e t He _ IH]; [done|].
  unfold invalidations in *. simpl. case_bool_decide; [|done].
  subst e. simpl in He. lia.
Qed.

Lemma invalidate_once N rank fuel w s s' :
  quiet s → ranked N rank s → invalidationsSuspended (wget s w) = 0%Z →
  exec (S fuel) (InvalidateConstraints w) s = Ok s' →
  invalidations w (trace s') = invalidations w (trace s) + 1.
Proof.
  intros Hq Hr Hsus. simpl. unfold invalidateConstraints. rewrite Hsus. simpl.
  set (s0 := log (EvInvalidate w) _).
  assert (Hp0 : passive s s0).
  { unfold s0. etrans; [|apply passive_log]. etrans; by apply passive_wupd. }
  assert (Ht0 : trace s0 = trace s ++ [EvInvalidate w]) by done.
  clearbody s0.
  destruct (constraintsOf fuel w s0) as [[actual s1]|] eqn:Hc; simpl; [|done].
  pose proof (constraintsOf_trace _ _ _ _ _ Hc) as Ht1.
  apply constraintsOf_passive in Hc.
  assert (Hp1 : passive s s1) by by etrans.
  assert (Hq1 : quiet s1) by by eapply quiet_passive.
  assert (Hr1 : ranked N rank s1) by by eapply ranked_passive.
  assert (Hbase : invalidations w (trace s1) = invalidations w (trace s) + 1).
  { rewrite Ht1, Ht0, invalidations_app. unfold invalidations at 2. simpl.
    by rewrite bool_decide_eq_true_2. }
  assert (Hrest : ∀ r, logging (aboveEvent rank r) s1 s' → rank w < r →
                       invalidations w (trace s') = invalidations w (trace s) + 1).
  { intros r [_ (t & Ht & HP)] Hlt. rewrite Ht, invalidations_app, Hbase.
    by rewrite (invalidations_above rank r w t). }
  assert (Hlay : doLayout fuel (exec fuel) w s1 = Ok s' →
                 invalidations w (trace s') = invalidations w (trace s) + 1).
  { intros E. apply (Hrest (S (rank w))); [|lia].
    pose proof (doLayout_logging (aboveEvent rank (S (rank w))) (λ _ _, I) fuel (exec fuel)) as Hl.
    specialize (Hl (λ c s2 Hc2 Hq2, exec_resize_logging _ fuel c s2 (λ _ _, I) Hc2 Hq2) w s1 Hq1).
    by rewrite E in Hl. }
  destruct (parentWidgetInternal (wget s1 w)) as [p|] eqn:Hp; [|exact Hlay].
  destruct (negb _); [|exact Hlay].
  intros E. apply (Hrest (rank p)).
  - pose proof (invalidateConstraints_logging N rank fuel p s1 Hq1 Hr1) as Hl.
    by rewrite E in Hl.
  - destruct Hr1 as [Hr1 _]. by apply Hr1.
Qed.

(** ** Termination of the layout passes on a ranked tree *)

Lemma finishes_weaken (I J : State → Prop) r :
  (∀ s, I s → J s) → finishes I r → finishes J r.
Proof. intros H (s' & E & Hs). exists s'. auto. Qed.

Lemma finishes_bind (I J : State → Prop) (r : Res State) (k : State → Res State) :
  finishes I r → (∀ s1, I s1 → finishes J (k s1)) → finishes J (r ≫= k).
Proof. intros (s1 & -> & H1) Hk. simpl. by apply Hk. Qed.

Lemma forEach_finishes {A} (I : State → Prop) (body : A → State → Res State) l s :
  I s → (∀ c s1, I s1 → finishes I (body c s1)) → finishes I (forEach body l s).
Proof.
  intros Hs Hbody. revert s Hs. induction l as [|c l IH]; intros s Hs; simpl.
  - by exists s.
  - eapply finishes_bind; [by apply Hbody | apply IH].
Qed.

Lemma forEach_app {A} (body : A → State → Res State) l1 l2 s :
  forEach body (l1 ++ l2) s = forEach body l1 s ≫= forEach body l2.
Proof.
  revert s. induction l1 as [|c l1 IH]; intros s; simpl; [done|].
  destruct (body c s) as [s1|s1|]; simpl; [apply IH | done | done].
Qed.

Lemma idle_passive s s' : passive s s' → idle s → idle s'.
Proof. intros [H _]. by apply idle_sameShape. Qed.

Lemma inNotification_finishes N rank fuel s w :
  idle s → ranked N rank s → N ≤ fuel + rank w → inNotification fuel s w = Some false.
Proof.
  intros Hi [Hr HN]. revert w. induction fuel as [|f IH]; intros w Hf; simpl.
  - specialize (HN w). lia.
  - rewrite Hi. simpl. destruct (parentWidgetInternal (wget s w)) as [p|] eqn:Hp; [|done].
    apply IH. specialize (Hr _ _ Hp). lia.
Qed.

Lemma foldVisibleChildren_finishes {A} (I : State → Prop)
    (method : nat → A → State → option (A * State)) this l acc s :
  I s →
  (∀ c a s1, I s1 → parentWidgetInternal (wget s1 c) = Some this →
             ∃ a' s1', method c a s1 = Some (a', s1') ∧ I s1') →
  ∃ acc' s', foldVisibleChildren method this l acc s = Some (acc', s') ∧ I s'.
Proof.
  intros Hs Hm. revert acc s Hs. induction l as [|c l IH]; intros acc s Hs; simpl.
  - by exists acc, s.
  - destruct (bool_decide (parentWidgetInternal (wget s c) = Some this)) eqn:Hp; simpl;
      [|by apply IH].
    destruct (visibleInternal (wget s c)); [|by apply IH].
    apply bool_decide_eq_true_1 in Hp.
    destruct (Hm c acc s Hs Hp) as (a' & s1' & -> & H1). simpl. by apply IH.
Qed.

Lemma constraintsOf_finishes N rank fuel w s :
  ranked N rank s → rank w < fuel →
  ∃ c s', constraintsOf fuel w s = Some (c, s') ∧ ranked N rank s'.
Proof.
  revert w s. induction fuel as [|f IH]; intros w s Hr Hf; [lia|]. simpl.
  destruct (constraintsInternal (wget s w)) as [c|]; [by exists c, s|].
  destruct (cachedConstraints (wget s w)) as [c|]; [by exists c, s|].
  assert (Hfold : ∀ combine,
    ∃ c s', foldVisibleChildren (updateForChild (constraintsOf f) combine) w
              (childrenInternal (wget s w)) zeroConstraints s = Some (c, s')
            ∧ ranked N rank s').
  { intros combine. apply (foldVisibleChildren_finishes (ranked N rank)); [done|].
    intros ch a s1 Hr1 Hp. unfold updateForChild.
    destruct (IH ch s1 Hr1) as (c2 & s2 & -> & Hr2).
    { destruct Hr1 as [Hr1 _]. specialize (Hr1 _ _ Hp). lia. }
    simpl. by eexists _, _. }
  assert (Hcalc : ∃ c s', calculateConstraints (constraintsOf f) w s = Some (c, s')
                          ∧ ranked N rank s').
  { unfold calculateConstraints. destruct (widgetClass (wget s w)); [by eexists _, _|..];
      apply Hfold. }
  destruct Hcalc as (c & s' & -> & Hr'). simpl. eexists _, _. split; [done|].
  eapply ranked_passive; [|exact Hr']. by apply passive_wupd.
Qed.

Lemma resizeChildren_finishes (rec : Call → State → Res State) w s0 s :
  (∀ c s1, passive s0 s1 → parentWidgetInternal (wget s1 c) = Some w →
           finishes (passive s1) (rec (Process OnResizePass c) s1)) →
  passive s0 s →
  finishes (passive s0) (callOnVisibleChildren rec w (Process OnResizePass) s).
Proof.
  intros Hrec Hs. unfold callOnVisibleChildren. apply forEach_finishes; [done|].
  intros c s1 H1.
  destruct (bool_decide (parentWidgetInternal (wget s1 c) = Some w)) eqn:Hp; simpl;
    [|by exists s1].
  destruct (visibleInternal (wget s1 c)); [|by exists s1].
  apply bool_decide_eq_true_1 in Hp.
  eapply finishes_weaken; [|by apply Hrec]. intros s2 H2. by etrans.
Qed.

Lemma notify_finishes rec h w s : quiet s → finishes (passive s) (notify rec h w s).
Proof.
  intros Hq. pose proof (notify_passive rec h w s Hq) as Hp.
  destruct (notify_quiet rec h w s Hq) as (s' & E & _). rewrite E in *. by exists s'.
Qed.

Lemma onResize_finishes N rank fuel w s :
  quiet s → idle s → ranked N rank s → N + rank w < fuel →
  finishes (passive s) (exec fuel (Process OnResizePass w) s).
Proof.
  revert w s. induction fuel as [|f IH]; intros w s Hq Hi Hr Hf; [lia|].
  simpl. unfold processOnResize.
  rewrite (inNotification_finishes N rank f s w) by (done || lia). simpl.
  destruct (negb (isShowing s w)); [by exists s|].
  eapply finishes_bind; [by apply notify_finishes|]. intros s1 H1.
  apply resizeChildren_finishes; [|done]. intros c s2 H2 Hp.
  assert (H02 : passive s s2) by done.
  apply IH.
  - by eapply quiet_passive.
  - by eapply idle_passive.
  - by eapply ranked_passive.
  - assert (Hr2 : ranked N rank s2) by by eapply ranked_passive.
    destruct Hr2 as [Hr2 _]. specialize (Hr2 _ _ Hp). lia.
Qed.

Lemma doResize_finishes N rank fuel w s :
  quiet s → idle s → ranked N rank s → N + rank w ≤ fuel →
  finishes (passive s) (doResize fuel (exec fuel) w s).
Proof.
  intros Hq Hi Hr Hf. unfold doResize.
  destruct (negb (isShowing s w)); [by exists s|].
  rewrite (inNotification_finishes N rank fuel s w) by (done || lia). simpl.
  apply resizeChildren_finishes; [|done]. intros c s2 H2 Hp.
  assert (Hr2 : ranked N rank s2) by by eapply ranked_passive.
  apply (onResize_finishes N rank).
  - by eapply quiet_passive.
  - by eapply idle_passive.
  - done.
  - destruct Hr2 as [Hr2 _]. specialize (Hr2 _ _ Hp). lia.
Qed.

Lemma doLayout_finishes N rank fuel w s :
  quiet s → idle s → ranked N rank s → N + rank w ≤ fuel →
  finishes (passive s) (doLayout fuel (exec fuel) w s).
Proof.
  intros Hq Hi Hr Hf. unfold doLayout.
  destruct (negb (isShowing s w)); [by exists s|].
  eapply finishes_bind; [by apply notify_finishes|]. intros s1 H1.
  eapply finishes_weaken; [|apply (doResize_finishes N rank)].
  - intros s2 H2. by etrans.
  - by eapply quiet_passive.
  - by eapply idle_passive.
  - by eapply ranked_passive.
  - done.
Qed.

Lemma invalidateConstraints_finishes N rank fuel w s :
  quiet s → idle s → ranked N rank s → 3 * N ≤ fuel + rank w →
  finishes (passive s) (invalidateConstraints fuel (exec fuel) w s).
Proof.
  revert w s. induction fuel as [|f IH]; intros w s Hq Hi Hr Hf.
  { destruct Hr as [_ HN]. specialize (HN w). lia. }
  assert (HN : rank w < N) by apply Hr.
  unfold invalidateConstraints.
  destruct (negb _).
  { eexists. split; [done|]. by apply passive_wupd. }
  cbv zeta.
  set (s0 := log (EvInvalidate w) _).
  assert (H0 : passive s s0).
  { unfold s0. etrans; [|apply passive_log]. etrans; by apply passive_wupd. }
  clearbody s0.
  destruct (constraintsOf_finishes N rank (S f) w s0) as (actual & s1 & Hc & Hr1).
  { by eapply ranked_passive. }
  { lia. }
  rewrite Hc. simpl.
  apply constraintsOf_passive in Hc.
  assert (H1 : passive s s1) by by etrans.
  assert (Hq1 : quiet s1) by by eapply quiet_passive.
  assert (Hi1 : idle s1) by by eapply idle_passive.
  assert (Hlay : finishes (passive s) (doLayout (S f) (exec (S f)) w s1)).
  { eapply finishes_weaken; [|apply (doLayout_finishes N rank); try done; lia].
    intros s2 H2. by etrans. }
  destruct (parentWidgetInternal (wget s1 w)) as [p|] eqn:Hp; [|exact Hlay].
  destruct (negb _); [|exact Hlay].
  eapply finishes_weaken; [|apply (IH p s1); try done].
  - intros s2 H2. by etrans.
  - destruct Hr1 as [Hr1 _]. specialize (Hr1 _ _ Hp). lia.
Qed.

(** ** Batching of invalidations *)

Lemma deferred_refl w s : deferred w s s.
Proof. by repeat split. Qed.

Lemma deferred_trans w s1 s2 s3 : deferred w s1 s2 → deferred w s2 s3 → deferred w s1 s3.
Proof.
  intros (Hp1 & Ht1 & Hs1 & Hx1) (Hp2 & Ht2 & Hs2 & Hx2). split; [by etrans|].
  split; [congruence|]. split; [congruence|]. intros x Hx. by rewrite Hx2, Hx1.
Qed.

Lemma deferred_wupd w f s :
  (∀ x, shape (f x) = shape x) → (∀ x, isShowingInternal (f x) = isShowingInternal x) →
  (∀ x, invalidationsSuspended (f x) = invalidationsSuspended x) →
  deferred w s (wupd w f s).
Proof.
  intros H1 H2 H3. split; [by apply passive_wupd|]. split; [done|].
  split; [by rewrite wget_wupd_eq|]. intros x Hx. by rewrite wget_wupd_ne.
Qed.

Lemma invalidate_suspended fuel w s :
  invalidationsSuspended (wget s w) ≠ 0%Z →
  exec (S fuel) (InvalidateConstraints w) s = Ok (wupd w (set_invalidationsRequested true) s).
Proof.
  intros H. simpl. unfold invalidateConstraints.
  by rewrite (proj2 (Z.eqb_neq _ _) H).
Qed.

Lemma op_deferred fuel w c s :
  constraintOp w c = true → invalidationsSuspended (wget s w) ≠ 0%Z →
  ∃ s1, exec (S fuel) c s = Ok s1 ∧ deferred w s s1
        ∧ invalidationsRequested (wget s1 w) = true.
Proof.
  intros Hc Hs.
  destruct c as [| | | | | | | | |x a b|x a b c d| | |x| | | | | | | |]; try done;
    simpl in Hc; apply bool_decide_eq_true_1 in Hc; subst x.
  - change (exec (S fuel) (SetMinimumSize w a b) s)
      with (exec (S fuel) (InvalidateConstraints w)
              (wupd w (set_constraintsInternal (Some (minimumConstraints a b))) s)).
    rewrite invalidate_suspended by by rewrite wget_wupd_eq.
    eexists. split; [done|]. split; [|by rewrite wget_wupd_eq].
    eapply deferred_trans; by apply deferred_wupd.
  - change (exec (S fuel) (SetMinimumAndPreferredSizes w a b c d) s)
      with (exec (S fuel) (InvalidateConstraints w)
              (wupd w (set_constraintsInternal
                         (Some (mkConstraints (mkSize a b) (mkSize c d)))) s)).
    rewrite invalidate_suspended by by rewrite wget_wupd_eq.
    eexists. split; [done|]. split; [|by rewrite wget_wupd_eq].
    eapply deferred_trans; by apply deferred_wupd.
  - rewrite invalidate_suspended by done.
    eexists. split; [done|]. split; [|by rewrite wget_wupd_eq].
    by apply deferred_wupd.
Qed.

Lemma ops_deferred fuel w ops s :
  Forall (λ c, constraintOp w c = true) ops → invalidationsSuspended (wget s w) ≠ 0%Z →
  ∃ s2, forEach (exec (S fuel)) ops s = Ok s2 ∧ deferred w s s2
        ∧ (invalidationsRequested (wget s w) = true ∨ ops ≠ [] →
           invalidationsRequested (wget s2 w) = true).
Proof.
  intros Hops. revert s. induction Hops as [|c ops Hc _ IH]; intros s Hs.
  - exists s. split; [done|]. split; [apply deferred_refl|]. by intros [?|?].
  - destruct (op_deferred fuel w c s Hc Hs) as (s1 & E1 & Hd1 & Hr1).
    destruct (IH s1) as (s2 & E2 & Hd2 & Hr2).
    { destruct Hd1 as (_ & _ & -> & _). done. }
    exists s2. cbn [forEach]. rewrite E1. simpl. split; [done|].
    split; [by eapply deferred_trans|]. intros _. apply Hr2. by left.
Qed.

Lemma batch_one_invalidate fuel w ops s :
  ops ≠ [] → Forall (λ c, constraintOp w c = true) ops →
  invalidationsSuspended (wget s w) = 0%Z →
  ∃ s1, deferred w s s1
        ∧ run (S fuel) (batch w ops) s = exec (S fuel) (InvalidateConstraints w) s1.
Proof.
  intros Hne Hops Hs. unfold run, batch.
  set (sa := wupd w (λ x, set_invalidationsSuspended (invalidationsSuspended x + 1) x) s).
  change (forEach (exec (S fuel)) (SuspendInvalidations w :: ops ++ [ResumeInvalidations w]) s)
    with (forEach (exec (S fuel)) (ops ++ [ResumeInvalidations w]) sa).
  assert (Hsa : invalidationsSuspended (wget sa w) = 1%Z).
  { unfold sa. rewrite wget_wupd_eq. simpl. by rewrite Hs. }
  destruct (ops_deferred fuel w ops sa Hops) as (sb & Eb & Hdb & Hrb); [by rewrite Hsa|].
  rewrite forEach_app, Eb.
  set (sc := wupd w (λ x, set_invalidationsSuspended (invalidationsSuspended x - 1) x) sb).
  change (Ok sb ≫= forEach (exec (S fuel)) [ResumeInvalidations w])
    with (s3 ← (if (invalidationsSuspended (wget sc w) =? 0)%Z
                   && invalidationsRequested (wget sc w)
                then exec (S fuel) (InvalidateConstraints w) sc else Ok sc);
          Ok s3).
  assert (Hsb : invalidationsSuspended (wget sb w) = 1%Z).
  { destruct Hdb as (_ & _ & -> & _). done. }
  assert (Hsc : invalidationsSuspended (wget sc w) = 0%Z).
  { unfold sc. rewrite wget_wupd_eq. simpl. by rewrite Hsb. }
  assert (Hrc : invalidationsRequested (wget sc w) = true).
  { unfold sc. rewrite wget_wupd_eq. simpl. apply Hrb. by right. }
  rewrite Hsc, Hrc. cbn [Z.eqb andb].
  exists sc. split; [|by destruct (exec (S fuel) (InvalidateConstraints w) sc)].
  destruct Hdb as (Hp & Ht & _ & Hx).
  split; [|split; [|split]].
  - etrans; [|etrans; [exact Hp|]]; by apply passive_wupd.
  - done.
  - by rewrite Hsc, Hs.
  - intros x Hxw. unfold sc. rewrite wget_wupd_ne by done. rewrite Hx by done.
    unfold sa. by rewrite wget_wupd_ne.
Qed.

(** C7: while the suspension depth of [w] is not zero, [invalidateConstraints()]
    only sets the pending flag: nothing is recomputed or logged.  From depth
    zero, [suspendInvalidations()], one or more constraint-changing
    operations on [w] and the matching [resumeInvalidations()] amount to a
    single call of [invalidateConstraints()], made by the resume in a state
    that differs from the first in the constraint and pending fields of [w]
    only.  With hooks that do not call back, on a tree of height below [N]
    and with fuel for it, the batch returns and its trace holds exactly one
    more invalidation pass of [w]. *)
Theorem suspended_invalidations_batch (fuel w : nat) (ops : list Call) (s : State) :
  ops ≠ [] → Forall (λ c, constraintOp w c = true) ops →
  invalidationsSuspended (wget s w) = 0%Z →
  (∀ s0, invalidationsSuspended (wget s0 w) ≠ 0%Z →
         exec (S fuel) (InvalidateConstraints w) s0
         = Ok (wupd w (set_invalidationsRequested true) s0))
  ∧ (∃ s1, deferred w s s1
           ∧ run (S fuel) (batch w ops) s = exec (S fuel) (InvalidateConstraints w) s1)
  ∧ (∀ N rank, quiet s → idle s → ranked N rank s → 3 * N ≤ fuel →
       ∃ s', run (S fuel) (batch w ops) s = Ok s'
             ∧ invalidations w (trace s') = invalidations w (trace s) + 1).
Proof.
  intros Hne Hops Hs. split; [intros s0; apply invalidate_suspended|].
  destruct (batch_one_invalidate fuel w ops s Hne Hops Hs) as (s1 & Hd & E).
  split; [by exists s1|].
  intros N rank Hq Hi Hr Hf. rewrite E.
  destruct Hd as (Hp & Ht & Hsus & _).
  assert (Hq1 : quiet s1) by by eapply quiet_passive.
  assert (Hi1 : idle s1) by by eapply idle_passive.
  assert (Hr1 : ranked N rank s1) by by eapply ranked_passive.
  destruct (invalidateConstraints_finishes N rank fuel w s1) as (s' & E' & _);
    [done | done | done | lia |].
  exists s'. split; [exact E'|].
  rewrite <- Ht. apply (invalidate_once N rank fuel w s1 s'); [done | done | congruence | exact E'].
Qed.

Lemma shownState_dom : dom (heap shownState) = ({[1; 2; 3]} : gset nat).
Proof. vm_compute. reflexivity. Qed.

Lemma shownState_parent x p :
  parentWidgetInternal (wget shownState x) = Some p → x = 2 ∧ p = 1.
Proof.
  unfold wget. destruct (heap shownState !! x) as [v|] eqn:E; [|done].
  assert (Hx : x ∈ dom (heap shownState)) by (apply elem_of_dom; eauto).
  rewrite shownState_dom in Hx.
  assert (Hc : x = 1 ∨ x = 2 ∨ x = 3).
  { clear E. (apply elem_of_union in Hx as [Hx|Hx]; [apply elem_of_union in Hx as [Hx|Hx]|];
      apply elem_of_singleton in Hx; auto). }
  intros Hp. (destruct Hc as [-> | [-> | ->] ]; vm_compute in E; injection E as <-;
    vm_compute in Hp; by try injection Hp as <-).
Qed.

Lemma consistent_shownState : consistent shownState.
Proof.
  apply (run_consistent 3 rootAndChild page consistent_page).
  - repeat constructor; vm_compute; reflexivity.
  - vm_compute. reflexivity.
Qed.

Lemma ranked_shownState : ranked 2 shownRank shownState.
Proof.
  split.
  - intros x p Hp. apply shownState_parent in Hp as [-> ->]. vm_compute. lia.
  - intros x. unfold shownRank. case_bool_decide; lia.
Qed.

Lemma suspended_invalidations_batch_witness :
  ∃ s', run 7 (batch 2 twoSizes) shownState = Ok s'
        ∧ invalidations 2 (trace s') = invalidations 2 (trace shownState) + 1.
Proof.
  destruct (suspended_invalidations_batch 6 2 twoSizes shownState) as (_ & _ & H).
  - done.
  - repeat constructor.
  - vm_compute. reflexivity.
  - apply (H 2 shownRank).
    + apply consistent_shownState.
    + apply consistent_shownState.
    + apply ranked_shownState.
    + lia.
Defined.

(** In the example the batch of two size changes logs one invalidation of
    widget 2, and the same two changes without the batch log two. *)
Lemma batch_example :
  invalidations 2 (trace (resultState (run 7 (batch 2 twoSizes) shownState))) = 1
  ∧ invalidations 2 (trace (resultState (run 7 twoSizes shownState))) = 2
  ∧ invalidations 2 (trace shownState) = 0.
Proof. vm_compute. done. Qed.

(** * Further properties *)

(** ** The counter walks *)

Lemma counterOf_setCounter el v s n :
  counterOf (setCounter el v s) n = if decide (n = el) then v else counterOf s n.
Proof.
  unfold counterOf, setCounter. simpl. case_decide; [subst; by rewrite lookup_insert_eq|].
  by rewrite lookup_insert_ne.
Qed.

Lemma increment_walk (k : Z) (l : list nat) s n :
  NoDup l →
  counterOf (foldl (λ s el, setCounter el (counterOf s el + k)%Z s) s l) n
  = (counterOf s n + (if bool_decide (n ∈ l) then k else 0))%Z.
Proof.
  intros Hnd. revert s. induction Hnd as [|el l Hel _ IH]; intros s; cbn [foldl].
  - rewrite bool_decide_eq_false_2 by apply not_elem_of_nil. lia.
  - rewrite IH, counterOf_setCounter. destruct (decide (n = el)) as [Hn|Hn].
    + subst n. rewrite (bool_decide_eq_false_2 (el ∈ l)) by done.
      rewrite bool_decide_eq_true_2 by apply list_elem_of_here. lia.
    + destruct (decide (n ∈ l)) as [Hin|Hin].
      * rewrite !bool_decide_eq_true_2; [done | by apply list_elem_of_further | done].
      * rewrite !bool_decide_eq_false_2; [done | | done].
        intros Hc. apply elem_of_cons in Hc as [?|?]; done.
Qed.

(** One step of the loop of [decrementWidgetCounter]. *)
Lemma decrement_step (k : Z) el s n :
  counterOf (match widgetCounterMap s !! el with
             | Some c => if (c =? 0)%Z then s else setCounter el (c - k)%Z s
             | None => s
             end) n
  = if decide (n = el)
    then (if (counterOf s n =? 0)%Z then counterOf s n else counterOf s n - k)%Z
    else counterOf s n.
Proof.
  unfold counterOf at 2 3 4 5. case_decide as Hn; [subst n|].
  - destruct (widgetCounterMap s !! el) as [c|] eqn:E; simpl; [|by unfold counterOf; rewrite E].
    destruct (c =? 0)%Z eqn:Hc.
    + unfold counterOf. by rewrite E.
    + rewrite counterOf_setCounter. by rewrite decide_True.
  - destruct (widgetCounterMap s !! el) as [c|] eqn:E; [|done].
    destruct (c =? 0)%Z; [done|]. rewrite counterOf_setCounter. by rewrite decide_False.
Qed.

Lemma decrement_walk (k : Z) (l : list nat) s n :
  NoDup l →
  counterOf (foldl (λ s el,
                      match widgetCounterMap s !! el with
                      | Some c => if (c =? 0)%Z then s else setCounter el (c - k)%Z s
                      | None => s
                      end) s l) n
  = if bool_decide (n ∈ l) && negb (counterOf s n =? 0)%Z
    then (counterOf s n - k)%Z else counterOf s n.
Proof.
  intros Hnd. revert s. induction Hnd as [|el l Hel _ IH]; intros s; cbn [foldl].
  - by rewrite bool_decide_eq_false_2 by apply not_elem_of_nil.
  - rewrite IH, decrement_step. destruct (decide (n = el)) as [Hn|Hn].
    + subst n. rewrite (bool_decide_eq_false_2 (el ∈ l)) by done.
      rewrite bool_decide_eq_true_2 by apply list_elem_of_here. simpl.
      by destruct (counterOf s el =? 0)%Z.
    + destruct (decide (n ∈ l)) as [Hin|Hin].
      * rewrite !bool_decide_eq_true_2; [done | by apply list_elem_of_further | done].
      * rewrite !bool_decide_eq_false_2; [done | | done].
        intros Hc. apply elem_of_cons in Hc as [?|?]; done.
Qed.

Lemma decrement_walk_entries (k : Z) (l : list nat) s n :
  widgetCounterMap s !! n = None →
  widgetCounterMap (foldl (λ s el,
                      match widgetCounterMap s !! el with
                      | Some c => if (c =? 0)%Z then s else setCounter el (c - k)%Z s
                      | None => s
                      end) s l) !! n = None.
Proof.
  revert s. induction l as [|el l IH]; intros s Hn; simpl; [done|]. apply IH.
  destruct (widgetCounterMap s !! el) as [c|] eqn:E; [|done].
  destruct (c =? 0)%Z; [done|]. simpl. rewrite lookup_insert_ne; [done|]. congruence.
Qed.

(** X1: [incrementWidgetCounter(parentElement, childElement)] writes the
    counter map only: on an acyclic walk it adds the count of the child (its
    own counter, plus one when it is a widget element) to the counter of
    [parentElement] and of every element above it, shadow hosts included,
    and leaves every other counter as it was. *)
Theorem incrementWidgetCounter_effect (pe ce : nat) (s : State) :
  NoDup (elementChain s pe) →
  sameButCounters s (incrementWidgetCounter pe ce s)
  ∧ ∀ n, counterOf (incrementWidgetCounter pe ce s) n
         = (counterOf s n
            + (if bool_decide (n ∈ elementChain s pe) then countFor s ce else 0))%Z.
Proof.
  intros Hnd. split; [apply incrementWidgetCounter_same|].
  intros n. unfold incrementWidgetCounter. by apply increment_walk.
Qed.

Lemma incrementWidgetCounter_effect_witness :
  sameButCounters shownState (incrementWidgetCounter 11 13 shownState)
  ∧ ∀ n, counterOf (incrementWidgetCounter 11 13 shownState) n
         = (counterOf shownState n
            + (if bool_decide (n ∈ elementChain shownState 11)
               then countFor shownState 13 else 0))%Z.
Proof.
  apply (incrementWidgetCounter_effect 11 13 shownState).
  apply (bool_decide_unpack _). vm_compute. reflexivity.
Defined.

(** X2: [decrementWidgetCounter] writes the counter map only: on an acyclic
    walk it takes the count of the child from the counter of every element
    at or above [parentElement] whose counter is not zero; a counter that is
    zero or missing is left alone, and no entry is created. *)
Theorem decrementWidgetCounter_effect (pe ce : nat) (s : State) :
  NoDup (elementChain s pe) →
  sameButCounters s (decrementWidgetCounter pe ce s)
  ∧ (∀ n, counterOf (decrementWidgetCounter pe ce s) n
          = if bool_decide (n ∈ elementChain s pe) && negb (counterOf s n =? 0)%Z
            then (counterOf s n - countFor s ce)%Z else counterOf s n)
  ∧ (∀ n, widgetCounterMap s !! n = None →
          widgetCounterMap (decrementWidgetCounter pe ce s) !! n = None).
Proof.
  intros Hnd. split; [apply decrementWidgetCounter_same|]. split.
  - intros n. unfold decrementWidgetCounter. by apply decrement_walk.
  - intros n. unfold decrementWidgetCounter. apply decrement_walk_entries.
Qed.

Lemma decrementWidgetCounter_effect_witness :
  sameButCounters shownState (decrementWidgetCounter 11 12 shownState)
  ∧ (∀ n, counterOf (decrementWidgetCounter 11 12 shownState) n
          = if bool_decide (n ∈ elementChain shownState 11)
               && negb (counterOf shownState n =? 0)%Z
            then (counterOf shownState n - countFor shownState 12)%Z
            else counterOf shownState n)
  ∧ (∀ n, widgetCounterMap shownState !! n = None →
          widgetCounterMap (decrementWidgetCounter 11 12 shownState) !! n = None).
Proof.
  apply (decrementWidgetCounter_effect 11 12 shownState).
  apply (bool_decide_unpack _). vm_compute. reflexivity.
Defined.

Lemma elementChain_sameButCounters s s' n :
  sameButCounters s s' → elementChain s' n = elementChain s n.
Proof.
  intros (_ & Hn & _). unfold elementChain. rewrite Hn. f_equal.
  unfold parentElementOrShadowHost, nget. by rewrite Hn.
Qed.

(** X3: on an acyclic walk that does not pass through the child, with
    counters that are not negative, [decrementWidgetCounter] undoes
    [incrementWidgetCounter]: every counter reads as before. *)
Theorem counter_round_trip (pe ce : nat) (s : State) :
  NoDup (elementChain s pe) → ce ∉ elementChain s pe →
  counted s (ce :: elementChain s pe) →
  ∀ n, counterOf (decrementWidgetCounter pe ce (incrementWidgetCounter pe ce s)) n
       = counterOf s n.
Proof.
  intros Hnd Hce Hpos n.
  pose proof (incrementWidgetCounter_same pe ce s) as Hsame.
  set (s1 := incrementWidgetCounter pe ce s) in *.
  assert (Hchain : elementChain s1 pe = elementChain s pe)
    by by apply elementChain_sameButCounters.
  assert (Hinc : ∀ x, counterOf s1 x
                      = (counterOf s x + (if bool_decide (x ∈ elementChain s pe)
                                          then countFor s ce else 0))%Z).
  { intros x. unfold s1, incrementWidgetCounter. by apply increment_walk. }
  assert (Hcount : countFor s1 ce = countFor s ce).
  { unfold countFor, isWidgetElement. rewrite Hinc.
    rewrite bool_decide_eq_false_2 by done.
    destruct Hsame as (_ & _ & -> & _). lia. }
  assert (Hk : (0 ≤ countFor s ce)%Z).
  { unfold countFor. pose proof (Hpos ce (list_elem_of_here _ _)).
    destruct (isWidgetElement s ce); lia. }
  unfold decrementWidgetCounter. rewrite Hchain, decrement_walk by done.
  rewrite Hcount, Hinc.
  destruct (decide (n ∈ elementChain s pe)) as [Hin|Hin].
  - rewrite !bool_decide_eq_true_2 by done. simpl.
    pose proof (Hpos n (list_elem_of_further _ _ _ Hin)).
    destruct (counterOf s n + countFor s ce =? 0)%Z eqn:E; simpl; lia.
  - rewrite !bool_decide_eq_false_2 by done. simpl. lia.
Qed.

Lemma counter_round_trip_witness :
  counterOf (decrementWidgetCounter 11 13 (incrementWidgetCounter 11 13 shownState)) 10
  = counterOf shownState 10.
Proof.
  apply (counter_round_trip 11 13 shownState).
  - apply (bool_decide_unpack _). vm_compute. reflexivity.
  - apply (bool_decide_unpack _). vm_compute. reflexivity.
  - intros n Hn. assert (Hc : n = 13 ∨ n = 11 ∨ n = 10).
    { revert Hn. vm_compute elementChain. rewrite !elem_of_cons, elem_of_nil. tauto. }
    destruct Hc as [-> | [-> | ->] ]; vm_compute; discriminate.
Defined.

(** ** Scroll positions *)

Lemma set_scroll_back (x : Node) l t :
  set_scroll (scrollLeft x) (scrollTop x) (set_scroll l t x) = x.
Proof. by destruct x. Qed.

(** X4: [restoreScrollPositions()] puts back the offsets that
    [storeScrollPositions()] recorded, whatever the element was scrolled to
    in between, and touches no other node; for a widget whose element has no
    recorded offsets it does nothing. *)
Theorem scroll_round_trip (w : nat) (s : State) :
  (∀ l t n,
     nget (restoreScrollPositions w
             (nupd (element (wget s w)) (set_scroll l t) (storeScrollPositions w s))) n
     = nget s n)
  ∧ (storedScrollPositions s !! element (wget s w) = None → restoreScrollPositions w s = s).
Proof.
  split.
  - intros l t n. unfold restoreScrollPositions, storeScrollPositions,
      elementsToRestoreScrollPositionsFor. cbn [foldl].
    set (e := element (wget s w)).
    assert (He : element (wget (nupd e (set_scroll l t)
                   (set_storedScrollPositions
                      (<[e := (scrollLeft (nget s e), scrollTop (nget s e))]>
                         (storedScrollPositions s)) s)) w) = e) by done.
    rewrite He. cbn [storedScrollPositions nupd set_nodes set_storedScrollPositions].
    rewrite lookup_insert_eq.
    rewrite nget_nupd. case_decide as Hn.
    + subst n. rewrite nget_nupd_eq.
      change (nget (set_storedScrollPositions _ s) e) with (nget s e).
      apply set_scroll_back.
    + by rewrite nget_nupd_ne.
  - intros Hnone. unfold restoreScrollPositions, elementsToRestoreScrollPositionsFor.
    cbn [foldl]. by rewrite Hnone.
Qed.

Lemma scroll_round_trip_witness :
  (∀ l t n,
     nget (restoreScrollPositions 2
             (nupd (element (wget shownState 2)) (set_scroll l t)
                (storeScrollPositions 2 shownState))) n
     = nget shownState n)
  ∧ restoreScrollPositions 3 shownState = shownState.
Proof.
  split.
  - apply (scroll_round_trip 2 shownState).
  - apply (scroll_round_trip 3 shownState). vm_compute. reflexivity.
Defined.

(** ** Frames *)

#[global] Instance framed_preorder F P : PreOrder (framed F P).
Proof.
  split.
  - intros s. split; try done. exists []. by rewrite app_nil_r.
  - intros s1 s2 s3 [Hw1 Hn1 Hm1 Hc1 Hs1 Ha1 (t1 & Ht1 & HP1)]
      [Hw2 Hn2 Hm2 Hc2 Hs2 Ha2 (t2 & Ht2 & HP2)].
    split; [intros x; by rewrite Hw2, Hw1 | congruence.. |].
    exists (t1 ++ t2). split; [by rewrite Ht2, Ht1, app_assoc | by apply Forall_app].
Qed.

Lemma framed_weaken (F G : Widget → Widget) (P Q : Event → Prop) s s' :
  (∀ x y, F x = F y → G x = G y) → (∀ e, P e → Q e) → framed F P s s' → framed G Q s s'.
Proof.
  intros HFG HPQ [Hw Hn Hm Hc Hs Ha (t & Ht & HP)]. split; try done.
  - intros x. by apply HFG.
  - exists t. split; [done|]. apply Forall_forall. intros e He. apply HPQ.
    by eapply Forall_forall in HP.
Qed.

Lemma framed_wupd F P w f s : (∀ x, F (f x) = F x) → framed F P s (wupd w f s).
Proof.
  intros Hf. split; try done.
  - intros x. rewrite wget_wupd. case_decide; [subst; apply Hf | done].
  - exists []. by rewrite app_nil_r.
Qed.

Lemma framed_log F (P : Event → Prop) e s : P e → framed F P s (log e s).
Proof.
  intros He. split; try done. exists [e]. split; [done|]. by apply Forall_singleton.
Qed.

Lemma framed_nget F P s s' n : framed F P s s' → nget s' n = nget s n.
Proof. intros H. unfold nget. by rewrite (fr_nodes _ _ _ _ H). Qed.

Lemma framed_field {A} (proj : Widget → A) F P s s' x :
  (∀ y, proj (F y) = proj y) → framed F P s s' → proj (wget s' x) = proj (wget s x).
Proof.
  intros Hproj H. rewrite <- (Hproj (wget s' x)), <- (Hproj (wget s x)).
  by rewrite (fr_widgets _ _ _ _ H).
Qed.

Lemma framed_silent F s s' : framed F noEvent s s' → trace s' = trace s.
Proof.
  intros [_ _ _ _ _ _ (t & Ht & HP)]. destruct t as [|e t]; [by rewrite app_nil_r in Ht|].
  by inversion HP.
Qed.

(** ** The constraints cache *)

Lemma foldVisibleChildren_rel {A} (R : State → State → Prop) `{!PreOrder R}
    (method : nat → A → State → option (A * State)) this l acc s acc' s' :
  (∀ c a s1 a' s1', method c a s1 = Some (a', s1') → R s1 s1') →
  foldVisibleChildren method this l acc s = Some (acc', s') → R s s'.
Proof.
  intros Hm. revert acc s. induction l as [|c l IH]; intros acc s; simpl.
  - intros [= <- <-]. done.
  - destruct (_ && _); [|apply IH].
    destruct (method c acc s) as [[a1 s1]|] eqn:E; simpl; [|done].
    intros H. etrans; [by eapply Hm | by eapply IH].
Qed.

Lemma constraintsOf_cacheOnly fuel this s c s' :
  constraintsOf fuel this s = Some (c, s') → cacheOnly s s'.
Proof.
  revert this s c s'. induction fuel as [|f IH]; intros this s c s'; simpl; [done|].
  destruct (constraintsInternal (wget s this)); [by intros [= <- <-]|].
  destruct (cachedConstraints (wget s this)); [by intros [= <- <-]|].
  destruct (calculateConstraints _ _ _) as [[c1 s1]|] eqn:E; simpl; [|done].
  intros [= <- <-]. etrans; [|by apply framed_wupd].
  unfold calculateConstraints in E.
  assert (Hupd : ∀ combine ch a s2 a' s2',
    updateForChild (constraintsOf f) combine ch a s2 = Some (a', s2') → cacheOnly s2 s2').
  { intros combine ch a s2 a' s2'. unfold updateForChild.
    destruct (constraintsOf f ch s2) as [[c2 s3]|] eqn:E2; simpl; [|done].
    intros [= <- <-]. by eapply IH. }
  destruct (widgetClass (wget s this)).
  - by injection E as <- <-.
  - eapply (foldVisibleChildren_rel cacheOnly); [|exact E]. apply Hupd.
  - eapply (foldVisibleChildren_rel cacheOnly); [|exact E]. apply Hupd.
Qed.

(** X5: [constraints()] is cached.  A call that returns changes nothing but
    [cachedConstraints] fields and logs nothing, and a second call returns
    the same value without changing anything. *)
Theorem constraints_cached (fuel w : nat) (s s' : State) (c : Constraints) :
  constraintsOf fuel w s = Some (c, s') →
  cacheOnly s s' ∧ ∀ f, constraintsOf (S f) w s' = Some (c, s').
Proof.
  intros H. pose proof (constraintsOf_cacheOnly _ _ _ _ _ H) as Hfr.
  split; [done|]. intros f.
  assert (Hint : constraintsInternal (wget s' w) = constraintsInternal (wget s w))
    by by apply (framed_field constraintsInternal (set_cachedConstraints None) noEvent).
  destruct fuel as [|f0]; [done|]. simpl in H. simpl. rewrite Hint.
  destruct (constraintsInternal (wget s w)) as [ci|]; [by injection H as <- <-|].
  destruct (cachedConstraints (wget s w)) as [cc|] eqn:Hcc.
  { injection H as <- <-. by rewrite Hcc. }
  destruct (calculateConstraints _ _ _) as [[c1 s1]|]; simpl in H; [|done].
  injection H as <- <-. by rewrite wget_wupd_eq.
Qed.

Lemma constraints_cached_witness :
  cacheOnly shownState (wupd 1 (set_cachedConstraints (Some zeroConstraints)) shownState)
  ∧ ∀ f, constraintsOf (S f) 1 (wupd 1 (set_cachedConstraints (Some zeroConstraints)) shownState)
         = Some (zeroConstraints, wupd 1 (set_cachedConstraints (Some zeroConstraints)) shownState).
Proof.
  apply (constraints_cached 1 1 shownState). vm_compute. reflexivity.
Defined.

(** ** Box constraints *)

Lemma maxOf_nonneg l : (0 ≤ maxOf l)%Z.
Proof. induction l as [|x l IH]; simpl; lia. Qed.

Lemma foldl_max (g : Constraints → Z) (h : Constraints → Z)
    (step : Constraints → Constraints → Constraints) cs acc :
  (∀ a c, g (step a c) = Z.max (g a) (h c)) →
  g (foldl step acc cs) = Z.max (g acc) (foldr Z.max (g acc) (map h cs)).
Proof.
  intros Hstep. revert acc. induction cs as [|c cs IH]; intros acc; simpl; [lia|].
  rewrite IH, Hstep.
  assert (Hmono : ∀ a b l, (a ≤ b)%Z →
            Z.max b (foldr Z.max b l) = Z.max b (foldr Z.max a l)).
  { intros a b l Hab. induction l as [|x l IHl]; simpl; lia. }
  rewrite (Hmono (g acc) (Z.max (g acc) (h c))) by lia. lia.
Qed.

Lemma foldl_sum (g : Constraints → Z) (h : Constraints → Z)
    (step : Constraints → Constraints → Constraints) cs acc :
  (∀ a c, g (step a c) = (g a + h c)%Z) →
  g (foldl step acc cs) = (g acc + sumOf (map h cs))%Z.
Proof.
  intros Hstep. revert acc. induction cs as [|c cs IH]; intros acc; simpl; [lia|].
  rewrite IH, Hstep. lia.
Qed.

Lemma foldl_max_zero (g h : Constraints → Z)
    (step : Constraints → Constraints → Constraints) cs acc :
  (∀ a c, g (step a c) = Z.max (g a) (h c)) → g acc = 0%Z →
  g (foldl step acc cs) = maxOf (map h cs).
Proof.
  intros Hstep H0. rewrite (foldl_max g h) by done. rewrite H0.
  pose proof (maxOf_nonneg (map h cs)). unfold maxOf in *. lia.
Qed.

Lemma foldl_sum_zero (g h : Constraints → Z)
    (step : Constraints → Constraints → Constraints) cs acc :
  (∀ a c, g (step a c) = (g a + h c)%Z) → g acc = 0%Z →
  g (foldl step acc cs) = sumOf (map h cs).
Proof. intros Hstep H0. rewrite (foldl_sum g h) by done. lia. Qed.

(** Over children with explicit constraints the loop of
    [callOnVisibleChildren(updateForChild)] is a fold that leaves the state
    alone. *)
Lemma foldVisibleChildren_explicit f combine w (l : list nat) acc s :
  (∀ c, c ∈ l → parentWidgetInternal (wget s c) = Some w →
        visibleInternal (wget s c) = true → constraintsInternal (wget s c) ≠ None) →
  foldVisibleChildren (updateForChild (constraintsOf (S f)) combine) w l acc s
  = Some (foldl combine acc
            (map (λ c, default zeroConstraints (constraintsInternal (wget s c)))
               (List.filter (λ c, bool_decide (parentWidgetInternal (wget s c) = Some w)
                                  && visibleInternal (wget s c)) l)), s).
Proof.
  revert acc. induction l as [|c l IH]; intros acc Hl; [done|].
  cbn [foldVisibleChildren List.filter].
  destruct (bool_decide (parentWidgetInternal (wget s c) = Some w)) eqn:Hp; cbn [andb].
  2:{ apply IH. intros x Hx. apply Hl. by apply list_elem_of_further. }
  destruct (visibleInternal (wget s c)) eqn:Hv.
  2:{ apply IH. intros x Hx. apply Hl. by apply list_elem_of_further. }
  apply bool_decide_eq_true_1 in Hp.
  pose proof (Hl c (list_elem_of_here _ _) Hp Hv) as Hc.
  unfold updateForChild at 1. cbn [constraintsOf].
  destruct (constraintsInternal (wget s c)) as [ci|] eqn:Hci; [|done].
  cbn. rewrite Hci. apply IH. intros x Hx. apply Hl. by apply list_elem_of_further.
Qed.

Lemma constraintsOf_S f this s :
  constraintsOf (S f) this s
  = match constraintsInternal (wget s this) with
    | Some c => Some (c, s)
    | None =>
        match cachedConstraints (wget s this) with
        | Some c => Some (c, s)
        | None =>
            '(c, s') ← calculateConstraints (constraintsOf f) this s;
            Some (c, wupd this (set_cachedConstraints (Some c)) s')
        end
    end.
Proof. done. Qed.

(** X6: for a widget without explicit or cached constraints whose visible
    children all have explicit constraints, [constraints()] caches and
    returns: for [Widget] the zero constraints; for [VBox] the largest
    child width (or 0) and the sum of the child heights; for [HBox] the sum
    of the child widths and the largest child height (or 0); alike for the
    minimum and the preferred size.  Hidden children do not count. *)
Theorem box_constraints (f w : nat) (s : State) :
  constraintsInternal (wget s w) = None → cachedConstraints (wget s w) = None →
  (∀ c, c ∈ visibleChildren s w → constraintsInternal (wget s c) ≠ None) →
  ∃ r, constraintsOf (2 + f) w s = Some (r, wupd w (set_cachedConstraints (Some r)) s)
       ∧ match widgetClass (wget s w) with
         | WidgetClassBase => r = zeroConstraints
         | VBoxClass => stacked (childConstraints s w) r
         | HBoxClass => sideBySide (childConstraints s w) r
         end.
Proof.
  intros Hint Hcache Hkids.
  assert (Hl : ∀ c, c ∈ childrenInternal (wget s w) →
                    parentWidgetInternal (wget s c) = Some w →
                    visibleInternal (wget s c) = true →
                    constraintsInternal (wget s c) ≠ None).
  { intros c Hc Hp Hv. apply Hkids. unfold visibleChildren.
    apply list_elem_of_In, List.filter_In. split; [by apply list_elem_of_In|].
    by rewrite Hv, bool_decide_eq_true_2. }
  change (2 + f) with (S (S f)). rewrite constraintsOf_S, Hint, Hcache.
  unfold calculateConstraints.
  destruct (widgetClass (wget s w)).
  - eexists. split; [done|]. done.
  - rewrite foldVisibleChildren_explicit by done. eexists. split; [done|].
    fold (visibleChildren s w). fold (childConstraints s w).
    repeat split.
    + by apply (foldl_max_zero (λ r, width (minimum r)) (λ c, width (minimum c))).
    + by apply (foldl_sum_zero (λ r, height (minimum r)) (λ c, height (minimum c))).
    + by apply (foldl_max_zero (λ r, width (preferred r)) (λ c, width (preferred c))).
    + by apply (foldl_sum_zero (λ r, height (preferred r)) (λ c, height (preferred c))).
  - rewrite foldVisibleChildren_explicit by done. eexists. split; [done|].
    fold (visibleChildren s w). fold (childConstraints s w).
    repeat split.
    + by apply (foldl_sum_zero (λ r, width (minimum r)) (λ c, width (minimum c))).
    + by apply (foldl_max_zero (λ r, height (minimum r)) (λ c, height (minimum c))).
    + by apply (foldl_sum_zero (λ r, width (preferred r)) (λ c, width (preferred c))).
    + by apply (foldl_max_zero (λ r, height (preferred r)) (λ c, height (preferred c))).
Qed.

Lemma box_constraints_witness :
  ∃ r, constraintsOf 2 1 boxState
       = Some (r, wupd 1 (set_cachedConstraints (Some r)) boxState)
       ∧ stacked (childConstraints boxState 1) r.
Proof.
  destruct (box_constraints 0 1 boxState) as (r & E & Hr).
  - vm_compute. reflexivity.
  - vm_compute. reflexivity.
  - intros c Hc.
    assert (Hcs : c = 2 ∨ c = 3).
    { revert Hc. vm_compute visibleChildren. rewrite !elem_of_cons, elem_of_nil. tauto. }
    destruct Hcs as [-> | ->]; vm_compute; discriminate.
  - exists r. split; [exact E | exact Hr].
Defined.

(** In the example the box is 30 wide and 25 high. *)
Lemma box_constraints_example :
  childConstraints boxState 1 = [minimumConstraints 10 20; minimumConstraints 30 5]
  ∧ fst <$> constraintsOf 2 1 boxState = Some (minimumConstraints 30 25).
Proof. vm_compute. done. Qed.

(** ** Layout passes *)

Lemma laidOut_showing s s' x : laidOut s s' → isShowing s' x = isShowing s x.
Proof.
  intros H. unfold isShowing.
  by apply (framed_field isShowingInternal layoutFrame (shownEvent s)).
Qed.

#[global] Instance laidOut_preorder : PreOrder laidOut.
Proof.
  split.
  - intros s. unfold laidOut. reflexivity.
  - intros s1 s2 s3 H12 H23. unfold laidOut in *. etrans; [exact H12|].
    eapply framed_weaken; [| |exact H23]; [done|].
    intros [h x|x b|x|x]; simpl; try done.
    by rewrite (laidOut_showing s1 s2).
Qed.

Lemma laidOut_passive s s' : laidOut s s' → passive s s'.
Proof.
  intros H. pose proof H as [Hw Hn Hm Hc Hs Ha (t & Ht & _)].
  split; [split; try done|].
  - intros x. specialize (Hw x). revert Hw.
    destruct (wget s' x), (wget s x).
    unfold layoutFrame, shape, set_cachedConstraints, set_invalidationsRequested. simpl.
    intros [= -> -> -> -> -> -> -> -> -> -> -> -> -> -> -> -> ->]. done.
  - intros n. unfold nget. by rewrite Hn.
  - rewrite Ht. by apply prefix_app_r.
  - intros x. by apply laidOut_showing.
Qed.

Lemma quiet_laidOut s s' : laidOut s s' → quiet s → quiet s'.
Proof. intros H. apply quiet_passive. by apply laidOut_passive. Qed.

Lemma laidOut_wupd w f s : (∀ x, layoutFrame (f x) = layoutFrame x) → laidOut s (wupd w f s).
Proof. intros H. by apply framed_wupd. Qed.

Lemma cacheOnly_laidOut s s' : cacheOnly s s' → laidOut s s'.
Proof.
  apply framed_weaken; [|done]. intros x y. destruct x, y.
  unfold layoutFrame, set_cachedConstraints, set_invalidationsRequested. simpl.
  intros [= -> -> -> -> -> -> -> -> -> -> -> -> -> -> -> -> -> ->]. done.
Qed.

Lemma notify_laidOut rec h this s :
  h = OnLayout ∨ h = OnResize → isShowing s this = true → quiet s →
  post laidOut s (notify rec h this s).
Proof.
  intros Hh Hsh Hq.
  destruct (notify_quiet rec h this s Hq) as (s' & -> & Hw & Hn & Hm & Hc & Hs & Ha & Ht).
  simpl. split; try done.
  - intros x. by rewrite Hw.
  - exists [EvHook h this]. split; [done|]. by apply Forall_singleton.
Qed.

Section Layout.
Variable fuel : nat.
Variable rec : Call → State → Res State.
Hypothesis Hrec : ∀ c s, layoutCall c = true → quiet s → post laidOut s (rec c s).

Lemma resizeChildren_laidOut this s :
  quiet s → post laidOut s (callOnVisibleChildren rec this (Process OnResizePass) s).
Proof.
  intros Hq. unfold callOnVisibleChildren. apply (post_forEach laidOut).
  intros c s1 _ H1. destruct (_ && _); [|by apply post_ok].
  apply Hrec; [done | by eapply quiet_laidOut].
Qed.

Lemma processOnResize_laidOut this s :
  quiet s → post laidOut s (processOnResize fuel rec this s).
Proof.
  intros Hq. unfold processOnResize. post_step. post_step; [by post_step|].
  destruct (isShowing s this) eqn:Hsh; cbn [negb]; [|by post_step].
  post_step.
  - apply notify_laidOut; auto.
  - apply resizeChildren_laidOut. by eapply quiet_laidOut.
Qed.

Lemma doResize_laidOut this s : quiet s → post laidOut s (doResize fuel rec this s).
Proof.
  intros Hq. unfold doResize. post_step; [by post_step|]. post_step.
  post_step; [by post_step|]. by apply resizeChildren_laidOut.
Qed.

Lemma doLayout_laidOut this s : quiet s → post laidOut s (doLayout fuel rec this s).
Proof.
  intros Hq. unfold doLayout.
  destruct (isShowing s this) eqn:Hsh; cbn [negb]; [|by post_step].
  post_step.
  - apply notify_laidOut; auto.
  - apply doResize_laidOut. by eapply quiet_laidOut.
Qed.

Lemma invalidateConstraints_laidOut this s :
  quiet s → post laidOut s (invalidateConstraints fuel rec this s).
Proof.
  intros Hq. unfold invalidateConstraints.
  post_step; [post_step; by apply laidOut_wupd|].
  cbv zeta. set (s0 := log (EvInvalidate this) _).
  assert (H0 : laidOut s s0).
  { unfold s0.
    transitivity (wupd this (set_invalidationsRequested false) s); [by apply laidOut_wupd|].
    transitivity (wupd this (set_cachedConstraints None)
                    (wupd this (set_invalidationsRequested false) s));
      [by apply laidOut_wupd|].
    by apply framed_log. }
  clearbody s0.
  apply (post_fromFuel laidOut). intros [actual s1] Hc.
  apply constraintsOf_cacheOnly, cacheOnly_laidOut in Hc.
  assert (H1 : laidOut s s1) by by etrans.
  assert (Hq1 : quiet s1) by by eapply quiet_laidOut.
  apply (post_pre laidOut _ s1); [done|].
  destruct (parentWidgetInternal (wget s1 this)) as [p|]; [|by apply doLayout_laidOut].
  post_step; [by apply Hrec | by apply doLayout_laidOut].
Qed.

Lemma body_laidOut c s :
  layoutCall c = true → quiet s → post laidOut s (body fuel rec c s).
Proof.
  intros Hc Hq. destruct c as [| | | | | | | | | | | | | | | | | | | | |p w]; try done; unfold body.
  - by apply invalidateConstraints_laidOut.
  - by apply doLayout_laidOut.
  - by apply doResize_laidOut.
  - destruct p; try done. by apply processOnResize_laidOut.
Qed.
End Layout.

Lemma exec_laidOut fuel c s :
  layoutCall c = true → quiet s → post laidOut s (exec fuel c s).
Proof.
  revert c s. induction fuel as [|f IH]; intros c s Hc Hq; [done|].
  simpl. by apply body_laidOut.
Qed.

Lemma exec_layout_finishes N rank fuel c s :
  layoutCall c = true → quiet s → idle s → ranked N rank s → 3 * N ≤ fuel →
  ∃ s', exec (S fuel) c s = Ok s'.
Proof.
  intros Hc Hq Hi Hr Hf.
  assert (HN : ∀ x, rank x < N) by apply Hr.
  destruct c as [| | | | | | | | | | | | |w|w|w| | | | | |p w]; try done.
  - destruct (invalidateConstraints_finishes N rank fuel w s) as (s' & E & _); try done.
    { specialize (HN w). lia. }
    by exists s'.
  - destruct (doLayout_finishes N rank fuel w s) as (s' & E & _); try done.
    { specialize (HN w). lia. }
    by exists s'.
  - destruct (doResize_finishes N rank fuel w s) as (s' & E & _); try done.
    { specialize (HN w). lia. }
    by exists s'.
  - destruct p; try done.
    destruct (onResize_finishes N rank (S fuel) w s) as (s' & E & _); try done.
    { specialize (HN w). lia. }
    by exists s'.
Qed.

Lemma layout_passes_aux (N fuel : nat) (rank : nat → nat) (c : Call) (s : State) :
  layoutCall c = true → quiet s → idle s → ranked N rank s → 3 * N ≤ fuel →
  ∃ s', exec (S fuel) c s = Ok s' ∧ laidOut s s'.
Proof.
  intros Hc Hq Hi Hr Hf.
  destruct (exec_layout_finishes N rank fuel c s) as (s' & E); try done.
  exists s'. split; [done|].
  pose proof (exec_laidOut (S fuel) c s Hc Hq) as H. by rewrite E in H.
Qed.

(** X7: with hooks that do not call back, on a widget tree of height below
    [N], [invalidateConstraints()], [doLayout()], [doResize()] and the
    resize pass return; they change nothing but constraints caches and
    pending-invalidation flags (not the tree, the showing flags, the
    document or the counters), and what they invoke is [onLayout] and
    [onResize] on widgets that are showing, nothing on any other widget. *)
Theorem layout_passes (N fuel : nat) (rank : nat → nat) (c : Call) (s : State) :
  layoutCall c = true → quiet s → idle s → ranked N rank s → 3 * N ≤ fuel →
  ∃ s', exec (S fuel) c s = Ok s' ∧ laidOut s s'.
Proof.
  intros Hc Hq Hi Hr Hf.
  destruct (exec_layout_finishes N rank fuel c s) as (s' & E); try done.
  exists s'. split; [done|].
  pose proof (exec_laidOut (S fuel) c s Hc Hq) as H. by rewrite E in H.
Qed.

Lemma layout_passes_witness :
  ∃ s', exec 7 (InvalidateConstraints 2) shownState = Ok s' ∧ laidOut shownState s'.
Proof.
  apply (layout_passes 2 6 shownRank (InvalidateConstraints 2) shownState).
  - done.
  - apply consistent_shownState.
  - apply consistent_shownState.
  - apply ranked_shownState.
  - lia.
Defined.

(** X8: an explicit size wins.  With hooks that do not call back,
    [setMinimumSize] and [setMinimumAndPreferredSizes] return, and
    [constraints()] of the widget then is the size that was set, whatever
    its class and its children. *)
Theorem explicit_size_wins (N fuel : nat) (rank : nat → nat) (w : nat) (a b c d : Z)
    (s : State) :
  quiet s → idle s → ranked N rank s → 3 * N ≤ fuel →
  (∃ s', exec (S fuel) (SetMinimumSize w a b) s = Ok s'
         ∧ ∀ f, constraintsOf (S f) w s' = Some (minimumConstraints a b, s'))
  ∧ (∃ s', exec (S fuel) (SetMinimumAndPreferredSizes w a b c d) s = Ok s'
           ∧ ∀ f, constraintsOf (S f) w s'
                  = Some (mkConstraints (mkSize a b) (mkSize c d), s')).
Proof.
  intros Hq Hi Hr Hf.
  assert (Hset : ∀ k,
    ∃ s', exec (S fuel) (InvalidateConstraints w)
            (wupd w (set_constraintsInternal (Some k)) s) = Ok s'
          ∧ ∀ f, constraintsOf (S f) w s' = Some (k, s')).
  { intros k. set (s1 := wupd w (set_constraintsInternal (Some k)) s).
    assert (Hp : passive s s1) by by apply passive_wupd.
    destruct (layout_passes_aux N fuel rank (InvalidateConstraints w) s1) as (s' & E & Hl);
      [done | by eapply quiet_passive | by eapply idle_passive | by eapply ranked_passive
      | done |].
    exists s'. split; [done|]. intros f. rewrite constraintsOf_S.
    rewrite (framed_field constraintsInternal layoutFrame (shownEvent s1) s1 s' w) by done.
    unfold s1. by rewrite wget_wupd_eq. }
  split; apply Hset.
Qed.

Lemma explicit_size_wins_witness :
  (∃ s', exec 7 (SetMinimumSize 1 10 20) shownState = Ok s'
         ∧ ∀ f, constraintsOf (S f) 1 s' = Some (minimumConstraints 10 20, s'))
  ∧ (∃ s', exec 7 (SetMinimumAndPreferredSizes 1 10 20 30 40) shownState = Ok s'
           ∧ ∀ f, constraintsOf (S f) 1 s'
                  = Some (mkConstraints (mkSize 10 20) (mkSize 30 40), s')).
Proof.
  apply (explicit_size_wins 2 6 shownRank 1 10 20 30 40 shownState).
  - apply consistent_shownState.
  - apply consistent_shownState.
  - apply ranked_shownState.
  - lia.
Defined.

(** ** The notification guard *)

Lemma ancestorOrSelf_parent s w p a :
  parentWidgetInternal (wget s w) = Some p → ancestorOrSelf s w a → a = w ∨ ancestorOrSelf s p a.
Proof.
  intros Hp H. inversion H as [|w' p' a' Hp' Ha]; subst; [by left|].
  right. congruence.
Qed.

Lemma inNotification_sound fuel s w b :
  inNotification fuel s w = Some b →
  b = true ↔ ∃ a, ancestorOrSelf s w a ∧ notificationDepth (wget s a) ≠ 0%Z.
Proof.
  revert w. induction fuel as [|f IH]; intros w; [done|]. simpl.
  destruct (notificationDepth (wget s w) =? 0)%Z eqn:Hd; simpl.
  - apply Z.eqb_eq in Hd.
    destruct (parentWidgetInternal (wget s w)) as [p|] eqn:Hp.
    + intros H. rewrite (IH p H). split.
      * intros (a & Ha & Hda). exists a. split; [by eapply aos_parent | done].
      * intros (a & Ha & Hda).
        destruct (ancestorOrSelf_parent _ _ _ _ Hp Ha) as [-> | Ha']; [done|]. by exists a.
    + intros [= <-]. split; [done|]. intros (a & Ha & Hda).
      inversion Ha; subst; congruence.
  - intros [= <-]. split; [|done]. intros _. exists w. split; [apply aos_self|].
    by apply Z.eqb_neq.
Qed.

(** X9: on a widget tree of height below [N], [inNotification()] returns,
    and it returns true exactly when the notification depth of the widget
    or of one of its ancestors is not zero. *)
Theorem inNotification_spec (N fuel : nat) (rank : nat → nat) (s : State) (w : nat) :
  ranked N rank s → N ≤ fuel + rank w →
  ∃ b, inNotification fuel s w = Some b
       ∧ (b = true ↔ ∃ a, ancestorOrSelf s w a ∧ notificationDepth (wget s a) ≠ 0%Z).
Proof.
  intros [Hr HN] Hf.
  assert (Hsome : ∃ b, inNotification fuel s w = Some b).
  { revert w Hf. induction fuel as [|f IH]; intros w Hf.
    - specialize (HN w). lia.
    - simpl. destruct (negb _); [by exists true|].
      destruct (parentWidgetInternal (wget s w)) as [p|] eqn:Hp; [|by exists false].
      apply IH. specialize (Hr _ _ Hp). lia. }
  destruct Hsome as (b & Hb). exists b. split; [done|]. by eapply inNotification_sound.
Qed.

Lemma inNotification_spec_witness :
  ∃ b, inNotification 2 shownState 2 = Some b
       ∧ (b = true ↔ ∃ a, ancestorOrSelf shownState 2 a
                          ∧ notificationDepth (wget shownState a) ≠ 0%Z).
Proof.
  apply (inNotification_spec 2 2 shownRank shownState 2).
  - apply ranked_shownState.
  - vm_compute. lia.
Defined.

(** ** The registry *)

(** X10: no call of the widget API or of the guarded DOM primitives,
    whatever the hooks do and whether it returns or raises, registers,
    unregisters or moves a widget: [Widget.get] answers as before for
    every node, every widget keeps its element, its class and its
    overrides, a node keeps its kind, and the trace is only extended. *)
Theorem registry_fixed (fuel : nat) (cs : list Call) (s s' : State) :
  run fuel cs s = Ok s' ∨ run fuel cs s = Throw s' →
  (∀ n, widgetMap s' !! n = widgetMap s !! n)
  ∧ (∀ w, element (wget s' w) = element (wget s w)
          ∧ widgetClass (wget s' w) = widgetClass (wget s w)
          ∧ hooks (wget s' w) = hooks (wget s w))
  ∧ (∀ n, nkind (nget s' n) = nkind (nget s n))
  ∧ trace s `prefix_of` trace s'.
Proof.
  intros Hrun. pose proof (run_stable fuel cs s) as Hst.
  assert (H : stable s s') by (destruct Hrun as [E|E]; by rewrite E in Hst).
  destruct H as [Hh He Hc _ Hm Hk Ht]. split; [by rewrite Hm|]. by repeat split.
Qed.

Lemma registry_fixed_witness :
  (∀ n, widgetMap shownState !! n = widgetMap page !! n)
  ∧ (∀ w, element (wget shownState w) = element (wget page w)
          ∧ widgetClass (wget shownState w) = widgetClass (wget page w)
          ∧ hooks (wget shownState w) = hooks (wget page w))
  ∧ (∀ n, nkind (nget shownState n) = nkind (nget page n))
  ∧ trace page `prefix_of` trace shownState.
Proof.
  apply (registry_fixed 3 rootAndChild page shownState). left. vm_compute. reflexivity.
Defined.

(** ** The tree after a call *)

#[global] Instance sameTree_equiv : Equivalence sameTree.
Proof.
  split.
  - intros s. by split.
  - intros s1 s2 [Hw Hn Hm]. by split.
  - intros s1 s2 s3 [Hw1 Hn1 Hm1] [Hw2 Hn2 Hm2].
    split; [intros x; by rewrite Hw2, Hw1 | intros n; by rewrite Hn2, Hn1 | congruence].
Qed.

Lemma sameShape_sameTree s s' : sameShape s s' → sameTree s s'.
Proof. intros [Hw Hn Hm _ _ _]. by split. Qed.

Lemma passive_sameTree s s' : passive s s' → sameTree s s'.
Proof. intros [H _]. by apply sameShape_sameTree. Qed.

Lemma sameButCounters_sameTree s s' : sameButCounters s s' → sameTree s s'.
Proof.
  intros H. split.
  - intros w. by rewrite (wget_sameButCounters _ _ _ H).
  - intros n. by rewrite (nget_sameButCounters _ _ _ H).
  - apply H.
Qed.

Lemma sameTree_log e s : sameTree s (log e s).
Proof. by split. Qed.

Lemma tree_field {A} (proj : Widget → A) s s' w :
  sameTree s s' → (∀ x, proj (shape x) = proj x) → proj (wget s' w) = proj (wget s w).
Proof.
  intros H Hp. rewrite <- (Hp (wget s' w)), <- (Hp (wget s w)).
  by rewrite (tree_widgets _ _ H w).
Qed.

Lemma tree_node_field {A} (proj : Node → A) s s' n :
  sameTree s s' → (∀ x, proj (ncore x) = proj x) → proj (nget s' n) = proj (nget s n).
Proof.
  intros H Hp. rewrite <- (Hp (nget s' n)), <- (Hp (nget s n)).
  by rewrite (tree_nodes _ _ H n).
Qed.

Lemma parentElement_sameTree s s' n : sameTree s s' → parentElement s' n = parentElement s n.
Proof.
  intros H. unfold parentElement, isElement.
  rewrite (tree_node_field parentNode s s' n) by done.
  destruct (parentNode (nget s n)) as [p|]; [|done].
  by rewrite (tree_node_field nkind s s' p).
Qed.

Lemma quiet_sameTree s s' : sameTree s s' → quiet s → quiet s'.
Proof.
  intros H Hq w h. rewrite (tree_field (λ x, hooks x h) s s') by done. apply Hq.
Qed.

Lemma idle_sameTree s s' : sameTree s s' → idle s → idle s'.
Proof. intros H Hi w. rewrite (tree_field notificationDepth s s') by done. apply Hi. Qed.

(** Updates that respect the shape carry over. *)
Lemma sameTree_wupd w f s s' :
  (∀ x y, shape x = shape y → shape (f x) = shape (f y)) →
  sameTree s s' → sameTree (wupd w f s) (wupd w f s').
Proof.
  intros Hf [Hw Hn Hm]. split; [|done..].
  intros x. rewrite !wget_wupd. case_decide; [by apply Hf | done].
Qed.

Lemma sameTree_nupd n f s s' :
  (∀ x y, ncore x = ncore y → ncore (f x) = ncore (f y)) →
  sameTree s s' → sameTree (nupd n f s) (nupd n f s').
Proof.
  intros Hf [Hw Hn Hm]. split; [done| |done].
  intros x. rewrite !nget_nupd. case_decide; [by apply Hf | done].
Qed.

Lemma sameTree_wupd_neutral w f s : (∀ x, shape (f x) = shape x) → sameTree s (wupd w f s).
Proof. intros Hf. by apply sameShape_sameTree, sameShape_wupd. Qed.

Ltac respects :=
  let x := fresh in let y := fresh in let H := fresh in
  intros x y H; destruct x, y; simpl in *; injection H; intros; subst; reflexivity.

Lemma respects_visible b x y :
  shape x = shape y → shape (set_visibleInternal b x) = shape (set_visibleInternal b y).
Proof. revert x y. respects. Qed.

Lemma respects_parent p x y :
  shape x = shape y → shape (set_parentWidgetInternal p x) = shape (set_parentWidgetInternal p y).
Proof. revert x y. respects. Qed.

Lemma respects_isRoot b x y :
  shape x = shape y → shape (set_isRoot b x) = shape (set_isRoot b y).
Proof. revert x y. respects. Qed.

Lemma respects_children (g : list nat → list nat) x y :
  shape x = shape y →
  shape (set_childrenInternal (g (childrenInternal x)) x)
  = shape (set_childrenInternal (g (childrenInternal y)) y).
Proof. revert x y. respects. Qed.

Lemma respects_parentNode p x y :
  ncore x = ncore y → ncore (set_parentNode p x) = ncore (set_parentNode p y).
Proof. revert x y. respects. Qed.

Lemma respects_hiddenClass b x y :
  ncore x = ncore y → ncore (set_hiddenClass b x) = ncore (set_hiddenClass b y).
Proof. revert x y. respects. Qed.

Lemma sameTree_removed e s s' : sameTree s s' → sameTree (removed e s) (removed e s').
Proof.
  intros H. unfold removed. rewrite (parentElement_sameTree s s') by done.
  destruct (parentElement s e); [|done].
  apply sameTree_nupd; [apply respects_parentNode | done].
Qed.

Lemma quiet_nupd n f s : quiet s → quiet (nupd n f s).
Proof. intros Hq w h. apply Hq. Qed.

Lemma quiet_removed e s : quiet s → quiet (removed e s).
Proof. intros Hq. unfold removed. destruct (parentElement s e); [by apply quiet_nupd | done]. Qed.

Lemma idle_nupd n f s : idle s → idle (nupd n f s).
Proof. intros Hi w. apply Hi. Qed.

Lemma idle_removed e s : idle s → idle (removed e s).
Proof. intros Hi. unfold removed. destruct (parentElement s e); [by apply idle_nupd | done]. Qed.

(** The passes and [invalidateConstraints], called directly. *)
Lemma willHide_tree f w s :
  quiet s → idle s → returns (processWillHide f (exec f) w s) (sameTree s).
Proof.
  intros Hq Hi s' E. apply sameShape_sameTree.
  eapply fl_shape, (processWillHide_flagged f (exec f) w s s'); try done.
  intros c sa sb [? ?]. by apply exec_willHide_flagged.
Qed.

Lemma willShow_tree f w s : returns (processWillShow (exec f) w s) (sameTree s).
Proof.
  intros s' E. apply sameShape_sameTree.
  eapply fl_shape, (processWillShow_flagged (exec f) w s s'); [|done].
  intros c sa sb. apply exec_willShow_flagged.
Qed.

Lemma wasHidden_tree f w s : quiet s → returns (processWasHidden (exec f) w s) (sameTree s).
Proof.
  intros Hq. eapply returns_post.
  - by apply (processWasHidden_passive (exec f) (exec_passive f)).
  - apply passive_sameTree.
Qed.

Lemma wasShown_tree f w s : quiet s → returns (processWasShown f (exec f) w s) (sameTree s).
Proof.
  intros Hq. eapply returns_post.
  - by apply (processWasShown_passive f (exec f) (exec_passive f)).
  - apply passive_sameTree.
Qed.

Lemma onResize_tree f w s : quiet s → returns (processOnResize f (exec f) w s) (sameTree s).
Proof.
  intros Hq. eapply returns_post.
  - by apply (processOnResize_passive f (exec f) (exec_passive f)).
  - apply passive_sameTree.
Qed.

Lemma invalidate_tree f w s :
  quiet s → returns (invalidateConstraints f (exec f) w s) (sameTree s).
Proof.
  intros Hq. eapply returns_post.
  - by apply (invalidateConstraints_passive f (exec f) (exec_passive f)).
  - apply passive_sameTree.
Qed.

(** The tail of [hideWidgetInternal] and [showWidgetInternal]. *)
Lemma constraintsTail_tree f w s (other : State → Res State) :
  quiet s → (∀ s1, quiet s1 → returns (other s1) (sameTree s1)) →
  returns (match parentWidgetInternal (wget s w) with
           | Some p =>
               '(nz, s) ← fromFuel (hasNonZeroConstraints f w s);
               if nz : bool then invalidateConstraints f (exec f) p s else other s
           | None => other s
           end) (sameTree s).
Proof.
  intros Hq Hother. destruct (parentWidgetInternal (wget s w)) as [p|]; [|by apply Hother].
  apply returns_fromFuel. intros [nz s1] Hnz.
  apply hasNonZeroConstraints_passive in Hnz.
  assert (Hq1 : quiet s1) by by eapply quiet_passive.
  eapply returns_weaken.
  - destruct nz; [by apply invalidate_tree | by apply Hother].
  - intros s2 H2. etrans; [by apply passive_sameTree | done].
Qed.

Lemma hideWidgetInternal_tree f w b s :
  quiet s → idle s →
  returns (hideWidgetInternal f (exec f) w b s) (sameTree (hidden b w s)).
Proof.
  intros Hq Hi. unfold hideWidgetInternal, hidden. cbv zeta.
  set (s0 := wupd w (set_visibleInternal false) s).
  set (e := element (wget s w)).
  assert (Hq0 : quiet s0).
  { intros x h. unfold s0. rewrite (wget_wupd_field (λ y, hooks y h)) by done. apply Hq. }
  assert (Hi0 : idle s0).
  { intros x. unfold s0. rewrite (wget_wupd_field notificationDepth) by done. apply Hi. }
  assert (He0 : element (wget s0 w) = e).
  { unfold s0. by rewrite (wget_wupd_field element). }
  rewrite He0.
  (* the will-hide pass *)
  apply (returns_bind _ _ (sameTree s0)).
  { destruct (parentIsShowing s0 w); [by apply willHide_tree | by apply returns_ok]. }
  intros sa Ha.
  assert (Hqa : quiet sa) by by eapply quiet_sameTree.
  assert (Hea : element (wget sa w) = e).
  { rewrite (tree_field element s0 sa) by done. done. }
  (* the removal or the class *)
  apply (returns_bind _ _ (sameTree (if b then removed e s0
                                     else nupd e (set_hiddenClass true) s0))).
  { destruct b.
    - apply (returns_bind _ _ (sameTree (removed e s0))).
      + unfold forceRemove, removed. rewrite Hea.
        destruct (parentElement s0 e) as [pe|] eqn:Hpe; [|by apply returns_ok].
        unfold originalRemoveChild. case_bool_decide; [|apply returns_throw].
        apply returns_ok. apply sameTree_nupd; [apply respects_parentNode|].
        etrans; [exact Ha|].
        exact (sameButCounters_sameTree _ _ (decrementWidgetCounter_same pe e sa)).
      + intros sb Hb. rewrite callHook_quiet
          by (eapply quiet_sameTree; [exact Hb | by apply quiet_removed]).
        apply returns_ok. etrans; [exact Hb | apply sameTree_log].
    - rewrite Hea. apply returns_ok. by apply sameTree_nupd; [apply respects_hiddenClass|]. }
  intros sb Hb.
  assert (Hqb : quiet sb).
  { eapply quiet_sameTree; [exact Hb|].
    destruct b; [by apply quiet_removed | by apply quiet_nupd]. }
  (* the was-hidden pass *)
  apply (returns_bind _ _ (sameTree sb)).
  { destruct (parentIsShowing sb w); [by apply wasHidden_tree | by apply returns_ok]. }
  intros sc Hc.
  assert (Hqc : quiet sc) by by eapply quiet_sameTree.
  eapply returns_weaken.
  - apply (constraintsTail_tree f w sc (λ s, Ok s)); [done|].
    intros s1 _. by apply returns_ok.
  - intros sd Hd. etrans; [exact Hb|]. by etrans.
Qed.

Lemma nupd_nupd n f g s : nupd n f (nupd n g s) = nupd n (λ x, f (g x)) s.
Proof.
  unfold nupd at 1 3. rewrite nget_nupd_eq. unfold nupd, set_nodes. simpl.
  by rewrite insert_insert_eq.
Qed.

Lemma showWidgetInternal_tree f w pe ib s :
  quiet s →
  returns (showWidgetInternal f (exec f) w pe ib s)
    (λ s', (visibleInternal (wget s w) = true
            ∧ parentElement s (element (wget s w)) = Some pe ∧ s' = s)
           ∨ sameTree (shown w pe s) s').
Proof.
  intros Hq. unfold showWidgetInternal. cbv zeta.
  apply (returns_bind _ _ (λ s1, s1 = s)).
  { destruct (isRoot (wget s w)); by apply returns_assert. }
  intros ? ->.
  destruct (visibleInternal (wget s w) && bool_decide _) eqn:Hearly.
  { apply returns_ok. left. apply andb_true_iff in Hearly as [Hv Hp].
    by apply bool_decide_eq_true_1 in Hp. }
  clear Hearly. apply (returns_weaken _ (sameTree (shown w pe s))); [|by right].
  unfold shown.
  set (s0 := wupd w (set_visibleInternal true) s).
  set (e := element (wget s w)).
  assert (Hq0 : quiet s0).
  { intros x h. unfold s0. rewrite (wget_wupd_field (λ y, hooks y h)) by done. apply Hq. }
  (* the will-show pass *)
  apply (returns_bind _ _ (sameTree s0)).
  { destruct (negb _ && parentIsShowing s0 w); [apply willShow_tree | by apply returns_ok]. }
  intros sa Ha.
  assert (Hea : element (wget sa w) = e).
  { rewrite (tree_field element s0 sa) by done. unfold s0.
    by rewrite (wget_wupd_field element). }
  rewrite Hea.
  set (s1 := nupd e (set_hiddenClass false) sa).
  assert (H1 : sameTree (nupd e (set_hiddenClass false) s0) s1).
  { by apply sameTree_nupd; [apply respects_hiddenClass|]. }
  assert (He1 : element (wget s1 w) = e) by done.
  rewrite He1.
  (* the reparenting *)
  apply (returns_bind _ _
           (sameTree (nupd e (λ x, set_parentNode (Some pe) (set_hiddenClass false x)) s0))).
  { case_bool_decide as Hthere.
    - apply returns_ok. etrans; [|exact H1].
      apply parentElement_parentNode in Hthere.
      rewrite (tree_node_field parentNode _ _ e H1) in Hthere by done.
      rewrite nget_nupd_eq in Hthere.
      split; [done| |done]. intros n. rewrite !nget_nupd.
      case_decide; [|done]. subst n. destruct (nget s0 e). simpl in *. by subst.
    - set (s2 := if externallyManaged (wget s1 w) then s1
                 else incrementWidgetCounter pe e s1).
      assert (H2 : sameTree s1 s2).
      { unfold s2. destruct (externallyManaged (wget s1 w)); [done|].
        apply sameButCounters_sameTree, incrementWidgetCounter_same. }
      assert (He2 : element (wget s2 w) = e).
      { rewrite (tree_field element s1 s2) by done. done. }
      rewrite He2.
      assert (HQ : sameTree (nupd e (λ x, set_parentNode (Some pe) (set_hiddenClass false x)) s0)
                     (nupd e (set_parentNode (Some pe)) s2)).
      { rewrite <- (nupd_nupd e (set_parentNode (Some pe)) (set_hiddenClass false)).
        apply sameTree_nupd; [apply respects_parentNode|]. by etrans. }
      destruct ib as [ib|];
        [by apply originalInsertBefore_returns | by apply originalAppendChild_returns]. }
  intros sb Hb.
  assert (Hqb : quiet sb).
  { eapply quiet_sameTree; [exact Hb|]. by apply quiet_nupd. }
  (* the was-shown pass *)
  apply (returns_bind _ _ (sameTree sb)).
  { destruct (negb _ && parentIsShowing sb w); [by apply wasShown_tree | by apply returns_ok]. }
  intros sc Hc.
  assert (Hqc : quiet sc) by by eapply quiet_sameTree.
  eapply returns_weaken.
  - apply (constraintsTail_tree f w sc (processOnResize f (exec f) w)); [done|].
    intros s3 H3. by apply onResize_tree.
  - intros sd Hd. etrans; [exact Hb|]. by etrans.
Qed.

Lemma sameTree_unlinked w s s' : sameTree s s' → sameTree (unlinked w s) (unlinked w s').
Proof.
  intros H. unfold unlinked.
  rewrite (tree_field parentWidgetInternal s s' w) by done.
  destruct (parentWidgetInternal (wget s w)) as [p|]; [|done].
  rewrite (tree_field childrenInternal s s' p) by done.
  destruct (indexOf w (childrenInternal (wget s p))) as [i|]; [|done].
  apply sameTree_wupd; [apply respects_parent|].
  apply sameTree_wupd; [|done]. intros x y. apply (respects_children (delete i)).
Qed.

Lemma updateHierarchy_tree rec w s :
  quiet s → returns (updateHierarchy rec w s) (sameTree (unlinked w s)).
Proof.
  intros Hq. unfold updateHierarchy, unlinked.
  destruct (parentWidgetInternal (wget s w)) as [p|]; [|by apply returns_assert].
  destruct (indexOf w (childrenInternal (wget s p))) as [i|]; [|apply returns_throw].
  cbv zeta.
  set (s1 := wupd p (λ x, set_childrenInternal (delete i (childrenInternal x)) x) s).
  set (s2 := if bool_decide (defaultFocusedChild (wget s1 p) = Some w)
             then wupd p (set_defaultFocusedChild None) s1 else s1).
  assert (H2 : sameTree s1 s2).
  { unfold s2. case_bool_decide; [by apply sameTree_wupd_neutral | done]. }
  assert (Hq2 : quiet s2).
  { eapply quiet_sameTree; [exact H2|]. intros x h. unfold s1.
    rewrite (wget_wupd_field (λ y, hooks y h)) by done. apply Hq. }
  rewrite callHook_quiet by done. simpl. apply returns_ok.
  apply sameTree_wupd; [apply respects_parent|]. etrans; [exact H2 | apply sameTree_log].
Qed.

Lemma quiet_wupd w f s : (∀ x, hooks (f x) = hooks x) → quiet s → quiet (wupd w f s).
Proof.
  intros Hf Hq x h. rewrite (wget_wupd_field (λ y, hooks y h)); [apply Hq|].
  intros y. by rewrite Hf.
Qed.

Lemma idle_wupd w f s :
  (∀ x, notificationDepth (f x) = notificationDepth x) → idle s → idle (wupd w f s).
Proof. intros Hf Hi x. rewrite (wget_wupd_field notificationDepth) by done. apply Hi. Qed.

Lemma quiet_hidden b w s : quiet s → quiet (hidden b w s).
Proof.
  intros Hq. unfold hidden. destruct b;
    [apply quiet_removed | apply quiet_nupd]; by apply quiet_wupd.
Qed.

Lemma idle_hidden b w s : idle s → idle (hidden b w s).
Proof.
  intros Hi. unfold hidden. destruct b;
    [apply idle_removed | apply idle_nupd]; by apply idle_wupd.
Qed.

Lemma quiet_unlinked w s : quiet s → quiet (unlinked w s).
Proof.
  intros Hq. unfold unlinked. destruct (parentWidgetInternal (wget s w)) as [p|]; [|done].
  destruct (indexOf _ _); [|done]. apply quiet_wupd; [done|]. by apply quiet_wupd.
Qed.

Lemma idle_unlinked w s : idle s → idle (unlinked w s).
Proof.
  intros Hq. unfold unlinked. destruct (parentWidgetInternal (wget s w)) as [p|]; [|done].
  destruct (indexOf _ _); [|done]. apply idle_wupd; [done|]. by apply idle_wupd.
Qed.

Lemma quiet_detached b w s : quiet s → quiet (detached b w s).
Proof.
  intros Hq. unfold detached. destruct (_ && _); [done|]. apply quiet_unlinked.
  destruct (visibleInternal (wget s w)); [by apply quiet_hidden|].
  destruct b; [by apply quiet_removed | done].
Qed.

Lemma idle_detached b w s : idle s → idle (detached b w s).
Proof.
  intros Hq. unfold detached. destruct (_ && _); [done|]. apply idle_unlinked.
  destruct (visibleInternal (wget s w)); [by apply idle_hidden|].
  destruct b; [by apply idle_removed | done].
Qed.

Lemma detach_tree f w o s :
  quiet s → idle s →
  returns (detach f (exec f) w o s) (sameTree (detached (willRemove f o s w) w s)).
Proof.
  intros Hq Hi. unfold detach, detached.
  destruct (bool_decide _ && negb _); [by apply returns_ok|].
  assert (Hrest : ∀ b : bool,
    returns
      ((if visibleInternal (wget s w) then hideWidgetInternal f (exec f) w b s
        else if b then forceRemove (parentElement s (element (wget s w))) w s else Ok s)
       ≫= λ s0, updateHierarchy (exec f) w s0)
      (sameTree (unlinked w (if visibleInternal (wget s w) then hidden b w s
                             else if b then removed (element (wget s w)) s else s)))).
  { intros b.
    set (mid := if visibleInternal (wget s w) then hidden b w s
                else if b then removed (element (wget s w)) s else s).
    assert (Hqm : quiet mid).
    { unfold mid. destruct (visibleInternal (wget s w)); [by apply quiet_hidden|].
      destruct b; [by apply quiet_removed | done]. }
    apply (returns_bind _ _ (sameTree mid)).
    - unfold mid. destruct (visibleInternal (wget s w)); [by apply hideWidgetInternal_tree|].
      destruct b; [|by apply returns_ok].
      unfold forceRemove, removed.
      destruct (parentElement s (element (wget s w))) as [pe|]; [|by apply returns_ok].
      unfold originalRemoveChild. case_bool_decide; [|apply returns_throw].
      apply returns_ok. apply sameTree_nupd; [apply respects_parentNode|].
      exact (sameButCounters_sameTree _ _ (decrementWidgetCounter_same _ _ s)).
    - intros s1 H1. eapply returns_weaken.
      + apply updateHierarchy_tree. by eapply quiet_sameTree.
      + intros s2 H2. etrans; [|exact H2]. by apply sameTree_unlinked. }
  unfold willRemove. destruct o; simpl; [apply Hrest|].
  destruct (shouldHideOnDetach f s w) as [b|]; simpl; [apply Hrest | done].
Qed.

Lemma attach_tree f w cw s :
  quiet s → idle s →
  returns (attach f (exec f) w cw s) (sameTree (attached (willRemove f false s w) w cw s)).
Proof.
  intros Hq Hi. unfold attach, attached.
  case_bool_decide; [by apply returns_ok|]. cbv zeta.
  apply (returns_bind _ _
           (sameTree (match parentWidgetInternal (wget s w) with
                      | Some _ => detached (willRemove f false s w) w s
                      | None => s
                      end))).
  { destruct (parentWidgetInternal (wget s w)); [by apply detach_tree | by apply returns_ok]. }
  intros s1 H1. apply returns_ok.
  apply sameTree_wupd; [apply respects_isRoot|].
  apply sameTree_wupd; [intros x y; apply (respects_children (λ l, l ++ [w]))|].
  by apply sameTree_wupd; [apply respects_parent|].
Qed.

(** ** The links of the widget tree *)

Lemma linked_links s s' :
  (∀ x, parentWidgetInternal (wget s' x) = parentWidgetInternal (wget s x)) →
  (∀ x, childrenInternal (wget s' x) = childrenInternal (wget s x)) →
  linked s → linked s'.
Proof.
  intros Hp Hc [H1 H2 H3]. split.
  - intros c p. rewrite Hp, Hc. apply H1.
  - intros c p. rewrite Hp, Hc. apply H2.
  - intros p. rewrite Hc. apply H3.
Qed.

Lemma linked_sameTree s s' : sameTree s s' → linked s → linked s'.
Proof.
  intros H. apply linked_links; intros x.
  - by apply (tree_field parentWidgetInternal).
  - by apply (tree_field childrenInternal).
Qed.

Lemma linked_wupd w f s :
  (∀ x, parentWidgetInternal (f x) = parentWidgetInternal x) →
  (∀ x, childrenInternal (f x) = childrenInternal x) →
  linked s → linked (wupd w f s).
Proof.
  intros Hp Hc. apply linked_links; intros x.
  - by apply (wget_wupd_field parentWidgetInternal).
  - by apply (wget_wupd_field childrenInternal).
Qed.

Lemma linked_nodes s s' : (∀ w, wget s' w = wget s w) → linked s → linked s'.
Proof. intros H. apply linked_links; intros x; by rewrite H. Qed.

Lemma linked_removed e s : linked s → linked (removed e s).
Proof. unfold removed. destruct (parentElement s e); [by apply linked_nodes | done]. Qed.

Lemma linked_hidden b w s : linked s → linked (hidden b w s).
Proof.
  intros H. unfold hidden. destruct b.
  - apply linked_removed. by apply linked_wupd.
  - apply (linked_nodes (wupd w (set_visibleInternal false) s)); [done|]. by apply linked_wupd.
Qed.

Lemma linked_shown w pe s : linked s → linked (shown w pe s).
Proof.
  intros H. unfold shown.
  apply (linked_nodes (wupd w (set_visibleInternal true) s)); [done|]. by apply linked_wupd.
Qed.

Lemma not_elem_of_delete (w : nat) (l : list nat) (i : nat) :
  NoDup l → l !! i = Some w → w ∉ delete i l.
Proof.
  intros Hnd. revert i. induction Hnd as [|x l Hx _ IH]; intros i Hi; [done|].
  destruct i as [|j]; simpl in *.
  - by injection Hi as <-.
  - apply not_elem_of_cons. split; [|by apply IH].
    intros <-. apply Hx. by eapply list_elem_of_lookup_2.
Qed.

Lemma NoDup_push (l : list nat) (x : nat) : NoDup l → x ∉ l → NoDup (l ++ [x]).
Proof.
  intros Hnd. induction Hnd as [|y l Hy _ IH]; intros Hx; simpl.
  - apply NoDup_singleton.
  - apply not_elem_of_cons in Hx as [Hxy Hx]. apply NoDup_cons_2; [|by apply IH].
    rewrite elem_of_app, list_elem_of_singleton. intros [?|?]; [done | by subst].
Qed.

(** The fields of the tree after the hierarchy update. *)
Lemma unlinked_parent w p i s x :
  parentWidgetInternal (wget s w) = Some p → indexOf w (childrenInternal (wget s p)) = Some i →
  parentWidgetInternal (wget (unlinked w s) x)
  = if decide (x = w) then None else parentWidgetInternal (wget s x).
Proof.
  intros Hp Hi. unfold unlinked. rewrite Hp, Hi. rewrite wget_wupd. case_decide; subst.
  - by rewrite decide_True.
  - rewrite decide_False by done. by rewrite (wget_wupd_field parentWidgetInternal).
Qed.

Lemma unlinked_children w p i s x :
  parentWidgetInternal (wget s w) = Some p → indexOf w (childrenInternal (wget s p)) = Some i →
  childrenInternal (wget (unlinked w s) x)
  = if decide (x = p) then delete i (childrenInternal (wget s p))
    else childrenInternal (wget s x).
Proof.
  intros Hp Hi. unfold unlinked. rewrite Hp, Hi.
  rewrite (wget_wupd_field childrenInternal) by done.
  rewrite wget_wupd. case_decide; subst; [by rewrite decide_True | by rewrite decide_False].
Qed.

Lemma linked_unlinked w s : linked s → linked (unlinked w s).
Proof.
  intros [H1 H2 H3].
  destruct (parentWidgetInternal (wget s w)) as [p|] eqn:Hp;
    [|by unfold unlinked; rewrite Hp].
  destruct (indexOf w (childrenInternal (wget s p))) as [i|] eqn:Hi;
    [|by unfold unlinked; rewrite Hp, Hi].
  pose proof (indexOf_Some _ _ _ Hi) as Hl.
  pose proof (not_elem_of_delete _ _ _ (H3 p) Hl) as Hw.
  split.
  - intros c q. rewrite (unlinked_parent w p i), (unlinked_children w p i) by done.
    destruct (decide (q = p)) as [->|Hq]; intros Hc.
    + destruct (decide (c = w)) as [->|Hcw]; [done|].
      apply H1. by eapply list_elem_of_delete_inv.
    + destruct (decide (c = w)) as [->|Hcw]; [|by apply H1].
      apply H1 in Hc. congruence.
  - intros c q. rewrite (unlinked_parent w p i), (unlinked_children w p i) by done.
    destruct (decide (c = w)) as [->|Hcw]; [done|]. intros Hc.
    destruct (decide (q = p)) as [->|Hq]; [|by apply H2].
    eapply elem_of_delete_other; [by apply H2 | done | done].
  - intros q. rewrite (unlinked_children w p i) by done.
    destruct (decide (q = p)) as [->|Hq]; [|apply H3].
    eapply sublist_NoDup; [apply H3 | apply sublist_delete].
Qed.

Lemma linked_detached b w s : linked s → linked (detached b w s).
Proof.
  intros H. unfold detached. destruct (_ && _); [done|]. apply linked_unlinked.
  destruct (visibleInternal (wget s w)); [by apply linked_hidden|].
  destruct b; [by apply linked_removed | done].
Qed.

(** After [detach] the widget has no parent. *)
Lemma detached_parent b w s :
  linked s → parentWidgetInternal (wget (detached b w s) w) = None.
Proof.
  intros Hl. unfold detached.
  destruct (bool_decide _ && negb _) eqn:Hearly.
  { apply andb_true_iff in Hearly as [Hp _]. by apply bool_decide_eq_true_1 in Hp. }
  set (mid := if visibleInternal (wget s w) then hidden b w s
              else if b then removed (element (wget s w)) s else s).
  assert (Hlm : linked mid).
  { unfold mid. destruct (visibleInternal (wget s w)); [by apply linked_hidden|].
    destruct b; [by apply linked_removed | done]. }
  destruct (parentWidgetInternal (wget mid w)) as [p|] eqn:Hp;
    [|by unfold unlinked; rewrite Hp].
  destruct (indexOf_elem w (childrenInternal (wget mid p))) as (i & Hi);
    [by apply (ln_parent _ Hlm)|].
  rewrite (unlinked_parent w p i) by done. by rewrite decide_True.
Qed.

Lemma linked_attached b w cw s : linked s → linked (attached b w cw s).
Proof.
  intros Hl. unfold attached. case_bool_decide as Hsame; [done|]. cbv zeta.
  set (s1 := match parentWidgetInternal (wget s w) with
             | Some _ => detached b w s
             | None => s
             end).
  assert (Hl1 : linked s1).
  { unfold s1. destruct (parentWidgetInternal (wget s w)); [by apply linked_detached | done]. }
  assert (Hp1 : parentWidgetInternal (wget s1 w) = None).
  { unfold s1. destruct (parentWidgetInternal (wget s w)) eqn:Hp;
      [by apply detached_parent | done]. }
  clearbody s1. destruct Hl1 as [H1 H2 H3].
  set (s2 := wupd w (set_isRoot false) _).
  assert (Hpar : ∀ x, parentWidgetInternal (wget s2 x)
                      = if decide (x = w) then Some cw else parentWidgetInternal (wget s1 x)).
  { intros x. unfold s2. rewrite (wget_wupd_field parentWidgetInternal) by done.
    rewrite (wget_wupd_field parentWidgetInternal) by done.
    rewrite wget_wupd. case_decide; subst; [by rewrite decide_True | by rewrite decide_False]. }
  assert (Hch : ∀ x, childrenInternal (wget s2 x)
                     = if decide (x = cw) then childrenInternal (wget s1 cw) ++ [w]
                       else childrenInternal (wget s1 x)).
  { intros x. unfold s2. rewrite (wget_wupd_field childrenInternal) by done.
    rewrite wget_wupd. case_decide; subst.
    - rewrite decide_True by done. simpl.
      by rewrite (wget_wupd_field childrenInternal).
    - rewrite decide_False by done. by rewrite (wget_wupd_field childrenInternal). }
  clearbody s2.
  assert (Hw : w ∉ childrenInternal (wget s1 cw)).
  { intros Hin. apply H1 in Hin. congruence. }
  split.
  - intros c q. rewrite Hpar, Hch.
    destruct (decide (q = cw)) as [->|Hq]; intros Hc.
    + apply elem_of_app in Hc as [Hc|Hc].
      * destruct (decide (c = w)) as [->|Hcw]; [done | by apply H1].
      * apply list_elem_of_singleton in Hc. subst c. by rewrite decide_True.
    + destruct (decide (c = w)) as [->|Hcw]; [|by apply H1].
      apply H1 in Hc. congruence.
  - intros c q. rewrite Hpar, Hch.
    destruct (decide (c = w)) as [->|Hcw].
    + intros [= <-]. rewrite decide_True by done. apply elem_of_app. right.
      by apply list_elem_of_singleton.
    + intros Hc. apply H2 in Hc.
      destruct (decide (q = cw)) as [->|Hq]; [|done]. apply elem_of_app. by left.
  - intros q. rewrite Hch. destruct (decide (q = cw)) as [->|Hq]; [|apply H3].
    by apply NoDup_push.
Qed.

Lemma quiet_stable s s' : stable s s' → quiet s → quiet s'.
Proof. intros H Hq w h. rewrite (stable_hooks _ _ H). apply Hq. Qed.

Lemma idle_stable s s' : stable s s' → idle s → idle s'.
Proof. intros H Hi w. rewrite (stable_depth _ _ H). apply Hi. Qed.

Lemma returns_stable f c s (Q : State → Prop) :
  (∀ s', stable s s' → exec f c s = Ok s' → Q s') → returns (exec f c s) Q.
Proof.
  intros HQ s' E. apply HQ; [|done]. pose proof (exec_stable f c s) as H. by rewrite E in H.
Qed.

Lemma body_linked f c s :
  quiet s → idle s → linked s → returns (body f (exec f) c s) linked.
Proof.
  intros Hq Hi Hl.
  assert (Hinv : ∀ w s1, quiet s1 → linked s1 →
            returns (invalidateConstraints f (exec f) w s1) linked).
  { intros w s1 Hq1 Hl1. eapply returns_weaken; [by apply invalidate_tree|].
    intros s2 H2. by eapply linked_sameTree. }
  assert (Hshow : ∀ w pe ib s1, quiet s1 → linked s1 →
            returns (showWidgetInternal f (exec f) w pe ib s1) linked).
  { intros w pe ib s1 Hq1 Hl1. eapply returns_weaken; [by apply showWidgetInternal_tree|].
    intros s2 [(_ & _ & ->)|H2]; [done|].
    eapply linked_sameTree; [exact H2 | by apply linked_shown]. }
  destruct c as [w pe ib|w|w|w o|w|w|w|w|w ch|w a b|w a b c d|w|w|w|w|w|p node|p node ch|p child|p| |ps w];
    unfold body.
  - (* show *)
    unfold show. apply (returns_bind _ _ (λ s1, quiet s1 ∧ linked s1)).
    + destruct (isRoot (wget s w)); [by apply returns_ok|].
      destruct (nearestWidget s pe) as [cw|]; [|apply returns_throw].
      intros s1 E. split.
      * pose proof (attach_stable f (exec f) (exec_stable f) w cw s) as Hst.
        rewrite E in Hst. by eapply quiet_stable.
      * eapply linked_sameTree; [by apply (attach_tree f w cw s Hq Hi s1) |].
        by apply linked_attached.
    + intros s1 [Hq1 Hl1]. by apply Hshow.
  - (* showWidget *)
    unfold showWidget. destruct (visibleInternal (wget s w)); [by apply returns_ok|].
    destruct (parentElement s (element (wget s w))); [by apply Hshow | apply returns_throw].
  - (* hideWidget *)
    unfold hideWidget. destruct (negb _); [by apply returns_ok|].
    eapply returns_weaken; [by apply hideWidgetInternal_tree|].
    intros s1 H1. eapply linked_sameTree; [exact H1 | by apply linked_hidden].
  - (* detach *)
    eapply returns_weaken; [by apply detach_tree|].
    intros s1 H1. eapply linked_sameTree; [exact H1 | by apply linked_detached].
  - (* detachChildWidgets *)
    unfold detachChildWidgets.
    eapply returns_weaken.
    + apply (returns_forEach _ (λ s1, quiet s1 ∧ idle s1 ∧ linked s1)); [done|].
      intros c s1 _ (Hq1 & Hi1 & Hl1) s2 E.
      pose proof (detach_stable f (exec f) (exec_stable f) c false s1) as Hst.
      rewrite E in Hst. split; [by eapply quiet_stable|]. split; [by eapply idle_stable|].
      eapply linked_sameTree; [by apply (detach_tree f c false s1 Hq1 Hi1 s2)|].
      by apply linked_detached.
    + by intros s1 (_ & _ & ?).
  - unfold markAsRoot. apply returns_assert_bind. intros _. apply returns_ok.
    by apply linked_wupd.
  - unfold setHideOnDetach. apply returns_ok. by apply linked_wupd.
  - unfold markAsExternallyManaged. apply returns_assert_bind. intros _. apply returns_ok.
    by apply linked_wupd.
  - unfold setDefaultFocusedChild. apply returns_assert_bind. intros _. apply returns_ok.
    by apply linked_wupd.
  - unfold setMinimumSize. apply Hinv; [by apply quiet_wupd | by apply linked_wupd].
  - unfold setMinimumAndPreferredSizes.
    apply Hinv; [by apply quiet_wupd | by apply linked_wupd].
  - unfold suspendInvalidations. apply returns_ok. by apply linked_wupd.
  - unfold resumeInvalidations. cbv zeta. destruct (_ && _).
    + apply Hinv; [by apply quiet_wupd | by apply linked_wupd].
    + apply returns_ok. by apply linked_wupd.
  - by apply Hinv.
  - eapply returns_post.
    + by apply (doLayout_passive f (exec f) (exec_passive f)).
    + intros s2 Hp. eapply linked_sameTree; [by apply passive_sameTree | done].
  - eapply returns_post.
    + by apply (doResize_passive f (exec f) (exec_passive f)).
    + intros s2 Hp. eapply linked_sameTree; [by apply passive_sameTree | done].
  - unfold appendChild. destruct (_ && _); [apply returns_throw|].
    apply originalAppendChild_returns. by apply (linked_nodes s).
  - unfold insertBefore. destruct (_ && _); [apply returns_throw|].
    apply originalInsertBefore_returns. by apply (linked_nodes s).
  - unfold removeChild, originalRemoveChild. destruct (_ || _); [apply returns_throw|].
    case_bool_decide; [|apply returns_throw]. apply returns_ok. by apply (linked_nodes s).
  - unfold removeChildren, originalRemoveChildren. destruct (negb _); [apply returns_throw|].
    apply returns_ok. by apply (linked_nodes s).
  - apply returns_throw.
  - destruct ps; unfold process.
    + eapply returns_weaken; [apply willShow_tree|].
      intros s1 H1. by eapply linked_sameTree.
    + eapply returns_weaken; [by apply wasShown_tree|].
      intros s1 H1. by eapply linked_sameTree.
    + eapply returns_weaken; [by apply willHide_tree|].
      intros s1 H1. by eapply linked_sameTree.
    + eapply returns_weaken; [by apply wasHidden_tree|].
      intros s1 H1. by eapply linked_sameTree.
    + eapply returns_weaken; [by apply onResize_tree|].
      intros s1 H1. by eapply linked_sameTree.
Qed.

Lemma run_linked fuel cs s :
  quiet s → idle s → linked s → returns (run fuel cs s) linked.
Proof.
  revert s. induction cs as [|c cs IH]; intros s Hq Hi Hl; [by apply returns_ok|].
  unfold run. simpl.
  apply (returns_bind _ _ (λ s1, quiet s1 ∧ idle s1 ∧ linked s1)).
  - apply returns_stable. intros s1 Hst E.
    split; [by eapply quiet_stable|]. split; [by eapply idle_stable|].
    destruct fuel as [|f]; [done|]. by apply (body_linked f c s Hq Hi Hl).
  - intros s1 (Hq1 & Hi1 & Hl1). by apply IH.
Qed.

Lemma linked_blank s : (∀ w, childrenInternal (wget s w) = [] ∧ parentWidgetInternal (wget s w) = None) → linked s.
Proof.
  intros H. split.
  - intros c p Hc. destruct (H p) as [Hp _]. rewrite Hp in Hc. by apply elem_of_nil in Hc.
  - intros c p Hc. destruct (H c) as [_ Hp]. congruence.
  - intros p. destruct (H p) as [-> _]. apply NoDup_nil_2.
Qed.

Lemma page_blank w :
  childrenInternal (wget page w) = [] ∧ parentWidgetInternal (wget page w) = None.
Proof.
  unfold page, newWidget, wget. simpl.
  destruct (decide (w = 3)) as [->|?]; [by rewrite lookup_insert_eq|].
  rewrite lookup_insert_ne by done.
  destruct (decide (w = 2)) as [->|?]; [by rewrite lookup_insert_eq|].
  rewrite lookup_insert_ne by done.
  destruct (decide (w = 1)) as [->|?]; [by rewrite lookup_insert_eq|].
  by rewrite lookup_insert_ne, lookup_empty.
Qed.

Lemma linked_page : linked page.
Proof. apply linked_blank, page_blank. Qed.

(** X11: with hooks that do not call back, every sequence of calls (of the
    widget API, the guarded DOM primitives and the passes) that returns
    keeps the two sides of the widget tree in step: a widget is listed in
    [children()] of [p] exactly when its [parentWidget()] is [p], and no
    list of children names a widget twice. *)
Theorem links_agree (fuel : nat) (cs : list Call) (s s' : State) :
  quiet s → idle s → linked s → run fuel cs s = Ok s' →
  (∀ c p, c ∈ childrenInternal (wget s' p) ↔ parentWidgetInternal (wget s' c) = Some p)
  ∧ ∀ p, NoDup (childrenInternal (wget s' p)).
Proof.
  intros Hq Hi Hl E. destruct (run_linked fuel cs s Hq Hi Hl s' E) as [H1 H2 H3].
  split; [|done]. intros c p. split; [apply H1 | apply H2].
Qed.

Lemma links_agree_witness :
  (∀ c p, c ∈ childrenInternal (wget shownState p)
          ↔ parentWidgetInternal (wget shownState c) = Some p)
  ∧ ∀ p, NoDup (childrenInternal (wget shownState p)).
Proof.
  apply (links_agree 3 rootAndChild page shownState).
  - apply consistent_page.
  - apply consistent_page.
  - apply linked_page.
  - vm_compute. reflexivity.
Defined.

(** ** Reading the summaries *)

Lemma removed_wget e s x : wget (removed e s) x = wget s x.
Proof. unfold removed. by destruct (parentElement s e). Qed.

Lemma hidden_wget b w s x :
  wget (hidden b w s) x = wget (wupd w (set_visibleInternal false) s) x.
Proof. unfold hidden. destruct b; [apply removed_wget | done]. Qed.

Lemma unlinked_field {A} (proj : Widget → A) w s x :
  (∀ y p, proj (set_parentWidgetInternal p y) = proj y) →
  (∀ y l, proj (set_childrenInternal l y) = proj y) →
  proj (wget (unlinked w s) x) = proj (wget s x).
Proof.
  intros H1 H2. unfold unlinked.
  destruct (parentWidgetInternal (wget s w)) as [p|]; [|done].
  destruct (indexOf _ _); [|done].
  rewrite (wget_wupd_field proj) by (intros; apply H1).
  by rewrite (wget_wupd_field proj) by (intros; apply H2).
Qed.

Lemma unlinked_nget w s n : nget (unlinked w s) n = nget s n.
Proof.
  unfold unlinked. destruct (parentWidgetInternal (wget s w)) as [p|]; [|done].
  by destruct (indexOf _ _).
Qed.

(** After [detach] went past its first test the widget is not visible. *)
Lemma detached_visible b w s :
  parentWidgetInternal (wget s w) ≠ None ∨ isRoot (wget s w) = true →
  visibleInternal (wget (detached b w s) w) = false.
Proof.
  intros Hlive. unfold detached.
  destruct (bool_decide _ && negb _) eqn:Hearly.
  { apply andb_true_iff in Hearly as [Hp Hr]. apply bool_decide_eq_true_1 in Hp.
    apply negb_true_iff in Hr. destruct Hlive; congruence. }
  rewrite (unlinked_field visibleInternal) by done.
  destruct (visibleInternal (wget s w)) eqn:Hv.
  - rewrite hidden_wget. by rewrite wget_wupd_eq.
  - destruct b; [by rewrite removed_wget | done].
Qed.

Lemma detached_other b w s x :
  x ≠ w →
  parentWidgetInternal (wget (detached b w s) x) = parentWidgetInternal (wget s x)
  ∧ visibleInternal (wget (detached b w s) x) = visibleInternal (wget s x)
  ∧ isRoot (wget (detached b w s) x) = isRoot (wget s x).
Proof.
  intros Hx. unfold detached. destruct (_ && _); [done|].
  set (mid := if visibleInternal (wget s w) then hidden b w s
              else if b then removed (element (wget s w)) s else s).
  assert (Hmid : wget mid x = wget s x).
  { unfold mid. destruct (visibleInternal (wget s w)).
    - rewrite hidden_wget. by rewrite wget_wupd_ne.
    - destruct b; [apply removed_wget | done]. }
  rewrite (unlinked_field visibleInternal), (unlinked_field isRoot) by done.
  rewrite Hmid. split; [|done].
  unfold unlinked. destruct (parentWidgetInternal (wget mid w)) as [p|]; [|by rewrite Hmid].
  destruct (indexOf _ _); [|by rewrite Hmid].
  rewrite wget_wupd_ne by done. rewrite (wget_wupd_field parentWidgetInternal) by done.
  by rewrite Hmid.
Qed.

Lemma attached_parent b w cw s :
  parentWidgetInternal (wget (attached b w cw s) w) = Some cw.
Proof.
  unfold attached. case_bool_decide; [done|]. cbv zeta.
  rewrite (wget_wupd_field parentWidgetInternal) by done.
  rewrite (wget_wupd_field parentWidgetInternal) by done.
  by rewrite wget_wupd_eq.
Qed.

Lemma attached_isRoot b w cw s :
  isRoot (wget s w) = false → isRoot (wget (attached b w cw s) w) = false.
Proof.
  intros Hr. unfold attached. case_bool_decide; [done|]. cbv zeta.
  by rewrite wget_wupd_eq.
Qed.

(** A widget that [attach] moved is not visible. *)
Lemma attached_visible b w cw s :
  parentWidgetInternal (wget s w) ≠ Some cw →
  (parentWidgetInternal (wget s w) = None → visibleInternal (wget s w) = false) →
  visibleInternal (wget (attached b w cw s) w) = false.
Proof.
  intros Hne Horphan. unfold attached. rewrite bool_decide_eq_false_2 by done. cbv zeta.
  rewrite (wget_wupd_field visibleInternal) by done.
  rewrite (wget_wupd_field visibleInternal) by done.
  rewrite (wget_wupd_field visibleInternal) by done.
  destruct (parentWidgetInternal (wget s w)) eqn:Hp; [|by apply Horphan].
  apply detached_visible. left. congruence.
Qed.

Lemma shown_visible w pe s : visibleInternal (wget (shown w pe s) w) = true.
Proof. unfold shown. rewrite wget_nupd. by rewrite wget_wupd_eq. Qed.

Lemma shown_field {A} (proj : Widget → A) w pe s x :
  (∀ y b, proj (set_visibleInternal b y) = proj y) →
  proj (wget (shown w pe s) x) = proj (wget s x).
Proof.
  intros H. unfold shown. rewrite wget_nupd. by apply (wget_wupd_field proj).
Qed.

Lemma isElement_nupd n f s p : (∀ y, nkind (f y) = nkind y) → isElement (nupd n f s) p = isElement s p.
Proof. intros H. unfold isElement. by rewrite nkind_nupd. Qed.

Lemma shown_parentElement w pe s :
  isElement s pe = true → parentElement (shown w pe s) (element (wget s w)) = Some pe.
Proof.
  intros Hpe. unfold shown, parentElement. rewrite nget_nupd_eq. simpl.
  rewrite isElement_nupd by done.
  by replace (isElement (wupd w (set_visibleInternal true) s) pe) with true.
Qed.

Lemma shown_hiddenClass w pe s : hiddenClass (nget (shown w pe s) (element (wget s w))) = false.
Proof. unfold shown. by rewrite nget_nupd_eq. Qed.

Lemma parentIsShowing_alt s w :
  parentIsShowing s w
  = (isRoot (wget s w)
     || match parentWidgetInternal (wget s w) with
        | Some p => isShowing s p
        | None => false
        end).
Proof. unfold parentIsShowing. by destruct (isRoot (wget s w)). Qed.

(** ** What [show] achieves *)

(** X12: with hooks that do not call back, from a consistent state, when
    [show(parentElement)] on a constructed widget returns, the widget is
    visible and its element is a child of [parentElement]; a root stays a
    root without parent and is showing; any other widget has become a
    child of the nearest widget at or above [parentElement] and is showing
    exactly when that parent is.  Unless the call found the widget visible
    in that place already and changed nothing, its element does not carry
    the [hidden] class. *)
Theorem show_postcondition (fuel w pe : nat) (ib : option nat) (s s' : State) :
  consistent s → registered s w → isElement s pe = true →
  exec fuel (Show w pe ib) s = Ok s' →
  visibleInternal (wget s' w) = true
  ∧ parentElement s' (element (wget s' w)) = Some pe
  ∧ (if isRoot (wget s w)
     then isRoot (wget s' w) = true ∧ parentWidgetInternal (wget s' w) = None
          ∧ isShowing s' w = true
     else isRoot (wget s' w) = false
          ∧ ∃ p, nearestWidget s pe = Some p ∧ parentWidgetInternal (wget s' w) = Some p
                 ∧ isShowing s' w = isShowing s' p)
  ∧ (s' = s ∨ hiddenClass (nget s' (element (wget s' w))) = false).
Proof.
  intros Hcs Hreg Hpe E.
  assert (Hcs' : consistent s') by by apply (exec_consistent fuel (Show w pe ib) s Hcs).
  pose proof (cs_showing _ Hcs' w) as Hsh. unfold showingAt in Hsh.
  rewrite parentIsShowing_alt in Hsh.
  pose proof (exec_stable fuel (Show w pe ib) s) as Hst. rewrite E in Hst. simpl in Hst.
  assert (Hel : element (wget s' w) = element (wget s w)) by apply Hst.
  destruct Hcs as [[Hq Hi Hc Hr Ho Hg] Hat _].
  destruct fuel as [|f]; [done|]. simpl in E. unfold show in E.
  (* the state after the hierarchy update *)
  assert (Hmid : ∃ s1,
    showWidgetInternal f (exec f) w pe ib s1 = Ok s' ∧ quiet s1 ∧ isElement s1 pe = true
    ∧ element (wget s1 w) = element (wget s w)
    ∧ (if isRoot (wget s w)
       then s1 = s
       else isRoot (wget s1 w) = false
            ∧ ∃ p, nearestWidget s pe = Some p ∧ parentWidgetInternal (wget s1 w) = Some p
                   ∧ (s1 = s ∨ visibleInternal (wget s1 w) = false))).
  { destruct (isRoot (wget s w)) eqn:Hroot.
    - exists s. simpl in E. done.
    - destruct (nearestWidget s pe) as [cw|] eqn:Hnear; [|done].
      destruct (attach f (exec f) w cw s) as [s1| |] eqn:Ea; simpl in E; try done.
      exists s1. split; [done|].
      pose proof (attach_stable f (exec f) (exec_stable f) w cw s) as Hst1.
      rewrite Ea in Hst1. simpl in Hst1.
      pose proof (attach_tree f w cw s Hq Hi s1 Ea) as Ht1.
      split; [by eapply quiet_stable|].
      split; [by rewrite (isElement_stable _ _ _ Hst1)|].
      split; [apply Hst1|].
      split.
      { rewrite (tree_field isRoot _ _ w Ht1) by done. by apply attached_isRoot. }
      exists cw. split; [done|]. split.
      { rewrite (tree_field parentWidgetInternal _ _ w Ht1) by done. apply attached_parent. }
      destruct (decide (parentWidgetInternal (wget s w) = Some cw)) as [Hsame|Hdiff].
      + left. unfold attach in Ea. rewrite bool_decide_eq_true_2 in Ea by done. congruence.
      + right. rewrite (tree_field visibleInternal _ _ w Ht1) by done.
        apply attached_visible; [done|]. intros Hnone. by apply Ho. }
  destruct Hmid as (s1 & Es & Hq1 & Hpe1 & Hel1 & Hroot1).
  pose proof (showWidgetInternal_tree f w pe ib s1 Hq1 s' Es) as Hsum.
  assert (Hfacts : visibleInternal (wget s' w) = true
                   ∧ parentElement s' (element (wget s w)) = Some pe
                   ∧ isRoot (wget s' w) = isRoot (wget s1 w)
                   ∧ parentWidgetInternal (wget s' w) = parentWidgetInternal (wget s1 w)
                   ∧ (s' = s1 ∧ visibleInternal (wget s1 w) = true
                      ∨ hiddenClass (nget s' (element (wget s w))) = false)).
  { destruct Hsum as [(Hv & Hp & ->)|Ht].
    - rewrite Hel1 in Hp. repeat split; try done. by left.
    - rewrite (tree_field visibleInternal _ _ w Ht) by done.
      rewrite (parentElement_sameTree _ _ _ Ht).
      rewrite (tree_field isRoot _ _ w Ht), (tree_field parentWidgetInternal _ _ w Ht) by done.
      rewrite (tree_node_field hiddenClass _ _ _ Ht) by done.
      rewrite <- Hel1.
      rewrite shown_visible, shown_parentElement, shown_hiddenClass by done.
      rewrite (shown_field isRoot), (shown_field parentWidgetInternal) by done.
      repeat split; try done. by right. }
  destruct Hfacts as (Hv & Hp & Hr' & Hp' & Hh).
  rewrite Hel. split; [done|]. split; [done|].
  rewrite Hv in Hsh. simpl in Hsh.
  destruct (isRoot (wget s w)) eqn:Hroot.
  - subst s1. split.
    + rewrite Hr', Hp', Hroot. rewrite Hr', Hroot in Hsh. split; [done|].
      split; [by apply Hr | done].
    + destruct Hh as [[-> _]|Hh]; [by left | by right].
  - destruct Hroot1 as (Hr1 & p & Hnear & Hp1 & Hcase). split.
    + split; [congruence|]. exists p. split; [done|]. split; [congruence|].
      rewrite Hr', Hr1, Hp', Hp1 in Hsh. done.
    + destruct Hh as [[-> Hv1]|Hh]; [|by right].
      destruct Hcase as [->|Hv0]; [by left | congruence].
Qed.

Lemma show_postcondition_witness :
  visibleInternal (wget shownState 2) = true
  ∧ parentElement shownState (element (wget shownState 2)) = Some 11
  ∧ (isRoot (wget shownState 2) = false
     ∧ ∃ p, nearestWidget (resultState (run 3 [MarkAsRoot 1; Show 1 10 None] page)) 11 = Some p
            ∧ parentWidgetInternal (wget shownState 2) = Some p
            ∧ isShowing shownState 2 = isShowing shownState p)
  ∧ (shownState = resultState (run 3 [MarkAsRoot 1; Show 1 10 None] page)
     ∨ hiddenClass (nget shownState (element (wget shownState 2))) = false).
Proof.
  apply (show_postcondition 3 2 11 None
           (resultState (run 3 [MarkAsRoot 1; Show 1 10 None] page)) shownState).
  - apply (run_consistent 3 [MarkAsRoot 1; Show 1 10 None] page consistent_page).
    + repeat constructor; vm_compute; reflexivity.
    + vm_compute. reflexivity.
  - vm_compute. reflexivity.
  - vm_compute. reflexivity.
  - vm_compute. reflexivity.
Defined.

(** ** What [detach] achieves *)

Lemma parentElement_nget s s' n :
  (∀ x, nget s' x = nget s x) → parentElement s' n = parentElement s n.
Proof.
  intros H. unfold parentElement, isElement. rewrite (H n).
  destruct (parentNode (nget s n)) as [p|]; [|done]. by rewrite (H p).
Qed.

Lemma removed_parentElement e s : parentElement (removed e s) e = None.
Proof.
  unfold removed. destruct (parentElement s e) eqn:Hp; [|done].
  by apply parentElement_removed.
Qed.

Lemma detached_isRoot b w s x : isRoot (wget (detached b w s) x) = isRoot (wget s x).
Proof.
  unfold detached. destruct (_ && _); [done|].
  rewrite (unlinked_field isRoot) by done.
  destruct (visibleInternal (wget s w)).
  - rewrite hidden_wget. by rewrite (wget_wupd_field isRoot).
  - destruct b; [by rewrite removed_wget | done].
Qed.

Lemma detached_element b w s x : element (wget (detached b w s) x) = element (wget s x).
Proof.
  unfold detached. destruct (_ && _); [done|].
  rewrite (unlinked_field element) by done.
  destruct (visibleInternal (wget s w)).
  - rewrite hidden_wget. by rewrite (wget_wupd_field element).
  - destruct b; [by rewrite removed_wget | done].
Qed.

(** The document after [detach] went past its first test. *)
Lemma detached_document (b : bool) w s :
  bool_decide (parentWidgetInternal (wget s w) = None) && negb (isRoot (wget s w)) = false →
  if b then parentElement (detached b w s) (element (wget s w)) = None
  else parentElement (detached b w s) (element (wget s w))
       = parentElement s (element (wget s w))
       ∧ (visibleInternal (wget s w) = true →
          hiddenClass (nget (detached b w s) (element (wget s w))) = true).
Proof.
  intros Hearly. unfold detached. rewrite Hearly.
  set (mid := if visibleInternal (wget s w) then hidden b w s
              else if b then removed (element (wget s w)) s else s).
  rewrite (parentElement_nget mid) by apply unlinked_nget.
  rewrite unlinked_nget.
  unfold mid, hidden. destruct b.
  - destruct (visibleInternal (wget s w)); apply removed_parentElement.
  - destruct (visibleInternal (wget s w)); [|done]. split.
    + by rewrite parentElement_nupd_keep.
    + intros _. by rewrite nget_nupd_eq.
Qed.

(** X13: with hooks that do not call back, from a consistent state with
    its links in step, when [detach()] returns, the widget has no parent,
    is in no list of children and is neither visible nor showing, and
    every other widget has the parent and the visibility it had.  If the
    widget had a parent or was a root, its element is out of the document
    when [overrideHideOnDetach] was passed or [shouldHideOnDetach()] was
    false, and otherwise is where it was, with the [hidden] class if the
    widget was visible.  A second [detach()] on a widget that is not a
    root then returns at once and changes nothing. *)
Theorem detach_postcondition (f w : nat) (o : bool) (s s' : State) :
  consistent s → linked s → exec (S f) (Detach w o) s = Ok s' →
  parentWidgetInternal (wget s' w) = None
  ∧ visibleInternal (wget s' w) = false
  ∧ isShowing s' w = false
  ∧ (∀ p, w ∉ childrenInternal (wget s' p))
  ∧ (∀ x, x ≠ w → parentWidgetInternal (wget s' x) = parentWidgetInternal (wget s x)
                  ∧ visibleInternal (wget s' x) = visibleInternal (wget s x))
  ∧ (parentWidgetInternal (wget s w) ≠ None ∨ isRoot (wget s w) = true →
     if willRemove f o s w
     then parentElement s' (element (wget s' w)) = None
     else parentElement s' (element (wget s' w)) = parentElement s (element (wget s w))
          ∧ (visibleInternal (wget s w) = true →
             hiddenClass (nget s' (element (wget s' w))) = true))
  ∧ (isRoot (wget s w) = false → ∀ f' o', exec (S f') (Detach w o') s' = Ok s').
Proof.
  intros Hcs Hl E.
  assert (Hcs' : consistent s') by by apply (exec_consistent (S f) (Detach w o) s Hcs).
  pose proof Hcs as [[Hq Hi Hc Hr Ho Hg] Hat _].
  simpl in E. pose proof (detach_tree f w o s Hq Hi s' E) as Ht.
  set (b := willRemove f o s w) in *.
  assert (Hl' : linked s').
  { eapply linked_sameTree; [exact Ht | by apply linked_detached]. }
  assert (Hp : parentWidgetInternal (wget s' w) = None).
  { rewrite (tree_field parentWidgetInternal _ _ w Ht) by done. by apply detached_parent. }
  assert (Hroot : isRoot (wget s' w) = isRoot (wget s w)).
  { rewrite (tree_field isRoot _ _ w Ht) by done. apply detached_isRoot. }
  assert (Hel : element (wget s' w) = element (wget s w)).
  { rewrite (tree_field element _ _ w Ht) by done. apply detached_element. }
  assert (Hv : visibleInternal (wget s' w) = false).
  { rewrite (tree_field visibleInternal _ _ w Ht) by done.
    destruct (parentWidgetInternal (wget s w)) as [p|] eqn:Hpw.
    - apply detached_visible. left. congruence.
    - destruct (isRoot (wget s w)) eqn:Hrw; [apply detached_visible; by right|].
      unfold detached. rewrite Hpw, Hrw. rewrite bool_decide_eq_true_2 by done. simpl.
      by apply Ho. }
  split; [done|]. split; [done|]. split.
  { pose proof (cs_showing _ Hcs' w) as Hsh. unfold showingAt in Hsh.
    by rewrite Hv in Hsh. }
  split.
  { intros p Hin. apply (ln_child _ Hl') in Hin. congruence. }
  split.
  { intros x Hx.
    rewrite (tree_field parentWidgetInternal _ _ x Ht),
      (tree_field visibleInternal _ _ x Ht) by done.
    destruct (detached_other b w s x Hx) as (? & ? & _). done. }
  split.
  { intros Hlive.
    assert (Hearly : bool_decide (parentWidgetInternal (wget s w) = None)
                     && negb (isRoot (wget s w)) = false).
    { destruct Hlive as [Hpw|Hrw]; [by rewrite bool_decide_eq_false_2|].
      rewrite Hrw. apply andb_false_r. }
    pose proof (detached_document b w s Hearly) as Hdoc.
    rewrite Hel, (parentElement_sameTree _ _ _ Ht).
    rewrite (tree_node_field hiddenClass _ _ _ Ht) by done.
    exact Hdoc. }
  intros Hnr f' o'. simpl. unfold detach.
  rewrite Hp, Hroot, Hnr. by rewrite bool_decide_eq_true_2.
Qed.

Lemma linked_shownState : linked shownState.
Proof.
  apply (run_linked 3 rootAndChild page); [apply consistent_page.. | apply linked_page |].
  vm_compute. reflexivity.
Qed.

Lemma detach_postcondition_witness :
  ∃ s', exec 4 (Detach 2 false) shownState = Ok s'
        ∧ parentWidgetInternal (wget s' 2) = None
        ∧ visibleInternal (wget s' 2) = false
        ∧ isShowing s' 2 = false
        ∧ (∀ p, 2 ∉ childrenInternal (wget s' p))
        ∧ (∀ x, x ≠ 2 → parentWidgetInternal (wget s' x) = parentWidgetInternal (wget shownState x)
                        ∧ visibleInternal (wget s' x) = visibleInternal (wget shownState x))
        ∧ parentElement s' (element (wget s' 2)) = None
        ∧ (∀ f' o', exec (S f') (Detach 2 o') s' = Ok s').
Proof.
  destruct (exec 4 (Detach 2 false) shownState) as [s'| |] eqn:E;
    [|vm_compute in E; discriminate..].
  exists s'. split; [done|].
  destruct (detach_postcondition 3 2 false shownState s'
              consistent_shownState linked_shownState E) as (H1 & H2 & H3 & H4 & H5 & H6 & H7).
  repeat (split; [assumption|]). split.
  - apply H6. left. vm_compute. discriminate.
  - apply H7. vm_compute. reflexivity.
Defined.

(** The links after [detach] of a child. *)
Lemma detached_links b w p i s :
  parentWidgetInternal (wget s w) = Some p → indexOf w (childrenInternal (wget s p)) = Some i →
  (∀ x, parentWidgetInternal (wget (detached b w s) x)
        = if decide (x = w) then None else parentWidgetInternal (wget s x))
  ∧ (∀ x, childrenInternal (wget (detached b w s) x)
          = if decide (x = p) then delete i (childrenInternal (wget s p))
            else childrenInternal (wget s x)).
Proof.
  intros Hp Hi. unfold detached. rewrite Hp. rewrite bool_decide_eq_false_2 by done.
  cbn [andb].
  set (mid := if visibleInternal (wget s w) then hidden b w s
              else if b then removed (element (wget s w)) s else s).
  assert (Hpar : ∀ x, parentWidgetInternal (wget mid x) = parentWidgetInternal (wget s x)).
  { intros x. unfold mid. destruct (visibleInternal (wget s w)).
    - rewrite hidden_wget. by rewrite (wget_wupd_field parentWidgetInternal).
    - destruct b; [by rewrite removed_wget | done]. }
  assert (Hch : ∀ x, childrenInternal (wget mid x) = childrenInternal (wget s x)).
  { intros x. unfold mid. destruct (visibleInternal (wget s w)).
    - rewrite hidden_wget. by rewrite (wget_wupd_field childrenInternal).
    - destruct b; [by rewrite removed_wget | done]. }
  clearbody mid. split; intros x.
  - rewrite (unlinked_parent w p i) by (by rewrite ?Hpar, ?Hch). by rewrite Hpar.
  - rewrite (unlinked_children w p i) by (by rewrite ?Hpar, ?Hch). by rewrite !Hch.
Qed.

Lemma detachChildren_loop f w (rest : list nat) s s' :
  quiet s → idle s → linked s → childrenInternal (wget s w) = rest →
  forEach (λ c s, detach f (exec f) c false s) rest s = Ok s' →
  childrenInternal (wget s' w) = []
  ∧ ∀ x, x ∈ rest ∨ (parentWidgetInternal (wget s x) = None
                     ∧ visibleInternal (wget s x) = false) →
         parentWidgetInternal (wget s' x) = None ∧ visibleInternal (wget s' x) = false.
Proof.
  revert s. induction rest as [|c rest IH]; intros s Hq Hi Hl Hch; simpl.
  - intros [= <-]. split; [done|]. intros x [Hx|Hx]; [by apply elem_of_nil in Hx | done].
  - destruct (detach f (exec f) c false s) as [s1| |] eqn:E; simpl; try done. intros E'.
    pose proof (detach_stable f (exec f) (exec_stable f) c false s) as Hst.
    rewrite E in Hst. simpl in Hst.
    pose proof (detach_tree f c false s Hq Hi s1 E) as Ht.
    set (b := willRemove f false s c) in *.
    assert (Hpc : parentWidgetInternal (wget s c) = Some w).
    { apply (ln_child _ Hl). rewrite Hch. apply list_elem_of_here. }
    assert (Hidx : indexOf c (childrenInternal (wget s w)) = Some 0).
    { rewrite Hch. simpl. by rewrite bool_decide_eq_true_2. }
    destruct (detached_links b c w 0 s Hpc Hidx) as [Hpar Hchild].
    assert (Hp1 : ∀ x, parentWidgetInternal (wget s1 x)
                       = if decide (x = c) then None else parentWidgetInternal (wget s x)).
    { intros x. rewrite (tree_field parentWidgetInternal _ _ x Ht) by done. apply Hpar. }
    assert (Hv1 : ∀ x, visibleInternal (wget s1 x)
                       = if decide (x = c) then false else visibleInternal (wget s x)).
    { intros x. rewrite (tree_field visibleInternal _ _ x Ht) by done.
      case_decide as Hx; [subst x|].
      - apply detached_visible. left. congruence.
      - by destruct (detached_other b c s x Hx) as (_ & ? & _). }
    assert (Hc1 : childrenInternal (wget s1 w) = rest).
    { rewrite (tree_field childrenInternal _ _ w Ht) by done. rewrite Hchild.
      rewrite decide_True by done. by rewrite Hch. }
    destruct (IH s1) as [Hempty Hrest]; try done.
    { by eapply quiet_stable. }
    { by eapply idle_stable. }
    { eapply linked_sameTree; [exact Ht | by apply linked_detached]. }
    split; [done|]. intros x Hx. apply Hrest.
    rewrite Hp1, Hv1. destruct (decide (x = c)) as [->|Hne]; [by right|].
    destruct Hx as [Hx|Hx]; [|by right]. left.
    apply elem_of_cons in Hx as [?|?]; done.
Qed.

(** X14: with hooks that do not call back and the links in step, when
    [detachChildWidgets()] returns, the widget has no children left, and
    each of its former children has no parent and is not visible. *)
Theorem detachChildWidgets_empties (f w : nat) (s s' : State) :
  quiet s → idle s → linked s → exec (S f) (DetachChildWidgets w) s = Ok s' →
  childrenInternal (wget s' w) = []
  ∧ ∀ c, c ∈ childrenInternal (wget s w) →
         parentWidgetInternal (wget s' c) = None ∧ visibleInternal (wget s' c) = false.
Proof.
  intros Hq Hi Hl E. simpl in E. unfold detachChildWidgets in E.
  destruct (detachChildren_loop f w (childrenInternal (wget s w)) s s') as [H1 H2]; try done.
  split; [done|]. intros c Hc. apply H2. by left.
Qed.

Lemma detachChildWidgets_empties_witness :
  ∃ s', exec 5 (DetachChildWidgets 1) shownState = Ok s'
        ∧ childrenInternal (wget s' 1) = []
        ∧ ∀ c, c ∈ childrenInternal (wget shownState 1) →
               parentWidgetInternal (wget s' c) = None ∧ visibleInternal (wget s' c) = false.
Proof.
  destruct (exec 5 (DetachChildWidgets 1) shownState) as [s'| |] eqn:E;
    [|vm_compute in E; discriminate..].
  exists s'. split; [reflexivity|].
  apply (detachChildWidgets_empties 4 1 shownState s').
  - apply consistent_shownState.
  - apply consistent_shownState.
  - apply linked_shownState.
  - exact E.
Defined.

(** ** Hiding and showing again *)

Lemma showing_determined N rank s s' :
  consistent s → consistent s' → sameTree s s' → ranked N rank s →
  ∀ x, isShowing s' x = isShowing s x.
Proof.
  intros Hcs Hcs' Ht [Hr HN].
  assert (H : ∀ k x, N - rank x ≤ k → isShowing s' x = isShowing s x).
  { induction k as [|k IH]; intros x Hk.
    - specialize (HN x). lia.
    - rewrite (cs_showing _ Hcs' x), (cs_showing _ Hcs x). unfold showingAt.
      rewrite !parentIsShowing_alt.
      rewrite (tree_field visibleInternal _ _ x Ht), (tree_field isRoot _ _ x Ht),
        (tree_field parentWidgetInternal _ _ x Ht) by done.
      destruct (parentWidgetInternal (wget s x)) as [p|] eqn:Hp; [|done].
      rewrite (IH p); [done|]. specialize (Hr _ _ Hp). specialize (HN p). lia. }
  intros x. apply (H N). lia.
Qed.

Lemma sameTree_shown w pe s s' : sameTree s s' → sameTree (shown w pe s) (shown w pe s').
Proof.
  intros H. unfold shown. rewrite (tree_field element s s' w) by done.
  apply sameTree_nupd.
  - intros x y Hxy. destruct x, y. simpl in *. injection Hxy. intros. by subst.
  - by apply sameTree_wupd; [apply respects_visible|].
Qed.

(** Showing in place undoes hiding without removal. *)
Lemma shown_hidden w pe s :
  visibleInternal (wget s w) = true →
  parentNode (nget s (element (wget s w))) = Some pe →
  hiddenClass (nget s (element (wget s w))) = false →
  sameTree s (shown w pe (hidden false w s)).
Proof.
  intros Hv Hp Hh. set (e := element (wget s w)) in *.
  assert (He : element (wget (hidden false w s) w) = e).
  { rewrite hidden_wget. by rewrite (wget_wupd_field element). }
  unfold shown. rewrite He. split.
  - intros x. rewrite wget_nupd, wget_wupd.
    case_decide as Hx; [subst x|].
    + rewrite hidden_wget, wget_wupd_eq. destruct (wget s w). simpl in *. by subst.
    + by rewrite hidden_wget, wget_wupd_ne.
  - intros n. rewrite nget_nupd. case_decide as Hn; [subst n|].
    + rewrite nget_wupd. unfold hidden. fold e. rewrite nget_nupd_eq, nget_wupd.
      destruct (nget s e). simpl in *. by subst.
    + rewrite nget_wupd. unfold hidden. fold e. rewrite nget_nupd_ne by done.
      by rewrite nget_wupd.
  - reflexivity.
Qed.

(** When [hideWidget()] followed by [showWidget()] returns, the tree is
    back. *)
Lemma hide_show_restores (N fuel : nat) (rank : nat → nat) (w : nat) (s s' : State) :
  consistent s → ranked N rank s →
  visibleInternal (wget s w) = true →
  hiddenClass (nget s (element (wget s w))) = false →
  run fuel [HideWidget w; ShowWidget w] s = Ok s' →
  sameTree s s' ∧ ∀ x, isShowing s' x = isShowing s x.
Proof.
  intros Hcs Hr Hv Hh E.
  assert (Hcs' : consistent s').
  { apply (run_consistent fuel [HideWidget w; ShowWidget w] s Hcs); [|done].
    by repeat constructor. }
  assert (Ht : sameTree s s'); [|split; [done | by eapply showing_determined]].
  pose proof Hcs as [[Hq Hi _ _ _ _] Hat _].
  destruct fuel as [|f]; [done|]. unfold run in E. simpl in E.
  unfold hideWidget in E. rewrite Hv in E. simpl in E.
  destruct (hideWidgetInternal f (exec f) w false s) as [s1| |] eqn:E1; simpl in E; try done.
  destruct (showWidget f (exec f) w s1) as [s2| |] eqn:E2; simpl in E; try done.
  injection E as ->.
  pose proof (hideWidgetInternal_tree f w false s Hq Hi s1 E1) as H1.
  set (e := element (wget s w)) in *.
  assert (Hpe : ∃ pe, parentElement s e = Some pe).
  { destruct (parentElement s e) as [pe|] eqn:Hpe; [by exists pe|].
    exfalso. apply (Hat w); [by left | done]. }
  destruct Hpe as (pe & Hpe).
  assert (Hv1 : visibleInternal (wget s1 w) = false).
  { rewrite (tree_field visibleInternal _ _ w H1) by done. rewrite hidden_wget.
    by rewrite wget_wupd_eq. }
  assert (He1 : element (wget s1 w) = e).
  { rewrite (tree_field element _ _ w H1) by done. rewrite hidden_wget.
    by rewrite (wget_wupd_field element). }
  assert (Hpe1 : parentElement s1 e = Some pe).
  { rewrite (parentElement_sameTree _ _ _ H1). unfold hidden.
    by rewrite parentElement_nupd_keep. }
  unfold showWidget in E2. rewrite Hv1, He1, Hpe1 in E2.
  assert (Hq1 : quiet s1) by (eapply quiet_sameTree; [exact H1 | by apply quiet_hidden]).
  destruct (showWidgetInternal_tree f w pe None s1 Hq1 s' E2) as [(Hv' & _)|H2];
    [congruence|].
  etrans; [|exact H2]. etrans; [|by apply sameTree_shown].
  apply shown_hidden; [done | by apply parentElement_parentNode | done].
Qed.

(** ** Nested suspension *)

Lemma shifted_refl w s : shifted 0 w s s.
Proof. split; [done|]. split; [done|]. split; [lia|]. by split. Qed.

Lemma shifted_trans j k w s1 s2 s3 :
  shifted j w s1 s2 → shifted k w s2 s3 → shifted (j + k) w s1 s3.
Proof.
  intros (Hp1 & Ht1 & Hs1 & Hr1 & Hx1) (Hp2 & Ht2 & Hs2 & Hr2 & Hx2).
  split; [by etrans|]. split; [congruence|]. split; [lia|]. split; [congruence|].
  intros x Hx. by rewrite Hx2, Hx1.
Qed.

Lemma shifted_step (k : Z) w s :
  shifted k w s (wupd w (λ x, set_invalidationsSuspended (invalidationsSuspended x + k) x) s).
Proof.
  split; [by apply passive_wupd|]. split; [done|].
  split; [by rewrite wget_wupd_eq|]. split; [by rewrite wget_wupd_eq|].
  intros x Hx. by rewrite wget_wupd_ne.
Qed.

Lemma suspends_shift fuel (n : nat) w s :
  ∃ s', forEach (exec (S fuel)) (replicate n (SuspendInvalidations w)) s = Ok s'
        ∧ shifted (Z.of_nat n) w s s'.
Proof.
  revert s. induction n as [|n IH]; intros s.
  - exists s. split; [done | apply shifted_refl].
  - destruct (IH (wupd w (λ x, set_invalidationsSuspended (invalidationsSuspended x + 1) x) s))
      as (s' & E & Hs).
    exists s'. split; [exact E|].
    replace (Z.of_nat (S n)) with (1 + Z.of_nat n)%Z by lia.
    eapply shifted_trans; [apply shifted_step | exact Hs].
Qed.

(** A resume that leaves the depth positive only decrements it. *)
Lemma resume_inner fuel w s :
  invalidationsSuspended (wget s w) ≠ 1%Z →
  exec (S fuel) (ResumeInvalidations w) s
  = Ok (wupd w (λ x, set_invalidationsSuspended (invalidationsSuspended x + -1) x) s).
Proof.
  intros Hd. simpl. unfold resumeInvalidations. cbv zeta.
  rewrite wget_wupd_eq. simpl.
  destruct (invalidationsSuspended (wget s w) - 1 =? 0)%Z eqn:E; [apply Z.eqb_eq in E; lia|].
  simpl. do 2 f_equal.
Qed.

Lemma resumes_shift fuel (n : nat) w s :
  (Z.of_nat n < invalidationsSuspended (wget s w))%Z →
  ∃ s', forEach (exec (S fuel)) (replicate n (ResumeInvalidations w)) s = Ok s'
        ∧ shifted (- Z.of_nat n) w s s'.
Proof.
  revert s. induction n as [|n IH]; intros s Hd.
  - exists s. split; [done | apply shifted_refl].
  - set (s1 := wupd w (λ x, set_invalidationsSuspended (invalidationsSuspended x + -1) x) s).
    pose proof (shifted_step (-1) w s) as H1. fold s1 in H1.
    destruct (IH s1) as (s' & E & Hs).
    { destruct H1 as (_ & _ & -> & _). lia. }
    exists s'. split.
    + cbn [replicate forEach]. rewrite resume_inner by lia. exact E.
    + replace (- Z.of_nat (S n))%Z with (-1 + - Z.of_nat n)%Z by lia.
      eapply shifted_trans; [exact H1 | exact Hs].
Qed.

(** X16: suspensions nest.  From depth zero, [n] calls of
    [suspendInvalidations()], one or more constraint-changing operations
    on the widget and the [n] matching calls of [resumeInvalidations()]
    amount, whatever the hooks do, to one call of [invalidateConstraints()],
    made by the last resume in a state that differs from the first in the
    constraint and pending fields of the widget only; a resume that leaves
    the depth above zero only decrements it.  A resume without a suspend
    takes the depth to -1 and invalidates nothing, and while the depth
    stays there [invalidateConstraints()] only sets the pending flag. *)
Theorem suspensions_nest (fuel n w : nat) (ops : list Call) (s : State) :
  0 < n → ops ≠ [] → Forall (λ c, constraintOp w c = true) ops →
  invalidationsSuspended (wget s w) = 0%Z →
  (∃ s1, deferred w s s1
         ∧ run (S fuel) (nestedBatch n w ops) s = exec (S fuel) (InvalidateConstraints w) s1)
  ∧ (∃ s1, exec (S fuel) (ResumeInvalidations w) s = Ok s1
           ∧ shifted (-1) w s s1
           ∧ ∀ f, exec (S f) (InvalidateConstraints w) s1
                  = Ok (wupd w (set_invalidationsRequested true) s1)).
Proof.
  intros Hn Hne Hops Hs. split.
  - destruct n as [|m]; [lia|]. unfold run, nestedBatch.
    destruct (suspends_shift fuel (S m) w s) as (sa & Ea & Ha).
    rewrite forEach_app, Ea. cbn [mbind Res_bind].
    assert (Hda : invalidationsSuspended (wget sa w) = Z.of_nat (S m)).
    { destruct Ha as (_ & _ & -> & _). lia. }
    destruct (ops_deferred fuel w ops sa Hops) as (sb & Eb & Hb & Hrb); [lia|].
    rewrite forEach_app, Eb. cbn [mbind Res_bind].
    assert (Hdb : invalidationsSuspended (wget sb w) = Z.of_nat (S m)).
    { destruct Hb as (_ & _ & -> & _). done. }
    rewrite replicate_S_end, forEach_app.
    destruct (resumes_shift fuel m w sb) as (sc & Ec & Hc); [lia|].
    rewrite Ec. cbn [mbind Res_bind].
    assert (Hdc : invalidationsSuspended (wget sc w) = 1%Z).
    { destruct Hc as (_ & _ & -> & _). lia. }
    assert (Hrc : invalidationsRequested (wget sc w) = true).
    { destruct Hc as (_ & _ & _ & -> & _). apply Hrb. by right. }
    set (sd := wupd w (λ x, set_invalidationsSuspended (invalidationsSuspended x - 1) x) sc).
    assert (Hdd : invalidationsSuspended (wget sd w) = 0%Z).
    { unfold sd. rewrite wget_wupd_eq. simpl. lia. }
    assert (Hrd : invalidationsRequested (wget sd w) = true).
    { unfold sd. by rewrite wget_wupd_eq. }
    exists sd. split.
    + destruct Ha as (Hpa & Hta & _ & _ & Hxa). destruct Hb as (Hpb & Htb & _ & Hxb).
      destruct Hc as (Hpc & Htc & _ & _ & Hxc).
      split; [|split; [|split]].
      * etrans; [exact Hpa|]. etrans; [exact Hpb|]. etrans; [exact Hpc|].
        by apply passive_wupd.
      * unfold sd. simpl. congruence.
      * congruence.
      * intros x Hx. unfold sd. rewrite wget_wupd_ne by done.
        by rewrite Hxc, Hxb, Hxa.
    + change (forEach (exec (S fuel)) [ResumeInvalidations w] sc)
        with (s3 ← (if (invalidationsSuspended (wget sd w) =? 0)%Z
                       && invalidationsRequested (wget sd w)
                    then exec (S fuel) (InvalidateConstraints w) sd else Ok sd);
              Ok s3).
      rewrite Hdd, Hrd. cbn [Z.eqb andb].
      by destruct (exec (S fuel) (InvalidateConstraints w) sd).
  - exists (wupd w (λ x, set_invalidationsSuspended (invalidationsSuspended x + -1) x) s).
    split; [apply resume_inner; lia|]. split; [apply shifted_step|].
    intros f. apply invalidate_suspended. rewrite wget_wupd_eq. simpl. lia.
Qed.

Lemma suspensions_nest_witness :
  (∃ s1, deferred 2 shownState s1
         ∧ run 7 (nestedBatch 2 2 twoSizes) shownState
           = exec 7 (InvalidateConstraints 2) s1)
  ∧ (∃ s1, exec 7 (ResumeInvalidations 2) shownState = Ok s1
           ∧ shifted (-1) 2 shownState s1
           ∧ ∀ f, exec (S f) (InvalidateConstraints 2) s1
                  = Ok (wupd 2 (set_invalidationsRequested true) s1)).
Proof.
  apply (suspensions_nest 6 2 2 twoSizes shownState).
  - lia.
  - discriminate.
  - repeat constructor.
  - vm_compute. reflexivity.
Defined.

(** ** [shouldHideOnDetach] *)

Lemma shouldHide_loop f s (l : list nat) b :
  (∀ c b', shouldHideOnDetach f s c = Some b' → (b' = true ↔ hidesOnDetach s c)) →
  (fix loop (cs : list nat) : option bool :=
     match cs with
     | [] => Some false
     | child :: cs' =>
         match shouldHideOnDetach f s child with
         | None => None
         | Some true => Some true
         | Some false => loop cs'
         end
     end) l = Some b →
  (b = true ↔ ∃ c, c ∈ l ∧ hidesOnDetach s c).
Proof.
  intros IH. induction l as [|c l IHl].
  - intros [= <-]. split; [done|]. intros (c & Hc & _). by apply elem_of_nil in Hc.
  - destruct (shouldHideOnDetach f s c) as [[|]|] eqn:E; [| |done].
    + intros [= <-]. split; [|done]. intros _. exists c.
      split; [apply list_elem_of_here|]. by apply (IH c true).
    + intros H. rewrite (IHl H). split.
      * intros (x & Hx & Hh). exists x. split; [by apply list_elem_of_further | done].
      * intros (x & Hx & Hh). apply elem_of_cons in Hx as [->|Hx]; [|by exists x].
        apply (IH c false E) in Hh. done.
Qed.

Lemma shouldHideOnDetach_sound fuel s w b :
  shouldHideOnDetach fuel s w = Some b → (b = true ↔ hidesOnDetach s w).
Proof.
  revert w b. induction fuel as [|f IH]; intros w b; [done|]. cbn [shouldHideOnDetach].
  destruct (parentElement s (element (wget s w))) as [pe|] eqn:Hpe.
  2:{ intros [= <-]. split; [done|]. intros H. inversion H; subst; congruence. }
  destruct (hideOnDetach (wget s w)) eqn:Hh.
  { intros [= <-]. split; [|done]. intros _. apply hod_self; [congruence | done]. }
  intros H. rewrite (shouldHide_loop f s _ b IH H). split.
  - intros (c & Hc & Hhc). eapply hod_child; [congruence | exact Hc | exact Hhc].
  - intros Hw. inversion Hw as [w' _ Hflag|w' c _ Hc Hhc]; subst; [congruence|].
    by exists c.
Qed.

Lemma shouldHide_loop_finishes f s (l : list nat) :
  (∀ c, c ∈ l → ∃ b, shouldHideOnDetach f s c = Some b) →
  ∃ b, (fix loop (cs : list nat) : option bool :=
          match cs with
          | [] => Some false
          | child :: cs' =>
              match shouldHideOnDetach f s child with
              | None => None
              | Some true => Some true
              | Some false => loop cs'
              end
          end) l = Some b.
Proof.
  induction l as [|c l IHl]; intros Hl; [by exists false|].
  destruct (Hl c (list_elem_of_here _ _)) as ([|] & ->); [by exists true|].
  apply IHl. intros x Hx. apply Hl. by apply list_elem_of_further.
Qed.

(** X17: on a widget tree of height below [N] with its links in step,
    [shouldHideOnDetach()] returns, and it returns true exactly when the
    element of the widget is in the document and the widget itself, or a
    child for which [shouldHideOnDetach()] is true in turn, has the
    hide-on-detach flag.  A widget whose element is out of the document is
    never hidden on detach. *)
Theorem shouldHideOnDetach_spec (N fuel : nat) (rank : nat → nat) (s : State) (w : nat) :
  ranked N rank s → linked s → rank w < fuel →
  ∃ b, shouldHideOnDetach fuel s w = Some b ∧ (b = true ↔ hidesOnDetach s w).
Proof.
  intros [Hr HN] Hl Hf.
  assert (Hsome : ∃ b, shouldHideOnDetach fuel s w = Some b).
  { revert w Hf. induction fuel as [|f IH]; intros w Hf; [lia|]. cbn [shouldHideOnDetach].
    destruct (parentElement s (element (wget s w))); [|by exists false].
    destruct (hideOnDetach (wget s w)); [by exists true|].
    apply shouldHide_loop_finishes. intros c Hc. apply IH.
    apply (ln_child _ Hl) in Hc. specialize (Hr _ _ Hc). lia. }
  destruct Hsome as (b & Hb). exists b. split; [done|]. by eapply shouldHideOnDetach_sound.
Qed.

Lemma shouldHideOnDetach_spec_witness :
  ∃ b, shouldHideOnDetach 2 shownState 1 = Some b ∧ (b = true ↔ hidesOnDetach shownState 1).
Proof.
  apply (shouldHideOnDetach_spec 2 2 shownRank shownState 1).
  - apply ranked_shownState.
  - apply linked_shownState.
  - vm_compute. lia.
Defined.

(** ** Rejected calls *)

(** X18: the preconditions of the widget API are checked before anything
    is changed.  [show()] throws for a widget that is not a root when no
    widget is at or above the parent element, and for a root when one is;
    [showWidget()] throws for a widget that is not visible and whose element
    is not in the document; [markAsRoot()] throws for a widget whose element
    is in the document; [markAsExternallyManaged()] throws for a widget that
    has a parent; [setDefaultFocusedChild()] throws for a widget that is not
    a child.  In each case the state is the one before the call. *)
Theorem rejected_calls (f : nat) (s : State) (w pe c : nat) (ib : option nat) :
  (isRoot (wget s w) = false → nearestWidget s pe = None →
     exec (S f) (Show w pe ib) s = Throw s)
  ∧ (isRoot (wget s w) = true → nearestWidgetElement s pe ≠ None →
       exec (S f) (Show w pe ib) s = Throw s)
  ∧ (visibleInternal (wget s w) = false → parentElement s (element (wget s w)) = None →
       exec (S f) (ShowWidget w) s = Throw s)
  ∧ (parentElement s (element (wget s w)) ≠ None → exec (S f) (MarkAsRoot w) s = Throw s)
  ∧ (parentWidgetInternal (wget s w) ≠ None →
       exec (S f) (MarkAsExternallyManaged w) s = Throw s)
  ∧ (parentWidgetInternal (wget s c) ≠ Some w →
       exec (S f) (SetDefaultFocusedChild w c) s = Throw s).
Proof.
  repeat split.
  - intros Hr Hn. simpl. unfold show. by rewrite Hr, Hn.
  - intros Hr Hn. change (exec (S f) (Show w pe ib) s) with (show f (exec f) w pe ib s).
    unfold show. rewrite Hr. cbn [mbind Res_bind]. unfold showWidgetInternal. rewrite Hr.
    by rewrite bool_decide_eq_false_2.
  - intros Hv Hp. simpl. unfold showWidget. by rewrite Hv, Hp.
  - intros Hp. simpl. unfold markAsRoot. by rewrite bool_decide_eq_false_2.
  - intros Hp. simpl. unfold markAsExternallyManaged. by rewrite bool_decide_eq_false_2.
  - intros Hp. simpl. unfold setDefaultFocusedChild. by rewrite bool_decide_eq_false_2.
Qed.

Lemma rejected_calls_witness :
  exec 1 (Show 3 10 None) page = Throw page
  ∧ exec 1 (Show 1 11 None) shownState = Throw shownState
  ∧ exec 1 (ShowWidget 3) shownState = Throw shownState
  ∧ exec 1 (MarkAsRoot 2) shownState = Throw shownState
  ∧ exec 1 (MarkAsExternallyManaged 2) shownState = Throw shownState
  ∧ exec 1 (SetDefaultFocusedChild 1 3) shownState = Throw shownState.
Proof.
  destruct (rejected_calls 0 page 3 10 0 None) as (H1 & _).
  destruct (rejected_calls 0 shownState 1 11 0 None) as (_ & H2 & _).
  destruct (rejected_calls 0 shownState 3 0 0 None) as (_ & _ & H3 & _).
  destruct (rejected_calls 0 shownState 2 0 0 None) as (_ & _ & _ & H4 & H5 & _).
  destruct (rejected_calls 0 shownState 1 0 3 None) as (_ & _ & _ & _ & _ & H6).
  split; [apply H1; vm_compute; reflexivity|].
  split; [apply H2; vm_compute; [reflexivity | discriminate]|].
  split; [apply H3; vm_compute; reflexivity|].
  split; [apply H4; vm_compute; discriminate|].
  split; [apply H5; vm_compute; discriminate|].
  apply H6. vm_compute. discriminate.
Defined.

(** ** Showing a detached widget *)

(** X19: with hooks that do not call back, once [detach()] has taken the
    element of a widget out of the document, [showWidget()] on that widget
    throws and changes nothing: the widget can only come back through
    [show()]. *)
Theorem showWidget_after_detach (f w : nat) (o : bool) (s s' : State) :
  consistent s → linked s →
  parentWidgetInternal (wget s w) ≠ None ∨ isRoot (wget s w) = true →
  willRemove f o s w = true →
  exec (S f) (Detach w o) s = Ok s' →
  ∀ f', exec (S f') (ShowWidget w) s' = Throw s'.
Proof.
  intros Hcs Hl Hlive Hrem E f'.
  pose proof Hcs as [[Hq Hi _ _ _ _] _ _].
  simpl in E. pose proof (detach_tree f w o s Hq Hi s' E) as Ht. rewrite Hrem in Ht.
  assert (Hearly : bool_decide (parentWidgetInternal (wget s w) = None)
                   && negb (isRoot (wget s w)) = false).
  { destruct Hlive as [Hpw|Hrw]; [by rewrite bool_decide_eq_false_2|].
    rewrite Hrw. apply andb_false_r. }
  assert (Hv : visibleInternal (wget s' w) = false).
  { rewrite (tree_field visibleInternal _ _ w Ht) by done. by apply detached_visible. }
  assert (Hp : parentElement s' (element (wget s' w)) = None).
  { rewrite (tree_field element _ _ w Ht) by done. rewrite detached_element.
    rewrite (parentElement_sameTree _ _ _ Ht).
    apply (detached_document true w s Hearly). }
  simpl. unfold showWidget. by rewrite Hv, Hp.
Qed.

Lemma showWidget_after_detach_witness :
  ∃ s', exec 4 (Detach 2 false) shownState = Ok s'
        ∧ ∀ f', exec (S f') (ShowWidget 2) s' = Throw s'.
Proof.
  destruct (exec 4 (Detach 2 false) shownState) as [s'| |] eqn:E;
    [|vm_compute in E; discriminate..].
  exists s'. split; [reflexivity|].
  apply (showWidget_after_detach 3 2 false shownState s').
  - apply consistent_shownState.
  - apply linked_shownState.
  - left. vm_compute. discriminate.
  - vm_compute. reflexivity.
  - exact E.
Defined.

(** ** Changes under a hidden parent *)

Lemma parentIsShowing_wupd w f s x :
  (∀ y, isRoot (f y) = isRoot y) →
  (∀ y, parentWidgetInternal (f y) = parentWidgetInternal y) →
  (∀ y, isShowingInternal (f y) = isShowingInternal y) →
  parentIsShowing (wupd w f s) x = parentIsShowing s x.
Proof.
  intros H1 H2 H3. unfold parentIsShowing, isShowing.
  rewrite (wget_wupd_field isRoot), (wget_wupd_field parentWidgetInternal) by done.
  destruct (parentWidgetInternal (wget s x)); [|done].
  by rewrite (wget_wupd_field isShowingInternal).
Qed.

Lemma constraintsTail_laidOut f w s (other : State → Res State) :
  quiet s → (∀ s1, quiet s1 → post laidOut s1 (other s1)) →
  post laidOut s
    (match parentWidgetInternal (wget s w) with
     | Some p =>
         '(nz, s) ← fromFuel (hasNonZeroConstraints f w s);
         if nz : bool then invalidateConstraints f (exec f) p s else other s
     | None => other s
     end).
Proof.
  intros Hq Hother. destruct (parentWidgetInternal (wget s w)) as [p|]; [|by apply Hother].
  apply (post_fromFuel laidOut). intros [nz s1] Hnz.
  assert (H1 : laidOut s s1).
  { unfold hasNonZeroConstraints in Hnz.
    destruct (constraintsOf f w s) as [[c s2]|] eqn:E; simpl in Hnz; [|done].
    injection Hnz as _ <-. by eapply cacheOnly_laidOut, constraintsOf_cacheOnly. }
  assert (Hq1 : quiet s1) by by eapply quiet_laidOut.
  apply (post_pre laidOut _ s1); [done|].
  destruct nz; [|by apply Hother].
  apply (invalidateConstraints_laidOut f (exec f)); [|done].
  intros c s2. apply exec_laidOut.
Qed.

(** The trace and the flags after a step that logs nothing and a layout
    pass. *)
Lemma laidOut_after s s0 s' :
  trace s0 = trace s → (∀ x, isShowing s0 x = isShowing s x) → laidOut s0 s' →
  ∃ t, trace s' = trace s ++ t ∧ Forall (shownEvent s) t
       ∧ ∀ x, isShowing s' x = isShowing s x.
Proof.
  intros Ht Hsh Hl. pose proof (fr_trace _ _ _ _ Hl) as (t & Ht' & HP).
  exists t. split; [by rewrite Ht', Ht|]. split.
  - apply Forall_forall. intros e He. eapply Forall_forall in HP; [|exact He].
    destruct e as [h x|x b|x|x]; simpl in *; try done. by rewrite <- Hsh.
  - intros x. by rewrite (laidOut_showing _ _ _ Hl).
Qed.

(** X20: with hooks that do not call back, [hideWidget()] and
    [showWidget()] on a widget whose parent is not showing (and that is no
    root) notify nobody of a change of visibility: no showing flag is
    written, and what is logged is the layout pass that follows, an
    invalidation with [onLayout] and [onResize] on widgets that are
    showing. *)
Theorem silent_under_hidden_parent (f w : nat) (c : Call) (s s' : State) :
  c = HideWidget w ∨ c = ShowWidget w →
  quiet s → parentIsShowing s w = false →
  exec (S f) c s = Ok s' →
  ∃ t, trace s' = trace s ++ t ∧ Forall (shownEvent s) t
       ∧ ∀ x, isShowing s' x = isShowing s x.
Proof.
  intros Hc Hq Hps E.
  assert (Hnone : ∃ t, trace s = trace s ++ t ∧ Forall (shownEvent s) t
                       ∧ ∀ x, isShowing s x = isShowing s x).
  { exists []. by rewrite app_nil_r. }
  destruct Hc as [-> | ->]; simpl in E.
  - (* hideWidget *)
    unfold hideWidget in E. destruct (visibleInternal (wget s w)); simpl in E;
      [|by injection E as <-].
    unfold hideWidgetInternal in E. cbv zeta in E.
    set (s0 := wupd w (set_visibleInternal false) s) in E.
    assert (Hps0 : parentIsShowing s0 w = false)
      by (unfold s0; by rewrite parentIsShowing_wupd).
    rewrite Hps0 in E. cbn [mbind Res_bind] in E.
    set (s1 := nupd (element (wget s0 w)) (set_hiddenClass true) s0) in E.
    assert (Hps1 : parentIsShowing s1 w = false) by exact Hps0.
    rewrite Hps1 in E. cbn [mbind Res_bind] in E.
    apply (laidOut_after s s1); [done | |].
    { intros x. unfold s1, s0, isShowing. rewrite wget_nupd.
      by rewrite (wget_wupd_field isShowingInternal). }
    change (post laidOut s1 (Ok s')). rewrite <- E.
    apply (constraintsTail_laidOut f w s1 (λ s, Ok s)).
    + by apply quiet_nupd, quiet_wupd.
    + intros s2 _. by apply post_ok.
  - (* showWidget *)
    unfold showWidget in E. destruct (visibleInternal (wget s w)) eqn:Hv;
      [by injection E as <-|].
    destruct (parentElement s (element (wget s w))) as [pe|] eqn:Hpe; [|done].
    unfold showWidgetInternal in E. cbv zeta in E.
    destruct (if isRoot (wget s w) then _ else _) as [sx| |] eqn:Ea;
      cbn [mbind Res_bind] in E; try done.
    assert (sx = s).
    { destruct (isRoot (wget s w)); unfold assert in Ea;
        match type of Ea with (if ?b then _ else _) = _ => destruct b end; congruence. }
    subst sx. rewrite Hv in E. cbn [andb negb] in E.
    set (s0 := wupd w (set_visibleInternal true) s) in E.
    assert (Hps0 : parentIsShowing s0 w = false)
      by (unfold s0; by rewrite parentIsShowing_wupd).
    rewrite Hps0 in E. cbn [mbind Res_bind] in E.
    set (s1 := nupd (element (wget s0 w)) (set_hiddenClass false) s0) in E.
    assert (He1 : element (wget s1 w) = element (wget s w)).
    { unfold s1, s0. rewrite wget_nupd. by rewrite (wget_wupd_field element). }
    assert (Hpe1 : parentElement s1 (element (wget s1 w)) = Some pe).
    { rewrite He1. unfold s1. by rewrite parentElement_nupd_keep. }
    rewrite Hpe1 in E. rewrite bool_decide_eq_true_2 in E by done.
    cbn [mbind Res_bind] in E.
    assert (Hps1 : parentIsShowing s1 w = false) by exact Hps0.
    rewrite Hps1 in E. cbn [mbind Res_bind] in E.
    apply (laidOut_after s s1); [done | |].
    { intros x. unfold s1, s0, isShowing. rewrite wget_nupd.
      by rewrite (wget_wupd_field isShowingInternal). }
    change (post laidOut s1 (Ok s')). rewrite <- E.
    apply (constraintsTail_laidOut f w s1 (processOnResize f (exec f) w)).
    + by apply quiet_nupd, quiet_wupd.
    + intros s2 Hq2. apply (processOnResize_laidOut f (exec f)); [|done].
      intros c s3. apply exec_laidOut.
Qed.

Lemma consistent_hiddenRootState : consistent hiddenRootState.
Proof.
  apply (run_consistent 5 hiddenRoot page consistent_page).
  - repeat constructor; vm_compute; reflexivity.
  - vm_compute. reflexivity.
Qed.

Lemma silent_under_hidden_parent_witness :
  ∃ s', exec 4 (HideWidget 2) hiddenRootState = Ok s'
        ∧ ∃ t, trace s' = trace hiddenRootState ++ t ∧ Forall (shownEvent hiddenRootState) t
               ∧ ∀ x, isShowing s' x = isShowing hiddenRootState x.
Proof.
  destruct (exec 4 (HideWidget 2) hiddenRootState) as [s'| |] eqn:E;
    [|vm_compute in E; discriminate..].
  exists s'. split; [reflexivity|].
  apply (silent_under_hidden_parent 3 2 (HideWidget 2) hiddenRootState s').
  - by left.
  - apply consistent_hiddenRootState.
  - vm_compute. reflexivity.
  - exact E.
Defined.

(** ** The walk to the nearest widget *)

(** X21: the walk of [show()] from a parent element to the nearest widget
    finds a registered widget from its own element, and it crosses the
    shadow root of a web-component widget: from the content element of a
    newly constructed [new Widget(true)], which has no parent element, it
    finds that widget. *)
Theorem nearestWidget_reaches (s : State) (p w e sr ce : nat) (cls : WidgetClass)
    (hk : Hook → list Call) :
  (registered s p → nearestWidget s (element (wget s p)) = Some p)
  ∧ (widgetMap s !! ce = None → e ≠ ce → sr ≠ ce → sr ≠ e →
     nearestWidget (newWebComponent w e sr ce cls hk s) ce = Some w
     ∧ parentElement (newWebComponent w e sr ce cls hk s) ce = None
     ∧ contentElement (wget (newWebComponent w e sr ce cls hk s) w) = ce
     ∧ element (wget (newWebComponent w e sr ce cls hk s) w) = e).
Proof.
  split.
  - intros Hreg. unfold registered in Hreg.
    unfold nearestWidget, nearestWidgetElement, elementChain. cbn [Nat.add chainFrom find].
    unfold isWidgetElement at 1. rewrite Hreg. exact Hreg.
  - intros Hce He Hsr Hsre. set (s' := newWebComponent w e sr ce cls hk s).
    set (s2 := set_nodes (<[sr := mkNode (ShadowRootNode e) None false 0 0]>
                            (nodes (createElement e (createElement ce s))))
                 (createElement e (createElement ce s))).
    assert (Hn2 : nget s2 ce = freshElement).
    { unfold nget, s2, createElement. simpl.
      rewrite lookup_insert_ne by done. rewrite lookup_insert_ne by done.
      by rewrite lookup_insert_eq. }
    assert (Hnodes : ∀ n, nget s' n = nget (nupd ce (set_parentNode (Some sr)) s2) n) by done.
    assert (Hnce : nget s' ce = mkNode ElementNode (Some sr) false 0 0).
    { rewrite Hnodes, nget_nupd_eq, Hn2. done. }
    assert (Hnsr : nget s' sr = mkNode (ShadowRootNode e) None false 0 0).
    { rewrite Hnodes, nget_nupd_ne by done. unfold nget, s2. simpl.
      by rewrite lookup_insert_eq. }
    assert (Hmap : ∀ n, widgetMap s' !! n = if decide (n = e) then Some w else widgetMap s !! n).
    { intros n. unfold s', newWebComponent. simpl. case_decide; subst.
      - by rewrite lookup_insert_eq.
      - by rewrite lookup_insert_ne. }
    assert (Hw : wget s' w = constructed e ce (Some sr) true cls hk).
    { unfold s', newWebComponent, wget. simpl. by rewrite lookup_insert_eq. }
    assert (Hnext : parentElementOrShadowHost s' ce = Some e).
    { unfold parentElementOrShadowHost. rewrite Hnce. cbn [nkind parentNode].
      by rewrite Hnsr. }
    repeat split.
    + unfold nearestWidget, nearestWidgetElement, elementChain.
      cbn [Nat.add chainFrom]. rewrite Hnext. cbn [find].
      unfold isWidgetElement. rewrite (Hmap ce), (Hmap e).
      rewrite decide_False by congruence. rewrite Hce. rewrite decide_True by done.
      rewrite Hmap. by rewrite decide_True.
    + unfold parentElement, isElement. rewrite Hnce. cbn [nkind parentNode].
      by rewrite Hnsr.
    + by rewrite Hw.
    + by rewrite Hw.
Qed.

Lemma nearestWidget_reaches_witness :
  nearestWidget shownState (element (wget shownState 2)) = Some 2
  ∧ nearestWidget (newWebComponent 4 14 15 16 WidgetClassBase noHooks shownState) 16 = Some 4.
Proof.
  destruct (nearestWidget_reaches shownState 2 4 14 15 16 WidgetClassBase noHooks)
    as [H1 H2].
  split.
  - apply H1. vm_compute. reflexivity.
  - apply H2; [vm_compute; reflexivity | discriminate..].
Defined.

(** ** What the passes leave alone *)

#[global] Instance passed_preorder : PreOrder passed.
Proof.
  split.
  - intros s. by split.
  - intros s1 s2 s3 [Hw1 Hn1 Hm1 Hc1 Ha1] [Hw2 Hn2 Hm2 Hc2 Ha2].
    split; [intros x; by rewrite Hw2, Hw1 | intros n; by rewrite Hn2, Hn1 | congruence..].
Qed.

Lemma passed_field {A} (proj : Widget → A) s s' x :
  (∀ y, proj (passFrame y) = proj y) → passed s s' → proj (wget s' x) = proj (wget s x).
Proof.
  intros Hproj H. rewrite <- (Hproj (wget s' x)), <- (Hproj (wget s x)).
  by rewrite (ps_widgets _ _ H).
Qed.

Lemma quiet_passed s s' : passed s s' → quiet s → quiet s'.
Proof. intros H Hq w h. rewrite (passed_field (λ x, hooks x h) s s') by done. apply Hq. Qed.

Lemma passed_wupd w f s : (∀ x, passFrame (f x) = passFrame x) → passed s (wupd w f s).
Proof.
  intros Hf. split; try done. intros x. rewrite wget_wupd. case_decide; [subst; apply Hf | done].
Qed.

Lemma passed_log e s : passed s (log e s).
Proof. by split. Qed.

Lemma passed_same_widgets s s' :
  (∀ w, wget s' w = wget s w) → (∀ n, ncore (nget s' n) = ncore (nget s n)) →
  widgetMap s' = widgetMap s → widgetCounterMap s' = widgetCounterMap s →
  activeElement s' = activeElement s → passed s s'.
Proof. intros Hw Hn Hm Hc Ha. split; try done. intros x. by rewrite Hw. Qed.

Lemma passed_store w s : passed s (storeScrollPositions w s).
Proof. unfold storeScrollPositions. simpl. by apply passed_same_widgets. Qed.

Lemma passed_restore w s : passed s (restoreScrollPositions w s).
Proof.
  unfold restoreScrollPositions. simpl. destruct (_ !! _) as [[l t]|]; [|done].
  apply passed_same_widgets; try done. intros n. rewrite nget_nupd. by case_decide; subst.
Qed.

Lemma laidOut_passed s s' : laidOut s s' → passed s s'.
Proof.
  intros [Hw Hn Hm Hc Hs Ha _]. split; try done.
  - intros x. unfold passFrame. by rewrite Hw.
  - intros n. unfold nget. by rewrite Hn.
Qed.

Lemma notify_passed rec h this s : quiet s → post passed s (notify rec h this s).
Proof.
  intros Hq.
  destruct (notify_quiet rec h this s Hq) as (s' & -> & Hw & Hn & Hm & Hc & Hs & Ha & Ht).
  simpl. apply passed_same_widgets; try done. intros n. unfold nget. by rewrite Hn.
Qed.

Section Passes.
Variable fuel : nat.
Variable rec : Call → State → Res State.
Hypothesis Hrec : ∀ c s, passCall c = true → quiet s → post passed s (rec c s).

Lemma callOnVisibleChildren_passed this method s :
  (∀ c, passCall (method c) = true) → quiet s →
  post passed s (callOnVisibleChildren rec this method s).
Proof.
  intros Hm Hq. unfold callOnVisibleChildren. apply (post_forEach passed).
  intros c s1 _ H1. destruct (_ && _); [|by apply post_ok].
  apply Hrec; [apply Hm | by eapply quiet_passed].
Qed.

Lemma processWillShow_passed this s :
  quiet s → post passed s (processWillShow rec this s).
Proof.
  intros Hq. unfold processWillShow. post_step.
  - by apply callOnVisibleChildren_passed.
  - post_step. etrans; [|apply passed_log].
    by apply (passed_wupd this (set_isShowingInternal true)).
Qed.

Lemma processWasShown_passed this s :
  quiet s → post passed s (processWasShown fuel rec this s).
Proof.
  intros Hq. unfold processWasShown. post_step. post_step; [by post_step|].
  pose proof (passed_restore this s) as Hr.
  post_step.
  - eapply (post_pre passed); [exact Hr|]. apply notify_passed. by eapply quiet_passed.
  - apply callOnVisibleChildren_passed; [done|]. by eapply quiet_passed.
Qed.

Lemma processWillHide_passed this s :
  quiet s → post passed s (processWillHide fuel rec this s).
Proof.
  intros Hq. unfold processWillHide. post_step. post_step; [by post_step|].
  pose proof (passed_store this s) as Hs.
  post_step.
  - eapply (post_pre passed); [exact Hs|].
    apply callOnVisibleChildren_passed; [done|]. by eapply quiet_passed.
  - post_step.
    + apply notify_passed. by eapply quiet_passed.
    + post_step. etrans; [|apply passed_log].
      by apply (passed_wupd this (set_isShowingInternal false)).
Qed.

Lemma processWasHidden_passed this s :
  quiet s → post passed s (processWasHidden rec this s).
Proof. intros Hq. by apply callOnVisibleChildren_passed. Qed.

Lemma processOnResize_passed this s :
  quiet s → post passed s (processOnResize fuel rec this s).
Proof.
  intros Hq. unfold processOnResize. post_step. post_step; [by post_step|].
  post_step; [by post_step|]. post_step.
  - by apply notify_passed.
  - apply callOnVisibleChildren_passed; [done|]. by eapply quiet_passed.
Qed.

Lemma doResize_passed this s : quiet s → post passed s (doResize fuel rec this s).
Proof.
  intros Hq. unfold doResize. post_step; [by post_step|]. post_step.
  post_step; [by post_step|]. by apply callOnVisibleChildren_passed.
Qed.

Lemma doLayout_passed this s : quiet s → post passed s (doLayout fuel rec this s).
Proof.
  intros Hq. unfold doLayout. post_step; [by post_step|]. post_step.
  - by apply notify_passed.
  - apply doResize_passed. by eapply quiet_passed.
Qed.

Lemma invalidateConstraints_passed this s :
  quiet s → post passed s (invalidateConstraints fuel rec this s).
Proof.
  intros Hq. unfold invalidateConstraints.
  post_step; [post_step; by apply passed_wupd|].
  cbv zeta. set (s0 := log (EvInvalidate this) _).
  assert (H0 : passed s s0).
  { unfold s0. etrans; [|apply passed_log].
    transitivity (wupd this (set_invalidationsRequested false) s); by apply passed_wupd. }
  clearbody s0.
  apply (post_fromFuel passed). intros [actual s1] Hc.
  apply constraintsOf_cacheOnly, cacheOnly_laidOut, laidOut_passed in Hc.
  assert (H1 : passed s s1) by by etrans.
  assert (Hq1 : quiet s1) by by eapply quiet_passed.
  apply (post_pre passed _ s1); [done|].
  destruct (parentWidgetInternal (wget s1 this)) as [p|]; [|by apply doLayout_passed].
  post_step; [by apply Hrec | apply doLayout_passed; by eapply quiet_passed].
Qed.

Lemma body_passed c s :
  passCall c = true → quiet s → post passed s (body fuel rec c s).
Proof.
  intros Hc Hq. destruct c as [| | | | | | | | | | | | | | | | | | | | |p w]; try done; unfold body.
  - by apply invalidateConstraints_passed.
  - by apply doLayout_passed.
  - by apply doResize_passed.
  - destruct p; unfold process.
    + by apply processWillShow_passed.
    + by apply processWasShown_passed.
    + by apply processWillHide_passed.
    + by apply processWasHidden_passed.
    + by apply processOnResize_passed.
Qed.
End Passes.

Lemma exec_passed fuel c s :
  passCall c = true → quiet s → post passed s (exec fuel c s).
Proof.
  revert c s. induction fuel as [|f IH]; intros c s Hc Hq; [done|].
  simpl. by apply body_passed.
Qed.

(** X22: with hooks that do not call back, the five passes and the layout
    calls, whether they return or raise, change nothing in a widget but
    its showing flag, its constraints cache and its pending-invalidation
    flag, and nothing in the document but scroll offsets: the tree, the
    visibility, the explicit constraints, the suspension depth, the classes,
    the registry, the counters and the focus are as before. *)
Theorem passes_frame (fuel : nat) (c : Call) (s s' : State) :
  passCall c = true → quiet s →
  exec fuel c s = Ok s' ∨ exec fuel c s = Throw s' →
  passed s s'.
Proof.
  intros Hc Hq E. pose proof (exec_passed fuel c s Hc Hq) as H.
  destruct E as [E|E]; by rewrite E in H.
Qed.

Lemma passes_frame_witness :
  ∃ s', exec 4 (Process WillHidePass 1) shownState = Ok s' ∧ passed shownState s'.
Proof.
  destruct (exec 4 (Process WillHidePass 1) shownState) as [s'| |] eqn:E;
    [|vm_compute in E; discriminate..].
  exists s'. split; [reflexivity|].
  apply (passes_frame 4 (Process WillHidePass 1) shownState s').
  - reflexivity.
  - apply consistent_shownState.
  - by left.
Defined.

(** ** The default focused child *)

#[global] Instance kept_preorder : PreOrder kept.
Proof.
  split; [by intros s x|]. intros s1 s2 s3 H1 H2 x. by rewrite H2, H1.
Qed.

Lemma kept_heap s s' : (∀ x, wget s' x = wget s x) → kept s s'.
Proof. intros H x. by rewrite H. Qed.

Lemma kept_wupd w f s : (∀ x, focusFields (f x) = focusFields x) → kept s (wupd w f s).
Proof. intros Hf x. rewrite wget_wupd. case_decide; [subst; apply Hf | done]. Qed.

Lemma passed_kept s s' : passed s s' → kept s s'.
Proof.
  intros H x. unfold focusFields.
  rewrite (passed_field defaultFocusedChild s s'), (passed_field parentWidgetInternal s s'),
    (passed_field hooks s s'); done.
Qed.

Lemma quiet_kept s s' : kept s s' → quiet s → quiet s'.
Proof.
  intros H Hq w h. specialize (H w). unfold focusFields in H.
  injection H as _ _ ->. apply Hq.
Qed.

Lemma focusOk_kept s s' : kept s s' → focusOk s → focusOk s'.
Proof.
  intros H Hf p c. pose proof (H p) as Hp. pose proof (H c) as Hc. unfold focusFields in *.
  injection Hp as -> _ _. injection Hc as _ -> _. apply Hf.
Qed.

Lemma forceRemove_kept pe w s : post kept s (forceRemove pe w s).
Proof.
  unfold forceRemove, originalRemoveChild. destruct pe as [pe|]; [|done].
  case_bool_decide; simpl; apply kept_heap; intros x; rewrite ?wget_nupd;
    apply wget_sameButCounters, decrementWidgetCounter_same.
Qed.

Lemma post_mono (R R' : State → State → Prop) s r :
  (∀ s', R s s' → R' s s') → post R s r → post R' s r.
Proof. destruct r; simpl; auto. Qed.

Lemma kept_log' e s s0 : kept s s0 → kept s (log e s0).
Proof. done. Qed.

Lemma kept_nupd' n f s s0 : kept s s0 → kept s (nupd n f s0).
Proof. done. Qed.

Lemma kept_increment' pe ce s s0 : kept s s0 → kept s (incrementWidgetCounter pe ce s0).
Proof.
  intros H. etrans; [done|]. apply kept_heap. intros x.
  apply wget_sameButCounters, incrementWidgetCounter_same.
Qed.

Lemma kept_decrement' pe ce s s0 : kept s s0 → kept s (decrementWidgetCounter pe ce s0).
Proof.
  intros H. etrans; [done|]. apply kept_heap. intros x.
  apply wget_sameButCounters, decrementWidgetCounter_same.
Qed.

Lemma kept_wupd' w f s s0 :
  kept s s0 → (∀ x, focusFields (f x) = focusFields x) → kept s (wupd w f s0).
Proof. intros H Hf. etrans; [done | by apply kept_wupd]. Qed.

Ltac kept_tac :=
  repeat first
    [ reflexivity
    | assumption
    | apply kept_log'
    | apply kept_nupd'
    | apply kept_increment'
    | apply kept_decrement'
    | apply kept_wupd'; [ | done ] ].

Ltac quiet_tac :=
  lazymatch goal with
  | |- quiet ?s' =>
      match goal with
      | Hq : quiet ?s |- _ => apply (quiet_kept s s'); [solve [kept_tac] | exact Hq]
      end
  end.

Ltac kept_call L :=
  eapply (post_pre kept); [ | apply L ]; [ solve [kept_tac] | try quiet_tac .. ].

Ltac kept_pass L :=
  eapply (post_pre kept);
    [ | apply (post_mono passed); [ intros ?; apply passed_kept | apply L ] ];
    [ solve [kept_tac] | try (intros; by apply exec_passed) | try quiet_tac .. ].

Lemma hasNonZeroConstraints_kept fuel this s nz s' :
  hasNonZeroConstraints fuel this s = Some (nz, s') → kept s s'.
Proof.
  unfold hasNonZeroConstraints.
  destruct (constraintsOf fuel this s) as [[c s1]|] eqn:E; simpl; [|done].
  intros [= _ <-].
  by apply passed_kept, laidOut_passed, cacheOnly_laidOut, (constraintsOf_cacheOnly fuel this s c).
Qed.

Lemma originalAppendChild_kept this node s : post kept s (originalAppendChild this node s).
Proof. unfold originalAppendChild. post_step; post_step; kept_tac. Qed.

Lemma originalInsertBefore_kept this node child s :
  post kept s (originalInsertBefore this node child s).
Proof.
  unfold originalInsertBefore. post_step; [|apply originalAppendChild_kept].
  post_step; [apply originalAppendChild_kept | by post_step].
Qed.

Lemma invalidateConstraints_kept f w s :
  quiet s → post kept s (invalidateConstraints f (exec f) w s).
Proof.
  intros Hq. apply (post_mono passed); [intros ?; apply passed_kept|].
  apply invalidateConstraints_passed; [intros; by apply exec_passed | done].
Qed.

Lemma hideWidgetInternal_kept f w b s :
  quiet s → post kept s (hideWidgetInternal f (exec f) w b s).
Proof.
  intros Hq. unfold hideWidgetInternal. cbv zeta.
  post_step.
  { post_step; [kept_pass processWillHide_passed | post_step; kept_tac]. }
  assert (Hq1 : quiet s1) by by eapply quiet_kept.
  post_step.
  { post_step; [|post_step; kept_tac].
    post_step; [apply forceRemove_kept|].
    rewrite callHook_quiet by by eapply quiet_kept. by post_step. }
  assert (Hq2 : quiet s0) by by eapply quiet_kept.
  post_step.
  { post_step; [kept_pass processWasHidden_passed | by post_step]. }
  assert (Hq3 : quiet s2) by by eapply quiet_kept.
  post_step; [|by post_step].
  apply (post_fromFuel kept). intros [nz s4] Hc. apply hasNonZeroConstraints_kept in Hc.
  apply (post_pre kept _ s4); [done|].
  post_step; [|by post_step]. apply invalidateConstraints_kept. by eapply quiet_kept.
Qed.

Lemma showWidgetInternal_kept f w pe ib s :
  quiet s → post kept s (showWidgetInternal f (exec f) w pe ib s).
Proof.
  intros Hq. unfold showWidgetInternal. cbv zeta.
  post_step; [post_step; apply (post_assert kept)|].
  assert (Hq1 : quiet s1) by by eapply quiet_kept.
  post_step; [by post_step|].
  post_step.
  { post_step; [kept_pass processWillShow_passed | post_step; kept_tac]. }
  assert (Hq2 : quiet s0) by by eapply quiet_kept.
  post_step.
  { post_step; [post_step; kept_tac|].
    destruct (externallyManaged _); post_step.
    - kept_call originalInsertBefore_kept.
    - kept_call originalAppendChild_kept.
    - kept_call originalInsertBefore_kept.
    - kept_call originalAppendChild_kept. }
  assert (Hq3 : quiet s2) by by eapply quiet_kept.
  post_step.
  { post_step; [kept_pass processWasShown_passed | by post_step]. }
  assert (Hq4 : quiet s3) by by eapply quiet_kept.
  post_step; [|kept_pass processOnResize_passed].
  apply (post_fromFuel kept). intros [nz s4] Hc. apply hasNonZeroConstraints_kept in Hc.
  assert (Hq5 : quiet s4) by by eapply quiet_kept.
  apply (post_pre kept _ s4); [done|].
  post_step; [by apply invalidateConstraints_kept | kept_pass processOnResize_passed].
Qed.

Lemma updateHierarchy_focus rec w s :
  quiet s → focusOk s →
  returns (updateHierarchy rec w s)
    (λ s', focusOk s'
           ∧ (parentWidgetInternal (wget s w) ≠ None → parentWidgetInternal (wget s' w) = None)).
Proof.
  intros Hq Hf. unfold updateHierarchy.
  destruct (parentWidgetInternal (wget s w)) as [p|] eqn:Hp; [|by apply returns_assert].
  destruct (indexOf w (childrenInternal (wget s p))) as [i|]; [|apply returns_throw].
  cbv zeta.
  set (s1 := wupd p (λ x, set_childrenInternal (delete i (childrenInternal x)) x) s).
  set (s2 := if bool_decide (defaultFocusedChild (wget s1 p) = Some w)
             then wupd p (set_defaultFocusedChild None) s1 else s1).
  assert (H1 : kept s s1) by by apply kept_wupd.
  assert (Hq2 : quiet s2).
  { unfold s2. case_bool_decide; [apply quiet_wupd; [done|]|]; by eapply quiet_kept. }
  assert (Hpar : ∀ x, parentWidgetInternal (wget s2 x) = parentWidgetInternal (wget s x)).
  { intros x. unfold s2, s1. case_bool_decide;
      rewrite ?(wget_wupd_field parentWidgetInternal); done. }
  assert (Hdfc : ∀ q c, defaultFocusedChild (wget s2 q) = Some c →
                        defaultFocusedChild (wget s q) = Some c ∧ (q = p → c ≠ w)).
  { intros q c. unfold s2. case_bool_decide as Hd.
    - rewrite wget_wupd. case_decide as Hqp; [done|].
      unfold s1. rewrite (wget_wupd_field defaultFocusedChild) by done.
      intros Hc. split; [done | by intros ->].
    - unfold s1 in *. rewrite (wget_wupd_field defaultFocusedChild) in * by done.
      intros Hc. split; [done|]. intros -> ->. by rewrite Hc in Hd. }
  rewrite callHook_quiet by done. apply returns_ok. split.
  - intros q c. rewrite (wget_wupd_field defaultFocusedChild) by done.
    rewrite wget_log. intros Hc. apply Hdfc in Hc as [Hc Hne].
    pose proof (Hf q c Hc) as Hpc.
    rewrite wget_wupd. case_decide as Hwc.
    + subst c. rewrite Hp in Hpc. injection Hpc as <-. by destruct Hne.
    + rewrite wget_log. by rewrite Hpar.
  - intros _. by rewrite wget_wupd_eq.
Qed.

Lemma detach_focus f w o s :
  quiet s → focusOk s →
  returns (detach f (exec f) w o s)
    (λ s', focusOk s'
           ∧ (parentWidgetInternal (wget s w) ≠ None → parentWidgetInternal (wget s' w) = None)).
Proof.
  intros Hq Hf. unfold detach.
  destruct (bool_decide _ && negb _) eqn:Hearly.
  { apply returns_ok. split; [done|]. intros Hp.
    apply andb_true_iff in Hearly as [Hn _]. by apply bool_decide_eq_true in Hn. }
  assert (Hrest : ∀ b : bool,
    returns
      ((if visibleInternal (wget s w) then hideWidgetInternal f (exec f) w b s
        else if b then forceRemove (parentElement s (element (wget s w))) w s else Ok s)
       ≫= updateHierarchy (exec f) w)
      (λ s', focusOk s'
             ∧ (parentWidgetInternal (wget s w) ≠ None →
                parentWidgetInternal (wget s' w) = None))).
  { intros b. apply (returns_bind _ _ (kept s)).
    - eapply returns_post; [|by intros s' H].
      destruct (visibleInternal (wget s w)); [by apply hideWidgetInternal_kept|].
      destruct b; [apply forceRemove_kept | by apply post_ok].
    - intros s1 H1. eapply returns_weaken.
      + apply updateHierarchy_focus; [by eapply quiet_kept | by eapply focusOk_kept].
      + intros s2 [H2 Hp2]. split; [done|]. intros Hp. apply Hp2.
        pose proof (H1 w) as Hw. unfold focusFields in Hw. injection Hw as _ Hw _.
        by rewrite Hw. }
  destruct o; [apply Hrest|].
  destruct (shouldHideOnDetach f s w) as [b|]; [apply Hrest | done].
Qed.

Lemma attach_focus f w cw s :
  quiet s → focusOk s → returns (attach f (exec f) w cw s) focusOk.
Proof.
  intros Hq Hf. unfold attach. case_bool_decide; [by apply returns_ok|]. cbv zeta.
  apply (returns_bind _ _ (λ s1, focusOk s1 ∧ parentWidgetInternal (wget s1 w) = None)).
  - destruct (parentWidgetInternal (wget s w)) as [p|] eqn:Hp; [|by apply returns_ok].
    eapply returns_weaken; [by apply detach_focus|].
    intros s1 [H1 Hp1]. split; [done|]. apply Hp1. by rewrite Hp.
  - intros s1 [H1 Hp1]. apply returns_ok. intros q c.
    rewrite !(wget_wupd_field defaultFocusedChild) by done. intros Hc.
    pose proof (H1 q c Hc) as Hpc.
    rewrite (wget_wupd_field parentWidgetInternal) by done.
    rewrite (wget_wupd_field parentWidgetInternal) by done.
    rewrite wget_wupd. case_decide as Hwc; [|done].
    subst c. by rewrite Hp1 in Hpc.
Qed.

Lemma focusOk_wupd w f s :
  (∀ x, focusFields (f x) = focusFields x) → focusOk s → focusOk (wupd w f s).
Proof. intros Hf. apply focusOk_kept. by apply kept_wupd. Qed.

Lemma body_focus f c s :
  quiet s → focusOk s → returns (body f (exec f) c s) focusOk.
Proof.
  intros Hq Hf.
  assert (Hkept : ∀ r, post kept s r → returns r focusOk).
  { intros r Hr. eapply returns_post; [exact Hr|]. intros s' H. by eapply focusOk_kept. }
  assert (Hinv : ∀ w s1, kept s s1 → returns (invalidateConstraints f (exec f) w s1) focusOk).
  { intros w s1 H1. eapply returns_post.
    - apply invalidateConstraints_kept. by eapply quiet_kept.
    - intros s2 H2. eapply focusOk_kept; [|exact Hf]. by etrans. }
  destruct c as [w pe ib|w|w|w o|w|w|w|w|w ch|w a b|w a b c d|w|w|w|w|w|p node|p node ch|p child|p| |ps w];
    unfold body.
  - (* show *)
    unfold show. apply (returns_bind _ _ (λ s1, quiet s1 ∧ focusOk s1)).
    + destruct (isRoot (wget s w)); [by apply returns_ok|].
      destruct (nearestWidget s pe) as [cw|]; [|apply returns_throw].
      intros s1 E. split.
      * pose proof (attach_stable f (exec f) (exec_stable f) w cw s) as Hst.
        rewrite E in Hst. by eapply quiet_stable.
      * by apply (attach_focus f w cw s Hq Hf s1).
    + intros s1 [Hq1 Hf1]. eapply returns_post; [by apply showWidgetInternal_kept|].
      intros s2 H2. by eapply focusOk_kept.
  - (* showWidget *)
    unfold showWidget. destruct (visibleInternal (wget s w)); [by apply returns_ok|].
    destruct (parentElement s (element (wget s w))); [|apply returns_throw].
    by apply Hkept, showWidgetInternal_kept.
  - (* hideWidget *)
    unfold hideWidget. destruct (negb _); [by apply returns_ok|].
    by apply Hkept, hideWidgetInternal_kept.
  - (* detach *)
    eapply returns_weaken; [by apply detach_focus|]. by intros s1 [H1 _].
  - (* detachChildWidgets *)
    unfold detachChildWidgets.
    eapply returns_weaken.
    + apply (returns_forEach _ (λ s1, quiet s1 ∧ focusOk s1)); [done|].
      intros c s1 _ (Hq1 & Hf1) s2 E.
      pose proof (detach_stable f (exec f) (exec_stable f) c false s1) as Hst.
      rewrite E in Hst. split; [by eapply quiet_stable|].
      by apply (detach_focus f c false s1 Hq1 Hf1 s2).
    + by intros s1 (_ & ?).
  - unfold markAsRoot. apply returns_assert_bind. intros _. apply returns_ok.
    by apply focusOk_wupd.
  - unfold setHideOnDetach. apply returns_ok. by apply focusOk_wupd.
  - unfold markAsExternallyManaged. apply returns_assert_bind. intros _. apply returns_ok.
    by apply focusOk_wupd.
  - (* setDefaultFocusedChild *)
    unfold setDefaultFocusedChild. apply returns_assert_bind. intros Hp.
    apply bool_decide_eq_true in Hp. apply returns_ok. intros q c.
    rewrite (wget_wupd_field parentWidgetInternal) by done.
    rewrite wget_wupd. case_decide as Hwq; [|apply Hf].
    subst q. simpl. by intros [= <-].
  - unfold setMinimumSize. apply Hinv. by apply kept_wupd.
  - unfold setMinimumAndPreferredSizes. apply Hinv. by apply kept_wupd.
  - unfold suspendInvalidations. apply returns_ok. by apply focusOk_wupd.
  - unfold resumeInvalidations. cbv zeta. destruct (_ && _).
    + apply Hinv. by apply kept_wupd.
    + apply returns_ok. by apply focusOk_wupd.
  - by apply Hinv.
  - apply Hkept. apply (post_mono passed); [intros ?; apply passed_kept|].
    apply doLayout_passed; [intros; by apply exec_passed | done].
  - apply Hkept. apply (post_mono passed); [intros ?; apply passed_kept|].
    apply doResize_passed; [intros; by apply exec_passed | done].
  - unfold appendChild. destruct (_ && _); [apply returns_throw|].
    apply Hkept, originalAppendChild_kept.
  - unfold insertBefore. destruct (_ && _); [apply returns_throw|].
    apply Hkept, originalInsertBefore_kept.
  - unfold removeChild, originalRemoveChild. destruct (_ || _); [apply returns_throw|].
    case_bool_decide; [|apply returns_throw]. by apply returns_ok.
  - unfold removeChildren, originalRemoveChildren. destruct (negb _); [apply returns_throw|].
    by apply returns_ok.
  - apply returns_throw.
  - apply Hkept. apply (post_mono passed); [intros ?; apply passed_kept|].
    apply (body_passed f (exec f)) with (c := Process ps w);
      [intros; by apply exec_passed | done | done].
Qed.

(** X23: with hooks that do not call back, a default focused child is
    always a child.  If in the starting state every widget's
    [defaultFocusedChild] has that widget as its parent, the same holds
    after any sequence of calls that returns: [setDefaultFocusedChild]
    refuses a widget that is not a child, and detaching the child clears
    the parent's reference to it. *)
Theorem default_focus_is_child (fuel : nat) (cs : list Call) (s s' : State) :
  quiet s → focusOk s → run fuel cs s = Ok s' →
  ∀ p c, defaultFocusedChild (wget s' p) = Some c → parentWidgetInternal (wget s' c) = Some p.
Proof.
  intros Hq Hf E.
  assert (H : returns (run fuel cs s) (λ s1, quiet s1 ∧ focusOk s1)).
  { unfold run. apply (returns_forEach _ (λ s1, quiet s1 ∧ focusOk s1)); [done|].
    intros c s1 _ [Hq1 Hf1] s2 E2.
    pose proof (exec_stable fuel c s1) as Hst. rewrite E2 in Hst.
    split; [by eapply quiet_stable|].
    destruct fuel as [|f]; [done|]. by apply (body_focus f c s1 Hq1 Hf1). }
  by destruct (H s' E) as [_ Hf'].
Qed.

Lemma focusOk_page : focusOk page.
Proof.
  intros p c. unfold page, newWidget, wget. simpl.
  destruct (decide (p = 3)) as [->|?]; [by rewrite lookup_insert_eq|].
  rewrite lookup_insert_ne by done.
  destruct (decide (p = 2)) as [->|?]; [by rewrite lookup_insert_eq|].
  rewrite lookup_insert_ne by done.
  destruct (decide (p = 1)) as [->|?]; [by rewrite lookup_insert_eq|].
  by rewrite lookup_insert_ne, lookup_empty.
Qed.

Lemma default_focus_is_child_witness :
  defaultFocusedChild (wget focusChildState 1) = Some 2
  ∧ parentWidgetInternal (wget focusChildState 2) = Some 1.
Proof.
  assert (Hd : defaultFocusedChild (wget focusChildState 1) = Some 2)
    by (vm_compute; reflexivity).
  split; [exact Hd|].
  apply (default_focus_is_child 3 focusChild page focusChildState).
  - apply consistent_page.
  - apply focusOk_page.
  - vm_compute. reflexivity.
  - exact Hd.
Defined.

(** ** Hiding and showing in place *)

Lemma idle_passed s s' : passed s s' → idle s → idle s'.
Proof. intros H Hi w. rewrite (passed_field notificationDepth s s') by done. apply Hi. Qed.

Lemma ranked_passed N rank s s' : passed s s' → ranked N rank s → ranked N rank s'.
Proof.
  intros H [Hr HN]. split; [|done]. intros x p.
  rewrite (passed_field parentWidgetInternal s s') by done. apply Hr.
Qed.

Lemma calm_passed N rank s s' : passed s s' → calm N rank s → calm N rank s'.
Proof.
  intros H (Hq & Hi & Hr).
  split; [by eapply quiet_passed|]. split; [by eapply idle_passed | by eapply ranked_passed].
Qed.

Lemma calm_sameTree N rank s s' : sameTree s s' → calm N rank s → calm N rank s'.
Proof.
  intros H (Hq & Hi & [Hr HN]).
  split; [by eapply quiet_sameTree|]. split; [by eapply idle_sameTree|].
  split; [|done]. intros x p. rewrite (tree_field parentWidgetInternal s s') by done. apply Hr.
Qed.

Lemma calm_wupd N rank w f s :
  (∀ x, hooks (f x) = hooks x) → (∀ x, notificationDepth (f x) = notificationDepth x) →
  (∀ x, parentWidgetInternal (f x) = parentWidgetInternal x) →
  calm N rank s → calm N rank (wupd w f s).
Proof.
  intros H1 H2 H3 (Hq & Hi & [Hr HN]).
  split; [by apply quiet_wupd|]. split; [by apply idle_wupd|].
  split; [|done]. intros x p. rewrite (wget_wupd_field parentWidgetInternal) by done. apply Hr.
Qed.

Lemma calm_nupd N rank n f s : calm N rank s → calm N rank (nupd n f s).
Proof.
  intros (Hq & Hi & Hr). split; [by apply quiet_nupd|]. split; [by apply idle_nupd | done].
Qed.

Lemma parentElement_passed s s' n : passed s s' → parentElement s' n = parentElement s n.
Proof.
  intros H. unfold parentElement, isElement.
  pose proof (ps_nodes _ _ H n) as Hn. pose proof (f_equal parentNode Hn) as Hp.
  simpl in Hp. rewrite Hp. destruct (parentNode (nget s n)) as [p|]; [|done].
  pose proof (f_equal nkind (ps_nodes _ _ H p)) as Hk. simpl in Hk. by rewrite Hk.
Qed.

Lemma finishes_post (R : State → State → Prop) s r :
  post R s r → (∃ s', r = Ok s') → finishes (R s) r.
Proof. intros Hp (s' & ->). by exists s'. Qed.

Lemma finishes_pre s s1 r : passed s s1 → finishes (passed s1) r → finishes (passed s) r.
Proof. intros H. apply finishes_weaken. intros s2 H2. by etrans. Qed.

Lemma notify_passes rec h w s : quiet s → finishes (passed s) (notify rec h w s).
Proof.
  intros Hq. apply finishes_post; [by apply notify_passed|].
  destruct (notify_quiet rec h w s Hq) as (s' & E & _). by exists s'.
Qed.

Lemma children_finish N rank f p w s :
  (∀ c s1, calm N rank s1 → N + rank c ≤ f →
           finishes (passed s1) (exec (S f) (Process p c) s1)) →
  calm N rank s → N + rank w ≤ S f →
  finishes (passed s) (callOnVisibleChildren (exec (S f)) w (Process p) s).
Proof.
  intros IH Hc Hf. unfold callOnVisibleChildren.
  apply (forEach_finishes (passed s)); [done|].
  intros c s1 H1.
  destruct (bool_decide (parentWidgetInternal (wget s1 c) = Some w)) eqn:Hp; simpl;
    [|by exists s1].
  destruct (visibleInternal (wget s1 c)); [|by exists s1].
  apply bool_decide_eq_true_1 in Hp.
  assert (Hc1 : calm N rank s1) by by eapply calm_passed.
  apply (finishes_pre s s1); [done|]. apply IH; [done|].
  destruct Hc1 as (_ & _ & [Hr _]). specialize (Hr _ _ Hp). lia.
Qed.

(** The five passes return on a calm tree, given fuel for its height. *)
Lemma process_finishes N rank f p w s :
  calm N rank s → N + rank w ≤ f → finishes (passed s) (process f (exec f) p w s).
Proof.
  revert p w s. induction f as [|f IH]; intros p w s Hc Hf.
  { destruct Hc as (_ & _ & [_ HN]). specialize (HN w). lia. }
  assert (IH' : ∀ p c s1, calm N rank s1 → N + rank c ≤ f →
                          finishes (passed s1) (exec (S f) (Process p c) s1)).
  { intros p' c s1 Hc1 Hf1. simpl. by apply IH. }
  pose proof Hc as (Hq & Hi & Hr).
  assert (Hin : inNotification (S f) s w = Some false).
  { apply (inNotification_finishes N rank); [done | done | lia]. }
  destruct p; unfold process.
  - unfold processWillShow.
    eapply finishes_bind;
      [apply (children_finish N rank); [by apply IH' | done | done]|].
    intros s1 H1. eexists. split; [done|]. etrans; [exact H1|].
    etrans; [|apply passed_log]. by apply (passed_wupd w (set_isShowingInternal true)).
  - unfold processWasShown. rewrite Hin. simpl.
    pose proof (passed_restore w s) as H0.
    eapply finishes_bind.
    + apply (finishes_pre s _ _ H0), notify_passes. by eapply quiet_passed.
    + intros s1 H1. apply (finishes_pre s s1 _ H1).
      apply (children_finish N rank); [by apply IH' | by eapply calm_passed | done].
  - unfold processWillHide. rewrite Hin. simpl.
    pose proof (passed_store w s) as H0.
    eapply finishes_bind.
    + apply (finishes_pre s _ _ H0).
      apply (children_finish N rank); [by apply IH' | by eapply calm_passed | done].
    + intros s1 H1. eapply finishes_bind.
      * apply (finishes_pre s s1 _ H1), notify_passes. by eapply quiet_passed.
      * intros s2 H2. eexists. split; [done|]. etrans; [exact H2|].
        etrans; [|apply passed_log]. by apply (passed_wupd w (set_isShowingInternal false)).
  - unfold processWasHidden.
    apply (children_finish N rank); [by apply IH' | done | done].
  - unfold processOnResize. rewrite Hin. simpl.
    destruct (negb (isShowing s w)); [by exists s|].
    eapply finishes_bind; [by apply notify_passes|].
    intros s1 H1. apply (finishes_pre s s1 _ H1).
    apply (children_finish N rank); [by apply IH' | by eapply calm_passed | done].
Qed.

#[global] Instance still_preorder : PreOrder still.
Proof.
  split.
  - intros s. by split.
  - intros s1 s2 s3 [H1 Hn1] [H2 Hn2]. split; [by etrans | congruence].
Qed.

Lemma quiet_still s s' : still s s' → quiet s → quiet s'.
Proof. intros [H _]. by apply quiet_passed. Qed.

Lemma notify_still rec h this s : quiet s → post still s (notify rec h this s).
Proof.
  intros Hq. pose proof (notify_passed rec h this s Hq) as Hp.
  destruct (notify_quiet rec h this s Hq) as (s' & E & _ & Hn & _).
  rewrite E in *. by split.
Qed.

Section Hiding.
Variable fuel : nat.
Variable rec : Call → State → Res State.
Hypothesis Hrec : ∀ c s, hidePass c = true → quiet s → post still s (rec c s).

Lemma callOnVisibleChildren_still this method s :
  (∀ c, hidePass (method c) = true) → quiet s →
  post still s (callOnVisibleChildren rec this method s).
Proof.
  intros Hm Hq. unfold callOnVisibleChildren. apply (post_forEach still).
  intros c s1 _ H1. destruct (_ && _); [|by apply post_ok].
  apply Hrec; [apply Hm | by eapply quiet_still].
Qed.

Lemma processWillHide_still this s :
  quiet s → post still s (processWillHide fuel rec this s).
Proof.
  intros Hq. unfold processWillHide. post_step. post_step; [by post_step|].
  assert (H0 : still s (storeScrollPositions this s)).
  { split; [apply passed_store|]. unfold storeScrollPositions. by simpl. }
  post_step.
  - eapply (post_pre still); [exact H0|].
    apply callOnVisibleChildren_still; [done|]. by eapply quiet_still.
  - post_step.
    + apply notify_still. by eapply quiet_still.
    + post_step. split; [|done]. etrans; [|apply passed_log].
      by apply (passed_wupd this (set_isShowingInternal false)).
Qed.

Lemma processWasHidden_still this s :
  quiet s → post still s (processWasHidden rec this s).
Proof. intros Hq. by apply callOnVisibleChildren_still. Qed.
End Hiding.

Lemma exec_still fuel c s : hidePass c = true → quiet s → post still s (exec fuel c s).
Proof.
  revert c s. induction fuel as [|f IH]; intros c s Hc Hq; [done|].
  destruct c as [| | | | | | | | | | | | | | | | | | | | |p w]; try done.
  destruct p; try done; simpl.
  - by apply processWillHide_still.
  - by apply processWasHidden_still.
Qed.

(** [hideWidgetInternal(false)] writes one node: the element of the widget
    gets the [hidden] class. *)
Lemma hide_nodes f w s :
  quiet s →
  returns (hideWidgetInternal f (exec f) w false s)
    (λ s', nodes s' = nodes (nupd (element (wget s w)) (set_hiddenClass true) s)).
Proof.
  intros Hq. unfold hideWidgetInternal. cbv zeta.
  set (s0 := wupd w (set_visibleInternal false) s).
  assert (Hq0 : quiet s0) by by apply quiet_wupd.
  apply (returns_bind _ _ (still s0)).
  { eapply returns_post; [|by intros s' H].
    destruct (parentIsShowing s0 w); [|by apply post_ok].
    apply processWillHide_still; [intros; by apply exec_still | done]. }
  intros s1 [H1 Hn1].
  assert (He : element (wget s1 w) = element (wget s w)).
  { rewrite (passed_field element s0 s1) by done. unfold s0.
    by rewrite (wget_wupd_field element). }
  rewrite He. set (e := element (wget s w)).
  set (s2 := nupd e (set_hiddenClass true) s1).
  assert (Hn2 : nodes s2 = nodes (nupd e (set_hiddenClass true) s)).
  { unfold s2, nupd, nget. simpl. by rewrite Hn1. }
  assert (Hq2 : quiet s2) by (apply quiet_nupd; by eapply quiet_passed).
  cbn [mbind Res_bind].
  apply (returns_bind _ _ (still s2)).
  { eapply returns_post; [|by intros s' H].
    destruct (parentIsShowing s2 w); [|by apply post_ok].
    apply processWasHidden_still; [intros; by apply exec_still | done]. }
  intros s3 [H3 Hn3].
  eapply returns_post.
  - apply (constraintsTail_laidOut f w s3 (λ s, Ok s)); [by eapply quiet_passed|].
    intros s4 _. by apply post_ok.
  - intros s' H. rewrite (fr_nodes _ _ _ _ H). congruence.
Qed.

Lemma chainFrom_ext (next next' : nat → option nat) k n :
  (∀ x, next x = next' x) → chainFrom next k n = chainFrom next' k n.
Proof.
  intros H. revert n. induction k as [|k IH]; intros n; simpl; [done|].
  rewrite <- H. destruct (next n); [by rewrite IH | done].
Qed.

(** The walk to the nearest widget does not look at the [hidden] class. *)
Lemma nearestWidgetElement_hidden s s1 e b pe :
  is_Some (nodes s !! e) →
  nodes s1 = nodes (nupd e (set_hiddenClass b) s) → widgetMap s1 = widgetMap s →
  nearestWidgetElement s1 pe = nearestWidgetElement s pe.
Proof.
  intros He Hn Hm.
  assert (Hget : ∀ n, nkind (nget s1 n) = nkind (nget s n)
                      ∧ parentNode (nget s1 n) = parentNode (nget s n)).
  { intros n. unfold nget at 1 3. rewrite Hn. fold (nget (nupd e (set_hiddenClass b) s) n).
    rewrite nget_nupd. by case_decide; subst. }
  unfold nearestWidgetElement, elementChain, isWidgetElement. rewrite Hm. f_equal.
  assert (Hsize : size (nodes s1) = size (nodes s)).
  { rewrite Hn. unfold nupd. simpl. by apply map_size_insert_Some. }
  rewrite Hsize. apply chainFrom_ext. intros x. unfold parentElementOrShadowHost.
  destruct (Hget x) as [-> ->]. destruct (nkind (nget s x)); [|done].
  destruct (parentNode (nget s x)) as [p|]; [|done]. by destruct (Hget p) as [-> _].
Qed.

(** The tail of [hideWidgetInternal] and [showWidgetInternal] returns. *)
Lemma constraintsTail_finishes N rank f w s (other : State → Res State) :
  calm N rank s → 3 * N ≤ f →
  (∀ s1, calm N rank s1 → ∃ s', other s1 = Ok s') →
  ∃ s', match parentWidgetInternal (wget s w) with
        | Some p =>
            '(nz, s) ← fromFuel (hasNonZeroConstraints f w s);
            if nz : bool then invalidateConstraints f (exec f) p s else other s
        | None => other s
        end = Ok s'.
Proof.
  intros Hc Hf Hother.
  destruct (parentWidgetInternal (wget s w)) as [p|]; [|by apply Hother].
  pose proof Hc as (Hq & Hi & Hr).
  assert (HN : ∀ x, rank x < N) by apply Hr.
  destruct (constraintsOf_finishes N rank f w s Hr) as (c & s1 & E & Hr1).
  { specialize (HN w). lia. }
  assert (Hnz : hasNonZeroConstraints f w s = Some (nonZero c, s1)).
  { unfold hasNonZeroConstraints. by rewrite E. }
  rewrite Hnz. simpl.
  pose proof (hasNonZeroConstraints_passive f w s _ _ Hnz) as Hp.
  assert (Hc1 : calm N rank s1).
  { split; [by eapply quiet_passive|]. split; [by eapply idle_passive | done]. }
  destruct (nonZero c); [|by apply Hother].
  destruct Hc1 as (Hq1 & Hi1 & _).
  destruct (invalidateConstraints_finishes N rank f p s1) as (s' & E' & _); try done.
  { specialize (HN p). lia. }
  by exists s'.
Qed.

Lemma hideWidgetInternal_finishes N rank f w s :
  calm N rank s → 3 * N ≤ f → ∃ s', hideWidgetInternal f (exec f) w false s = Ok s'.
Proof.
  intros Hc Hf.
  assert (HN : ∀ x, rank x < N) by apply Hc.
  assert (Hpass : ∀ p s1, calm N rank s1 →
            finishes (calm N rank) (process f (exec f) p w s1)).
  { intros p s1 Hc1. eapply finishes_weaken; [|apply (process_finishes N rank)]; try done.
    - intros s2 H2. by eapply calm_passed.
    - specialize (HN w). lia. }
  unfold hideWidgetInternal. cbv zeta.
  set (s0 := wupd w (set_visibleInternal false) s).
  assert (Hc0 : calm N rank s0) by by apply calm_wupd.
  cut (finishes (λ _, True)
         ((if parentIsShowing s0 w then processWillHide f (exec f) w s0 else Ok s0)
          ≫= λ s1, Ok (nupd (element (wget s1 w)) (set_hiddenClass true) s1)
          ≫= λ s2, (if parentIsShowing s2 w then processWasHidden (exec f) w s2 else Ok s2)
          ≫= λ s3, match parentWidgetInternal (wget s3 w) with
                   | Some p =>
                       '(nz, s4) ← fromFuel (hasNonZeroConstraints f w s3);
                       if nz : bool then invalidateConstraints f (exec f) p s4 else Ok s4
                   | None => Ok s3
                   end)).
  { intros (s' & E & _). by exists s'. }
  apply (finishes_bind (calm N rank)).
  { destruct (parentIsShowing s0 w); [apply (Hpass WillHidePass) | exists s0]; done. }
  intros s1 Hc1. cbn [mbind Res_bind].
  apply (finishes_bind (calm N rank)).
  { destruct (parentIsShowing _ w); [apply (Hpass WasHiddenPass) | eexists; split; [done|] ];
      by apply calm_nupd. }
  intros s3 Hc3.
  destruct (constraintsTail_finishes N rank f w s3 (λ s, Ok s) Hc3 Hf) as (s' & E).
  { intros s4 _. by exists s4. }
  by exists s'.
Qed.

Lemma showWidgetInternal_finishes N rank f w pe s :
  calm N rank s → 3 * N ≤ f →
  visibleInternal (wget s w) = false →
  parentElement s (element (wget s w)) = Some pe →
  (if isRoot (wget s w) then nearestWidgetElement s pe = None
   else ∃ p, nearestWidget s pe = Some p ∧ parentWidgetInternal (wget s w) = Some p) →
  ∃ s', showWidgetInternal f (exec f) w pe None s = Ok s'.
Proof.
  intros Hc Hf Hv Hpe Hown.
  assert (HN : ∀ x, rank x < N) by apply Hc.
  assert (Hpass : ∀ p s1, calm N rank s1 →
            finishes (passed s1) (process f (exec f) p w s1)).
  { intros p s1 Hc1. apply (process_finishes N rank); [done|]. specialize (HN w). lia. }
  unfold showWidgetInternal. cbv zeta.
  assert (Hassert :
    (if isRoot (wget s w)
     then assert (bool_decide (nearestWidgetElement s pe = None)) s
     else assert (match nearestWidgetElement s pe with
                  | Some cp => bool_decide (widgetMap s !! cp = parentWidgetInternal (wget s w))
                  | None => false
                  end) s) = Ok s).
  { destruct (isRoot (wget s w)).
    - by rewrite bool_decide_eq_true_2.
    - destruct Hown as (p & Hnear & Hpar).
      destruct (nearestWidget_element _ _ _ Hnear) as (e0 & -> & He0).
      by rewrite bool_decide_eq_true_2 by congruence. }
  rewrite Hassert. cbn [mbind Res_bind]. rewrite Hv. cbn [andb negb].
  set (e := element (wget s w)) in *.
  set (s0 := wupd w (set_visibleInternal true) s).
  assert (Hc0 : calm N rank s0) by by apply calm_wupd.
  assert (He0 : element (wget s0 w) = e) by (unfold s0; by rewrite (wget_wupd_field element)).
  assert (Hpe0 : parentElement s0 e = Some pe) by done.
  assert (Hshow : ∃ s1, (if parentIsShowing s0 w then processWillShow (exec f) w s0 else Ok s0)
                        = Ok s1 ∧ passed s0 s1).
  { destruct (parentIsShowing s0 w); [apply (Hpass WillShowPass) | exists s0]; done. }
  destruct Hshow as (s1 & E1 & H1). rewrite E1. cbn [mbind Res_bind].
  assert (He1 : element (wget s1 w) = e) by (by rewrite (passed_field element s0 s1)).
  rewrite wget_nupd, He1.
  set (s2 := nupd e (set_hiddenClass false) s1).
  assert (Hpe2 : parentElement s2 e = Some pe).
  { unfold s2. rewrite parentElement_nupd_keep by done.
    by rewrite (parentElement_passed s0 s1). }
  rewrite Hpe2, bool_decide_eq_true_2 by done. cbn [mbind Res_bind].
  assert (Hc2 : calm N rank s2) by (apply calm_nupd; by eapply calm_passed).
  assert (Hshown : ∃ s3, (if parentIsShowing s2 w then processWasShown f (exec f) w s2 else Ok s2)
                         = Ok s3 ∧ passed s2 s3).
  { destruct (parentIsShowing s2 w); [apply (Hpass WasShownPass) | exists s2]; done. }
  destruct Hshown as (s3 & E3 & H3). rewrite E3. cbn [mbind Res_bind].
  apply (constraintsTail_finishes N rank f w s3 (processOnResize f (exec f) w));
    [by eapply calm_passed | done |].
  intros s4 Hc4. destruct (Hpass OnResizePass s4 Hc4) as (s' & E & _). by exists s'.
Qed.

(** X15: with hooks that do not call back, from a consistent state on a
    widget tree of height below [N], for a visible widget whose element
    does not carry the [hidden] class and sits where [show] would put it
    (the nearest widget at or above its parent element is its parent widget,
    none for a root), [hideWidget()] followed by [showWidget()] returns and
    brings the tree back: every widget has the shape and the showing flag it
    had, and the document has the structure and the classes it had. *)
Theorem hide_show_round_trip (N fuel : nat) (rank : nat → nat) (w pe : nat) (s : State) :
  consistent s → ranked N rank s → 3 * N ≤ fuel →
  visibleInternal (wget s w) = true →
  hiddenClass (nget s (element (wget s w))) = false →
  inPlace s w pe →
  ∃ s', run (S fuel) [HideWidget w; ShowWidget w] s = Ok s'
        ∧ sameTree s s' ∧ ∀ x, isShowing s' x = isShowing s x.
Proof.
  intros Hcs Hr Hf Hv Hh [Hpe Hown].
  pose proof Hcs as [[Hq Hi _ _ _ _] _ _].
  assert (Hc : calm N rank s) by done.
  set (e := element (wget s w)) in *.
  destruct (hideWidgetInternal_finishes N rank fuel w s Hc Hf) as (s1 & E1).
  pose proof (hideWidgetInternal_tree fuel w false s Hq Hi s1 E1) as H1.
  pose proof (hide_nodes fuel w s Hq s1 E1) as Hn1. fold e in Hn1.
  assert (Hfield : ∀ {A} (proj : Widget → A),
            (∀ x, proj (shape x) = proj x) → (∀ x b, proj (set_visibleInternal b x) = proj x) →
            proj (wget s1 w) = proj (wget s w)).
  { intros A proj Hs Hb. rewrite (tree_field proj _ _ w H1) by done.
    by rewrite hidden_wget, (wget_wupd_field proj). }
  assert (Hv1 : visibleInternal (wget s1 w) = false).
  { rewrite (tree_field visibleInternal _ _ w H1) by done.
    by rewrite hidden_wget, wget_wupd_eq. }
  assert (He1 : element (wget s1 w) = e) by by apply Hfield.
  assert (Hpe1 : parentElement s1 e = Some pe).
  { rewrite (parentElement_sameTree _ _ _ H1). unfold hidden.
    by rewrite parentElement_nupd_keep. }
  assert (Hc1 : calm N rank s1).
  { apply (calm_sameTree N rank (hidden false w s)); [done|]. unfold hidden.
    apply calm_nupd. by apply calm_wupd. }
  assert (Hnode : is_Some (nodes s !! e)).
  { apply parentElement_parentNode in Hpe. unfold nget in Hpe.
    destruct (nodes s !! e); [done | discriminate]. }
  assert (Hmap : widgetMap s1 = widgetMap s) by (by rewrite (tree_widgetMap _ _ H1)).
  assert (Hnear : nearestWidgetElement s1 pe = nearestWidgetElement s pe)
    by by apply (nearestWidgetElement_hidden s s1 e true).
  assert (Hown1 : if isRoot (wget s1 w) then nearestWidgetElement s1 pe = None
                  else ∃ p, nearestWidget s1 pe = Some p
                            ∧ parentWidgetInternal (wget s1 w) = Some p).
  { rewrite (Hfield _ isRoot), (Hfield _ parentWidgetInternal) by done.
    unfold nearestWidget in *. by rewrite Hnear, Hmap. }
  rewrite <- He1 in Hpe1.
  destruct (showWidgetInternal_finishes N rank fuel w pe s1 Hc1 Hf Hv1 Hpe1 Hown1)
    as (s' & E2).
  assert (E : run (S fuel) [HideWidget w; ShowWidget w] s = Ok s').
  { unfold run. simpl. unfold hideWidget. rewrite Hv. simpl. rewrite E1. simpl.
    unfold showWidget. by rewrite Hv1, Hpe1, E2. }
  exists s'. split; [exact E|].
  by apply (hide_show_restores N (S fuel) rank w s s').
Qed.

Lemma hide_show_round_trip_witness :
  ∃ s', run 7 [HideWidget 2; ShowWidget 2] shownState = Ok s'
        ∧ sameTree shownState s' ∧ ∀ x, isShowing s' x = isShowing shownState x.
Proof.
  apply (hide_show_round_trip 2 6 shownRank 2 11 shownState).
  - apply consistent_shownState.
  - apply ranked_shownState.
  - lia.
  - vm_compute. reflexivity.
  - vm_compute. reflexivity.
  - split; [vm_compute; reflexivity|]. vm_compute. exists 1. split; reflexivity.
Defined.
